(* ===== verification/_CoqProject ===== *)
-Q . S2P
Prelude.v
RustStr.v
RustNum.v
Fidelity.v
Graph.v
Condition.v
Parser.v
ToolPolicy.v
Validate.v
Ir.v
Profile.v
Compose.v
Host.v
Dispatch.v
Dag.v
DagSafety.v
DagTasks.v
Guard.v
Checkpoint.v
Fanout.v
Walk.v
WalkSafety.v
WalkTasks.v
WalkTotal.v
Models.v
Run.v
Budget.v
Handlers.v
Tool.v
Stylesheet.v
Supervision.v
RunFiles.v
Discovery.v
ToolRun.v
Grant.v
FleetRecords.v
FleetStore.v
FleetFacts.v
FleetInv.v
FleetOps.v
FleetReplan.v
FleetEffects.v
FleetSafety.v
Fleet.v
Kahn.v
FleetPlans.v
FleetEdits.v
FleetOutbox.v
FleetDigest.v
LlmError.v
Retry.v
Failover.v
Routing.v
Credentials.v
