(* ===== verification/Prelude.v ===== *)
(** * Octos pipeline engine, fleet kernel and provider failover: a verification development

    Octos is an agent runtime written in Rust.  Three parts carry its own algorithmic core.
    The pipeline engine, [crates/octos-pipeline]: a pipeline is a directed graph of nodes
    (language-model sessions, gates, fan-outs, ...) written in a dialect of DOT or compiled
    from a typed program, checked by a validator, and executed node by node under retries,
    deadlines, budgets and tool policies.  The fleet kernel, [crates/octos-fleet]: a durable
    store of plans whose tasks are leased to workers, with a token budget settled in every
    transition, re-planning, an outbox and recovery after a crash.  The reliability layer of
    [crates/octos-llm]: retries, failover between providers, and the pool of credentials.  This
    library models them in Rocq and proves the properties that make them correct.

    ** The program and its parts

    - a graph comes from text ([parser.rs]) or from the typed palette ([ir.rs]), whose
      programs pass the gates of [compose.rs] and the bounds of [profile.rs];
    - [validate.rs] accepts or rejects it, with diagnostics; the tool rules consult the
      tool groups and policies of [crates/octos-agent/src/tools];
    - [executor.rs] runs it.  A run fills in default models ([model_assignment.rs]), passes
      the validation gate, reserves a budget, and executes the graph in one of two ways:
      the DAG scheduler picks ready nodes; the single-path walk follows one edge at a time,
      dispatches fan-outs (static, or planned by a language model), consults guards
      ([guard.rs]) and records and resumes from checkpoints ([checkpoint.rs]).  Both run a
      node with [dispatch_node] under its retries and deadline, [recovery.rs] makes one more
      attempt after a failure, and conditions ([condition.rs]) decide which edges fire.  A
      successful result passes the terminal validators and the reservation is settled;
    - [handler.rs] holds the handlers a node may name; those that use no language model
      (gate, noop, shell_check, notify, wait) are small programs of their own;
    - [tool.rs] is the way in from the agent: it resolves a pipeline name ([discovery.rs])
      or takes a typed program, runs the same checks ahead of time, allows one run of a name
      at a time, runs the executor under a timeout in a directory of its own
      ([run_dir.rs]), delivers report files and returns a text that [fidelity.rs] bounds so
      that it fits a protocol frame;
    - beside the executor stand the artifact store ([artifact.rs]), model stylesheets
      ([stylesheet.rs]), conversation threads ([thread.rs]), the manager of child pipelines
      ([manager.rs]) and the channel that asks a person ([human_gate.rs]);
    - the fleet kernel keeps six tables ([store.rs]) of versioned rows ([records.rs]): fleets
      with their budget, children (the tasks of a plan as they run), attempts with their
      lease, plans, decisions, and the outbox its consumers claim from.  Every operation is
      one transaction under a gate.  [fleet.rs] puts whole-plan operations on top (creation,
      edits checked as graphs, readiness, outcomes, views), [grant.rs] says what a worker may
      use, and [digest.rs] is the bounded view of what workers have found;
    - a language-model call of either passes the reliability layer: [retry.rs] repeats it
      after a pause, [failover.rs] and [fallback.rs] go on to another provider, which
      [router.rs] chooses, [error.rs] says which errors allow that, and
      [credential_pool.rs] hands out the keys.

    ** Files

    - [Prelude] (this file): results and error reports, the iteration order of hash maps as
      a type class, least strings, shared lemmas, tactics and the hint database [octos].
    - [RustStr], [RustNum]: what the sources use of [str], [char], the machine integers
      and [f64].  A string is its UTF-8 bytes; an unsigned integer is a [Z] with its bounds
      (arithmetic that wraps is written out); an [f64] is a value of [SpecFloat].
    - [Fidelity]: [fidelity.rs].  [Graph]: [graph.rs].  [Condition]: [condition.rs].
      [Parser]: [parser.rs].
    - [ToolPolicy]: [policy.rs], [robot_groups.rs] and the safety tiers of
      [permissions.rs] (crate [octos-agent]).
    - [Validate]: [validate.rs], with the shell tool list of [profile.rs] and the tool
      policy [CodergenHandler] builds ([handler.rs]).
    - [Ir]: [ir.rs].  [Profile]: [profile.rs].  [Compose]: [compose.rs].
    - [Host]: the interface between the executor and the rest of the system, and the
      effect it runs in (a world, an error, a panic).
    - [Dispatch]: the per-node machinery of [executor.rs] ([execute_with_retries],
      [dispatch_node], [run_fanout_worker], [select_next_edge], the token budget,
      [process_worker_results]) and [recovery.rs].
    - [Dag]: the scheduler of [executor.rs] ([execute_graph_dag], [dag_execute_node],
      [dag_node_readiness], the firing of edges, [dag_build_result]).
    - [DagSafety], [DagTasks]: theorems about [Dag].
    - [Guard]: [guard.rs] and the evaluation of guards before a node.
    - [Checkpoint]: [checkpoint.rs] over a file system with injected faults, the store
      interface ([CheckpointStore] with its law [CheckpointStoreLaw]) and the resume set.
    - [Fanout]: what fan-outs need ([plan_dynamic_tasks], [resolve_provider], synthetic
      worker nodes, worker labels, queueing and joining workers) and the host of the walk.
    - [Walk]: [execute_graph], one definition per branch of its loop, over [WalkState] (its
      mutable locals).
    - [WalkSafety]: an abstract transition system for the walk ([walk_round], [walk_final]),
      the proof that the code refines it, and what follows; [WalkTasks]: the calls to the task
      supervisor and to [join_all]; [WalkTotal]: absence of panics.
    - [Models]: [model_assignment.rs].
    - [Run]: [run], [run_graph], [run_ir] and their body
      [run_graph_with_handlers_throttled].
    - [Budget]: a triple for cost reservations and the balance of a run.
    - [Handlers]: the handlers of [handler.rs] without a language model, the compaction of
      instructions and the token estimate of [crates/octos-llm/src/context.rs].
    - [Tool]: the policies and the bookkeeping of [tool.rs] (timeouts, allow-list, run ids,
      pruning, timestamps, the preflight message).  [Discovery]: [discovery.rs] and the
      resolution of names in [tool.rs].  [ToolRun]: [pre_flight_validate] and [execute].
    - [Stylesheet]: [stylesheet.rs].  [Supervision]: [thread.rs], [manager.rs] and
      [human_gate.rs] (modules [Threads], [Manager], [HumanGate]).  [RunFiles]:
      [artifact.rs] and [run_dir.rs] (modules [Artifacts], [RunDirs]).
    - [Grant]: [grant.rs].  [FleetRecords]: [records.rs].  [FleetStore]: [store.rs], over
      [Db] (the tables as maps from keys to rows); an operation takes the database and
      returns its outcome with the next one, or an error that aborts the transaction
      ([in_txn]).
    - [FleetFacts] (keys, rows, sums over tables), [FleetInv] (the invariant of the kernel),
      [FleetOps] and [FleetReplan] (every operation preserves it, and what each does),
      [FleetEffects] (which rows an operation may touch, and how).
    - [FleetSafety]: calls, admissible calls and reachable databases, and the theorems about
      them.  [FleetOutbox]: the outbox as a queue.
    - [Fleet]: [fleet.rs].  [Kahn]: its graph validation.  [FleetPlans], [FleetEdits]: plans
      and the plan API over reachable databases.
    - [FleetDigest]: [digest.rs] and the findings of [records.rs].
    - [LlmError]: [error.rs], [call_policy.rs], the lanes of [provider.rs] and the
      classification of errors of [retry.rs].  [Retry]: [retry.rs].  [Failover]:
      [failover.rs] and the fit guard of [context.rs].  [Routing]: [fallback.rs] and
      [router.rs].  [Credentials]: [credential_pool.rs] (all of crate [octos-llm]).

    Definitions keep the names of the Rust items they translate; a loop or a match of a
    long function that needs a name of its own is a separate definition, composed in the
    order of the code.  A record field [pn_x], [pe_x], [pg_x], [no_x] is the field [x] of
    [PipelineNode], [PipelineEdge], [PipelineGraph], [NodeOutcome]; [fl_x], [ch_x], [at_x],
    [dp_x], [pt_x], [ob_x] that of [FleetRecord], [FleetChildRecord], [Attempt],
    [DurablePlan], [PlanTask], [OutboxEvent].

    ** What is a parameter

    - The iteration order of [HashMap] and [HashSet] ([HashIter]): every theorem holds for
      every order, and [DagSafety] proves the scheduler independent of it.
    - The Unicode tables of [char] ([UnicodeTables]) and the text of formatted floats and
      debug strings ([RustFmt]).
    - Everything the executor calls ([Host.Host]): handlers, timers, the clock, the task
      supervisor, the cost accountant, validators, hooks, the shutdown flag, over an
      arbitrary world.  Theorems hold for every host; the laws assumed of one, where a
      theorem needs them, are [TimeoutLaw] (a timeout that does not expire returns what the
      attempt returned) and [JoinLaw] (one result per future, and no panic but that of a
      future).
    - For the walk ([Fanout.WalkHost]): guards, the checkpoint store, language-model
      providers and their router, [join_all] under the worker semaphore, the wall clock.
    - For a run ([Run.RunConfig]): the cost accountant ([CostAccountant], with the law
      [AccountantLaw] in [Budget]), the declared validators, the lookup of completion files,
      the catalog, the process id and the clock.
    - For the local handlers ([Handlers.LocalHost]): processes, sleep, the clock (with the
      law [ClockLaw]: sleeping advances it), file existence, the output router.
    - For the tool: environment variables, the clock, the process id and counters
      ([ToolRun.CallEnv]), a read-only view of the file system ([Discovery.FsView]), the
      programs embedded in the binary, the run of the executor under its timeout, the
      printers of the status files ([RunDirs.StatusJson]).  [Supervision] takes the child
      executor and the receiver of human requests as given.
    - [serde_json] on planner replies ([PlannerJson]) and on checkpoints ([CheckpointJson],
      with a round-trip law); [str::to_lowercase] ([StrLower]).
    - The JSON reader of typed programs (argument of [compose]), the plugin loader and the
      built-in tool registry (arguments of
      [known_tool_names_with_plugins]), and the file lookups of
      [resolve_search_result_files] (argument of [process_worker_results]).
    - For the fleet kernel: the clock and the random identifiers are arguments of the calls,
      and a call is admissible ([FleetSafety.admissible]) when the identifiers it draws are
      fresh and its numbers fit their width.  A row ([FleetRecords.Row]) is the value its JSON
      text decodes to, or a text another version wrote.  The size of a digest is a parameter
      of its theorems ([FleetDigest.json_size] is the one of the code).
    - For the reliability layer: a provider ([Failover.Lane]) is any computation over a world
      that returns, fails or panics; timeouts, sleep, the clock, the refresh of a token, the
      commits of the credential database, [f64::powi] and the questions asked of an HTTP error
      are arguments.  The counters of a chain are part of the world; its theorems assume that
      calls of the chain come one after the other ([Failover.sequential]).

    ** What the theorems show

    - Front end: the two parsers always return; a parsed graph is well formed (keys, widths,
      finite deadlines, declared endpoints); conditions round-trip through a printer;
      cycle detection is sound and complete; pipeline ids are single path components.
    - Validation: acceptance is equivalent to the declarative [valid_graph]; an accepted
      graph gives no node a way to the shell; skipping the plugin loader does not change
      the verdict.
    - Capabilities: a policy allows a tool exactly when no deny entry matches and the allow
      list and tags admit it; the robot registry refines a map from tools to tiers;
      compiled programs have the handler and tools of the palette only; a program is
      composed exactly when it compiles, is acyclic but for declared back edges, is valid and
      within its profile, whose depth bound is the length of a longest chain.
    - Scheduling: the scheduler terminates within a computed number of steps; retries are
      bounded; a join never runs on a failed required input; a reported success means that
      the goal was reached or that everything ran and every end node passed; the run does
      not depend on hash order; only the start node runs without input; the task
      supervisor sees a prescribed sequence of calls.
    - Dispatch: the number of attempts and the possible outcomes of a node, bounds on worker
      deadlines and on the output cap, edge selection total on valid graphs with finite
      weights, fan-out merging.
    - Result bounds: the bounded body is the longest prefix that fits, and body, marker and
      footer fit the frame.
    - Walk: every run is a run of the abstract system; a reported success ends in a node
      that passed; without a cycle the walk ends after one round per node, and with an
      unconditional marked back-edge it need not; on usable graphs it never panics; the
      workers it joins never exceed the cap of the run; the reported tokens are those of
      the summaries; the supervisor sees a prescribed sequence of calls.
    - Guards, checkpoints, planner: a node runs only if every guard allowed it; a save is
      atomic under every fault, and what was persisted is what a resume skips; worker file
      names are safe and distinct; planning always yields workers.
    - Run: nothing happens before the gate and the reservation; a reported success passed
      the gate, the executor and the validators; a run ends; every reservation it opens is
      closed exactly once, on every path including errors and panics; default models are
      healthy models of the catalog and never replace an explicit choice.
    - Handlers: a gate passes only on its condition and reports the worst status of its
      predecessors; a wait ends; the instruction that is cut keeps its head and its tail.
    - Tool: a call that reports success ran a sanctioned graph within its timeout, and
      every call releases the name it claimed; the preflight agrees with the run; a name
      resolves to what is installed before what is bundled, and never to a path or to inline
      text; run ids are valid and distinct, timestamps are the Gregorian calendar, messages and
      results are bounded, a cut result is delivered in full.
    - Stores and helpers: artifacts refine a map; the writes of a run stay in its directory;
      style rules cascade; thread limits hold; the manager reports what happened and retries
      at most ten times; a caller that waits for a person is within its timeout.
    - Fleet kernel: in every reachable database the reservation of a fleet is the sum of its
      live attempts and never makes the budget overflow; a child that is launching or running
      points at one live attempt and no other is live for it; a launch needs a ready child,
      a live fleet and room in the budget; a completion is final and counted once; a
      cancelled fleet stays as it is but for what recovery releases; calls do not touch other
      fleets nor rows of a newer schema; recovery leaves no orphaned attempt; the outbox is a
      queue with exclusive claims.
    - Plans: the graph check accepts exactly the well-formed acyclic plans and names exactly
      the tasks on or behind a cycle; edits are all or nothing; a re-plan restarts precisely
      what it should; a plan that is not complete always has a task to launch, one in flight
      or one that needs a decision; the views agree with each other.
    - Grants and digest: validation accepts exactly the coherent grants; a digest quotes the
      log and counts what it leaves out, and reading on from its watermark delivers every
      live finding once.
    - Reliability layer: a call is retried a bounded number of times with bounded pauses and
      returns what its last request returned; a chain tries a lane at most once, keeps its
      counters exactly, and answers if some lane it may use answers; a fallback never hides
      the primary's error; the numbering of lanes is a bijection; a credential is handed out
      only while it may be used, round robin is fair, and cooldowns survive a restart.
    - Some theorems show defects of the code: a failure flag that survives a successful
      retry, inputs the validator accepts and the executor panics on (an infinite weight, a
      huge deadline, an empty model pool), a walk that does not end, a palette kind whose only
      tool is denied, tasks left running, three ways in which checkpoints mislead, a fixed
      command that is any shell command, a wait that does not wait, a request to a person
      whose timeout does not cover the wait for the channel, an overturned belief the
      controller is never told of, a digest that is not bounded, a server that can make a
      retry panic, and a cooldown that is recorded where nobody looks.

    ** Fuel

    Functions that loop in Rust take a fuel and return a distinct value when it runs out;
    each bound is proved sufficient.  [Graph.dfs_fuel] is one more than the number of nodes
    and edges (each call enters a new vertex).  [Validate.bfs_fuel] and [Dag.walk_fuel] are
    one more than the number of edges (a vertex is queued once per incoming edge, and its
    edges are expanded once).  [Condition.parser_fuel] is linear in the tokens, the parser's
    fuels are the length of the rest of the input.  The bisections of [Fidelity] have the
    width of their interval.  [Profile.chain_fuel] is the number of nodes and edges (a node
    is queued once).  [Dag.dag_fuel] is
    [10 * b * (n + 1) + n + 1] for [n] nodes and [b] back-edges: at most ten retries per
    target, and between retries each step settles a node.  The walk has no bound of its
    own: its fuel is an argument, and one more than the number of nodes is enough when no
    cycle can be made of edges and convergence jumps.  [Tool.year_fuel] is one more than the
    days divided by 365; the fuel of a wait ([Handlers.wait_poll]) is an argument, and one more
    than its seconds is enough.  [Fleet.kahn_fuel] is one more than the number of tasks (each
    is queued at most once); [FleetDigest.budget_fuel] is one more than the size of the digest
    (a pass that does not stop makes it smaller).

    ** What is not modelled

    Progress messages, heartbeat, status bridge, logs and metrics (no effect on results);
    the codergen handler, which runs an agent session; serde-generated readers; the
    interleaving of worker futures (their results are merged in order, whatever [join_all]
    does); the JSON schema of the tool, the link to the latest run, the status server
    ([server.rs]), the option records ([context.rs], [host_context.rs]); the ledger of findings in
    SQLite ([sqlite_ledger.rs], whose logic is in its queries) and the worker processes
    ([crates/octos-fleet-worker]); the HTTP clients of [crates/octos-llm] and its adaptive
    router, which is next; the command line, the server and the other crates. *)

From stdpp Require Export gmap strings list fin_maps sorting pretty.
From Stdlib Require Export ZArith Lia.

Declare Scope octos_scope.
Delimit Scope octos_scope with octos.

(** ** Results and error reports

    Rust's [Result] and the [?] operator.  An [eyre::Report] is the list of its
    messages, outermost context first. *)

Inductive result (E A : Type) : Type :=
| Ok (a : A)
| Err (e : E).
Arguments Ok {E A} _.
Arguments Err {E A} _.

Definition report := list string.

#[export] Instance result_ret {E} : MRet (result E) := fun A a => Ok a.
#[export] Instance result_bind {E} : MBind (result E) :=
  fun A B f x => match x with Ok a => f a | Err e => Err e end.
#[export] Instance result_fmap {E} : FMap (result E) :=
  fun A B f x => match x with Ok a => Ok (f a) | Err e => Err e end.

Definition bail {A} (msg : string) : result report A := Err [msg].

Definition wrap_err {A} (msg : string) (r : result report A) : result report A :=
  match r with Ok a => Ok a | Err e => Err (msg :: e) end.

Definition ok {E A} (r : result E A) : option A :=
  match r with Ok a => Some a | Err _ => None end.

Definition is_ok {E A} (r : result E A) : bool :=
  match r with Ok _ => true | Err _ => false end.

(** [Result::unwrap_or]. *)
Definition result_or {E A} (d : A) (r : result E A) : A :=
  match r with Ok a => a | Err _ => d end.

(** ** Hash maps

    [HashMap<String, _>] is a [gmap string _]; its iteration order is not
    specified, so every loop over a hash map goes through [hm_iter], an arbitrary
    enumeration of the entries. *)

Class HashIter := {
  hm_iter : forall {A : Type}, gmap string A -> list (string * A);
  hm_iter_perm : forall {A : Type} (m : gmap string A), hm_iter m ≡ₚ map_to_list m
}.

(** The enumeration of the underlying tree is one such order. *)
#[export] Instance tree_iter : HashIter :=
  {| hm_iter A m := map_to_list m; hm_iter_perm A m := reflexivity _ |}.

(** Another one, used to exhibit order independence on concrete inputs. *)
Definition rev_iter : HashIter :=
  {| hm_iter A m := rev (map_to_list m);
     hm_iter_perm A m := symmetry (Permutation_rev (map_to_list m)) |}.

Definition hm_keys `{HashIter} {A} (m : gmap string A) : list string := (hm_iter m).*1.
Definition hm_values `{HashIter} {A} (m : gmap string A) : list A := (hm_iter m).*2.

(** ** [Iterator::min] on strings and [BTreeSet] iteration *)

Fixpoint str_min (l : list string) : option string :=
  match l with
  | [] => None
  | x :: l' =>
      match str_min l' with
      | None => Some x
      | Some y => if String.leb x y then Some x else Some y
      end
  end.

Definition btree_iter (s : gset string) : list string := merge_sort String.le (elements s).

(** ** Lemmas *)

Section results.
Context {E A B : Type}.

Lemma bind_Ok (x : result E A) (f : A -> result E B) b :
  (x ≫= f) = Ok b <-> exists a, x = Ok a /\ f a = Ok b.
Proof.
  destruct x as [a|e]; cbn; split.
  - eauto.
  - by intros (? & [= <-] & ?).
  - done.
  - by intros (? & ? & _).
Qed.

Lemma is_ok_true (r : result E A) : is_ok r = true <-> exists a, r = Ok a.
Proof. destruct r; cbn; split; [eauto | done | done | by intros [? ?]]. Qed.
End results.

Lemma wrap_err_Ok {A} msg (r : result report A) a : wrap_err msg r = Ok a <-> r = Ok a.
Proof. destruct r; naive_solver. Qed.

Section hash_iter.
Context `{HI : HashIter} {A : Type}.
Implicit Types (m : gmap string A) (k : string) (v : A).

Lemma elem_of_hm_iter m k v : (k, v) ∈ hm_iter m <-> m !! k = Some v.
Proof. by rewrite hm_iter_perm, elem_of_map_to_list. Qed.

Lemma elem_of_hm_keys m k : k ∈ hm_keys m <-> is_Some (m !! k).
Proof.
  unfold hm_keys. rewrite list_elem_of_fmap. split.
  - intros ([k' v] & -> & Hin). apply elem_of_hm_iter in Hin. eauto.
  - intros [v Hv]. exists (k, v). by rewrite elem_of_hm_iter.
Qed.

Lemma elem_of_hm_values m v : v ∈ hm_values m <-> exists k, m !! k = Some v.
Proof.
  unfold hm_values. rewrite list_elem_of_fmap. split.
  - intros ([k v'] & -> & Hin). apply elem_of_hm_iter in Hin. eauto.
  - intros [k Hk]. exists (k, v). by rewrite elem_of_hm_iter.
Qed.

Lemma hm_keys_perm m : hm_keys m ≡ₚ (map_to_list m).*1.
Proof. unfold hm_keys. by rewrite hm_iter_perm. Qed.

Lemma hm_values_perm m : hm_values m ≡ₚ (map_to_list m).*2.
Proof. unfold hm_values. by rewrite hm_iter_perm. Qed.

Lemma NoDup_hm_keys m : NoDup (hm_keys m).
Proof. rewrite hm_keys_perm. apply NoDup_fst_map_to_list. Qed.

Lemma length_hm_keys m : length (hm_keys m) = size m.
Proof. by rewrite hm_keys_perm, length_fmap, length_map_to_list. Qed.
End hash_iter.

Section str_min.
Implicit Types (l : list string) (x y : string).

Lemma str_min_None l : str_min l = None <-> l = [].
Proof. destruct l; cbn; [done|]. destruct (str_min l); [case_match|]; naive_solver. Qed.

Lemma str_min_elem l x : str_min l = Some x -> x ∈ l.
Proof.
  revert x; induction l as [|y l IH]; intros x; cbn; [done|].
  destruct (str_min l) as [z|]; [case_match|]; intros [= <-]; set_solver.
Qed.

Lemma str_min_le l x y : str_min l = Some x -> y ∈ l -> String.le x y.
Proof.
  revert x y; induction l as [|z l IH]; intros x y; cbn; [done|].
  destruct (str_min l) as [w|] eqn:Hw.
  - assert (Hzw : String.le z w \/ String.le w z) by apply (total String.le).
    destruct (String.leb z w) eqn:Hle; intros [= <-] [->|Hy]%elem_of_cons.
    + done.
    + transitivity w; [unfold String.le; by rewrite Hle | eauto].
    + unfold String.le in Hzw. rewrite Hle in Hzw. by destruct Hzw.
    + eauto.
  - apply str_min_None in Hw as ->. intros [= <-] ->%list_elem_of_singleton. done.
Qed.

Lemma str_min_unique l x :
  x ∈ l -> (forall y, y ∈ l -> String.le x y) -> str_min l = Some x.
Proof.
  intros Hx Hle. destruct (str_min l) as [z|] eqn:Hz.
  - f_equal. apply (anti_symm String.le).
    + by apply (str_min_le l).
    + apply Hle. by apply str_min_elem.
  - apply str_min_None in Hz as ->. by apply not_elem_of_nil in Hx.
Qed.

Lemma str_min_ext l1 l2 : (forall x, x ∈ l1 <-> x ∈ l2) -> str_min l1 = str_min l2.
Proof.
  intros Heq. destruct (str_min l1) as [x|] eqn:Hx.
  - symmetry. apply str_min_unique.
    + apply Heq. by apply str_min_elem.
    + intros y Hy. apply (str_min_le l1); [done|]. by apply Heq.
  - apply str_min_None in Hx as ->. symmetry. apply str_min_None.
    destruct l2 as [|y l2]; [done|]. assert (y ∈ []) by (apply Heq; left).
    by apply not_elem_of_nil in H.
Qed.
End str_min.

#[export] Instance str_min_proper : Proper ((≡ₚ) ==> (=)) str_min.
Proof. intros l1 l2 Hp. apply str_min_ext. intros x. by rewrite Hp. Qed.

Lemma elem_of_btree_iter s x : x ∈ btree_iter s <-> x ∈ s.
Proof. unfold btree_iter. by rewrite merge_sort_Permutation, elem_of_elements. Qed.

Lemma size_list_to_set_le (l : list string) :
  size (list_to_set l : gset string) <= length l.
Proof.
  induction l as [|x l IH]; cbn; [by rewrite size_empty|].
  rewrite size_union_alt, size_singleton.
  assert (size (list_to_set l ∖ {[x]} : gset string) <= size (list_to_set l : gset string));
    [apply subseteq_size; set_solver|lia].
Qed.

(** ** Automation *)

Create HintDb octos discriminated.
#[export] Hint Resolve str_min_elem : octos.

(** Invert one successful monadic computation after the other. *)
Ltac inv_ok :=
  repeat match goal with
  | H : (_ ≫= _) = Ok _ |- _ => apply bind_Ok in H as (? & ? & H)
  | H : wrap_err _ _ = Ok _ |- _ => apply wrap_err_Ok in H
  | H : Ok _ = Ok _ |- _ => injection H as H; subst
  | H : Err _ = Ok _ |- _ => discriminate H
  | H : bail _ = Ok _ |- _ => discriminate H
  | H : mret _ = Ok _ |- _ => injection H as H; subst
  end.

(** Case analysis on the first match of a hypothesis. *)
Ltac split_match H :=
  match type of H with
  | context [match ?x with _ => _ end] =>
      let E := fresh "E" in destruct x eqn:E
  end.

Ltac bool_to_prop :=
  repeat match goal with
  | H : _ && _ = true |- _ => apply andb_true_iff in H as [? ?]
  | H : _ || _ = false |- _ => apply orb_false_iff in H as [? ?]
  | H : negb _ = true |- _ => apply negb_true_iff in H
  | H : negb _ = false |- _ => apply negb_false_iff in H
  | H : bool_decide _ = true |- _ => apply bool_decide_eq_true in H
  | H : bool_decide _ = false |- _ => apply bool_decide_eq_false in H
  end.

(** ** Stable sorting

    [slice::sort_by] and [sort_by_key]: [le x y] when [x] need not come after [y]. *)

Section stable_sort.
Context {A : Type} (le : A -> A -> bool).

Fixpoint insert_by (x : A) (l : list A) : list A :=
  match l with
  | [] => [x]
  | y :: l' => if le x y then x :: l else y :: insert_by x l'
  end.

Definition sort_by (l : list A) : list A := foldr insert_by [] l.

Lemma insert_by_perm x l : insert_by x l ≡ₚ x :: l.
Proof. induction l as [|y l IH]; [done|]. cbn. case_match; [done|]. rewrite IH. apply Permutation_swap. Qed.

Lemma sort_by_perm l : sort_by l ≡ₚ l.
Proof. unfold sort_by. induction l as [|x l IH]; [done|]. cbn. by rewrite insert_by_perm, IH. Qed.

Lemma elem_of_sort_by x l : x ∈ sort_by l <-> x ∈ l.
Proof. by rewrite sort_by_perm. Qed.

Context (le_total : forall x y, le x y = false -> le y x = true).
Context (le_trans : forall x y z, le x y = true -> le y z = true -> le x z = true).
Local Abbreviation sorted := (StronglySorted (fun x y => le x y = true)).

Lemma insert_by_sorted x l : sorted l -> sorted (insert_by x l).
Proof.
  induction 1 as [|y l Hl IH Hy]; [repeat constructor|]. cbn. destruct (le x y) eqn:Hxy.
  - constructor; [by constructor|]. constructor; [done|]. eapply Forall_impl; [exact Hy|]. eauto.
  - constructor; [done|]. rewrite insert_by_perm. constructor; [by apply le_total|done].
Qed.

Lemma sort_by_sorted l : sorted (sort_by l).
Proof. induction l; [constructor|]. by apply insert_by_sorted. Qed.

(** A sorted list is left as it is. *)
Lemma sort_by_id l : sorted l -> sort_by l = l.
Proof.
  unfold sort_by. induction 1 as [|x l Hl IH Hx]; [done|]. cbn. rewrite IH. destruct l as [|y l]; [done|].
  cbn. inversion Hx as [|? ? Hxy]; subst. by rewrite Hxy.
Qed.
End stable_sort.
