(* ===== verification/RustStr.v ===== *)
(** * Rust strings

    A Rust [str] is its UTF-8 byte sequence, a [string].  This file models the
    parts of [str] and [char] the pipeline sources call: decoding of scalar
    values, character classes, trimming, searching, splitting and char
    boundaries. *)

From S2P Require Import Prelude.
From Stdlib Require Export Ascii.
From Stdlib Require Import NArith.

(** ** Bytes and scalar values *)

Definition byte_val (b : ascii) : N := N_of_ascii b.

(** [str::is_char_boundary] tests a byte with [(b as i8) >= -0x40]. *)
Definition is_cont_byte (b : ascii) : bool :=
  (128 <=? byte_val b)%N && (byte_val b <? 192)%N.

Definition cont_bits (b : ascii) : N := N.land (byte_val b) 63.

(** One step of [chars()]: the code point, its bytes and the rest of the
    string.  A lead byte below 0x80, 0xE0, 0xF0 announces 1, 2, 3 bytes, any other
    lead 4; a [str] is valid UTF-8, so the branches without a continuation byte are
    never taken on one and only make the function total. *)
Definition next_char (s : string) : option (N * string * string) :=
  match s with
  | EmptyString => None
  | String b0 s1 =>
      let n0 := byte_val b0 in
      let alone := Some (n0, String b0 "", s1) in
      if (n0 <? 128)%N then alone
      else match s1 with
      | EmptyString => alone
      | String b1 s2 =>
          if negb (is_cont_byte b1) then alone
          else if (n0 <? 224)%N then
            Some (N.lor (N.shiftl (N.land n0 31) 6) (cont_bits b1),
                  String b0 (String b1 ""), s2)
          else match s2 with
          | EmptyString => alone
          | String b2 s3 =>
              if negb (is_cont_byte b2) then alone
              else if (n0 <? 240)%N then
                Some (N.lor (N.shiftl (N.land n0 15) 12)
                        (N.lor (N.shiftl (cont_bits b1) 6) (cont_bits b2)),
                      String b0 (String b1 (String b2 "")), s3)
              else match s3 with
              | EmptyString => alone
              | String b3 s4 =>
                  if negb (is_cont_byte b3) then alone
                  else Some (N.lor (N.shiftl (N.land n0 7) 18)
                          (N.lor (N.shiftl (cont_bits b1) 12)
                             (N.lor (N.shiftl (cont_bits b2) 6) (cont_bits b3))),
                        String b0 (String b1 (String b2 (String b3 ""))), s4)
              end
          end
      end
  end.

(** The scalar values of a string with their bytes, in order. *)
Fixpoint chars_go (fuel : nat) (s : string) : list (N * string) :=
  match fuel with
  | O => []
  | S fuel =>
      match next_char s with
      | None => []
      | Some (c, bs, rest) => (c, bs) :: chars_go fuel rest
      end
  end.
Definition chars (s : string) : list (N * string) := chars_go (String.length s) s.

Definition of_chars (l : list (N * string)) : string := String.concat "" (l.*2).

(** ** Character classes *)

(** [char::is_whitespace]: the Unicode White_Space property. *)
Definition is_whitespace (c : N) : bool :=
  ((9 <=? c) && (c <=? 13) || (c =? 32) || (c =? 133) || (c =? 160) || (c =? 5760)
   || (8192 <=? c) && (c <=? 8202) || (c =? 8232) || (c =? 8233) || (c =? 8239)
   || (c =? 8287) || (c =? 12288))%N.

(** [char::is_control]: general category Cc. *)
Definition is_control (c : N) : bool := ((c <=? 31) || (127 <=? c) && (c <=? 159))%N.

Definition is_ascii_digit (c : N) : bool := ((48 <=? c) && (c <=? 57))%N.
Definition is_ascii_upper (c : N) : bool := ((65 <=? c) && (c <=? 90))%N.
Definition is_ascii_lower (c : N) : bool := ((97 <=? c) && (c <=? 122))%N.
Definition is_ascii_alphanumeric (c : N) : bool :=
  is_ascii_digit c || is_ascii_upper c || is_ascii_lower c.

(** The code point of an ASCII letter in lower case. *)
Definition ascii_lower_char (c : N) : N := if is_ascii_upper c then (c + 32)%N else c.

(** Every byte of a string satisfies a test. *)
Fixpoint str_forall (P : ascii -> bool) (s : string) : bool :=
  match s with EmptyString => true | String b s => P b && str_forall P s end.

(** A byte of a multi-byte character, an ASCII digit or a lower-case ASCII letter. *)
Definition name_byte (b : ascii) : bool :=
  (128 <=? byte_val b)%N || is_ascii_digit (byte_val b) || is_ascii_lower (byte_val b).

(** [char::is_alphanumeric] and [char::to_lowercase] read Unicode tables, which are
    data of the Rust distribution.  The model is generic in them ([char_lowercase]
    gives the UTF-8 text of the lower case); the laws are the documented ones: the
    ASCII range follows the ASCII class and its case mapping, white space is not
    alphanumeric, and the lower case of an alphanumeric character has no ASCII byte but
    digits and lower-case letters. *)
Class UnicodeTables := {
  is_alphanumeric : N -> bool;
  char_lowercase : N -> string;
  is_alphanumeric_ascii c : (c < 128)%N -> is_alphanumeric c = is_ascii_alphanumeric c;
  is_alphanumeric_space c : is_whitespace c = true -> is_alphanumeric c = false;
  char_lowercase_ascii c :
    (c < 128)%N -> char_lowercase c = String (ascii_of_N (ascii_lower_char c)) "";
  char_lowercase_bytes c :
    is_alphanumeric c = true -> str_forall name_byte (char_lowercase c) = true
}.

(** ** [str] operations *)

Definition starts_with (p s : string) : bool := String.prefix p s.

Fixpoint str_drop (n : nat) (s : string) : string :=
  match n, s with
  | O, _ => s
  | S n, String _ s => str_drop n s
  | S _, EmptyString => ""
  end.

Fixpoint str_take (n : nat) (s : string) : string :=
  match n, s with
  | O, _ => ""
  | S n, String b s => String b (str_take n s)
  | S _, EmptyString => ""
  end.

Definition strip_prefix (p s : string) : option string :=
  if starts_with p s then Some (str_drop (String.length p) s) else None.

Definition ends_with (p s : string) : bool :=
  starts_with (String.rev p) (String.rev s).

Definition strip_suffix (p s : string) : option string :=
  if ends_with p s then Some (str_take (String.length s - String.length p) s) else None.

(** [str::contains] with a string pattern. *)
Fixpoint contains (s p : string) : bool :=
  starts_with p s || match s with EmptyString => false | String _ s' => contains s' p end.

(** [str::find] of an ASCII char: the text before it and the text after it. *)
Fixpoint split_once (c : ascii) (s : string) : option (string * string) :=
  match s with
  | EmptyString => None
  | String b s' =>
      if decide (b = c) then Some ("", s')
      else match split_once c s' with
           | Some (l, r) => Some (String b l, r)
           | None => None
           end
  end.

(** [str::split] on an ASCII char: always at least one piece. *)
Fixpoint split_on (c : ascii) (s : string) : list string :=
  match s with
  | EmptyString => [""]
  | String b s' =>
      match split_on c s' with
      | [] => [""]
      | piece :: rest =>
          if decide (b = c) then "" :: piece :: rest else String b piece :: rest
      end
  end.

Fixpoint drop_while_ws (l : list (N * string)) : list (N * string) :=
  match l with
  | [] => []
  | x :: l' => if is_whitespace x.1 then drop_while_ws l' else l
  end.

(** [str::trim_start], [str::trim_end], [str::trim]. *)
Definition trim_start (s : string) : string := of_chars (drop_while_ws (chars s)).
Definition trim_end (s : string) : string :=
  of_chars (rev (drop_while_ws (rev (chars s)))).
Definition trim (s : string) : string :=
  of_chars (rev (drop_while_ws (rev (drop_while_ws (chars s))))).

(** [trim_end_matches] with an ASCII char. *)
Definition trim_end_matches (c : ascii) (s : string) : string :=
  let fix strip (r : string) :=
    match r with
    | String b r' => if decide (b = c) then strip r' else r
    | EmptyString => ""
    end in
  String.rev (strip (String.rev s)).

(** [trim_matches] with an ASCII char. *)
Fixpoint trim_start_char (c : ascii) (s : string) : string :=
  match s with
  | String b s' => if decide (b = c) then trim_start_char c s' else s
  | EmptyString => ""
  end.
Definition trim_matches (c : ascii) (s : string) : string :=
  trim_end_matches c (trim_start_char c s).

(** [str::find] of a string pattern: the byte offset of its first occurrence;
    [str::rfind] of an ASCII char: the byte offset of its last occurrence. *)
Fixpoint find_str (p s : string) : option nat :=
  if starts_with p s then Some 0
  else match s with EmptyString => None | String _ s' => S <$> find_str p s' end.
Fixpoint rfind_char (c : ascii) (s : string) : option nat :=
  match s with
  | EmptyString => None
  | String b s' => match rfind_char c s' with
                   | Some i => Some (S i)
                   | None => if decide (b = c) then Some 0 else None
                   end
  end.

(** [chars().take(n).collect()]. *)
Definition take_chars (n : nat) (s : string) : string := of_chars (take n (chars s)).

(** [str::trim_start_matches] and [str::replace] with a non-empty string pattern;
    each round consumes the pattern or a byte. *)
Fixpoint trim_start_matches_go (fuel : nat) (p s : string) : string :=
  match fuel with
  | O => s
  | S fuel => match strip_prefix p s with
              | Some s' => trim_start_matches_go fuel p s'
              | None => s
              end
  end.

Definition trim_start_matches (p s : string) : string :=
  trim_start_matches_go (String.length s) p s.

Fixpoint replace_go (fuel : nat) (p r s : string) : string :=
  match fuel with
  | O => s
  | S fuel =>
      match strip_prefix p s with
      | Some s' => r +:+ replace_go fuel p r s'
      | None => match s with
                | EmptyString => ""
                | String b s' => String b (replace_go fuel p r s')
                end
      end
  end.

Definition replace (s p r : string) : string := replace_go (String.length s) p r s.

Definition ascii_lower (b : ascii) : ascii :=
  if is_ascii_upper (byte_val b) then ascii_of_N (byte_val b + 32) else b.

Fixpoint to_ascii_lowercase (s : string) : string :=
  match s with
  | EmptyString => ""
  | String b s' => String (ascii_lower b) (to_ascii_lowercase s')
  end.

Definition eq_ignore_ascii_case (s t : string) : bool :=
  String.eqb (to_ascii_lowercase s) (to_ascii_lowercase t).

(** [Path::join] on Unix paths. *)
Definition path_join (base p : string) : string :=
  if starts_with "/" p then p
  else if bool_decide (base = "") || ends_with "/" base then base +:+ p
  else base +:+ "/" +:+ p.

(** [str::is_char_boundary]. *)
Definition is_char_boundary (s : string) (i : nat) : bool :=
  if decide (i = 0) then true
  else match String.get i s with
       | Some b => negb (is_cont_byte b)
       | None => bool_decide (i = String.length s)
       end.

(** The loop [while end > 0 && !s.is_char_boundary(end) { end -= 1 }]. *)
Fixpoint floor_boundary (s : string) (i : nat) : nat :=
  match i with
  | O => O
  | S i' => if is_char_boundary s i then i else floor_boundary s i'
  end.

(** [str::lines]: split after every newline, drop the newline and one carriage
    return before it; no empty last line.  A final line with no newline keeps a
    trailing carriage return. *)
Definition NL : ascii := "010".
Definition CR : ascii := "013".
Definition DQ : ascii := "034".

Fixpoint lines_of (pieces : list string) : list string :=
  match pieces with
  | [] => []
  | [last] => if decide (last = "") then [] else [last]
  | p :: pieces => default p (strip_suffix (String CR "") p) :: lines_of pieces
  end.
Definition lines (s : string) : list string := lines_of (split_on NL s).

(** A double-quoted copy of a string, for writing inputs. *)
Definition quoted (s : string) : string := String DQ (s +:+ String DQ "").

(** ** UTF-8 validity

    The invariant of [str]: a sequence of well-formed encodings.  Used as a
    hypothesis where a cut at a char boundary matters. *)

Definition in_range (lo hi : N) (b : ascii) : bool :=
  (lo <=? byte_val b)%N && (byte_val b <=? hi)%N.

(** The length of the well-formed scalar at the head of the string, if any
    (Unicode Standard, table 3-7). *)
Definition scalar_len (s : string) : option nat :=
  match s with
  | EmptyString => None
  | String b0 s1 =>
      if in_range 0 127 b0 then Some 1
      else if in_range 194 223 b0 then
        match s1 with
        | String b1 _ => if is_cont_byte b1 then Some 2 else None
        | _ => None
        end
      else if in_range 224 239 b0 then
        match s1 with
        | String b1 (String b2 _) =>
            let lo := if (byte_val b0 =? 224)%N then 160%N else 128%N in
            let hi := if (byte_val b0 =? 237)%N then 159%N else 191%N in
            if in_range lo hi b1 && is_cont_byte b2 then Some 3 else None
        | _ => None
        end
      else if in_range 240 244 b0 then
        match s1 with
        | String b1 (String b2 (String b3 _)) =>
            let lo := if (byte_val b0 =? 240)%N then 144%N else 128%N in
            let hi := if (byte_val b0 =? 244)%N then 143%N else 191%N in
            if in_range lo hi b1 && is_cont_byte b2 && is_cont_byte b3 then Some 4 else None
        | _ => None
        end
      else None
  end.

Fixpoint valid_utf8_go (fuel : nat) (s : string) : bool :=
  match s, fuel with
  | EmptyString, _ => true
  | _, O => false
  | _, S fuel =>
      match scalar_len s with
      | Some n => valid_utf8_go fuel (str_drop n s)
      | None => false
      end
  end.
Definition valid_utf8 (s : string) : bool := valid_utf8_go (String.length s) s.

(** [String::from_utf8_lossy]: a maximal ill-formed prefix becomes U+FFFD. *)
Definition REPLACEMENT : string :=
  String "239" (String "191" (String "189" "")).

(** How many bytes of an ill-formed sequence one replacement stands for: the
    longest prefix of a well-formed sequence, at least one byte. *)
Definition bad_prefix_len (s : string) : nat :=
  match s with
  | String b0 (String b1 s2) =>
      if in_range 224 239 b0 then
        let lo := if (byte_val b0 =? 224)%N then 160%N else 128%N in
        let hi := if (byte_val b0 =? 237)%N then 159%N else 191%N in
        if in_range lo hi b1 then 2 else 1
      else if in_range 240 244 b0 then
        let lo := if (byte_val b0 =? 240)%N then 144%N else 128%N in
        let hi := if (byte_val b0 =? 244)%N then 143%N else 191%N in
        if in_range lo hi b1 then
          match s2 with
          | String b2 _ => if is_cont_byte b2 then 3 else 2
          | EmptyString => 2
          end
        else 1
      else 1
  | _ => 1
  end.

Fixpoint from_utf8_lossy_go (fuel : nat) (s : string) : string :=
  match s, fuel with
  | EmptyString, _ => ""
  | _, O => ""
  | _, S fuel =>
      match scalar_len s with
      | Some n => str_take n s +:+ from_utf8_lossy_go fuel (str_drop n s)
      | None => REPLACEMENT +:+ from_utf8_lossy_go fuel (str_drop (bad_prefix_len s) s)
      end
  end.
Definition from_utf8_lossy (s : string) : string := from_utf8_lossy_go (String.length s) s.

(** ** Unicode tables restricted to ASCII, for concrete runs *)

Lemma ascii_alnum_not_space c :
  is_whitespace c = true -> (c <? 128)%N && is_ascii_alphanumeric c = false.
Proof.
  unfold is_whitespace, is_ascii_alphanumeric, is_ascii_digit, is_ascii_upper, is_ascii_lower.
  intros H. apply not_true_iff_false. revert H.
  rewrite !andb_true_iff, !orb_true_iff, !andb_true_iff, !N.leb_le, !N.eqb_eq, N.ltb_lt. lia.
Qed.

Lemma ascii_alnum_ascii c :
  (c < 128)%N -> (c <? 128)%N && is_ascii_alphanumeric c = is_ascii_alphanumeric c.
Proof. intros ->%N.ltb_lt. done. Qed.

Lemma ascii_lower_bytes c :
  (c <? 128)%N && is_ascii_alphanumeric c = true ->
  str_forall name_byte (String (ascii_of_N (ascii_lower_char c)) "") = true.
Proof.
  intros [Hc%N.ltb_lt Ha]%andb_true_iff. cbn. rewrite andb_true_r. unfold name_byte, byte_val.
  unfold is_ascii_alphanumeric in Ha. unfold ascii_lower_char.
  destruct (is_ascii_upper c) eqn:Hu; rewrite N_ascii_embedding; revert Ha Hu;
    unfold is_ascii_digit, is_ascii_upper, is_ascii_lower;
    rewrite ?orb_true_iff, ?andb_true_iff, ?andb_false_iff, ?N.leb_le, ?N.leb_gt; lia.
Qed.

Definition ascii_tables : UnicodeTables :=
  {| is_alphanumeric c := (c <? 128)%N && is_ascii_alphanumeric c;
     char_lowercase c := String (ascii_of_N (ascii_lower_char c)) "";
     is_alphanumeric_ascii := ascii_alnum_ascii;
     is_alphanumeric_space := ascii_alnum_not_space;
     char_lowercase_ascii := fun _ _ => eq_refl;
     char_lowercase_bytes := ascii_lower_bytes |}.

(** ** Lemmas *)

Lemma str_cons_app a (s t : string) : String a s +:+ t = String a (s +:+ t).
Proof. reflexivity. Qed.

Lemma str_nil_app (t : string) : "" +:+ t = t.
Proof. reflexivity. Qed.

(** [String.append] does not reduce by itself: push it through constructors. *)
Ltac str_simpl := repeat progress (rewrite ?str_cons_app, ?str_nil_app; cbn).

Lemma str_app_nil_r (s : string) : s +:+ "" = s.
Proof. induction s; str_simpl; [done|]. by f_equal. Qed.

Lemma str_app_assoc (s t u : string) : (s +:+ t) +:+ u = s +:+ t +:+ u.
Proof. induction s; str_simpl; [done|]. by f_equal. Qed.

Lemma length_str_app (s t : string) :
  String.length (s +:+ t) = String.length s + String.length t.
Proof. induction s; str_simpl; [done|]. by f_equal. Qed.

Lemma length_str_take n s : String.length (str_take n s) = Nat.min n (String.length s).
Proof. revert s; induction n as [|n IH]; intros [|b s]; cbn; auto. Qed.

Lemma length_str_drop n s : String.length (str_drop n s) = String.length s - n.
Proof. revert s; induction n as [|n IH]; intros [|b s]; cbn; auto. Qed.

Lemma str_take_drop n s : str_take n s +:+ str_drop n s = s.
Proof.
  revert s; induction n as [|n IH]; intros [|b s]; cbn; [done..|]. str_simpl. by f_equal.
Qed.

Lemma str_take_app (s t : string) : str_take (String.length s) (s +:+ t) = s.
Proof. induction s; str_simpl; [by destruct t|]. by f_equal. Qed.

Lemma str_drop_app (s t : string) : str_drop (String.length s) (s +:+ t) = t.
Proof. induction s; str_simpl; [by destruct t|]. done. Qed.

Lemma starts_with_app (p s : string) : starts_with p s = true <-> exists t, s = p +:+ t.
Proof.
  unfold starts_with. revert s; induction p as [|a p IH]; intros s.
  - split; [|by destruct s]. intros _. by exists s.
  - destruct s as [|b s]; [split; [done|by intros [t ?]]|]. cbn.
    destruct (ascii_dec a b) as [->|Hne]; [rewrite IH|]; split.
    + intros [t ->]. by exists t.
    + intros [t H]. rewrite str_cons_app in H. injection H as ->. eauto.
    + done.
    + intros [t H]. rewrite str_cons_app in H. by injection H.
Qed.

Lemma str_rev_app_spec (s t : string) : String.rev_app s t = String.rev s +:+ t.
Proof.
  unfold String.rev. revert t; induction s as [|b s IH]; intros t; cbn; [done|].
  rewrite (IH (String b t)), (IH (String b "")), str_app_assoc. by rewrite str_cons_app, str_nil_app.
Qed.

Lemma str_rev_app (s t : string) : String.rev (s +:+ t) = String.rev t +:+ String.rev s.
Proof.
  induction s as [|b s IH]; [by rewrite str_nil_app, str_app_nil_r|].
  rewrite str_cons_app. unfold String.rev at 1 3. cbn [String.rev_app].
  by rewrite (str_rev_app_spec (s +:+ t)), (str_rev_app_spec s), IH, str_app_assoc.
Qed.

Lemma str_rev_rev (s : string) : String.rev (String.rev s) = s.
Proof.
  induction s as [|b s IH]; [done|].
  change (String.rev (String b s)) with (String.rev_app s (String b "")).
  by rewrite str_rev_app_spec, str_rev_app, IH.
Qed.

Lemma strip_suffix_Some p s r : strip_suffix p s = Some r -> s = r +:+ p.
Proof.
  unfold strip_suffix, ends_with. case_match eqn:He; [|done]. intros [= <-].
  apply starts_with_app in He as [t Ht].
  assert (Hs : s = String.rev t +:+ p).
  { by rewrite <- (str_rev_rev s), Ht, str_rev_app, str_rev_rev. }
  rewrite Hs, length_str_app.
  replace (_ + _ - _) with (String.length (String.rev t)) by lia. by rewrite str_take_app.
Qed.

Lemma contains_spec (s p : string) : contains s p = true <-> exists l r, s = l +:+ p +:+ r.
Proof.
  induction s as [|b s IH]; cbn [contains]; rewrite orb_true_iff, starts_with_app.
  - split; [|intros (l & r & H)].
    + intros [[t Ht]|]; [|done]. by exists "", t.
    + left. destruct l; [|done]. eauto.
  - rewrite IH. split.
    + intros [[t Ht]|(l & r & ->)]; [by exists "", t|]. by exists (String b l), r.
    + intros ([|a l] & r & H); [left; by exists r|].
      rewrite str_cons_app in H. injection H as -> ->. right. eauto.
Qed.

Lemma next_char_spec s c bs rest :
  next_char s = Some (c, bs, rest) -> s = bs +:+ rest /\ bs <> "".
Proof.
  unfold next_char. destruct s as [|b0 [|b1 [|b2 [|b3 s]]]]; [done|..];
    intros H; repeat case_match; by simplify_eq/=.
Qed.

Lemma next_char_length s c bs rest :
  next_char s = Some (c, bs, rest) -> String.length rest < String.length s.
Proof.
  intros [-> Hne]%next_char_spec. rewrite length_str_app. destruct bs; [done|]. cbn. lia.
Qed.

Lemma next_char_None s : next_char s = None <-> s = "".
Proof.
  split; [|by intros ->]. unfold next_char.
  destruct s as [|b0 [|b1 [|b2 [|b3 s]]]]; [done|..]; intros H; by repeat case_match.
Qed.

Lemma next_char_ascii b s :
  (byte_val b < 128)%N -> next_char (String b s) = Some (byte_val b, String b "", s).
Proof. intros H%N.ltb_lt. cbn. by rewrite H. Qed.

Lemma from_utf8_lossy_valid s : valid_utf8 s = true -> from_utf8_lossy s = s.
Proof.
  unfold valid_utf8, from_utf8_lossy. generalize (String.length s). intros fuel.
  revert s; induction fuel as [|fuel IH]; intros [|b s]; [done..|].
  cbn [valid_utf8_go from_utf8_lossy_go]. destruct (scalar_len (String b s)) as [n|]; [|done].
  intros Hv. rewrite IH by done. apply str_take_drop.
Qed.

Lemma floor_boundary_le s i : floor_boundary s i <= i.
Proof. induction i; cbn; [done|]. case_match; lia. Qed.

Lemma floor_boundary_ok s i : is_char_boundary s (floor_boundary s i) = true.
Proof. induction i as [|i IH]; [done|]. cbn -[is_char_boundary]. by case_match. Qed.

Lemma split_on_nonempty c s : split_on c s <> [].
Proof. induction s as [|b s IH]; cbn; [done|]. by repeat case_match. Qed.

Lemma concat_split_on c s : String.concat (String c "") (split_on c s) = s.
Proof.
  induction s as [|b s IH]; [done|]. cbn.
  destruct (split_on c s) as [|p ps] eqn:Hs; [by apply split_on_nonempty in Hs|].
  case_decide as Hb; [rewrite Hb|]; rewrite <- IH; by destruct ps.
Qed.

#[export] Hint Resolve next_char_length floor_boundary_le : octos.

(** Text whose first character is not white space is not blank. *)
Lemma trim_nonempty b (s : string) :
  (byte_val b <? 128)%N = true -> is_whitespace (byte_val b) = false -> trim (String b s) <> "".
Proof.
  intros Hb Hw. unfold trim, chars. cbn [String.length chars_go].
  rewrite next_char_ascii by (by apply N.ltb_lt). cbn [drop_while_ws fst]. rewrite Hw.
  set (l := chars_go _ s). cbn [rev].
  assert (Hend : forall l', exists l'', drop_while_ws (l' ++ [(byte_val b, String b "")]) =
    l'' ++ [(byte_val b, String b "")]).
  { induction l' as [|x l' [l'' IH]]; cbn; [rewrite Hw; by exists []|].
    case_match; [by exists l''|by exists (x :: l')]. }
  destruct (Hend (rev l)) as [l'' ->]. rewrite rev_app_distr. cbn. unfold of_chars. cbn.
  by destruct ((rev l'').*2).
Qed.

(** ASCII text is valid UTF-8. *)
Fixpoint is_ascii (s : string) : bool :=
  match s with EmptyString => true | String b s => (byte_val b <? 128)%N && is_ascii s end.

Lemma valid_utf8_ascii (s : string) : is_ascii s = true -> valid_utf8 s = true.
Proof.
  unfold valid_utf8. induction s as [|b s IH]; [done|]. cbn [is_ascii].
  intros [Hb%N.ltb_lt Hs]%andb_true_iff. cbn [String.length valid_utf8_go scalar_len].
  unfold in_range. rewrite (proj2 (N.leb_le 0 _)) by lia. rewrite (proj2 (N.leb_le _ 127)) by lia.
  cbn. auto.
Qed.

(** ** Bytes of derived strings *)

Lemma str_forall_app P (s t : string) : str_forall P (s +:+ t) = str_forall P s && str_forall P t.
Proof. induction s as [|b s IH]; [done|]. rewrite str_cons_app. cbn. by rewrite IH, andb_assoc. Qed.

Lemma concat_nil_app (l1 l2 : list string) :
  String.concat "" (l1 ++ l2) = String.concat "" l1 +:+ String.concat "" l2.
Proof.
  assert (Hc : forall x l, String.concat "" (x :: l) = x +:+ String.concat "" l).
  { intros x [|y l]; cbn; [by rewrite str_app_nil_r|done]. }
  induction l1 as [|x l1 IH]; [done|]. rewrite <- app_comm_cons, !Hc, IH. by rewrite str_app_assoc.
Qed.

Lemma of_chars_app l1 l2 : of_chars (l1 ++ l2) = of_chars l1 +:+ of_chars l2.
Proof. unfold of_chars. rewrite fmap_app. apply concat_nil_app. Qed.

Lemma of_chars_cons c bs l : of_chars ((c, bs) :: l) = bs +:+ of_chars l.
Proof. exact (of_chars_app [(c, bs)] l). Qed.

Lemma of_chars_chars (s : string) : of_chars (chars s) = s.
Proof.
  unfold chars. enough (Hgo : forall fuel s, String.length s <= fuel -> of_chars (chars_go fuel s) = s) by by apply Hgo.
  clear s. induction fuel as [|fuel IH]; intros s Hs; [by destruct s; [|cbn in Hs; lia]|]. cbn [chars_go].
  destruct (next_char s) as [[[c bs] rest]|] eqn:Hn; [|by apply next_char_None in Hn as ->].
  rewrite of_chars_cons. pose proof (next_char_length _ _ _ _ Hn). pose proof (next_char_spec _ _ _ _ Hn) as [Hsp _].
  rewrite IH by lia. done.
Qed.

Lemma take_chars_prefix n (s : string) : exists t, s = take_chars n s +:+ t.
Proof.
  exists (of_chars (drop n (chars s))). unfold take_chars.
  by rewrite <- of_chars_app, take_drop, of_chars_chars.
Qed.

(** A character takes at most four bytes. *)
Lemma take_chars_length n (s : string) : String.length (take_chars n s) <= 4 * n.
Proof.
  unfold take_chars, chars. generalize (String.length s) as fuel. revert s n.
  intros s n fuel. revert s n. induction fuel as [|fuel IH]; intros s n; cbn [chars_go].
  { rewrite take_nil. cbn. lia. }
  destruct (next_char s) as [[[c bs] rest]|] eqn:Hn; [|rewrite take_nil; cbn; lia].
  destruct n as [|n]; [cbn; lia|]. cbn [take]. rewrite of_chars_cons, length_str_app.
  specialize (IH rest n). assert (Hb : String.length bs <= 4); [|lia].
  clear IH. unfold next_char in Hn. destruct s as [|b0 [|b1 [|b2 [|b3 s]]]]; [done|..];
    repeat case_match; simplify_eq/=; lia.
Qed.

(** Taking at least one character keeps the first byte. *)
Lemma take_chars_head n b (s : string) : exists t, take_chars (S n) (String b s) = String b t.
Proof.
  unfold take_chars, chars. cbn [String.length chars_go].
  destruct (next_char (String b s)) as [[[c bs] rest]|] eqn:Hn; [|by apply next_char_None in Hn].
  cbn [take]. rewrite of_chars_cons. apply next_char_spec in Hn as [Hs Hne].
  destruct bs as [|b' bs]; [done|]. rewrite str_cons_app in Hs. injection Hs as <- _.
  rewrite str_cons_app. eauto.
Qed.

Lemma trim_end_matches_prefix c (s : string) : exists t, s = trim_end_matches c s +:+ t.
Proof.
  unfold trim_end_matches. set (strip := fix strip (r : string) := _).
  assert (Hst : forall r, exists p, r = p +:+ strip r).
  { induction r as [|b r [p IH]]; [by exists ""|]. cbn. case_decide; [|by exists ""].
    exists (String b p). rewrite str_cons_app. by f_equal. }
  destruct (Hst (String.rev s)) as [p Hp]. exists (String.rev p).
  rewrite <- str_rev_app, <- Hp. symmetry. apply str_rev_rev.
Qed.

Lemma trim_start_char_suffix c (s : string) :
  (exists p, s = p +:+ trim_start_char c s) /\ forall t, trim_start_char c s <> String c t.
Proof.
  induction s as [|b s [[p IH] IHn]]; cbn; [split; [by exists ""|done]|].
  case_decide as Hb; split; [exists (String b p); rewrite str_cons_app; by f_equal|done|by exists ""|].
  intros t [= ? _]. done.
Qed.

(** [trim_matches] keeps a part of the string that does not start with the character. *)
Lemma trim_matches_part c (s : string) :
  (exists p q, s = p +:+ trim_matches c s +:+ q) /\ forall t, trim_matches c s <> String c t.
Proof.
  destruct (trim_start_char_suffix c s) as [[p Hp] Hn]. unfold trim_matches.
  destruct (trim_end_matches_prefix c (trim_start_char c s)) as [q Hq]. split.
  - exists p, q. by rewrite <- Hq.
  - intros t Ht. rewrite Ht, str_cons_app in Hq. by apply (Hn (t +:+ q)).
Qed.

(** ** Plain ASCII text *)

Lemma is_ascii_app (s t : string) : is_ascii (s +:+ t) = is_ascii s && is_ascii t.
Proof. induction s as [|b s IH]; [done|]. rewrite str_cons_app. cbn. by rewrite IH, andb_assoc. Qed.

Lemma chars_ascii_app (s t : string) : is_ascii s = true -> chars (s +:+ t) = chars s ++ chars t.
Proof.
  induction s as [|b s IH]; [done|]. cbn [is_ascii]. intros [Hb%N.ltb_lt Hs]%andb_true_iff.
  rewrite str_cons_app. unfold chars in *. cbn [String.length chars_go].
  rewrite !next_char_ascii by done. cbn. by rewrite IH.
Qed.

(** Text that ends in a visible ASCII character is not changed by [trim_end]. *)
Lemma trim_end_visible (s : string) b :
  is_ascii s = true -> (byte_val b <? 128)%N = true -> is_whitespace (byte_val b) = false ->
  trim_end (s +:+ String b "") = s +:+ String b "".
Proof.
  intros Hs Hb Hw. unfold trim_end. rewrite chars_ascii_app by done.
  assert (Hc : chars (String b "") = [(byte_val b, String b "")]).
  { unfold chars. cbn [String.length chars_go]. by rewrite next_char_ascii by (by apply N.ltb_lt). }
  rewrite Hc, rev_app_distr. cbn [rev app drop_while_ws fst]. rewrite Hw. cbn [rev].
  by rewrite rev_involutive, of_chars_app, of_chars_chars.
Qed.

Lemma replace_absent b p r (s : string) :
  str_forall (fun c => negb (bool_decide (c = b))) s = true -> replace s (String b p) r = s.
Proof.
  unfold replace. generalize (String.length s) as fuel. intros fuel; revert s.
  induction fuel as [|fuel IH]; intros [|c s]; [done..|]. cbn [str_forall]. intros [Hc Hs]%andb_true_iff.
  cbn [replace_go]. apply negb_true_iff, bool_decide_eq_false in Hc.
  replace (strip_prefix (String b p) (String c s)) with (@None string); [by rewrite IH|].
  unfold strip_prefix. cbn. by destruct (ascii_dec _ _).
Qed.

Lemma pretty_N_go_forall P (x : N) (s : string) :
  (forall y, P (pretty_N_char y) = true) -> str_forall P s = true -> str_forall P (pretty_N_go x s) = true.
Proof.
  intros HP. revert s. induction (N.lt_wf_0 x) as [x _ IH]; intros s Hs.
  destruct (decide (x = 0%N)) as [->|Hx]; [by rewrite pretty_N_go_0|].
  rewrite pretty_N_go_step by lia. apply IH; [by apply N.div_lt; lia|]. cbn. by rewrite HP, Hs.
Qed.

(** The decimal text of a number that is not negative, byte by byte. *)
Lemma pretty_Z_forall P (z : Z) :
  (forall y, P (pretty_N_char y) = true) -> (0 <= z)%Z -> str_forall P (pretty z) = true.
Proof.
  intros HP Hz. destruct z as [|p|p]; [| |lia].
  - pose proof (HP 0%N) as H0. cbn in H0 |- *. by rewrite H0.
  - change (pretty (Zpos p)) with (pretty_N_go (Npos p) ""). by apply pretty_N_go_forall.
Qed.

Lemma strip_prefix_app (p s : string) : strip_prefix p (p +:+ s) = Some s.
Proof.
  unfold strip_prefix. rewrite (proj2 (starts_with_app p (p +:+ s))) by eauto. by rewrite str_drop_app.
Qed.

Lemma strip_suffix_app (p s : string) : strip_suffix p (s +:+ p) = Some s.
Proof.
  unfold strip_suffix, ends_with. rewrite str_rev_app.
  rewrite (proj2 (starts_with_app _ _)) by eauto. rewrite length_str_app.
  replace (_ + _ - _) with (String.length s) by lia. by rewrite str_take_app.
Qed.

Lemma is_ascii_forall (s : string) : is_ascii s = str_forall (fun b => (byte_val b <? 128)%N) s.
Proof. induction s as [|b s IH]; [done|]. cbn. by rewrite IH. Qed.

(** ** Bytes below 0x80 are characters of their own *)

Lemma next_char_bytes s c bs rest :
  next_char s = Some (c, bs, rest) ->
  exists b t, bs = String b t /\ str_forall is_cont_byte t = true /\ ((byte_val b < 128)%N -> c = byte_val b).
Proof.
  unfold next_char. destruct s as [|b0 s1]; [done|]. intros H.
  destruct (byte_val b0 <? 128)%N eqn:E0; [simplify_eq; eauto|].
  apply N.ltb_ge in E0.
  destruct s1 as [|b1 s2]; [simplify_eq; eauto|]. destruct (is_cont_byte b1) eqn:E1; [|cbn in H; simplify_eq; eauto].
  cbn [negb] in H. destruct (byte_val b0 <? 224)%N.
  { simplify_eq. exists b0, (String b1 ""). cbn. rewrite E1. repeat split; lia. }
  destruct s2 as [|b2 s3]; [simplify_eq; eauto|]. destruct (is_cont_byte b2) eqn:E2; [|cbn in H; simplify_eq; eauto].
  cbn [negb] in H. destruct (byte_val b0 <? 240)%N.
  { simplify_eq. exists b0, (String b1 (String b2 "")). cbn. rewrite E1, E2. repeat split; lia. }
  destruct s3 as [|b3 s4]; [simplify_eq; eauto|]. destruct (is_cont_byte b3) eqn:E3; [|cbn in H; simplify_eq; eauto].
  cbn [negb] in H. simplify_eq. exists b0, (String b1 (String b2 (String b3 ""))).
  cbn. rewrite E1, E2, E3. repeat split; lia.
Qed.

Lemma chars_go_byte fuel s b l r :
  String.length s <= fuel -> s = l +:+ String b r -> (byte_val b < 128)%N ->
  exists bs, (byte_val b, bs) ∈ chars_go fuel s.
Proof.
  revert s l. induction fuel as [|fuel IH]; intros s l Hlen Hs Hb.
  { subst s. rewrite length_str_app in Hlen. cbn in Hlen. lia. }
  cbn [chars_go]. destruct (next_char s) as [[[c bs] rest]|] eqn:E.
  2:{ apply next_char_None in E. subst. destruct l; discriminate. }
  pose proof (next_char_length _ _ _ _ E) as Hshort. destruct (next_char_bytes _ _ _ _ E) as (b0 & t & -> & Ht & Hc).
  apply next_char_spec in E as [E _]. destruct l as [|a l].
  - rewrite str_nil_app in Hs. rewrite Hs, str_cons_app in E. injection E as -> _. rewrite (Hc Hb). exists (String b0 t).
    by left.
  - assert (exists l', rest = l' +:+ String b r) as [l' Hl'].
    { rewrite Hs, !str_cons_app in E. injection E as _ E. clear -E Ht Hb. revert l E.
      induction t as [|x t IHt]; intros l E; [exists l; by rewrite str_nil_app in E|].
      cbn in Ht. apply andb_true_iff in Ht as [Hx Ht]. rewrite str_cons_app in E. destruct l as [|y l].
      - rewrite str_nil_app in E. injection E as -> _. unfold is_cont_byte in Hx.
        apply andb_true_iff in Hx as [Hx _]. apply N.leb_le in Hx. lia.
      - rewrite str_cons_app in E. injection E as _ E. eauto. }
    destruct (IH rest l') as [bs Hbs]; [lia|done|done|]. exists bs. by right.
Qed.

(** A byte below 0x80 anywhere in a string is one of its characters. *)
Lemma chars_byte s b l r :
  s = l +:+ String b r -> (byte_val b < 128)%N -> exists bs, (byte_val b, bs) ∈ chars s.
Proof. intros. by eapply chars_go_byte. Qed.
