(* ===== verification/RustNum.v ===== *)
(** * Rust numbers

    Unsigned machine integers as [Z] with their bounds, their decimal
    [FromStr], and [f64] as the IEEE-754 binary64 values of the Standard
    Library's [SpecFloat], with the decimal [FromStr] that rounds to nearest
    even. *)

From S2P Require Import Prelude RustStr.
From Stdlib Require Export SpecFloat.

Local Open Scope Z_scope.

(** ** Unsigned integers *)

Definition u32_max : Z := 2 ^ 32 - 1.
Definition u64_max : Z := 2 ^ 64 - 1.
(** [usize] on the 64-bit targets the workspace builds for. *)
Definition usize_max : Z := u64_max.

(** Release-profile [+] on [u32] wraps around. *)
Definition u32_add (a b : Z) : Z := (a + b) mod 2 ^ 32.
Definition u32_saturating_add (a b : Z) : Z := Z.min u32_max (a + b).
Definition u32_saturating_sub (a b : Z) : Z := Z.max 0 (a - b).
Definition u64_checked_mul (a b : Z) : option Z :=
  if a * b <=? u64_max then Some (a * b) else None.

Definition digit_val (b : ascii) : option Z :=
  if is_ascii_digit (byte_val b) then Some (Z.of_N (byte_val b) - 48) else None.

(** A non-empty run of decimal digits: its value and its length. *)
Fixpoint digits_val (acc : Z) (s : string) : option Z :=
  match s with
  | EmptyString => Some acc
  | String b s' =>
      match digit_val b with
      | Some d => digits_val (10 * acc + d) s'
      | None => None
      end
  end.

(** [str::parse] at an unsigned type with maximum [max]: an optional [+], at
    least one digit, no overflow. *)
Definition parse_uint (max : Z) (s : string) : option Z :=
  let body := match s with String b s' => if decide (b = "+"%char) then s' else s | _ => s end in
  match body with
  | EmptyString => None
  | _ =>
      match digits_val 0 body with
      | Some v => if v <=? max then Some v else None
      | None => None
      end
  end.

Definition parse_u32 : string -> option Z := parse_uint u32_max.
Definition parse_u64 : string -> option Z := parse_uint u64_max.
Definition parse_usize : string -> option Z := parse_uint usize_max.

(** ** binary64 *)

Definition f64 := spec_float.
Definition f64_prec : Z := 53.
Definition f64_emax : Z := 1024.

Definition f64_of_Z (n : Z) : f64 := binary_normalize f64_prec f64_emax n 0 false.

(** The value of a binary format nearest to [m / d]: [SFdiv_core_binary] keeps enough bits
    of the quotient and a sticky location, so one rounding is exact. *)
Definition float_of_ratio (prec emax : Z) (neg : bool) (m : Z) (d : positive) : spec_float :=
  match m with
  | Zpos p =>
      let '(q, e, l) := SFdiv_core_binary prec emax (Zpos p) 0 (Zpos d) 0 in
      binary_round_aux prec emax neg q e l
  | _ => S754_zero neg
  end.
Definition f64_of_ratio : bool -> Z -> positive -> f64 := float_of_ratio f64_prec f64_emax.

Definition f64_zero : f64 := S754_zero false.
Definition f64_one : f64 := f64_of_Z 1.
Definition f64_infinity : f64 := S754_infinity false.
Definition f64_neg_infinity : f64 := S754_infinity true.
(** [f64::EPSILON] is 2^-52. *)
Definition f64_epsilon : f64 := S754_finite false 4503599627370496 (-104).

Definition f64_is_nan (x : f64) : bool := match x with S754_nan => true | _ => false end.
Definition f64_is_finite (x : f64) : bool :=
  match x with S754_zero _ | S754_finite _ _ _ => true | _ => false end.
Definition f64_lt (x y : f64) : bool := SFltb x y.
Definition f64_le (x y : f64) : bool := SFleb x y.
Definition f64_sub (x y : f64) : f64 := SFsub f64_prec f64_emax x y.
Definition f64_mul (x y : f64) : f64 := SFmul f64_prec f64_emax x y.
Definition f64_div (x y : f64) : f64 := SFdiv f64_prec f64_emax x y.
Definition f64_abs (x : f64) : f64 := SFabs x.

(** [f64::max]: the other operand when one is NaN. *)
Definition f64_max (x y : f64) : f64 :=
  if f64_is_nan x then y
  else if f64_is_nan y then x
  else if f64_lt x y then y else x.

Definition f64_min (x y : f64) : f64 :=
  if f64_is_nan x then y
  else if f64_is_nan y then x
  else if f64_lt y x then y else x.

(** ** Decimal [FromStr] for [f64] and [f32]

    [[+-] (inf | infinity | nan | digits [. digits] [(e|E) [+-] digits])], with at
    least one digit in the mantissa and in the exponent. *)

Fixpoint span_digits (s : string) : string * string :=
  match s with
  | EmptyString => ("", "")
  | String b s' =>
      if is_ascii_digit (byte_val b)
      then let '(d, r) := span_digits s' in (String b d, r)
      else ("", s)
  end.

(** The exponent part, the empty string standing for none. *)
Definition parse_exp (s : string) : option Z :=
  match s with
  | EmptyString => Some 0
  | String e s' =>
      if decide (e = "e"%char \/ e = "E"%char) then
        let '(neg, ds) :=
          match s' with
          | String b s'' =>
              if decide (b = "-"%char) then (true, s'')
              else if decide (b = "+"%char) then (false, s'') else (false, s')
          | EmptyString => (false, s')
          end in
        match ds with
        | EmptyString => None
        | _ => (fun v => if neg : bool then - v else v) <$> digits_val 0 ds
        end
      else None
  end.

(** [m * 10^e] rounded once. *)
Definition float_of_decimal (prec emax : Z) (neg : bool) (m e : Z) : spec_float :=
  if 0 <=? e then float_of_ratio prec emax neg (m * 10 ^ e) 1
  else float_of_ratio prec emax neg m (Z.to_pos (10 ^ (- e))).

Definition parse_float_unsigned (prec emax : Z) (neg : bool) (s : string) : option spec_float :=
  let low := to_ascii_lowercase s in
  if decide (low = "inf" \/ low = "infinity") then Some (S754_infinity neg)
  else if decide (low = "nan") then Some S754_nan
  else
    let '(ip, rest) := span_digits s in
    let '(fp, rest) :=
      match rest with
      | String b r => if decide (b = "."%char) then span_digits r else ("", rest)
      | EmptyString => ("", rest)
      end in
    if decide (ip = "" /\ fp = "") then None
    else
      m ← digits_val 0 (ip +:+ fp);
      e ← parse_exp rest;
      Some (float_of_decimal prec emax neg m (e - Z.of_nat (String.length fp))).

Definition parse_float (prec emax : Z) (s : string) : option spec_float :=
  match s with
  | String b s' =>
      if decide (b = "-"%char) then parse_float_unsigned prec emax true s'
      else if decide (b = "+"%char) then parse_float_unsigned prec emax false s'
      else parse_float_unsigned prec emax false s
  | EmptyString => None
  end.

Definition parse_f64 : string -> option f64 := parse_float f64_prec f64_emax.
(** [f32] is binary32. *)
Definition parse_f32 : string -> option spec_float := parse_float 24 128.

(** ** Lemmas *)

Lemma digits_val_nonneg s acc v : 0 <= acc -> digits_val acc s = Some v -> 0 <= v.
Proof.
  revert acc; induction s as [|b s IH]; cbn; intros acc Hacc H; [by simplify_eq|].
  unfold digit_val in H. destruct (is_ascii_digit (byte_val b)) eqn:Hd; [|done].
  apply IH in H; [done|]. unfold is_ascii_digit in Hd.
  apply andb_true_iff in Hd as [?%N.leb_le ?%N.leb_le]. lia.
Qed.

Lemma parse_uint_bounds max s v : parse_uint max s = Some v -> 0 <= v <= max.
Proof.
  unfold parse_uint. intros H. repeat case_match; simplify_eq;
    (split; [by eapply digits_val_nonneg|by apply Z.leb_le]).
Qed.

Lemma f64_lt_irrefl x : f64_lt x x = false.
Proof.
  destruct x as [[]|[]| |[] m e]; try done; cbn;
    unfold f64_lt, SFltb, SFcompare; rewrite Z.compare_refl;
    change (Pos.compare_cont Eq m m) with (Pos.compare m m); by rewrite Pos.compare_refl.
Qed.

Lemma f64_sub_diag x : f64_is_finite x = true -> exists b, f64_sub x x = S754_zero b.
Proof.
  destruct x as [[]|[]| |[] m e]; try done; cbn; eauto; intros _;
    unfold f64_sub, SFsub; rewrite ?Z.sub_diag; cbn; eauto.
Qed.

Lemma f64_max_cases x y : f64_max x y = x \/ f64_max x y = y.
Proof. unfold f64_max. repeat case_match; auto. Qed.

Lemma f64_neg_infinity_lt x : f64_is_finite x = true -> f64_lt f64_neg_infinity x = true.
Proof. by destruct x as [[]|[]| |[] m e]. Qed.

(** Printing and reading a number. *)
Lemma digit_val_pretty (x : N) : digit_val (pretty_N_char (x mod 10)) = Some (Z.of_N (x mod 10)).
Proof.
  assert (Hlt : (x mod 10 < 10)%N) by (by apply N.mod_lt).
  generalize dependent (x mod 10)%N. intros y Hy.
  assert (Hc : (y = 0 \/ y = 1 \/ y = 2 \/ y = 3 \/ y = 4 \/ y = 5 \/ y = 6 \/ y = 7 \/ y = 8 \/ y = 9)%N) by lia.
  destruct_or! Hc; by subst.
Qed.

Lemma digits_val_pretty_go (x : N) s :
  (0 < x)%N -> digits_val 0 (pretty_N_go x s) = digits_val (Z.of_N x) s.
Proof.
  revert s. induction (N.lt_wf_0 x) as [x _ IH]; intros s Hx. rewrite pretty_N_go_step by done.
  assert (Hstep : forall s, digits_val (Z.of_N (x / 10)) (String (pretty_N_char (x mod 10)) s) = digits_val (Z.of_N x) s).
  { intros s'. cbn [digits_val]. rewrite digit_val_pretty. f_equal.
    rewrite N2Z.inj_div, N2Z.inj_mod. pose proof (Z.div_mod (Z.of_N x) 10). lia. }
  destruct (decide (x / 10 = 0)%N) as [H0|H0].
  - rewrite H0, pretty_N_go_0. rewrite <- Hstep, H0. done.
  - rewrite IH; [apply Hstep|apply N.div_lt; lia|by apply N.neq_0_lt_0].
Qed.

Lemma parse_uint_digits max s v :
  s <> "" -> digits_val 0 s = Some v -> v <= max -> parse_uint max s = Some v.
Proof.
  intros Hs Hd Hv. unfold parse_uint. destruct s as [|b s]; [done|].
  rewrite decide_False by (intros ->; by cbn in Hd). rewrite Hd. by rewrite (proj2 (Z.leb_le _ _) Hv).
Qed.

Lemma parse_uint_pretty max v : 0 <= v <= max -> parse_uint max (pretty v) = Some v.
Proof.
  intros Hv. destruct v as [|p|p]; [|change (pretty (Zpos p)) with (pretty_N_go (Npos p) "")|lia].
  - by apply parse_uint_digits; [| |lia].
  - assert (Hd : digits_val 0 (pretty_N_go (Npos p) "") = Some (Zpos p)) by by rewrite digits_val_pretty_go.
    apply parse_uint_digits; [|done|lia]. intros He. by rewrite He in Hd.
Qed.

#[export] Hint Resolve parse_uint_bounds : octos.
