(* ===== verification/Fidelity.v ===== *)
(** * Result fidelity and the serialized frame budget

    Model of [crates/octos-pipeline/src/fidelity.rs]: the fidelity modes a
    pipeline may declare, the JSON-escaped length of a body, the bounding of an
    unannotated result so that its serialized form fits half of the 1 MiB frame
    cap, and the bounding of the per-node footer.  Byte counts are [Z] ([usize]);
    the binary searches carry a fuel equal to the width of the interval, which
    halves at every turn. *)

From S2P Require Import Prelude RustStr RustNum.

Local Open Scope Z_scope.

Definition MAX_TRUNCATE_CHARS : Z := 10000000.
Definition MAX_SUMMARY_LINES : Z := 100000.
Definition MAX_TEXT_FRAME_BYTES : Z := 1024 * 1024.
Definition MAX_FRAME_BUDGET_BYTES : Z := 512 * 1024.
Definition FOOTER_BUDGET_BYTES : Z := 32 * 1024.
Definition MARKER_RESERVE_BYTES : Z := 256.
Definition BODY_BUDGET_BYTES : Z := MAX_FRAME_BUDGET_BYTES - FOOTER_BUDGET_BYTES.

Definition str_len (s : string) : Z := Z.of_nat (String.length s).

(** The cost of one byte in a JSON string. *)
Definition json_byte_len (b : ascii) : Z :=
  let n := byte_val b in
  if (n =? 34)%N || (n =? 92)%N || (n =? 10)%N || (n =? 13)%N || (n =? 9)%N
     || (n =? 8)%N || (n =? 12)%N then 2
  else if (n <=? 31)%N then 6
  else 1.

Fixpoint json_escaped_len_bytes (s : string) : Z :=
  match s with
  | EmptyString => 0
  | String b s' => json_byte_len b + json_escaped_len_bytes s'
  end.

Definition json_escaped_len (s : string) : Z := json_escaped_len_bytes s.

Inductive FidelityMode :=
| Full
| Truncate (max_chars : Z)
| Compact
| Summary (max_lines : Z).

#[export] Instance FidelityMode_eq_dec : EqDecision FidelityMode.
Proof. solve_decision. Defined.

Definition FidelityMode_parse (s0 : string) : option FidelityMode :=
  let s := trim s0 in
  if decide (s = "full") then Some Full
  else if decide (s = "compact") then Some Compact
  else if starts_with "truncate:" s then
    (fun n => Truncate (Z.min n MAX_TRUNCATE_CHARS)) <$> parse_usize (str_drop 9 s)
  else if starts_with "summary:" s then
    (fun n => Summary (Z.min n MAX_SUMMARY_LINES)) <$> parse_usize (str_drop 8 s)
  else None.

Definition TRUNCATED : string := String NL "... [truncated]".

(** The loop of [compact_output]: the flag is [in_tool_call]. *)
Fixpoint compact_lines (in_tool_call : bool) (ls : list string) : list string :=
  match ls with
  | [] => []
  | line :: ls =>
      if starts_with "Tool call: " line || starts_with "Arguments: " line then
        compact_lines true ls
      else if starts_with "Result: " line || starts_with "Output: " line then
        line :: compact_lines false ls
      else if in_tool_call then compact_lines in_tool_call ls
      else line :: compact_lines in_tool_call ls
  end.

Definition compact_output (output : string) : string :=
  String.concat (String NL "") (compact_lines false (lines output)).

Definition FidelityMode_apply (m : FidelityMode) (output : string) : string :=
  match m with
  | Full => output
  | Truncate max_chars =>
      if str_len output <=? max_chars then output
      else str_take (floor_boundary output (Z.to_nat max_chars)) output +:+ TRUNCATED
  | Compact => compact_output output
  | Summary max_lines =>
      let ls := lines output in
      let r := String.concat (String NL "") (take (Z.to_nat max_lines) ls) in
      match ls !! Z.to_nat max_lines with
      | Some _ => r +:+ TRUNCATED
      | None => r
      end
  end.

Record ResultCeiling := {
  rc_output : string;
  rc_truncated : bool;
  rc_kept_len : Z;
  rc_original_len : Z
}.

Definition with_marker (c : ResultCeiling) (rep : option string) : string :=
  if negb (rc_truncated c) then rc_output c
  else
    rc_output c +:+
    match rep with
    | Some name =>
        String NL "... [truncated: " +:+ pretty (rc_kept_len c) +:+ " of "
          +:+ pretty (rc_original_len c) +:+ " bytes — full result in " +:+ name +:+ "]"
    | None =>
        String NL "... [truncated: " +:+ pretty (rc_kept_len c) +:+ " of "
          +:+ pretty (rc_original_len c) +:+ " bytes]"
    end.

(** [while hi - lo > 1 { mid = lo + (hi - lo) / 2; ... }], the loop of both
    binary searches: [lo] fits, [hi] does not. *)
Fixpoint bisect (fits : Z -> bool) (fuel : nat) (lo hi : Z) : Z * Z :=
  match fuel with
  | O => (lo, hi)
  | S fuel =>
      if 1 <? hi - lo then
        let mid := lo + (hi - lo) / 2 in
        if fits mid then bisect fits fuel mid hi else bisect fits fuel lo mid
      else (lo, hi)
  end.

Definition compute_result_ceiling (output : string) (declared : option FidelityMode)
  : ResultCeiling :=
  let original_len := str_len output in
  match declared with
  | Some mode =>
      let applied := FidelityMode_apply mode output in
      {| rc_output := applied; rc_truncated := false; rc_kept_len := str_len applied;
         rc_original_len := original_len |}
  | None =>
      let body_budget := BODY_BUDGET_BYTES in
      let head_budget := body_budget - MARKER_RESERVE_BYTES in
      if json_escaped_len output <=? body_budget then
        {| rc_output := output; rc_truncated := false; rc_kept_len := original_len;
           rc_original_len := original_len |}
      else
        let fits mid := json_escaped_len_bytes (str_take (Z.to_nat mid) output) <=? head_budget in
        let lo := (bisect fits (Z.to_nat original_len) 0 original_len).1 in
        let best := floor_boundary output (Z.to_nat lo) in
        {| rc_output := str_take best output; rc_truncated := true;
           rc_kept_len := Z.of_nat best; rc_original_len := original_len |}
  end.

Definition apply_result_ceiling (output : string) (declared : option FidelityMode) : string :=
  with_marker (compute_result_ceiling output declared) None.

Definition FOOTER_HEADER : string :=
  String NL (String NL ("---" +:+ String NL ("Pipeline execution summary:" +:+ String NL ""))).

(** The closure [assemble] of [bound_footer]. *)
Definition assemble (node_lines : list string) (total_line : string) (keep : Z) : string :=
  let n := Z.of_nat (length node_lines) in
  FOOTER_HEADER
  +:+ String.concat (String NL "") (take (Z.to_nat keep) node_lines)
  +:+ (if keep <? n then
         (if 0 <? keep then String NL "" else "")
         +:+ "... [+" +:+ pretty (n - keep) +:+ " more nodes omitted]"
       else "")
  +:+ String NL "" +:+ total_line.

Definition bound_footer (node_lines : list string) (total_line : string) : string :=
  let n := Z.of_nat (length node_lines) in
  let full := assemble node_lines total_line n in
  if json_escaped_len full <=? FOOTER_BUDGET_BYTES then full
  else
    let fits mid := json_escaped_len (assemble node_lines total_line mid) <=? FOOTER_BUDGET_BYTES in
    assemble node_lines total_line (bisect fits (length node_lines) 0 n).1.

(** ** Escaped lengths *)

Lemma json_byte_len_bounds b : 1 <= json_byte_len b <= 6.
Proof. unfold json_byte_len. repeat case_match; lia. Qed.

Lemma json_escaped_len_app s t :
  json_escaped_len (s +:+ t) = json_escaped_len s + json_escaped_len t.
Proof.
  unfold json_escaped_len. induction s as [|b s IH]; [done|].
  rewrite str_cons_app. cbn. lia.
Qed.

Lemma json_escaped_len_nonneg s : 0 <= json_escaped_len s.
Proof.
  induction s as [|b s IH]; [done|]. pose proof (json_byte_len_bounds b).
  unfold json_escaped_len in *. cbn. lia.
Qed.

Lemma json_escaped_len_take n s : json_escaped_len (str_take n s) <= json_escaped_len s.
Proof.
  rewrite <- (str_take_drop n s) at 2. rewrite json_escaped_len_app.
  pose proof (json_escaped_len_nonneg (str_drop n s)). lia.
Qed.

Lemma str_take_take i j s : (i <= j)%nat -> str_take i (str_take j s) = str_take i s.
Proof.
  revert j s; induction i as [|i IH]; intros [|j] [|b s] H; cbn; try done; try lia.
  f_equal. apply IH. lia.
Qed.

Lemma json_escaped_len_take_mono i j s :
  (i <= j)%nat -> json_escaped_len (str_take i s) <= json_escaped_len (str_take j s).
Proof. intros H. rewrite <- (str_take_take i j s H). apply json_escaped_len_take. Qed.

(** Decimal numerals are ASCII digits, one escaped byte each, at most [k] of them
    below [10^k]. *)
Lemma pretty_N_char_json x : (x < 10)%N -> json_byte_len (pretty_N_char x) = 1.
Proof.
  intros H. assert (Hx : x = 0%N \/ x = 1%N \/ x = 2%N \/ x = 3%N \/ x = 4%N \/ x = 5%N
    \/ x = 6%N \/ x = 7%N \/ x = 8%N \/ x = 9%N) by lia.
  by destruct_or! Hx; subst.
Qed.

Lemma pretty_N_go_json (k : nat) x s :
  (x < 10 ^ N.of_nat k)%N ->
  json_escaped_len (pretty_N_go x s) <= Z.of_nat k + json_escaped_len s.
Proof.
  revert x s; induction k as [|k IH]; intros x s Hx.
  - assert (x = 0%N) as -> by (change (10 ^ N.of_nat 0)%N with 1%N in Hx; lia).
    rewrite pretty_N_go_0. lia.
  - destruct (decide (x = 0%N)) as [->|Hne].
    + rewrite pretty_N_go_0. pose proof (json_escaped_len_nonneg s). lia.
    + rewrite pretty_N_go_step by lia.
      etrans; [apply IH|].
      * rewrite Nat2N.inj_succ, N.pow_succ_r' in Hx. apply N.Div0.div_lt_upper_bound. lia.
      * unfold json_escaped_len. cbn. rewrite pretty_N_char_json; [lia|].
        by apply N.mod_lt.
Qed.

Lemma pretty_Z_json (k : nat) (z : Z) :
  (0 < k)%nat -> 0 <= z < 10 ^ Z.of_nat k -> json_escaped_len (pretty z) <= Z.of_nat k.
Proof.
  intros Hk [Hz Hlt].
  assert (HN : forall n : N, (n < 10 ^ N.of_nat k)%N -> json_escaped_len (pretty n) <= Z.of_nat k).
  { intros n Hn. unfold pretty, pretty_N. case_decide.
    - change (json_escaped_len "0") with 1. lia.
    - etrans; [by apply pretty_N_go_json|]. change (json_escaped_len "") with 0. lia. }
  destruct z as [|p|p]; [| |lia].
  - change (json_escaped_len (pretty 0)) with 1. lia.
  - unfold pretty at 1, pretty_Z. apply HN.
    apply N2Z.inj_lt. rewrite N2Z.inj_pow, nat_N_Z. cbn. lia.
Qed.

(** ** The binary search *)

Lemma bisect_spec fits fuel lo hi :
  (Z.to_nat (hi - lo) <= fuel)%nat -> lo < hi ->
  let '(lo', hi') := bisect fits fuel lo hi in
  lo <= lo' /\ hi' <= hi /\ hi' = lo' + 1 /\
  (fits lo = true -> fits lo' = true) /\ (fits hi = false -> fits hi' = false).
Proof.
  revert lo hi; induction fuel as [|fuel IH]; intros lo hi Hf Hlt; cbn; [lia|].
  destruct (1 <? hi - lo) eqn:Hgt; [apply Z.ltb_lt in Hgt|apply Z.ltb_ge in Hgt].
  - assert (Hmid : 0 < (hi - lo) / 2 < hi - lo).
    { split; [apply Z.div_str_pos; lia | apply Z.div_lt; lia]. }
    destruct (fits (lo + (hi - lo) / 2)) eqn:Hm.
    + specialize (IH (lo + (hi - lo) / 2) hi ltac:(lia) ltac:(lia)).
      destruct (bisect _ _ _ _). naive_solver lia.
    + specialize (IH lo (lo + (hi - lo) / 2) ltac:(lia) ltac:(lia)).
      destruct (bisect _ _ _ _). naive_solver lia.
  - split_and!; try lia; auto.
Qed.

(** The search ends on an offset that fits when offset 0 does. *)
Lemma bisect_fits fits fuel lo hi :
  (Z.to_nat (hi - lo) <= fuel)%nat -> lo < hi -> fits lo = true ->
  fits (bisect fits fuel lo hi).1 = true.
Proof.
  intros Hf Hlt Hlo. pose proof (bisect_spec fits fuel lo hi Hf Hlt) as H.
  destruct (bisect _ _ _ _). naive_solver.
Qed.

(** ** The bounded body *)

Lemma str_take_all s : str_take (String.length s) s = s.
Proof. rewrite <- (str_app_nil_r s) at 2. apply str_take_app. Qed.

Lemma is_char_boundary_length s : is_char_boundary s (String.length s) = true.
Proof.
  unfold is_char_boundary. case_decide; [done|].
  assert (Hg : String.get (String.length s) s = None) by (clear; by induction s).
  rewrite Hg. by apply bool_decide_eq_true.
Qed.

Lemma floor_boundary_ge s i j :
  (j <= i)%nat -> is_char_boundary s j = true -> (j <= floor_boundary s i)%nat.
Proof.
  induction i as [|i IH]; intros Hj Hb; cbn -[is_char_boundary]; [lia|].
  case_match; [lia|]. apply IH; [|done]. destruct (decide (j = S i)); [congruence|lia].
Qed.

Section ceiling.
Variable output : string.
Let head_budget := BODY_BUDGET_BYTES - MARKER_RESERVE_BYTES.
Let fits mid := json_escaped_len_bytes (str_take (Z.to_nat mid) output) <=? head_budget.
Hypothesis Hover : BODY_BUDGET_BYTES < json_escaped_len output.

Lemma ceiling_search :
  exists lo : nat,
    (bisect fits (Z.to_nat (str_len output)) 0 (str_len output)).1 = Z.of_nat lo /\
    json_escaped_len (str_take lo output) <= head_budget /\
    (forall n, (lo < n)%nat -> head_budget < json_escaped_len (str_take n output)).
Proof.
  assert (Hpos : 0 < str_len output).
  { destruct output; [done|]. unfold str_len. cbn. lia. }
  pose proof (bisect_spec fits (Z.to_nat (str_len output)) 0 (str_len output)
                ltac:(lia) Hpos) as H.
  destruct (bisect _ _ _ _) as [lo hi]. destruct H as (Hlo & Hhi & Heq & Hf & Hnf).
  exists (Z.to_nat lo). split; [cbn; lia|]. split.
  - apply Z.leb_le, Hf. by apply Z.leb_le.
  - intros n Hn. assert (Hbad : fits hi = false).
    { apply Hnf, Z.leb_gt. unfold str_len. rewrite Nat2Z.id.
      fold (json_escaped_len (str_take (String.length output) output)).
      rewrite str_take_all. unfold head_budget. unfold MARKER_RESERVE_BYTES. lia. }
    apply Z.leb_gt in Hbad. eapply Z.lt_le_trans; [exact Hbad|].
    apply (json_escaped_len_take_mono (Z.to_nat hi) n output). lia.
Qed.
End ceiling.

Lemma rc_output_bound output :
  let c := compute_result_ceiling output None in
  json_escaped_len (rc_output c) <=
  BODY_BUDGET_BYTES - (if rc_truncated c then MARKER_RESERVE_BYTES else 0).
Proof.
  unfold compute_result_ceiling. destruct (json_escaped_len output <=? _) eqn:Hle.
  - apply Z.leb_le in Hle. cbn zeta. cbn [rc_output rc_truncated]. lia.
  - apply Z.leb_gt in Hle. destruct (ceiling_search output Hle) as (lo & Hlo & Hfit & _).
    cbn. rewrite Hlo, Nat2Z.id. etrans; [|exact Hfit].
    apply json_escaped_len_take_mono, floor_boundary_le.
Qed.

Lemma rc_lens_bound output :
  let c := compute_result_ceiling output None in
  0 <= rc_kept_len c <= str_len output /\ rc_original_len c = str_len output.
Proof.
  unfold compute_result_ceiling. destruct (json_escaped_len output <=? _) eqn:Hle; cbn.
  - unfold str_len. lia.
  - apply Z.leb_gt in Hle. assert (Hpos : 0 < str_len output).
    { destruct output; [done|]. unfold str_len. cbn. lia. }
    match goal with |- context [bisect ?f ?k ?a ?b] =>
      pose proof (bisect_spec f k a b ltac:(lia) Hpos) as H; destruct (bisect f k a b) as [lo hi] end.
    destruct H as (? & ? & ? & _). cbn.
    pose proof (floor_boundary_le output (Z.to_nat lo)). lia.
Qed.

(** Bounding an unannotated result: the returned head is a prefix of the
    body cut at a char boundary; the body is cut exactly when its JSON-escaped
    length exceeds the body budget; a body that is not cut is returned verbatim;
    a cut head fits the body budget less the marker reserve, and it is the longest
    such prefix, every longer prefix ending on a char boundary being too big. *)
Theorem compute_result_ceiling_spec (output : string) :
  let c := compute_result_ceiling output None in
  exists n : nat,
    (n <= String.length output)%nat /\
    is_char_boundary output n = true /\
    rc_output c = str_take n output /\ rc_kept_len c = Z.of_nat n /\
    (rc_truncated c = true <-> BODY_BUDGET_BYTES < json_escaped_len output) /\
    (rc_truncated c = false -> rc_output c = output) /\
    (rc_truncated c = true ->
       json_escaped_len (rc_output c) <= BODY_BUDGET_BYTES - MARKER_RESERVE_BYTES /\
       forall m, (n < m)%nat -> is_char_boundary output m = true ->
         BODY_BUDGET_BYTES - MARKER_RESERVE_BYTES < json_escaped_len (str_take m output)).
Proof.
  unfold compute_result_ceiling. destruct (json_escaped_len output <=? _) eqn:Hle.
  - apply Z.leb_le in Hle. exists (String.length output). cbn. rewrite str_take_all.
    split_and!; try done; try lia; auto using is_char_boundary_length.
  - apply Z.leb_gt in Hle. destruct (ceiling_search output Hle) as (lo & Hlo & Hfit & Hmax).
    cbn. rewrite Hlo, Nat2Z.id. exists (floor_boundary output lo).
    pose proof (floor_boundary_le output lo) as Hfl.
    assert (Hlolen : (lo <= String.length output)%nat).
    { destruct (decide (lo <= String.length output)%nat); [done|].
      pose proof (Hmax (S lo) ltac:(lia)) as Hbad.
      assert (Ht : str_take (S lo) output = str_take lo output).
      { clear -n. revert lo n. induction output as [|b s IH]; intros [|lo] H; cbn in *;
          try done; try lia. f_equal. apply IH. lia. }
      rewrite Ht in Hbad. lia. }
    split_and!; try done; try lia; auto using floor_boundary_ok. intros _. split.
    + etrans; [|exact Hfit]. by apply json_escaped_len_take_mono.
    + intros m Hm Hb. apply Hmax. destruct (decide (m <= lo)%nat) as [Hmlo|]; [|lia].
      pose proof (floor_boundary_ge output lo m Hmlo Hb). lia.
Qed.

(** ** Markers and footers *)

Lemma pretty_usize_json z : 0 <= z <= usize_max -> json_escaped_len (pretty z) <= 20.
Proof. intros [??]. apply (pretty_Z_json 20); [lia|]. unfold usize_max, u64_max in *. lia. Qed.

Lemma with_marker_bound output rep :
  str_len output <= usize_max ->
  (forall name, rep = Some name -> json_escaped_len name <= 160) ->
  json_escaped_len (with_marker (compute_result_ceiling output None) rep) <= BODY_BUDGET_BYTES.
Proof.
  intros Hlen Hname. pose proof (rc_output_bound output) as Hb.
  pose proof (rc_lens_bound output) as [Hk Ho]. cbn zeta in *. unfold with_marker.
  destruct (rc_truncated _) eqn:Htr; cbn [negb]; [|lia].
  pose proof (pretty_usize_json (rc_kept_len (compute_result_ceiling output None)) ltac:(lia)).
  pose proof (pretty_usize_json (rc_original_len (compute_result_ceiling output None)) ltac:(lia)).
  rewrite json_escaped_len_app.
  assert (Hm : forall m, m <= MARKER_RESERVE_BYTES ->
    json_escaped_len (rc_output (compute_result_ceiling output None)) + m <= BODY_BUDGET_BYTES)
    by (intros; lia).
  apply Hm. unfold MARKER_RESERVE_BYTES.
  destruct rep as [name|]; rewrite !json_escaped_len_app.
  - specialize (Hname name eq_refl).
    change (json_escaped_len (String NL "... [truncated: ")) with 18.
    change (json_escaped_len " of ") with 4.
    change (json_escaped_len " bytes — full result in ") with 26.
    change (json_escaped_len "]") with 1. lia.
  - change (json_escaped_len (String NL "... [truncated: ")) with 18.
    change (json_escaped_len " of ") with 4.
    change (json_escaped_len " bytes]") with 7. lia.
Qed.

Lemma assemble_0_bound node_lines total_line :
  Z.of_nat (length node_lines) <= usize_max ->
  json_escaped_len (assemble node_lines total_line 0) <= 100 + json_escaped_len total_line.
Proof.
  intros Hn. unfold assemble. rewrite !json_escaped_len_app.
  change (json_escaped_len FOOTER_HEADER) with 38.
  change (json_escaped_len (String NL "")) with 2.
  change (take (Z.to_nat 0) node_lines) with (@nil string).
  change (json_escaped_len (String.concat (String NL "") [])) with 0.
  destruct (0 <? Z.of_nat (length node_lines)) eqn:Hlt.
  - apply Z.ltb_lt in Hlt. rewrite !json_escaped_len_app.
    pose proof (pretty_usize_json (Z.of_nat (length node_lines) - 0) ltac:(lia)).
    change (json_escaped_len (if 0 <? 0 then _ else _)) with 0.
    change (json_escaped_len "... [+") with 6.
    change (json_escaped_len " more nodes omitted]") with 20. lia.
  - change (json_escaped_len "") with 0. lia.
Qed.

Lemma bound_footer_bound node_lines total_line :
  Z.of_nat (length node_lines) <= usize_max ->
  json_escaped_len total_line <= FOOTER_BUDGET_BYTES - 100 ->
  json_escaped_len (bound_footer node_lines total_line) <= FOOTER_BUDGET_BYTES.
Proof.
  intros Hn Ht. unfold bound_footer. case_match eqn:Hle; [by apply Z.leb_le|].
  assert (Hz : json_escaped_len (assemble node_lines total_line 0) <= FOOTER_BUDGET_BYTES).
  { pose proof (assemble_0_bound node_lines total_line Hn). lia. }
  destruct node_lines as [|l ls].
  - by apply Z.leb_gt in Hle.
  - match goal with |- context [bisect ?f ?k ?a ?b] =>
      pose proof (bisect_fits f k a b ltac:(lia) ltac:(cbn [length]; lia)
        ltac:(by apply Z.leb_le)) as Hfit end.
    by apply Z.leb_le in Hfit.
Qed.

(** End-to-end frame budget: for every unannotated result body (of a length a
    [usize] can hold), every report name of at most 160 escaped bytes, every list of
    node lines and every total line that leaves 100 bytes of the footer budget free,
    the escaped length of the marked body plus that of the bounded footer is within
    the 512 KiB frame budget, hence below the 1 MiB text frame cap. *)
Theorem marked_body_and_footer_fit_frame (output : string) (rep : option string)
    (node_lines : list string) (total_line : string) :
  str_len output <= usize_max ->
  (forall name, rep = Some name -> json_escaped_len name <= 160) ->
  Z.of_nat (length node_lines) <= usize_max ->
  json_escaped_len total_line <= FOOTER_BUDGET_BYTES - 100 ->
  let body := with_marker (compute_result_ceiling output None) rep in
  let footer := bound_footer node_lines total_line in
  json_escaped_len (body +:+ footer) <= MAX_FRAME_BUDGET_BYTES < MAX_TEXT_FRAME_BYTES.
Proof.
  intros Ho Hr Hn Ht. cbn zeta. rewrite json_escaped_len_app.
  pose proof (with_marker_bound output rep Ho Hr).
  pose proof (bound_footer_bound node_lines total_line Hn Ht).
  split; [unfold BODY_BUDGET_BYTES in *; lia|done].
Qed.

Lemma marked_body_and_footer_fit_frame_witness :
  let body := with_marker (compute_result_ceiling "hello" None) (Some "run_pipeline_1.md") in
  let footer := bound_footer ["- a (m): 5ms"; "- b (m): 7ms"] "Total: 12ms" in
  json_escaped_len (body +:+ footer) <= MAX_FRAME_BUDGET_BYTES < MAX_TEXT_FRAME_BYTES.
Proof.
  apply (marked_body_and_footer_fit_frame "hello" (Some "run_pipeline_1.md")
           ["- a (m): 5ms"; "- b (m): 7ms"] "Total: 12ms").
  - by vm_compute.
  - intros name [= <-]. by vm_compute.
  - by vm_compute.
  - by vm_compute.
Defined.

(** ** Declared modes *)

Lemma parse_truncate_cap attr n :
  FidelityMode_parse attr = Some (Truncate n) -> 0 <= n <= MAX_TRUNCATE_CHARS.
Proof.
  intros Hp. unfold FidelityMode_parse in Hp. repeat (case_match; simplify_eq/=).
  - destruct (parse_usize _) as [v|] eqn:Hv; simplify_eq/=.
    apply parse_uint_bounds in Hv. unfold MAX_TRUNCATE_CHARS. lia.
  - destruct (parse_usize _); simplify_eq/=.
Qed.

(** Every mode [FidelityMode::parse] accepts carries a count within its cap,
    and applying a parsed [truncate:n] to a body yields either the body itself, when
    it has at most [n] bytes, or a prefix of at most [n] bytes ending on a char
    boundary followed by the marker; so the result is never longer than the body's
    first [n] bytes plus the 16-byte marker. *)
Theorem truncate_mode_bounds (attr : string) (n : Z) (output : string) :
  FidelityMode_parse attr = Some (Truncate n) ->
  0 <= n <= MAX_TRUNCATE_CHARS /\
  let r := FidelityMode_apply (Truncate n) output in
  str_len r <= Z.min n (str_len output) + 16 /\
  ((str_len output <= n /\ r = output) \/
   (exists k, Z.of_nat k <= n /\ is_char_boundary output k = true /\
              r = str_take k output +:+ TRUNCATED)).
Proof.
  intros [Hn Hmax]%parse_truncate_cap. split; [done|].
  cbn. destruct (str_len output <=? n) eqn:Hle.
  - apply Z.leb_le in Hle. split; [lia|auto].
  - apply Z.leb_gt in Hle. pose proof (floor_boundary_le output (Z.to_nat n)). split.
    + unfold str_len. rewrite length_str_app, length_str_take.
      change (String.length TRUNCATED) with 16%nat. unfold str_len in Hle. lia.
    + right. exists (floor_boundary output (Z.to_nat n)).
      split_and!; [lia|apply floor_boundary_ok|done].
Qed.

Lemma truncate_mode_bounds_witness :
  let r := FidelityMode_apply (Truncate 3) "abcdef" in
  r = "abc" +:+ TRUNCATED /\ str_len r <= 19.
Proof.
  split; [by vm_compute|].
  apply (truncate_mode_bounds " truncate:3" 3 "abcdef"). by vm_compute.
Defined.
