(* ===== verification/Graph.v ===== *)
(** * Pipeline graphs

    Model of [crates/octos-pipeline/src/graph.rs] (and of [TokenUsage] of
    [crates/octos-core/src/task.rs]): the typed pipeline graph, its nodes, edges
    and outcomes, the identifier check, and the three-colour depth-first cycle
    detection, proved sound, complete and terminating. *)

From S2P Require Import Prelude RustStr RustNum Fidelity.

(** ** Data *)

Record TokenUsage := {
  input_tokens : Z;
  output_tokens : Z;
  reasoning_tokens : Z;
  cache_read_tokens : Z;
  cache_write_tokens : Z
}.

Definition TokenUsage_default : TokenUsage := {|
  input_tokens := 0; output_tokens := 0; reasoning_tokens := 0;
  cache_read_tokens := 0; cache_write_tokens := 0 |}.

Inductive HandlerKind :=
| Codergen | Shell | Gate | Noop | Parallel | DynamicParallel | ShellCheck | Notify | Wait.

#[export] Instance HandlerKind_eq_dec : EqDecision HandlerKind.
Proof. solve_decision. Defined.

(** [{:?}], derived. *)
Definition HandlerKind_debug (k : HandlerKind) : string :=
  match k with
  | Codergen => "Codergen" | Shell => "Shell" | Gate => "Gate" | Noop => "Noop"
  | Parallel => "Parallel" | DynamicParallel => "DynamicParallel" | ShellCheck => "ShellCheck"
  | Notify => "Notify" | Wait => "Wait"
  end.

Definition HandlerKind_from_str (s : string) : option HandlerKind :=
  if decide (s = "codergen") then Some Codergen
  else if decide (s = "shell") then Some Shell
  else if decide (s = "shell_check") then Some ShellCheck
  else if decide (s = "gate") then Some Gate
  else if decide (s = "noop") then Some Noop
  else if decide (s = "parallel") then Some Parallel
  else if decide (s = "dynamic_parallel") then Some DynamicParallel
  else None.

Definition HandlerKind_from_shape (shape : string) : option HandlerKind :=
  if decide (shape = "Mdiamond") then Some Noop
  else if decide (shape = "Msquare") then Some Noop
  else if decide (shape = "box") then Some Codergen
  else if decide (shape = "hexagon") then Some Gate
  else if decide (shape = "diamond") then Some Gate
  else if decide (shape = "component") then Some Parallel
  else if decide (shape = "parallelogram") then Some Shell
  else None.

Inductive DeadlineAction :=
| Abort_action
| Skip_action
| Retry_action (max_attempts : Z)
| Escalate_action.

#[export] Instance DeadlineAction_eq_dec : EqDecision DeadlineAction.
Proof. solve_decision. Defined.

Definition DeadlineAction_name (a : DeadlineAction) : string :=
  match a with
  | Abort_action => "abort"
  | Skip_action => "skip"
  | Retry_action _ => "retry"
  | Escalate_action => "escalate"
  end.

Record MissionCheckpoint := { mc_name : string; mc_resumable : bool }.

Record PipelineNode := {
  pn_id : string;
  pn_handler : HandlerKind;
  pn_prompt : option string;
  pn_label : option string;
  pn_model : option string;
  pn_context_window : option Z;
  pn_max_output_tokens : option Z;
  pn_reasoning_effort : option string;
  pn_max_iterations : option Z;
  pn_tools : list string;
  pn_goal_gate : bool;
  pn_max_retries : Z;
  pn_timeout_secs : option Z;
  pn_suggested_next : option string;
  pn_converge : option string;
  pn_worker_prompt : option string;
  pn_planner_model : option string;
  pn_max_tasks : option Z;
  pn_human_gate : bool;
  pn_resolver : option string;
  pn_artifact_refs : list string;
  pn_checkpoint_refs : list string;
  pn_deadline_secs : option f64;
  pn_deadline_action : option DeadlineAction;
  pn_continue_on_error : bool;
  pn_checkpoints : list MissionCheckpoint
}.

(** [PipelineNode { id, ..Default::default() }]. *)
Definition PipelineNode_default (id : string) : PipelineNode := {|
  pn_id := id; pn_handler := Codergen; pn_prompt := None; pn_label := None;
  pn_model := None; pn_context_window := None; pn_max_output_tokens := None;
  pn_reasoning_effort := None; pn_max_iterations := None; pn_tools := [];
  pn_goal_gate := false; pn_max_retries := 0; pn_timeout_secs := None;
  pn_suggested_next := None; pn_converge := None; pn_worker_prompt := None;
  pn_planner_model := None; pn_max_tasks := None; pn_human_gate := false;
  pn_resolver := None; pn_artifact_refs := []; pn_checkpoint_refs := [];
  pn_deadline_secs := None; pn_deadline_action := None;
  pn_continue_on_error := false; pn_checkpoints := [] |}.

Record PipelineEdge := {
  pe_source : string;
  pe_target : string;
  pe_label : option string;
  pe_condition : option string;
  pe_weight : f64
}.

Record Subgraph := { sg_id : string; sg_label : option string; sg_node_ids : list string }.

Record PipelineGraph := {
  pg_id : string;
  pg_label : option string;
  pg_default_model : option string;
  pg_max_total_tokens : option Z;
  pg_default_timeout_secs : option Z;
  pg_result_fidelity : option FidelityMode;
  pg_nodes : gmap string PipelineNode;
  pg_edges : list PipelineEdge;
  pg_subgraphs : list Subgraph
}.

Inductive OutcomeStatus := Pass | Fail | Error | Skipped.

#[export] Instance OutcomeStatus_eq_dec : EqDecision OutcomeStatus.
Proof. solve_decision. Defined.

Record NodeOutcome := {
  no_node_id : string;
  no_status : OutcomeStatus;
  no_content : string;
  no_token_usage : TokenUsage;
  no_files_modified : list string
}.

Record NodeSummary := {
  ns_node_id : string;
  ns_label : string;
  ns_model : option string;
  ns_token_usage : TokenUsage;
  ns_duration_ms : Z;
  ns_success : bool
}.

(** ** Identifiers *)

Definition validate_pipeline_id (id : string) : result report unit :=
  if decide (id = "") then bail "pipeline identifier must not be empty"
  else if (128 <? Z.of_nat (String.length id))%Z then
    bail ("pipeline identifier too long (max 128 chars): " +:+ of_chars (take 32 (chars id)))
  else if contains id "/" || contains id "\" || contains id (String "000" "") || contains id ".."
  then bail ("pipeline identifier contains unsafe characters: " +:+ id)
  else if existsb (fun c => is_control c.1) (chars id)
  then bail ("pipeline identifier contains control characters: " +:+ id)
  else Ok tt.

(** ** Adjacency lists

    [adj.entry(source).or_default().push(target)] over the edges, in order. *)

Definition adj_push (adj : gmap string (list string)) (e : PipelineEdge) : gmap string (list string) :=
  <[pe_source e := default [] (adj !! pe_source e) ++ [pe_target e]]> adj.

Definition build_adj (edges : list PipelineEdge) : gmap string (list string) :=
  foldl adj_push ∅ edges.

Definition adj_get (adj : gmap string (list string)) (n : string) : list string :=
  default [] (adj !! n).

(** ** Three-colour depth-first search *)

Record dfs_state := {
  white : gset string;
  gray : gset string;
  black : gset string;
  path : list string
}.

(** [path.iter().position(|&n| n == next).unwrap_or(0)]. *)
Definition position_or_0 (next : string) (p : list string) : nat :=
  default 0 (fst <$> list_find (fun n => n = next) p).

Definition cycle_of (p : list string) (next : string) : list string :=
  drop (position_or_0 next p) p ++ [next].

Definition cycle_message (c : list string) : string :=
  "cycle detected: " +:+ String.concat " -> " c.

(** The [for &next in neighbors] loop; [rec] is the recursive call. *)
Fixpoint dfs_neighbors (rec : string -> dfs_state -> option (result string dfs_state))
    (ns : list string) (st : dfs_state) : option (result string dfs_state) :=
  match ns with
  | [] => Some (Ok st)
  | next :: ns =>
      if decide (next ∈ black st) then dfs_neighbors rec ns st
      else if decide (next ∈ gray st) then
        Some (Err (cycle_message (cycle_of (path st) next)))
      else
        match rec next st with
        | Some (Ok st') => dfs_neighbors rec ns st'
        | r => r
        end
  end.

Definition dfs_enter (node : string) (st : dfs_state) : dfs_state :=
  {| white := white st ∖ {[node]}; gray := {[node]} ∪ gray st; black := black st;
     path := path st ++ [node] |}.

Definition dfs_leave (node : string) (st : dfs_state) : dfs_state :=
  {| white := white st; gray := gray st ∖ {[node]}; black := {[node]} ∪ black st;
     path := removelast (path st) |}.

(** [None] when the fuel runs out. *)
Fixpoint dfs (fuel : nat) (adj : gmap string (list string)) (node : string) (st : dfs_state)
  : option (result string dfs_state) :=
  match fuel with
  | O => None
  | S fuel =>
      match dfs_neighbors (dfs fuel adj) (adj_get adj node) (dfs_enter node st) with
      | Some (Ok st') => Some (Ok (dfs_leave node st'))
      | r => r
      end
  end.

(** The outer loop; [todo] is its test ([white.contains(node)] in graph.rs and validate.rs,
    [!black.contains(node)] in compose.rs). *)
Fixpoint dfs_all (todo : dfs_state -> string -> bool) (fuel : nat) (adj : gmap string (list string))
    (all_nodes : list string) (st : dfs_state) : option (result string dfs_state) :=
  match all_nodes with
  | [] => Some (Ok st)
  | node :: rest =>
      if todo st node then
        match dfs fuel adj node st with
        | Some (Ok st') => dfs_all todo fuel adj rest st'
        | r => r
        end
      else dfs_all todo fuel adj rest st
  end.

(** Depth of the search: every frame holds a distinct node of the graph or target
    of an edge. *)
Definition dfs_fuel (g : PipelineGraph) : nat := S (size (pg_nodes g) + length (pg_edges g)).

Section detect.
Context `{HashIter}.

(** The copies of the search in the sources start from the same state and visit the nodes
    in hash-map order ([white] is only read by [todo]). *)
Definition detect_cycles_by (todo : dfs_state -> string -> bool) (g : PipelineGraph)
    (adj : gmap string (list string)) : option (result string unit) :=
  let st := {| white := dom (pg_nodes g); gray := ∅; black := ∅; path := [] |} in
  match dfs_all todo (dfs_fuel g) adj (hm_keys (pg_nodes g)) st with
  | Some (Ok _) => Some (Ok tt)
  | Some (Err e) => Some (Err e)
  | None => None
  end.

Definition detect_cycles_on : PipelineGraph -> gmap string (list string) -> option (result string unit) :=
  detect_cycles_by (fun st node => bool_decide (node ∈ white st)).

Definition detect_cycles (g : PipelineGraph) : option (result string unit) :=
  detect_cycles_on g (build_adj (pg_edges g)).
End detect.

(** ** Lemmas on adjacency *)

Lemma adj_get_push adj e n :
  adj_get (adj_push adj e) n =
  adj_get adj n ++ (if decide (pe_source e = n) then [pe_target e] else []).
Proof.
  unfold adj_get, adj_push. rewrite lookup_insert. case_decide; subst; [done|].
  by rewrite app_nil_r.
Qed.

Definition targets_from (n : string) (edges : list PipelineEdge) : list string :=
  pe_target <$> filter (fun e => pe_source e = n) edges.

Lemma adj_get_build edges n : adj_get (build_adj edges) n = targets_from n edges.
Proof.
  unfold build_adj.
  assert (H : forall adj, adj_get (foldl adj_push adj edges) n
                          = adj_get adj n ++ targets_from n edges).
  { induction edges as [|e es IH]; intros adj; [by rewrite app_nil_r|].
    cbn [foldl]. rewrite IH, adj_get_push, <- app_assoc. f_equal.
    unfold targets_from. rewrite filter_cons. by case_decide. }
  by rewrite H.
Qed.

Lemma elem_of_targets_from n m edges :
  m ∈ targets_from n edges <->
  exists e, e ∈ edges /\ pe_source e = n /\ pe_target e = m.
Proof.
  unfold targets_from. rewrite list_elem_of_fmap. setoid_rewrite list_elem_of_filter.
  naive_solver.
Qed.

(** ** Correctness of the search *)

Section dfs_correct.
Variable adj : gmap string (list string).

(** [arc x y]: the search may step from [x] to [y]. *)
Definition arc (x y : string) : Prop := y ∈ adj_get adj x.

(** A closed walk [a -> ... -> a] of at least one arc. *)
Definition is_cycle (c : list string) : Prop :=
  exists a p, c = (a :: p) ++ [a] /\
    forall i x y, c !! i = Some x -> c !! S i = Some y -> arc x y.

(** No infinite walk starts at [n]. *)
Definition arc_acc (n : string) : Prop := Acc (fun y x => arc x y) n.

Lemma arc_acc_no_cycle n : arc_acc n -> ~ tc arc n n.
Proof.
  intros Hacc. induction Hacc as [n _ IH]. intros Hc.
  assert (Hstep : exists m, arc n m /\ rtc arc m n).
  { inversion Hc; subst; [by exists n|]. eexists; split; [done|]. by apply tc_rtc. }
  destruct Hstep as (m & Hnm & Hmn). apply (IH m Hnm).
  eapply tc_rtc_l; [exact Hmn|]. by apply tc_once.
Qed.

(** What a finished search of [node] leaves behind. *)
Definition frame (st st' : dfs_state) : Prop :=
  gray st' = gray st /\ path st' = path st /\ black st ⊆ black st' /\
  white st ⊆ white st' ∪ black st'.

Definition all_acc (st : dfs_state) : Prop := forall b, b ∈ black st -> arc_acc b.

Definition rec_spec (rec : string -> dfs_state -> option (result string dfs_state)) : Prop :=
  forall node st st', node ∉ gray st -> rec node st = Some (Ok st') ->
    frame st st' /\ node ∈ black st' /\ (all_acc st -> all_acc st').

Lemma frame_refl st : frame st st.
Proof. unfold frame. set_solver. Qed.

Lemma frame_trans st1 st2 st3 : frame st1 st2 -> frame st2 st3 -> frame st1 st3.
Proof. unfold frame. intros (?&?&?&?) (?&?&?&?). split_and!; [congruence..|set_solver|set_solver]. Qed.

Lemma dfs_neighbors_Ok rec ns st st' :
  rec_spec rec -> dfs_neighbors rec ns st = Some (Ok st') ->
  frame st st' /\ (forall n, n ∈ ns -> n ∈ black st') /\ (all_acc st -> all_acc st').
Proof.
  intros Hrec. revert st; induction ns as [|n ns IH]; cbn; intros st Hd.
  { simplify_eq. split_and!; [apply frame_refl|set_solver|done]. }
  destruct (decide (n ∈ black st)) as [Hb|Hb].
  - apply IH in Hd as (Hf & Hin & Ha). destruct Hf as (?&?&Hsub&?).
    split_and!; [done..|set_solver|done].
  - case_decide as Hg; [done|]. destruct (rec n st) as [[st1|]|] eqn:Hr; [|done..].
    apply Hrec in Hr as (Hf1 & Hn & Ha1); [|done].
    apply IH in Hd as (Hf2 & Hin & Ha2). destruct Hf2 as (?&?&Hsub&?) eqn:E2.
    split_and!; [by eapply frame_trans|set_solver|auto].
Qed.

Lemma dfs_spec fuel : rec_spec (dfs fuel adj).
Proof.
  induction fuel as [|fuel IH]; intros node st st' Hng Hd; [done|]. cbn in Hd.
  destruct (dfs_neighbors _ _ _) as [[st1|]|] eqn:Hn; simplify_eq.
  apply dfs_neighbors_Ok in Hn as ((Hg & Hp & Hb & Hw) & Hin & Ha); [|done].
  unfold dfs_enter in *; cbn in *. split_and!.
  - unfold frame, dfs_leave; cbn. rewrite Hg, Hp.
    split_and!; [set_solver|apply removelast_last|set_solver|].
    intros x Hx. destruct (decide (x = node)); set_solver.
  - unfold dfs_leave. set_solver.
  - intros Hst b. unfold dfs_leave; cbn. rewrite elem_of_union, elem_of_singleton.
    assert (Hst1 : all_acc st1) by (apply Ha; done). intros [->|Hb']; [|by apply Hst1].
    constructor. intros y Hy. by apply Hst1, Hin.
Qed.

(** *** An error names a cycle *)

Definition walk (l : list string) : Prop :=
  forall i x y, l !! i = Some x -> l !! S i = Some y -> arc x y.

Lemma walk_snoc l x y : walk (l ++ [x]) -> arc x y -> walk ((l ++ [x]) ++ [y]).
Proof.
  intros Hw Hxy i a b Ha Hb.
  destruct (decide (S i < length (l ++ [x]))) as [Hlt|Hge].
  - rewrite lookup_app_l in Ha, Hb by lia. by eapply Hw.
  - assert (S i = length (l ++ [x])) as Hi.
    { apply lookup_lt_Some in Hb. rewrite length_app in Hb. cbn in Hb. lia. }
    rewrite Hi, list_lookup_middle in Hb by done. simplify_eq.
    rewrite length_app in Hi. cbn in Hi. assert (i = length l) as -> by lia.
    rewrite <- app_assoc in Ha. change ([x] ++ [b]) with (x :: [b]) in Ha.
    rewrite list_lookup_middle in Ha by done. by simplify_eq.
Qed.

Lemma walk_drop k l : walk l -> walk (drop k l).
Proof.
  intros Hw i x y. rewrite !lookup_drop. rewrite Nat.add_succ_r. apply Hw.
Qed.

(** The search state before [node] is entered: the path leads to [node] and holds
    exactly the gray nodes. *)
Definition path_inv (node : string) (st : dfs_state) : Prop :=
  walk (path st ++ [node]) /\ (forall x, x ∈ gray st -> x ∈ path st).

Lemma cycle_of_is_cycle p node next :
  walk (p ++ [node]) -> arc node next -> next ∈ p ++ [node] ->
  is_cycle (cycle_of (p ++ [node]) next).
Proof.
  intros Hw Harc Hin. unfold cycle_of, position_or_0.
  destruct (list_find _ _) as [[i x]|] eqn:Hf.
  - cbn. apply list_find_Some in Hf as (Hi & -> & _).
    assert (Hd : drop i (p ++ [node]) = next :: drop (S i) (p ++ [node]))
      by (by apply drop_S).
    exists next, (drop (S i) (p ++ [node])). split; [by rewrite Hd|].
    change (walk (drop i (p ++ [node]) ++ [next])).
    assert (Hdrop : drop i (p ++ [node]) ++ [next] = drop i ((p ++ [node]) ++ [next])).
    { rewrite (drop_app_le (p ++ [node])); [done|]. apply lookup_lt_Some in Hi. lia. }
    rewrite Hdrop. by apply walk_drop, walk_snoc.
  - exfalso. rewrite list_find_None, Forall_forall in Hf. by eapply Hf.
Qed.

Definition rec_err (rec : string -> dfs_state -> option (result string dfs_state)) : Prop :=
  forall node st e, node ∉ gray st -> path_inv node st -> rec node st = Some (Err e) ->
    exists c, is_cycle c /\ e = cycle_message c.

Lemma dfs_neighbors_Err rec node p ns st e :
  rec_spec rec -> rec_err rec ->
  (forall n, n ∈ ns -> arc node n) ->
  path st = p ++ [node] -> walk (path st) -> (forall x, x ∈ gray st -> x ∈ path st) ->
  dfs_neighbors rec ns st = Some (Err e) ->
  exists c, is_cycle c /\ e = cycle_message c.
Proof.
  intros Hrec Herr. revert st; induction ns as [|n ns IH]; cbn; intros st Harc Hp Hw Hg Hd; [done|].
  case_decide as Hb; [apply (IH st); auto; set_solver|]. case_decide as Hgray.
  - simplify_eq. eexists; split; [|done]. rewrite Hp in *.
    apply cycle_of_is_cycle; [done|apply Harc; set_solver|auto].
  - assert (Hn : arc node n) by (apply Harc; set_solver).
    destruct (rec n st) as [[st1|]|] eqn:Hr; simplify_eq.
    + apply Hrec in Hr as ((Hg1 & Hp1 & _) & _ & _); [|done].
      apply (IH st1); rewrite ?Hp1, ?Hg1; auto; set_solver.
    + apply (Herr n st); [done| |done]. split; [|done].
      rewrite Hp in *. by apply walk_snoc.
Qed.

Lemma dfs_err fuel : rec_err (dfs fuel adj).
Proof.
  induction fuel as [|fuel IH]; intros node st e Hng [Hw Hg] Hd; [done|]. cbn in Hd.
  destruct (dfs_neighbors _ _ _) as [[st1|]|] eqn:Hn; simplify_eq.
  eapply dfs_neighbors_Err in Hn; eauto using dfs_spec; cbn. set_solver.
Qed.

(** *** The fuel suffices *)

Section fuel.
Variable V : gset string.
Hypothesis V_closed : forall x y, x ∈ V -> arc x y -> y ∈ V.

Definition rec_total (rec : string -> dfs_state -> option (result string dfs_state)) (k : nat) : Prop :=
  forall node st, node ∈ V -> node ∉ gray st -> size (V ∖ gray st) <= k -> rec node st <> None.

Lemma dfs_neighbors_total rec k ns st :
  rec_spec rec -> rec_total rec k -> (forall n, n ∈ ns -> n ∈ V) ->
  size (V ∖ gray st) <= k -> dfs_neighbors rec ns st <> None.
Proof.
  intros Hrec Htot. revert st; induction ns as [|n ns IH]; cbn; intros st HV Hk; [done|].
  case_decide; [apply IH; [set_solver|done]|]. case_decide; [done|].
  destruct (rec n st) as [[st1|]|] eqn:Hr; [|done|].
  - apply IH; [set_solver|]. apply Hrec in Hr as ((-> & _) & _ & _); done.
  - exfalso. eapply (Htot n st); [|done|done|done]. apply HV. set_solver.
Qed.

Lemma dfs_total fuel : rec_total (dfs fuel adj) fuel.
Proof.
  induction fuel as [|fuel IH]; intros node st HV Hng Hk.
  - assert (V ∖ gray st ≡ ∅) as He by (apply size_empty_inv; lia). set_solver.
  - cbn. destruct (dfs_neighbors _ _ _) as [[st1|]|] eqn:Hn; [done|done|].
    exfalso. eapply (dfs_neighbors_total (dfs fuel adj) fuel); eauto using dfs_spec.
    cbn. assert (size (V ∖ ({[node]} ∪ gray st)) < size (V ∖ gray st)); [|lia].
    apply subset_size. split; [set_solver|]. intros Hsub. set_solver.
Qed.
End fuel.
End dfs_correct.

(** ** The whole detection *)

Definition edge (g : PipelineGraph) (x y : string) : Prop :=
  exists e, e ∈ pg_edges g /\ pe_source e = x /\ pe_target e = y.

Lemma tc_walk_start {A} (R : relation A) (a : A) (p : list A) (b : A) :
  (forall i x y, (a :: p ++ [b]) !! i = Some x -> (a :: p ++ [b]) !! S i = Some y -> R x y) ->
  tc R a b.
Proof.
  revert a; induction p as [|c p IH]; intros a Hw; cbn in *.
  - apply tc_once. by apply (Hw 0).
  - eapply tc_l; [by apply (Hw 0)|]. apply IH. intros i x y Hx Hy. by apply (Hw (S i)).
Qed.

Lemma is_cycle_tc adj c : is_cycle adj c -> exists a, tc (arc adj) a a.
Proof. intros (a & p & -> & Hw). exists a. by apply (tc_walk_start (arc adj) a p a). Qed.

Lemma arc_acc_rtc adj n m : arc_acc adj n -> rtc (arc adj) n m -> arc_acc adj m.
Proof. intros Hn Hr. induction Hr; [done|]. apply IHHr. by destruct Hn as [Hn]; apply Hn. Qed.

Section detect_correct.
Context `{HI : HashIter}.
Variables (g : PipelineGraph) (adj : gmap string (list string)).
Hypothesis adj_edges : forall x y, arc adj x y -> exists e, e ∈ pg_edges g /\ pe_target e = y.

Definition vertices : gset string :=
  dom (pg_nodes g) ∪ list_to_set (pe_target <$> pg_edges g).

Lemma size_vertices : size vertices < dfs_fuel g.
Proof.
  unfold vertices, dfs_fuel. pose proof (size_union_alt (dom (pg_nodes g))
    (list_to_set (pe_target <$> pg_edges g))) as Hs. rewrite Hs, size_dom.
  assert (size (list_to_set (pe_target <$> pg_edges g) ∖ dom (pg_nodes g) : gset string)
          <= length (pg_edges g)); [|lia].
  etrans; [apply (subseteq_size _ (list_to_set (pe_target <$> pg_edges g))); set_solver|].
  etrans; [apply size_list_to_set_le|]. by rewrite length_fmap.
Qed.

Lemma arc_vertices x y : arc adj x y -> y ∈ vertices.
Proof.
  intros (e & He & <-)%adj_edges. unfold vertices. apply elem_of_union_r, elem_of_list_to_set.
  apply list_elem_of_fmap. eauto.
Qed.

Definition between (st : dfs_state) : Prop :=
  gray st = ∅ /\ path st = [] /\ all_acc adj st.

(** [todo] skips only visited nodes: [cover] is what it needs to know of a node, and a
    finished search keeps it. *)
Variables (todo : dfs_state -> string -> bool) (cover : dfs_state -> string -> Prop).
Hypothesis todo_black : forall st n, cover st n -> todo st n = false -> n ∈ black st.
Hypothesis cover_frame : forall st st' n, frame st st' -> cover st n -> cover st' n.
Hypothesis cover_init : forall n, n ∈ dom (pg_nodes g) ->
  cover {| white := dom (pg_nodes g); gray := ∅; black := ∅; path := [] |} n.

Lemma dfs_all_mono ns st st' : between st ->
  dfs_all todo (dfs_fuel g) adj ns st = Some (Ok st') -> black st ⊆ black st'.
Proof.
  revert st st'; induction ns as [|n ns IH]; cbn [dfs_all];
    intros st st' (Hg & Hp & Ha) Hd; [by simplify_eq|]. destruct (todo st n); [|by eapply IH].
  destruct (dfs (dfs_fuel g) adj n st) as [[st1|]|] eqn:Hr; simplify_eq.
  apply dfs_spec in Hr as ((Hg1 & Hp1 & Hb1 & Hw1) & Hn & Ha1); [|set_solver].
  etrans; [done|]. eapply IH; [|done]. split_and!; [congruence..|auto].
Qed.

Lemma dfs_all_spec ns st :
  between st -> (forall n, n ∈ ns -> n ∈ vertices /\ cover st n) ->
  match dfs_all todo (dfs_fuel g) adj ns st with
  | None => False
  | Some (Ok st') => between st' /\ forall n, n ∈ ns -> n ∈ black st'
  | Some (Err e) => exists c, is_cycle adj c /\ e = cycle_message c
  end.
Proof.
  revert st; induction ns as [|n ns IH]; intros st Hst Hns; cbn [dfs_all];
    [split; [done|set_solver]|].
  destruct Hst as (Hg & Hp & Ha). destruct (todo st n) eqn:Hw.
  - destruct (dfs (dfs_fuel g) adj n st) as [[st1|e]|] eqn:Hr.
    + pose proof (dfs_spec adj (dfs_fuel g) n st st1 ltac:(set_solver) Hr) as (Hframe & Hn & Ha1).
      assert (Hst1 : between st1) by (destruct Hframe as (Hg1 & Hp1 & _); split_and!; [congruence..|auto]).
      assert (Hns1 : forall n, n ∈ ns -> n ∈ vertices /\ cover st1 n).
      { intros m Hm. destruct (Hns m) as [? ?]; [by right|]. eauto. }
      specialize (IH st1 Hst1 Hns1).
      destruct (dfs_all _ _ _ ns st1) as [[st2|]|] eqn:Hd; [|done..].
      destruct IH as [Hbt Hin]. split; [done|].
      pose proof (dfs_all_mono _ _ _ Hst1 Hd). set_solver.
    + eapply dfs_err; [|split|exact Hr]; [set_solver| |set_solver].
      rewrite Hp. intros [|i] x y ??; [done|]. by destruct i.
    + exfalso. eapply (dfs_total adj vertices); [|apply Hns; left| |  |exact Hr].
      * intros ????. by eapply arc_vertices.
      * set_solver.
      * pose proof size_vertices. etrans; [apply subseteq_size|]; [|apply Nat.lt_le_incl; eassumption].
        set_solver.
  - assert (Hb : n ∈ black st) by (apply todo_black; [apply Hns; left|done]).
    specialize (IH st ltac:(done) ltac:(set_solver)).
    destruct (dfs_all _ _ _ ns st) as [[st2|]|] eqn:Hd; [|done..].
    destruct IH as [Hbt Hin]. split; [done|].
    assert (Hsub : black st ⊆ black st2) by (eapply dfs_all_mono; [|exact Hd]; done). set_solver.
Qed.

Lemma detect_cycles_by_spec :
  match detect_cycles_by todo g adj with
  | None => False
  | Some (Ok _) => forall n, n ∈ dom (pg_nodes g) -> arc_acc adj n
  | Some (Err e) => exists c, is_cycle adj c /\ e = cycle_message c
  end.
Proof.
  unfold detect_cycles_by.
  pose proof (dfs_all_spec (hm_keys (pg_nodes g))
    {| white := dom (pg_nodes g); gray := ∅; black := ∅; path := [] |}) as H.
  assert (Hb : between {| white := dom (pg_nodes g); gray := ∅; black := ∅; path := [] |}).
  { split_and!; [done..|]. intros b. cbn. set_solver. }
  assert (Hc : forall n, n ∈ hm_keys (pg_nodes g) -> n ∈ vertices /\
    cover {| white := dom (pg_nodes g); gray := ∅; black := ∅; path := [] |} n).
  { intros n Hn%elem_of_hm_keys%elem_of_dom. split; [unfold vertices; set_solver|auto]. }
  specialize (H Hb Hc). destruct (dfs_all _ _ _ _ _) as [[st|]|]; [|done..].
  destruct H as [(_ & _ & Ha) Hin]. intros n Hn. apply Ha, Hin. by apply elem_of_hm_keys, elem_of_dom.
Qed.
End detect_correct.

Lemma detect_cycles_on_spec `{HashIter} (g : PipelineGraph) (adj : gmap string (list string)) :
  (forall x y, arc adj x y -> exists e, e ∈ pg_edges g /\ pe_target e = y) ->
  match detect_cycles_on g adj with
  | None => False
  | Some (Ok _) => forall n, n ∈ dom (pg_nodes g) -> arc_acc adj n
  | Some (Err e) => exists c, is_cycle adj c /\ e = cycle_message c
  end.
Proof.
  intros Hadj. apply (detect_cycles_by_spec g adj Hadj _ (fun st n => n ∈ white st ∪ black st)).
  - intros st n Hn Hw%bool_decide_eq_false. set_solver.
  - intros st st' n (_ & _ & Hb & Hw). set_solver.
  - intros n Hn. cbn. set_solver.
Qed.

Lemma arc_build_adj g x y : arc (build_adj (pg_edges g)) x y <-> edge g x y.
Proof. unfold arc, edge. by rewrite adj_get_build, elem_of_targets_from. Qed.

Lemma tc_arc_edge g x y : tc (arc (build_adj (pg_edges g))) x y <-> tc (edge g) x y.
Proof. split; apply tc_congruence with (f := id); intros ??; by apply arc_build_adj. Qed.

Lemma rtc_edge_arc g x y : rtc (edge g) x y -> rtc (arc (build_adj (pg_edges g))) x y.
Proof. apply rtc_congruence with (f := id). intros ??. by apply arc_build_adj. Qed.

(**  [PipelineGraph::detect_cycles], for every hash-map iteration order: the
    search terminates within its depth bound; [Ok] means that no cycle is reachable
    from any declared node; an error message spells out a closed walk along edges of
    the graph; and when every edge leaves a declared node, the verdict is [Ok]
    exactly on acyclic graphs. *)
Theorem detect_cycles_correct `{HashIter} (g : PipelineGraph) :
  exists r, detect_cycles g = Some r /\
    (r = Ok tt -> forall n m, n ∈ dom (pg_nodes g) -> rtc (edge g) n m -> ~ tc (edge g) m m) /\
    (forall msg, r = Err msg ->
       exists a p, msg = cycle_message (a :: p ++ [a]) /\
         forall i x y, (a :: p ++ [a]) !! i = Some x -> (a :: p ++ [a]) !! S i = Some y ->
           edge g x y) /\
    ((forall e, e ∈ pg_edges g -> is_Some (pg_nodes g !! pe_source e)) ->
       r = Ok tt <-> forall n, ~ tc (edge g) n n).
Proof.
  set (adj := build_adj (pg_edges g)).
  pose proof (detect_cycles_on_spec g adj) as Hspec.
  unfold detect_cycles. fold adj.
  destruct (detect_cycles_on g adj) as [[[]|msg]|].
  - exists (Ok tt).
    assert (Hacc : forall n, n ∈ dom (pg_nodes g) -> arc_acc adj n).
    { apply Hspec. intros x y (e & He & _ & <-)%arc_build_adj. eauto. }
    split_and!; [done| |done|].
    + intros _ n m Hn Hr Hc. apply (arc_acc_no_cycle adj m).
      * eapply arc_acc_rtc; [by apply Hacc|]. by apply rtc_edge_arc.
      * by apply tc_arc_edge.
    + intros Hsrc. split; [|done]. intros _ n Hc. apply (arc_acc_no_cycle adj n).
      * apply Hacc, elem_of_dom. inversion Hc as [?? (e & He & <- & _)|??? (e & He & <- & _)]; subst; eauto.
      * by apply tc_arc_edge.
  - exists (Err msg). destruct Hspec as (c & Hc & ->).
    { intros x y (e & He & _ & <-)%arc_build_adj. eauto. }
    split_and!; [done|done| |].
    + intros ? [= <-]. destruct Hc as (a & p & -> & Hw). exists a, p. split; [done|].
      intros i x y Hx Hy. apply arc_build_adj. by apply (Hw i).
    + intros _. split; [done|]. intros Hno. exfalso. apply is_cycle_tc in Hc as [a Ha].
      by apply (Hno a), tc_arc_edge.
  - exfalso. apply Hspec. intros x y (e & He & _ & <-)%arc_build_adj. eauto.
Qed.

(** An identifier [validate_pipeline_id] accepts is a single safe path
    component: between 1 and 128 bytes, with no separator, no NUL, no parent
    reference and no control character. *)
Theorem validate_pipeline_id_safe (id : string) :
  validate_pipeline_id id = Ok tt ->
  (0 < String.length id <= 128) /\
  (forall bad, bad ∈ ["/"; "\"; String "000" ""; ".."] -> ~ exists l r, id = l +:+ bad +:+ r) /\
  (forall c, c ∈ chars id -> is_control c.1 = false).
Proof.
  unfold validate_pipeline_id. case_decide as Hne; [done|].
  destruct (128 <? _)%Z eqn:Hlen; [done|]. apply Z.ltb_ge in Hlen.
  destruct (_ || _) eqn:Hbad; [done|]. bool_to_prop.
  destruct (existsb _ _) eqn:Hctl; [done|]. intros _. split_and!.
  - destruct id; [done|]. cbn. lia.
  - lia.
  - intros bad Hin Hex. apply contains_spec in Hex.
    rewrite !elem_of_cons in Hin. destruct_or! Hin; [congruence..|set_solver].
  - intros c Hc. apply not_true_iff_false. intros Ht.
    apply not_true_iff_false in Hctl. apply Hctl, existsb_exists.
    exists c. by rewrite <- list_elem_of_In.
Qed.

Lemma validate_pipeline_id_safe_witness :
  (0 < String.length "run-42" <= 128) /\
  (forall bad, bad ∈ ["/"; "\"; String "000" ""; ".."] -> ~ exists l r, "run-42" = l +:+ bad +:+ r) /\
  (forall c, c ∈ chars "run-42" -> is_control c.1 = false).
Proof. apply (validate_pipeline_id_safe "run-42"). by vm_compute. Defined.
