(* ===== verification/Condition.v ===== *)
(** * Edge conditions

    Model of [crates/octos-pipeline/src/condition.rs]: the tokenizer, the
    recursive-descent parser and the evaluator of the expressions that guard
    edges.  Both loops carry a fuel; [None] is "out of fuel", and the fuel the entry
    points pass is proved sufficient.  A printer with minimal parentheses gives a
    round trip. *)

From S2P Require Import Prelude RustStr RustNum Fidelity Graph.

(** [Debug] of a [str], [Display] of an [f64] and [Debug] of a [Duration] (in
    nanoseconds) are formatting routines of the Rust library; messages are generic in
    them. *)
Class RustFmt := {
  str_debug : string -> string;
  f64_display : f64 -> string;
  duration_debug : Z -> string
}.

(** ** Expressions and their evaluation *)

Inductive CondExpr :=
| StatusEq (s : string)
| StatusNe (s : string)
| Contains (s : string)
| ContextEq (key val : string)
| ContextNe (key val : string)
| Not (e : CondExpr)
| And (a b : CondExpr)
| Or (a b : CondExpr)
| CTrue.

Definition status_str (o : NodeOutcome) : string :=
  match no_status o with
  | Pass => "pass"
  | Fail => "fail"
  | Error => "error"
  | Skipped => "skipped"
  end.

Fixpoint evaluate_with_context (expr : CondExpr) (o : NodeOutcome) (ctx : gmap string string) : bool :=
  match expr with
  | StatusEq s => bool_decide (status_str o = s)
  | StatusNe s => bool_decide (status_str o <> s)
  | Contains s => contains (no_content o) s
  | ContextEq key val => from_option (fun v => bool_decide (v = val)) false (ctx !! key)
  | ContextNe key val => from_option (fun v => bool_decide (v <> val)) true (ctx !! key)
  | Not inner => negb (evaluate_with_context inner o ctx)
  | And a b => evaluate_with_context a o ctx && evaluate_with_context b o ctx
  | Or a b => evaluate_with_context a o ctx || evaluate_with_context b o ctx
  | CTrue => true
  end.

Definition evaluate (expr : CondExpr) (o : NodeOutcome) : bool := evaluate_with_context expr o ∅.

(** ** Tokens *)

Inductive Token :=
| TIdent (s : string)
| TStringLit (s : string)
| TEq | TNe | TAnd | TOr | TNot | TLParen | TRParen | TDot.

#[export] Instance Token_eq_dec : EqDecision Token.
Proof. solve_decision. Defined.

(** [c as char] for a byte: the scalar U+0000 to U+00FF. *)
Definition byte_as_char (b : ascii) : string :=
  let n := byte_val b in
  if (n <? 128)%N then String b ""
  else String (ascii_of_N (N.lor 192 (N.shiftr n 6)))
         (String (ascii_of_N (N.lor 128 (N.land n 63))) "").

Definition is_ident_byte (b : ascii) : bool :=
  is_ascii_alphanumeric (byte_val b) || bool_decide (b = "_"%char).

(** The run of identifier bytes at the head of the input and what follows. *)
Fixpoint span_ident (s : string) : string * string :=
  match s with
  | EmptyString => ("", "")
  | String b s' =>
      if is_ident_byte b then let '(id, r) := span_ident s' in (String b id, r) else ("", s)
  end.

(** The body of a string literal: the decoded bytes, and the rest of the input
    starting at the closing quote (empty when there is none). *)
Fixpoint scan_string (s : string) : string * string :=
  match s with
  | EmptyString => ("", "")
  | String b s' =>
      if decide (b = DQ) then ("", s)
      else
        match s' with
        | String c s'' =>
            if decide (b = "\"%char) then
              let '(buf, rest) := scan_string s'' in
              (if decide (c = "n"%char) then String NL buf
               else if decide (c = "t"%char) then String "009" buf
               else if decide (c = "\"%char) then String "\" buf
               else if decide (c = DQ) then String DQ buf
               else String "\" (String c buf), rest)
            else let '(buf, rest) := scan_string s' in (String b buf, rest)
        | EmptyString => (String b "", "")
        end
  end.

Definition skip_quote (s : string) : string :=
  match s with String _ s' => s' | EmptyString => "" end.

(** Two-byte operators: the guard [i + 1 < len && bytes[i + 1] == c]. *)
Definition followed_by (c : ascii) (s : string) : option string :=
  match s with
  | String b s' => if decide (b = c) then Some s' else None
  | EmptyString => None
  end.

(** One turn of the [while] loop: the token (if any) and the rest, or an error;
    [i] is the position of the byte [b]. *)
Definition lex_step (i : nat) (b : ascii) (s : string) : result report (option Token * string) :=
  let one t := Ok (Some t, s) in
  if decide (b = " "%char \/ b = "009"%char \/ b = NL \/ b = CR) then Ok (None, s)
  else if decide (b = "("%char) then one TLParen
  else if decide (b = ")"%char) then one TRParen
  else if decide (b = "."%char) then one TDot
  else
    let bad := bail ("unexpected character '" +:+ byte_as_char b +:+ "' at position " +:+ pretty i) in
    if decide (b = "="%char) then
      match followed_by "=" s with Some s' => Ok (Some TEq, s') | None => bad end
    else if decide (b = "!"%char) then
      match followed_by "=" s with Some s' => Ok (Some TNe, s') | None => one TNot end
    else if decide (b = "&"%char) then
      match followed_by "&" s with Some s' => Ok (Some TAnd, s') | None => bad end
    else if decide (b = "|"%char) then
      match followed_by "|" s with Some s' => Ok (Some TOr, s') | None => bad end
    else if decide (b = DQ) then
      let '(buf, rest) := scan_string s in
      Ok (Some (TStringLit (from_utf8_lossy buf)), skip_quote rest)
    else if is_ident_byte b then
      let '(id, rest) := span_ident (String b s) in Ok (Some (TIdent id), rest)
    else bad.

Fixpoint tokenize_go (fuel i : nat) (s : string) : option (result report (list Token)) :=
  match s with
  | EmptyString => Some (Ok [])
  | String b s' =>
      match fuel with
      | O => None
      | S fuel =>
          match lex_step i b s' with
          | Err e => Some (Err e)
          | Ok (t, rest) =>
              match tokenize_go fuel (i + (String.length s - String.length rest)) rest with
              | Some (Ok ts) => Some (Ok (option_list t ++ ts))
              | r => r
              end
          end
      end
  end.

Definition tokenize (input : string) : option (result report (list Token)) :=
  tokenize_go (String.length input) 0 input.

(** ** The parser

    The state [tokens, pos] is the list of tokens from [pos] on; [advance] takes the
    head, and stays put at the end. *)

Section parser.
Context `{RustFmt}.

Definition token_debug (t : Token) : string :=
  match t with
  | TIdent s => "Ident(" +:+ str_debug s +:+ ")"
  | TStringLit s => "StringLit(" +:+ str_debug s +:+ ")"
  | TEq => "Eq" | TNe => "Ne" | TAnd => "And" | TOr => "Or" | TNot => "Not"
  | TLParen => "LParen" | TRParen => "RParen" | TDot => "Dot"
  end.

Definition opt_token_debug (t : option Token) : string :=
  match t with Some t => "Some(" +:+ token_debug t +:+ ")" | None => "None" end.

Definition expect_token (expected : Token) (ts : list Token) : result report (list Token) :=
  match ts with
  | tok :: ts' =>
      if decide (tok = expected) then Ok ts'
      else bail ("expected " +:+ token_debug expected +:+ ", found " +:+ token_debug tok)
  | [] => bail ("expected " +:+ token_debug expected +:+ ", found EOF")
  end.

Definition expect_string (ts : list Token) : result report (string * list Token) :=
  match ts with
  | TStringLit s :: ts' => Ok (s, ts')
  | _ => bail ("expected string literal, got " +:+ opt_token_debug (head ts))
  end.

(** [outcome.status == ".."], [outcome.contains("..")]: after [outcome]. *)
Definition parse_outcome (ts : list Token) : result report (CondExpr * list Token) :=
  ts ← expect_token TDot ts;
  match ts with
  | TIdent field :: ts' =>
      if decide (field = "status") then
        match ts' with
        | TEq :: ts'' => '(val, r) ← expect_string ts''; Ok (StatusEq val, r)
        | TNe :: ts'' => '(val, r) ← expect_string ts''; Ok (StatusNe val, r)
        | other => bail ("expected == or != after outcome.status, got " +:+ opt_token_debug (head other))
        end
      else if decide (field = "contains") then
        ts'' ← expect_token TLParen ts';
        '(val, r) ← expect_string ts'';
        r ← expect_token TRParen r;
        Ok (Contains val, r)
      else bail ("unknown outcome field: " +:+ opt_token_debug (head ts))
  | other => bail ("unknown outcome field: " +:+ opt_token_debug (head other))
  end.

(** [context.key == ".."]: after [context]. *)
Definition parse_context (ts : list Token) : result report (CondExpr * list Token) :=
  ts ← expect_token TDot ts;
  match ts with
  | TIdent key :: ts' =>
      match ts' with
      | TEq :: ts'' => '(val, r) ← expect_string ts''; Ok (ContextEq key val, r)
      | TNe :: ts'' => '(val, r) ← expect_string ts''; Ok (ContextNe key val, r)
      | other =>
          bail ("expected == or != after context." +:+ key +:+ ", got " +:+ opt_token_debug (head other))
      end
  | other => bail ("expected context key, got " +:+ opt_token_debug (head other))
  end.

Definition parsed := option (result report (CondExpr * list Token)).

Definition then_parse (p : parsed) (k : CondExpr -> list Token -> parsed) : parsed :=
  match p with Some (Ok (e, ts)) => k e ts | r => r end.

Fixpoint parse_or (fuel : nat) (ts : list Token) : parsed :=
  match fuel with
  | O => None
  | S fuel => then_parse (parse_and fuel ts) (or_loop fuel)
  end
with or_loop (fuel : nat) (left : CondExpr) (ts : list Token) : parsed :=
  match fuel with
  | O => None
  | S fuel =>
      match ts with
      | TOr :: ts' =>
          then_parse (parse_and fuel ts') (fun right r => or_loop fuel (Or left right) r)
      | _ => Some (Ok (left, ts))
      end
  end
with parse_and (fuel : nat) (ts : list Token) : parsed :=
  match fuel with
  | O => None
  | S fuel => then_parse (parse_unary fuel ts) (and_loop fuel)
  end
with and_loop (fuel : nat) (left : CondExpr) (ts : list Token) : parsed :=
  match fuel with
  | O => None
  | S fuel =>
      match ts with
      | TAnd :: ts' =>
          then_parse (parse_unary fuel ts') (fun right r => and_loop fuel (And left right) r)
      | _ => Some (Ok (left, ts))
      end
  end
with parse_unary (fuel : nat) (ts : list Token) : parsed :=
  match fuel with
  | O => None
  | S fuel =>
      match ts with
      | TNot :: ts' => then_parse (parse_unary fuel ts') (fun inner r => Some (Ok (Not inner, r)))
      | _ => parse_primary fuel ts
      end
  end
with parse_primary (fuel : nat) (ts : list Token) : parsed :=
  match fuel with
  | O => None
  | S fuel =>
      match ts with
      | TLParen :: ts' =>
          then_parse (parse_or fuel ts')
            (fun expr r => Some (r ← expect_token TRParen r; Ok (expr, r)))
      | TIdent id :: ts' =>
          if decide (id = "outcome") then Some (parse_outcome ts')
          else if decide (id = "context") then Some (parse_context ts')
          else Some (bail ("expected 'outcome', 'context', or '(', got " +:+ opt_token_debug (head ts)))
      | _ => Some (bail ("expected 'outcome', 'context', or '(', got " +:+ opt_token_debug (head ts)))
      end
  end.

Definition parser_fuel (ts : list Token) : nat := 6 * length ts + 5.

Definition parse_condition_fuel (input : string) : option (result report CondExpr) :=
  match tokenize input with
  | Some (Ok tokens) =>
      match parse_or (parser_fuel tokens) tokens with
      | Some (Ok (expr, rest)) =>
          match rest with
          | [] => Some (Ok expr)
          | t :: _ =>
              Some (bail ("unexpected token at position " +:+ pretty (length tokens - length rest)
                          +:+ ": " +:+ token_debug t))
          end
      | Some (Err e) => Some (Err e)
      | None => None
      end
  | Some (Err e) => Some (Err e)
  | None => None
  end.

(** The fuel never runs out ([parse_condition_total]), so the default is never
    taken. *)
Definition parse_condition (input : string) : result report CondExpr :=
  default (bail "out of fuel") (parse_condition_fuel input).
End parser.

(** ** The fuel suffices *)

Lemma span_ident_length s : String.length (span_ident s).2 <= String.length s.
Proof.
  induction s as [|b s IH]; cbn; [done|]. case_match; [|done].
  destruct (span_ident s). cbn in *. lia.
Qed.

Lemma scan_string_plain b s :
  b <> DQ -> b <> "\"%char ->
  scan_string (String b s) = (String b (scan_string s).1, (scan_string s).2).
Proof.
  intros H1 H2. destruct s as [|c s]; cbn [scan_string]; rewrite decide_False by done; [done|].
  rewrite decide_False by done. by destruct (if decide (c = DQ) then _ else _).
Qed.

Lemma scan_string_length s : String.length (scan_string s).2 <= String.length s.
Proof.
  induction s as [s IH] using (induction_ltof1 _ String.length). unfold ltof in IH.
  destruct s as [|b s]; [done|].
  destruct (decide (b = DQ)) as [->|H1]; [by destruct s|].
  destruct (decide (b = "\"%char)) as [->|H2].
  - destruct s as [|c s]; cbn [scan_string]; rewrite decide_False by done; [cbn; lia|].
    rewrite decide_True by done.
    specialize (IH s ltac:(cbn; lia)). destruct (scan_string s). cbn in *. lia.
  - rewrite scan_string_plain by done. specialize (IH s ltac:(cbn; lia)). cbn. lia.
Qed.

Lemma lex_step_length i b s t rest :
  lex_step i b s = Ok (t, rest) -> String.length rest <= String.length s.
Proof.
  unfold lex_step, followed_by. intros H. repeat (case_decide; simplify_eq; try done).
  all: try (repeat case_match; simplify_eq/=; lia).
  - pose proof (scan_string_length s). destruct (scan_string s) as [buf r]. simplify_eq/=.
    destruct r; cbn in *; lia.
  - destruct (is_ident_byte b) eqn:Hb; [|done]. cbn in H. rewrite Hb in H.
    pose proof (span_ident_length s). destruct (span_ident s). by simplify_eq/=.
Qed.

Lemma tokenize_go_total fuel i s : String.length s <= fuel -> tokenize_go fuel i s <> None.
Proof.
  revert i s; induction fuel as [|fuel IH]; intros i [|b s] Hf; cbn in *; try done; [lia|].
  destruct (lex_step i b s) as [[t rest]|] eqn:Hl; [|done].
  apply lex_step_length in Hl.
  match goal with |- context [tokenize_go fuel ?j rest] =>
    specialize (IH j rest ltac:(lia)); destruct (tokenize_go fuel j rest) as [[]|] end; done.
Qed.

Section parser_total.
Context `{RustFmt}.

Lemma expect_token_length t ts r : expect_token t ts = Ok r -> length r < length ts.
Proof. destruct ts; cbn; [done|]. case_decide; [|done]. intros. simplify_eq. lia. Qed.

Lemma expect_string_length ts s r : expect_string ts = Ok (s, r) -> length r < length ts.
Proof. destruct ts as [|[] ts]; cbn; try done. intros. simplify_eq. lia. Qed.

Lemma parse_outcome_length ts e r : parse_outcome ts = Ok (e, r) -> length r <= length ts.
Proof.
  unfold parse_outcome. intros (ts1 & H1%expect_token_length & H2)%bind_Ok.
  destruct ts1 as [|[] ts1]; try done. case_decide; [|case_decide; [|done]].
  - destruct ts1 as [|[] ts1]; try done; apply bind_Ok in H2 as ([v r'] & ?%expect_string_length & ?);
      simplify_eq/=; lia.
  - apply bind_Ok in H2 as (ts2 & Ht2%expect_token_length & H2).
    apply bind_Ok in H2 as ([v r2] & Hs%expect_string_length & H2).
    apply bind_Ok in H2 as (r3 & Ht3%expect_token_length & H2). simplify_eq/=. lia.
Qed.

Lemma parse_context_length ts e r : parse_context ts = Ok (e, r) -> length r <= length ts.
Proof.
  unfold parse_context. intros (ts1 & H1%expect_token_length & H2)%bind_Ok.
  destruct ts1 as [|[] ts1]; try done.
  destruct ts1 as [|[] ts1]; try done; apply bind_Ok in H2 as ([v r'] & ?%expect_string_length & ?);
    simplify_eq/=; lia.
Qed.

(** A parse that succeeds consumes at least one token; a loop consumes what it
    consumes. *)
Definition consumes (strict : bool) (n : nat) (p : parsed) : Prop :=
  forall e r, p = Some (Ok (e, r)) -> if strict then length r < n else length r <= n.

Lemma parser_consumes fuel :
  (forall ts, consumes true (length ts) (parse_or fuel ts)) /\
  (forall left ts, consumes false (length ts) (or_loop fuel left ts)) /\
  (forall ts, consumes true (length ts) (parse_and fuel ts)) /\
  (forall left ts, consumes false (length ts) (and_loop fuel left ts)) /\
  (forall ts, consumes true (length ts) (parse_unary fuel ts)) /\
  (forall ts, consumes true (length ts) (parse_primary fuel ts)).
Proof.
  induction fuel as [|fuel (IHor & IHol & IHand & IHal & IHun & IHpr)]; [by split_and!|].
  assert (Hthen : forall n p k, consumes true n p -> (forall e r, consumes false (length r) (k e r)) ->
    consumes true n (then_parse p k)).
  { intros n p k Hp Hk e r. destruct p as [[[e1 r1]|]|] eqn:Ep; cbn; [|done..].
    intros Hkr. specialize (Hp e1 r1 eq_refl). apply Hk in Hkr. cbn in *. lia. }
  assert (Hweak : forall n m p, n <= m -> consumes true n p -> consumes false m p).
  { intros n m p Hnm Hp e r Hr. apply Hp in Hr. cbn. lia. }
  split_and!.
  - intros ts. apply Hthen; auto.
  - intros left ts. cbn. destruct ts as [|[] ts]; try (intros e r ?; by simplify_eq/=).
    eapply (Hweak (length ts)); [cbn; lia|apply Hthen; auto].
  - intros ts. apply Hthen; auto.
  - intros left ts. cbn. destruct ts as [|[] ts]; try (intros e r ?; by simplify_eq/=).
    eapply (Hweak (length ts)); [cbn; lia|apply Hthen; auto].
  - intros ts. cbn. destruct ts as [|[] ts]; auto.
    intros e r. destruct (parse_unary fuel ts) as [[[e1 r1]|]|] eqn:Ep; cbn; [|done..].
    intros ?. simplify_eq. apply IHun in Ep. cbn in *. lia.
  - intros ts e r. cbn. destruct ts as [|[] ts]; try done.
    + repeat case_decide; intros Hr; simplify_eq.
      * apply parse_outcome_length in Hr. cbn. lia.
      * apply parse_context_length in Hr. cbn. lia.
    + destruct (parse_or fuel ts) as [[[e1 r1]|]|] eqn:Ep; cbn; [|done..].
      intros Hr. injection Hr as Hr. apply bind_Ok in Hr as (r2 & Hr2%expect_token_length & ?).
      simplify_eq. apply IHor in Ep. cbn in *. lia.
Qed.

Lemma parser_total fuel :
  (forall ts, 6 * length ts + 5 <= fuel -> parse_or fuel ts <> None) /\
  (forall left ts, 6 * length ts + 5 <= fuel -> or_loop fuel left ts <> None) /\
  (forall ts, 6 * length ts + 4 <= fuel -> parse_and fuel ts <> None) /\
  (forall left ts, 6 * length ts + 3 <= fuel -> and_loop fuel left ts <> None) /\
  (forall ts, 6 * length ts + 2 <= fuel -> parse_unary fuel ts <> None) /\
  (forall ts, 6 * length ts + 1 <= fuel -> parse_primary fuel ts <> None).
Proof.
  induction fuel as [|fuel (IHor & IHol & IHand & IHal & IHun & IHpr)].
  { split_and!; intros; lia. }
  destruct (parser_consumes fuel) as (Cor & _ & Cand & _ & Cun & _).
  assert (Hthen : forall n p k, consumes true n p -> p <> None ->
    (forall e r, length r < n -> k e r <> None) -> then_parse p k <> None).
  { intros n p k Hc Hp Hk. destruct p as [[[e1 r1]|]|] eqn:Ep; cbn; [|done..].
    apply Hk. by apply (Hc e1 r1). }
  split_and!; intros; cbn.
  - eapply Hthen; [apply Cand| |]; [apply IHand; lia|]. intros. apply IHol. lia.
  - destruct ts as [|[] ts]; try done. cbn in *.
    eapply Hthen; [apply Cand| |]; [apply IHand; lia|]. intros. apply IHol. lia.
  - eapply Hthen; [apply Cun| |]; [apply IHun; lia|]. intros. apply IHal. lia.
  - destruct ts as [|[] ts]; try done. cbn in *.
    eapply Hthen; [apply Cun| |]; [apply IHun; lia|]. intros. apply IHal. lia.
  - destruct ts as [|[] ts]; try (apply IHpr; cbn in *; lia). cbn in *.
    eapply Hthen; [apply Cun| |]; [apply IHun; lia|]. done.
  - destruct ts as [|[] ts]; try done; [by repeat case_decide|]. cbn in *.
    eapply Hthen; [apply Cor| |]; [apply IHor; lia|]. done.
Qed.

Lemma parse_condition_fuel_total input : parse_condition_fuel input <> None.
Proof.
  unfold parse_condition_fuel. pose proof (tokenize_go_total (String.length input) 0 input ltac:(lia)).
  unfold tokenize. destruct (tokenize_go _ _ _) as [[ts|]|]; [|done..].
  pose proof (proj1 (parser_total (parser_fuel ts)) ts ltac:(unfold parser_fuel; lia)).
  destruct (parse_or _ _) as [[[e [|]]|]|]; done.
Qed.
End parser_total.

(** Parsing a condition always returns: on every input the tokenizer loop
    and the recursive descent end within the fuel the entry point passes, with an
    expression or an error report. *)
Theorem parse_condition_total `{RustFmt} (input : string) :
  exists r, parse_condition_fuel input = Some r /\ parse_condition input = r.
Proof.
  unfold parse_condition. pose proof (parse_condition_fuel_total input).
  destruct (parse_condition_fuel input) as [r|]; [|done]. by exists r.
Qed.

(** ** Printing *)

Fixpoint all_ident_bytes (s : string) : bool :=
  match s with EmptyString => true | String b s' => is_ident_byte b && all_ident_bytes s' end.

Definition is_ident (s : string) : bool := negb (String.eqb s "") && all_ident_bytes s.

(** Expressions the grammar can denote: keys are identifiers, literals are
    strings, and there is no spelling for [True]. *)
Fixpoint wf_cond (e : CondExpr) : bool :=
  match e with
  | StatusEq s | StatusNe s | Contains s => valid_utf8 s
  | ContextEq k v | ContextNe k v => is_ident k && valid_utf8 v
  | Not a => wf_cond a
  | And a b | Or a b => wf_cond a && wf_cond b
  | CTrue => false
  end.

Definition parens (b : bool) (ts : list Token) : list Token :=
  if b then TLParen :: ts ++ [TRParen] else ts.

(** Minimal parentheses; level 0 is an [or_expr], 1 an [and_expr], 2 a [unary]. *)
Fixpoint pp (lvl : nat) (e : CondExpr) : list Token :=
  match e with
  | StatusEq s => [TIdent "outcome"; TDot; TIdent "status"; TEq; TStringLit s]
  | StatusNe s => [TIdent "outcome"; TDot; TIdent "status"; TNe; TStringLit s]
  | Contains s => [TIdent "outcome"; TDot; TIdent "contains"; TLParen; TStringLit s; TRParen]
  | ContextEq k v => [TIdent "context"; TDot; TIdent k; TEq; TStringLit v]
  | ContextNe k v => [TIdent "context"; TDot; TIdent k; TNe; TStringLit v]
  | Not a => TNot :: pp 2 a
  | And a b => parens (1 <? lvl) (pp 1 a ++ TAnd :: pp 2 b)
  | Or a b => parens (0 <? lvl) (pp 0 a ++ TOr :: pp 1 b)
  | CTrue => []
  end.

Fixpoint escape (s : string) : string :=
  match s with
  | EmptyString => ""
  | String b s' =>
      if decide (b = DQ \/ b = "\"%char) then String "\" (String b (escape s'))
      else String b (escape s')
  end.

Definition render_token (t : Token) : string :=
  match t with
  | TIdent s => s
  | TStringLit s => quoted (escape s)
  | TEq => "==" | TNe => "!=" | TAnd => "&&" | TOr => "||" | TNot => "!"
  | TLParen => "(" | TRParen => ")" | TDot => "."
  end.

(** Tokens separated by blanks. *)
Fixpoint render (ts : list Token) : string :=
  match ts with
  | [] => ""
  | t :: ts => render_token t +:+ " " +:+ render ts
  end.

Definition print_cond (e : CondExpr) : string := render (pp 0 e).

(** ** More fuel does not change a result *)

Section roundtrip.
Context `{RustFmt}.

Definition le_parsed (p q : parsed) : Prop := forall r, p = Some r -> q = Some r.

Lemma then_parse_le p q k l :
  le_parsed p q -> (forall e r, le_parsed (k e r) (l e r)) ->
  le_parsed (then_parse p k) (then_parse q l).
Proof.
  intros Hp Hk r. destruct p as [[[e1 r1]|]|]; cbn; [|intros ?; simplify_eq|done];
    rewrite (Hp _ eq_refl); cbn; [apply Hk|done].
Qed.

Lemma parser_mono fuel : forall fuel', fuel <= fuel' ->
  (forall ts, le_parsed (parse_or fuel ts) (parse_or fuel' ts)) /\
  (forall left ts, le_parsed (or_loop fuel left ts) (or_loop fuel' left ts)) /\
  (forall ts, le_parsed (parse_and fuel ts) (parse_and fuel' ts)) /\
  (forall left ts, le_parsed (and_loop fuel left ts) (and_loop fuel' left ts)) /\
  (forall ts, le_parsed (parse_unary fuel ts) (parse_unary fuel' ts)) /\
  (forall ts, le_parsed (parse_primary fuel ts) (parse_primary fuel' ts)).
Proof.
  induction fuel as [|fuel IH]; intros fuel' Hle; [by split_and!|].
  destruct fuel' as [|fuel']; [lia|].
  destruct (IH fuel' ltac:(lia)) as (IHor & IHol & IHand & IHal & IHun & IHpr).
  split_and!; intros; cbn.
  - apply then_parse_le; auto.
  - destruct ts as [|[] ts]; try (intros r ?; done). apply then_parse_le; auto.
  - apply then_parse_le; auto.
  - destruct ts as [|[] ts]; try (intros r ?; done). apply then_parse_le; auto.
  - destruct ts as [|[] ts]; auto. apply then_parse_le; [auto|]. by intros ?? r.
  - destruct ts as [|[] ts]; try (intros r ?; done). apply then_parse_le; [auto|]. by intros ?? r.
Qed.

(** A parse reaches a result with enough fuel. *)
Definition yields (p : nat -> parsed) (r : result report (CondExpr * list Token)) : Prop :=
  exists f, forall f', f <= f' -> p f' = Some r.

Lemma yields_then (p : nat -> parsed) (k : nat -> CondExpr -> list Token -> parsed) q e ts r :
  (forall f, q (S f) = then_parse (p f) (k f)) ->
  yields p (Ok (e, ts)) -> yields (fun f => k f e ts) r -> yields q r.
Proof.
  intros Hq [f1 H1] [f2 H2]. exists (S (Nat.max f1 f2)). intros [|f'] Hf; [lia|].
  rewrite Hq, H1 by lia. cbn. apply H2. lia.
Qed.

Lemma yields_const q r : (forall f, q (S f) = Some r) -> yields q r.
Proof. intros Hq. exists 1. intros [|f] ?; [lia|]. apply Hq. Qed.

Definition not_and (ts : list Token) : Prop := head ts <> Some TAnd.

Lemma and_loop_stop e ts : not_and ts -> yields (fun f => and_loop f e ts) (Ok (e, ts)).
Proof. intros Hn. apply yields_const. intros f. cbn. by destruct ts as [|[] ts]. Qed.

(** The three statements of the round trip, one per grammar level.  At the levels
    of the two left-associative operators the parser continues its loop with the
    printed expression as the left operand. *)
Definition rt_unary e := forall ts, yields (fun f => parse_unary f (pp 2 e ++ ts)) (Ok (e, ts)).
Definition rt_and e := forall ts r,
  yields (fun f => and_loop f e ts) r -> yields (fun f => parse_and f (pp 1 e ++ ts)) r.
Definition rt_or e := forall ts r, not_and ts ->
  yields (fun f => or_loop f e ts) r -> yields (fun f => parse_or f (pp 0 e ++ ts)) r.

Lemma rt_and_of_unary e : pp 1 e = pp 2 e -> rt_unary e -> rt_and e.
Proof.
  intros Hpp Hu ts r Hl. rewrite Hpp.
  eapply (yields_then (fun f => parse_unary f _) and_loop); [done|apply Hu|done].
Qed.

Lemma rt_or_of_and e : pp 0 e = pp 1 e -> rt_and e -> rt_or e.
Proof.
  intros Hpp Ha ts r Hn Hl. rewrite Hpp.
  eapply (yields_then (fun f => parse_and f _) or_loop); [done| |exact Hl].
  apply Ha, and_loop_stop. done.
Qed.

(** A parenthesised expression is a unary. *)
Lemma rt_unary_of_or e : pp 2 e = TLParen :: pp 0 e ++ [TRParen] -> rt_or e -> rt_unary e.
Proof.
  intros Hpp Ho ts. rewrite Hpp. rewrite <- app_comm_cons, <- app_assoc.
  assert (Hprim : yields (fun f => parse_primary f (TLParen :: pp 0 e ++ [TRParen] ++ ts)) (Ok (e, ts))).
  { eapply (yields_then (fun f => parse_or f (pp 0 e ++ [TRParen] ++ ts))
      (fun f expr r => Some (r ← expect_token TRParen r; Ok (expr, r)))
      _ e ([TRParen] ++ ts)); [done| |by exists 0].
    apply Ho; [done|]. by apply yields_const. }
  destruct Hprim as [f Hf]. exists (S f). intros [|f'] Hle; [lia|]. cbn. apply Hf. lia.
Qed.

Lemma roundtrip_levels e : wf_cond e = true -> rt_unary e /\ rt_and e /\ rt_or e.
Proof.
  assert (Hup : forall e, pp 0 e = pp 1 e -> pp 1 e = pp 2 e -> rt_unary e ->
    rt_unary e /\ rt_and e /\ rt_or e).
  { intros e0 H0 H1 Hu. split_and!; auto using rt_and_of_unary, rt_or_of_and. }
  assert (Hatom : forall e, (forall f ts, parse_primary (S f) (pp 2 e ++ ts) = Some (Ok (e, ts))) ->
    (forall ts, head (pp 2 e ++ ts) <> Some TNot) -> rt_unary e).
  { intros e0 Hprim Hhd ts. exists 2. intros [|[|f]] Hf; [lia..|].
    specialize (Hhd ts). specialize (Hprim f ts). destruct (pp 2 e0 ++ ts) as [|t ts'].
    - exact Hprim.
    - cbn in Hhd. destruct t; try exact Hprim. done. }
  induction e as [s|s|s|k v|k v|e IH|a IHa b IHb|a IHa b IHb|]; cbn [wf_cond]; intros Hwf; bool_to_prop.
  1-5: apply Hup; [done..|]; apply Hatom; done.
  - destruct (IH Hwf) as (Hu & _). apply Hup; [done..|]. intros ts.
    eapply (yields_then (fun f => parse_unary f (pp 2 e ++ ts))
      (fun f inner r => Some (Ok (Not inner, r)))); [done|apply Hu|by exists 0].
  - destruct (IHa H0) as (_ & HAa & _), (IHb H1) as (HUb & _ & _).
    assert (Hand : rt_and (And a b)).
    { intros ts r Hl. change (pp 1 (And a b)) with (pp 1 a ++ TAnd :: pp 2 b).
      rewrite <- app_assoc. apply HAa.
      eapply (yields_then (fun f => parse_unary f (pp 2 b ++ ts))
        (fun f right r => and_loop f (And a right) r)); [done|apply HUb|done]. }
    assert (Hor : rt_or (And a b)) by (by apply rt_or_of_and).
    split_and!; [|done|done]. by apply rt_unary_of_or.
  - destruct (IHa H0) as (_ & _ & HOa), (IHb H1) as (_ & HAb & _).
    assert (Hor : rt_or (Or a b)).
    { intros ts r Hn Hl. change (pp 0 (Or a b)) with (pp 0 a ++ TOr :: pp 1 b).
      rewrite <- app_assoc. apply HOa; [done|].
      eapply (yields_then (fun f => parse_and f (pp 1 b ++ ts))
        (fun f right r => or_loop f (Or a right) r)); [done| |done].
      by apply HAb, and_loop_stop. }
    assert (Hun : rt_unary (Or a b)) by (by apply rt_unary_of_or).
    split_and!; [done| |done]. by apply rt_and_of_unary.
  - done.
Qed.
End roundtrip.

(** ** Tokenizing printed tokens *)

Definition tok_ok (t : Token) : bool :=
  match t with
  | TIdent s => is_ident s
  | TStringLit s => valid_utf8 s
  | _ => true
  end.

Lemma scan_escape s r : scan_string (escape s +:+ String DQ r) = (s, String DQ r).
Proof.
  induction s as [|b s IH]; cbn [escape]; [by destruct r|].
  case_decide as Hesc.
  - rewrite !str_cons_app. cbn [scan_string]. rewrite decide_False, decide_True by done.
    rewrite IH. by destruct Hesc as [->| ->].
  - rewrite str_cons_app, scan_string_plain, IH by (intros ->; apply Hesc; auto). done.
Qed.

Lemma span_ident_blank id r :
  all_ident_bytes id = true -> span_ident (id +:+ String " " r) = (id, String " " r).
Proof.
  induction id as [|b id IH]; [done|]. cbn [all_ident_bytes]. intros [Hb Hid]%andb_true_iff.
  rewrite str_cons_app. cbn [span_ident]. by rewrite Hb, IH.
Qed.

Lemma lex_step_token t r :
  tok_ok t = true -> exists b s, render_token t = String b s /\
    forall i, lex_step i b (s +:+ String " " r) = Ok (Some t, String " " r).
Proof.
  destruct t; intros Hok; try (eexists _, _; split; [done|]; done); cbn in Hok.
  - unfold is_ident in Hok. apply andb_true_iff in Hok as [Hne Hid].
    destruct s as [|b s]; [done|]. exists b, s. split; [done|]. intros i.
    pose proof Hid as Hb. cbn in Hb. apply andb_true_iff in Hb as [Hb _].
    unfold lex_step. rewrite decide_False by (intros [->|[->|[->| ->]]]; done).
    repeat (rewrite decide_False by (intros ->; done)). rewrite Hb.
    rewrite <- str_cons_app, span_ident_blank by done. done.
  - eexists _, _. split; [done|]. intros i. unfold lex_step.
    repeat (rewrite decide_False by (by vm_compute; naive_solver)).
    rewrite decide_True by done. rewrite str_app_assoc. change (String DQ "" +:+ ?x) with (String DQ x).
    rewrite scan_escape. cbn [skip_quote]. by rewrite from_utf8_lossy_valid.
Qed.

Lemma tokenize_render ts fuel i :
  forallb tok_ok ts = true -> String.length (render ts) <= fuel ->
  tokenize_go fuel i (render ts) = Some (Ok ts).
Proof.
  revert fuel i; induction ts as [|t ts IH]; intros fuel i Hok Hf; [by destruct fuel|].
  cbn in Hok. apply andb_true_iff in Hok as [Ht Hts]. cbn [render] in *.
  destruct (lex_step_token t (render ts) Ht) as (b & s & Hr & Hlex).
  rewrite Hr in *. change (" " +:+ render ts) with (String " " (render ts)) in *.
  rewrite str_cons_app in *. cbn in Hf. rewrite length_str_app in Hf. cbn in Hf.
  destruct fuel as [|[|fuel]]; [lia..|]. cbn [tokenize_go]. rewrite Hlex.
  change (lex_step ?j " " ?x) with (@Ok report (option Token * string) (None, x)).
  cbn beta iota. rewrite IH by first [done | lia]. done.
Qed.

Lemma pp_ok lvl e : wf_cond e = true -> forallb tok_ok (pp lvl e) = true.
Proof.
  assert (Hpar : forall b ts, forallb tok_ok ts = true -> forallb tok_ok (parens b ts) = true).
  { intros [] ts Hts; cbn; [|done]. by rewrite forallb_app, Hts. }
  revert lvl; induction e; intros lvl Hwf; cbn in Hwf; bool_to_prop;
    try (cbn; rewrite ?Hwf, ?H, ?H0; done).
  - cbn. auto.
  - apply Hpar. rewrite forallb_app. cbn. rewrite IHe1, IHe2; done.
  - apply Hpar. rewrite forallb_app. cbn. rewrite IHe1, IHe2; done.
Qed.

(**  Round trip: every expression the grammar can denote (identifier keys, UTF-8
    literals, no [True] constant), printed with minimal parentheses and with quotes
    and backslashes escaped, parses back to itself; so [&&] binds tighter than [||],
    [!] tighter than both, and both binary operators associate to the left. *)
Theorem parse_print_condition `{RustFmt} (e : CondExpr) :
  wf_cond e = true -> parse_condition (print_cond e) = Ok e.
Proof.
  intros Hwf. unfold parse_condition, parse_condition_fuel, tokenize, print_cond.
  rewrite tokenize_render by first [by apply pp_ok | lia].
  destruct (roundtrip_levels e Hwf) as (_ & _ & Hor).
  destruct (Hor [] (Ok (e, []))) as [f Hf]; [done|by apply yields_const|].
  rewrite app_nil_r in Hf. set (ts := pp 0 e) in *.
  destruct (parser_total (parser_fuel ts)) as [Htot _].
  specialize (Htot ts ltac:(unfold parser_fuel; lia)).
  destruct (parse_or (parser_fuel ts) ts) as [r|] eqn:Hr; [|done].
  apply (proj1 (parser_mono (parser_fuel ts) (Nat.max f (parser_fuel ts)) ltac:(lia))) in Hr.
  rewrite Hf in Hr by lia. by simplify_eq/=.
Qed.

Definition no_fmt : RustFmt := 
  {| str_debug := quoted; f64_display := fun _ => ""; duration_debug := fun _ => "" |}.

Lemma parse_print_condition_witness :
  let e := And (Or (StatusEq "pass") (Not (Contains (quoted "x\y")))) (ContextNe "mode" "slow") in
  @parse_condition no_fmt (print_cond e) = Ok e.
Proof. apply (@parse_print_condition no_fmt). by vm_compute. Defined.
