(* ===== verification/Parser.v ===== *)
(** * The DOT parser

    Model of [crates/octos-pipeline/src/parser.rs].  The parser state
    [(input, pos)] is the suffix [input[pos..]]; positions in messages are
    recovered from its length.  The graph under construction is threaded
    explicitly.  Every loop has a fuel bounded by the length of the input;
    [OutOfFuel] is proved unreachable. *)

From S2P Require Import Prelude RustStr RustNum Fidelity Graph.

(** ** Attribute values *)

(** "900s", "15m", "2h" or a plain number of seconds. *)
Definition parse_duration_secs (s0 : string) : option Z :=
  let s := trim s0 in
  match strip_suffix "s" s with
  | Some n => parse_u64 (trim n)
  | None =>
      match strip_suffix "m" s with
      | Some n => v ← parse_u64 (trim n); u64_checked_mul v 60
      | None =>
          match strip_suffix "h" s with
          | Some n => v ← parse_u64 (trim n); u64_checked_mul v 3600
          | None => parse_u64 s
          end
      end
  end.

Definition parse_bool (s : string) : option bool :=
  let t := trim s in
  if decide (t = "true" \/ t = "yes" \/ t = "1") then Some true
  else if decide (t = "false" \/ t = "no" \/ t = "0") then Some false
  else None.

Definition parse_csv_list (s : string) : list string :=
  filter (fun part => part <> "") (trim <$> split_on "," s).

Definition parse_duration_secs_f64 (s0 : string) : option f64 :=
  let s := trim s0 in
  parsed ←
    match strip_suffix "ms" s with
    | Some n => v ← parse_f64 (trim n); Some (f64_div v (f64_of_Z 1000))
    | None =>
        match strip_suffix "s" s with
        | Some n => parse_f64 (trim n)
        | None =>
            match strip_suffix "m" s with
            | Some n => v ← parse_f64 (trim n); Some (f64_mul v (f64_of_Z 60))
            | None =>
                match strip_suffix "h" s with
                | Some n => v ← parse_f64 (trim n); Some (f64_mul v (f64_of_Z 3600))
                | None => parse_f64 s
                end
            end
        end
    end;
  if f64_is_finite parsed && f64_le f64_zero parsed then Some parsed else None.

Definition parse_deadline_action (s0 : string) : option DeadlineAction :=
  let s := trim s0 in
  if decide (s = "abort") then Some Abort_action
  else if decide (s = "skip") then Some Skip_action
  else if decide (s = "escalate") then Some Escalate_action
  else
    r ← match strip_prefix "retry:" s with
        | Some r => Some r
        | None => strip_prefix "retry(" s
        end;
    n ← parse_u32 (trim (trim_end_matches ")" r));
    if (n =? 0)%Z then None else Some (Retry_action n).

Definition parse_checkpoints (attrs : gmap string string) : list MissionCheckpoint :=
  match attrs !! "checkpoint" with
  | None => []
  | Some raw =>
      let trimmed := trim raw in
      if decide (trimmed = "") then []
      else match parse_bool trimmed with
      | Some true => [{| mc_name := "default"; mc_resumable := true |}]
      | Some false => []
      | None =>
          (fun name => {| mc_name := name; mc_resumable := true |}) <$>
          filter (fun part => part <> "") (trim <$> split_on "," trimmed)
      end
  end.

(** [attrs.get(a).or_else(|| attrs.get(b))]. *)
Definition get_or (attrs : gmap string string) (a b : string) : option string :=
  match attrs !! a with Some v => Some v | None => attrs !! b end.

(** [tools]: an attribute that is present with no token is a deny-all marker. *)
Definition parse_tools (attrs : gmap string string) : list string :=
  match attrs !! "tools" with
  | None => []
  | Some s => match parse_csv_list s with [] => [""] | parsed => parsed end
  end.

Definition build_node (id : string) (attrs : gmap string string) : PipelineNode := {|
  pn_id := id;
  pn_handler :=
    match attrs !! "handler" ≫= HandlerKind_from_str with
    | Some h => h
    | None => default Codergen (attrs !! "shape" ≫= HandlerKind_from_shape)
    end;
  pn_prompt := attrs !! "prompt";
  pn_label := attrs !! "label";
  pn_model := attrs !! "model";
  pn_context_window := attrs !! "context_window" ≫= parse_u32;
  pn_max_output_tokens := attrs !! "max_output_tokens" ≫= parse_u32;
  pn_reasoning_effort := attrs !! "reasoning_effort";
  pn_max_iterations := attrs !! "max_iterations" ≫= parse_u32;
  pn_tools := parse_tools attrs;
  pn_goal_gate := default false (attrs !! "goal_gate" ≫= parse_bool);
  pn_max_retries := default 0%Z (attrs !! "max_retries" ≫= parse_u32);
  pn_timeout_secs := attrs !! "timeout_secs" ≫= parse_duration_secs;
  pn_suggested_next := attrs !! "suggested_next";
  pn_converge := attrs !! "converge";
  pn_worker_prompt := attrs !! "worker_prompt";
  pn_planner_model := attrs !! "planner_model";
  pn_max_tasks := attrs !! "max_tasks" ≫= parse_u32;
  pn_human_gate :=
    match get_or attrs "human_gate" "requires_human" ≫= parse_bool with
    | Some b => b
    | None => bool_decide (is_Some (attrs !! "input_type"))
    end;
  pn_resolver := get_or attrs "resolver" "gate_resolver";
  pn_artifact_refs :=
    match get_or attrs "artifact_refs" "requires_artifact" with
    | Some s => parse_csv_list s | None => [] end;
  pn_checkpoint_refs :=
    match get_or attrs "checkpoint_refs" "requires_checkpoint" with
    | Some s => parse_csv_list s | None => [] end;
  pn_deadline_secs := attrs !! "deadline_secs" ≫= parse_duration_secs_f64;
  pn_deadline_action := attrs !! "deadline_action" ≫= parse_deadline_action;
  pn_continue_on_error := default false (attrs !! "continue_on_error" ≫= parse_bool);
  pn_checkpoints := parse_checkpoints attrs
|}.

Definition build_edge (source target : string) (attrs : gmap string string) : PipelineEdge := {|
  pe_source := source;
  pe_target := target;
  pe_label := attrs !! "label";
  pe_condition := attrs !! "condition";
  pe_weight := default f64_one (attrs !! "weight" ≫= parse_f64)
|}.

Definition apply_graph_attrs (g : PipelineGraph) (attrs : gmap string string) : PipelineGraph := {|
  pg_id := pg_id g;
  pg_label := match attrs !! "label" with Some l => Some l | None => pg_label g end;
  pg_default_model :=
    match attrs !! "default_model" with Some m => Some m | None => pg_default_model g end;
  pg_max_total_tokens :=
    match attrs !! "max_total_tokens" with Some t => parse_u32 t | None => pg_max_total_tokens g end;
  pg_default_timeout_secs :=
    match attrs !! "default_timeout_secs" with
    | Some t => parse_duration_secs t | None => pg_default_timeout_secs g end;
  pg_result_fidelity :=
    match attrs !! "result_fidelity" with
    | Some f => FidelityMode_parse f | None => pg_result_fidelity g end;
  pg_nodes := pg_nodes g;
  pg_edges := pg_edges g;
  pg_subgraphs := pg_subgraphs g
|}.

(** ** Updates of the graph under construction *)

Definition insert_node (id : string) (n : PipelineNode) (g : PipelineGraph) : PipelineGraph := {|
  pg_id := pg_id g; pg_label := pg_label g; pg_default_model := pg_default_model g;
  pg_max_total_tokens := pg_max_total_tokens g;
  pg_default_timeout_secs := pg_default_timeout_secs g;
  pg_result_fidelity := pg_result_fidelity g;
  pg_nodes := <[id := n]> (pg_nodes g);
  pg_edges := pg_edges g; pg_subgraphs := pg_subgraphs g |}.

Definition push_edge (e : PipelineEdge) (g : PipelineGraph) : PipelineGraph := {|
  pg_id := pg_id g; pg_label := pg_label g; pg_default_model := pg_default_model g;
  pg_max_total_tokens := pg_max_total_tokens g;
  pg_default_timeout_secs := pg_default_timeout_secs g;
  pg_result_fidelity := pg_result_fidelity g;
  pg_nodes := pg_nodes g;
  pg_edges := pg_edges g ++ [e]; pg_subgraphs := pg_subgraphs g |}.

Definition push_subgraph (sg : Subgraph) (g : PipelineGraph) : PipelineGraph := {|
  pg_id := pg_id g; pg_label := pg_label g; pg_default_model := pg_default_model g;
  pg_max_total_tokens := pg_max_total_tokens g;
  pg_default_timeout_secs := pg_default_timeout_secs g;
  pg_result_fidelity := pg_result_fidelity g;
  pg_nodes := pg_nodes g; pg_edges := pg_edges g;
  pg_subgraphs := pg_subgraphs g ++ [sg] |}.

Definition empty_graph (id : string) : PipelineGraph := {|
  pg_id := id; pg_label := None; pg_default_model := None; pg_max_total_tokens := None;
  pg_default_timeout_secs := None; pg_result_fidelity := None;
  pg_nodes := ∅; pg_edges := []; pg_subgraphs := [] |}.

(** [if !contains_key(id) { insert(id, default) }]. *)
Definition ensure_node (id : string) (g : PipelineGraph) : PipelineGraph :=
  match pg_nodes g !! id with
  | Some _ => g
  | None => insert_node id (PipelineNode_default id) g
  end.

(** The closing loop of [parse]: auto-create the endpoints of every edge. *)
Definition ensure_endpoints (g : PipelineGraph) : PipelineGraph :=
  foldl (fun g e => ensure_node (pe_target e) (ensure_node (pe_source e) g)) g (pg_edges g).

Definition MAX_GRAPH_ID_BYTES : nat := 128.

Definition bound_graph_id (id : string) : string :=
  if decide (String.length id <= MAX_GRAPH_ID_BYTES) then id
  else str_take (floor_boundary id MAX_GRAPH_ID_BYTES) id.

(** ** Outcomes of the fuelled parser *)

Inductive presult (A : Type) : Type :=
| Done (a : A)
| Failed (e : report)
| OutOfFuel.
Arguments Done {A} _.
Arguments Failed {A} _.
Arguments OutOfFuel {A}.

#[export] Instance presult_ret : MRet presult := fun A a => Done a.
#[export] Instance presult_bind : MBind presult :=
  fun A B f x => match x with Done a => f a | Failed e => Failed e | OutOfFuel => OutOfFuel end.

Definition lift {A} (r : result report A) : presult A :=
  match r with Ok a => Done a | Err e => Failed e end.

Definition p_wrap {A} (msg : string) (r : presult A) : presult A :=
  match r with Failed e => Failed (msg :: e) | r => r end.

(** ** Lexical layer *)

Definition peek (s : string) : option N :=
  match next_char s with Some (c, _, _) => Some c | None => None end.

Definition advance (s : string) : string :=
  match next_char s with Some (_, _, rest) => rest | None => s end.

(** [self.peek() == Some(c)] for an ASCII [c]. *)
Definition peek_is (c : ascii) (s : string) : bool := bool_decide (peek s = Some (byte_val c)).

(** The loop [while let Some(c) = peek { if f(c) { advance } else { break } }]: the
    text passed over and the rest. *)
Fixpoint span_go (f : N -> bool) (fuel : nat) (s : string) : string * string :=
  match fuel with
  | O => ("", s)
  | S fuel =>
      match next_char s with
      | Some (c, bs, rest) =>
          if f c then let '(t, r) := span_go f fuel rest in (bs +:+ t, r) else ("", s)
      | None => ("", s)
      end
  end.
Definition span (f : N -> bool) (s : string) : string * string := span_go f (String.length s) s.

(** The rest of a line comment, newline included. *)
Fixpoint skip_line (fuel : nat) (s : string) : string :=
  match fuel with
  | O => s
  | S fuel =>
      match next_char s with
      | Some (c, _, rest) => if (c =? 10)%N then rest else skip_line fuel rest
      | None => s
      end
  end.

(** The rest of a block comment, terminator included. *)
Fixpoint skip_block (fuel : nat) (s : string) : string :=
  match fuel with
  | O => s
  | S fuel =>
      if decide (s = "") then s
      else if starts_with "*/" s then str_drop 2 s
      else skip_block fuel (advance s)
  end.

Fixpoint skip_ws_go (fuel : nat) (s0 : string) : string :=
  match fuel with
  | O => s0
  | S fuel =>
      let s := (span is_whitespace s0).2 in
      if starts_with "//" s || starts_with "#" s then
        skip_ws_go fuel (skip_line (String.length s) s)
      else if starts_with "/*" s then
        skip_ws_go fuel (skip_block (String.length s) (str_drop 2 s))
      else s
  end.
Definition skip_ws (s : string) : string := skip_ws_go (S (String.length s)) s.

Definition skip_optional_semicolon (s : string) : string :=
  let s := skip_ws s in if peek_is ";" s then advance s else s.

Definition expect_char (c : ascii) (s : string) : result report string :=
  match next_char s with
  | Some (ch, bs, rest) =>
      if (ch =? byte_val c)%N then Ok rest
      else bail ("expected '" +:+ String c "" +:+ "', found '" +:+ bs +:+ "'")
  | None => bail ("expected '" +:+ String c "" +:+ "', found EOF")
  end.

Definition try_str (p s : string) : option string := strip_prefix p s.

(** The body of a quoted string after the opening quote. *)
Fixpoint quoted_go (fuel : nat) (s : string) : presult (string * string) :=
  match fuel with
  | O => OutOfFuel
  | S fuel =>
      match next_char s with
      | None => Failed ["unexpected EOF in quoted string"]
      | Some (c, bs, rest) =>
          if (c =? 34)%N then Done ("", rest)
          else if (c =? 92)%N then
            match next_char rest with
            | None => Failed ["unexpected EOF in string escape"]
            | Some (d, ds, rest') =>
                '(t, r) ← quoted_go fuel rest';
                Done ((if (d =? 110)%N then String NL ""
                       else if (d =? 116)%N then String "009" ""
                       else if (d =? 92)%N then "\"
                       else if (d =? 34)%N then String DQ ""
                       else String "\" ds) +:+ t, r)
            end
          else '(t, r) ← quoted_go fuel rest; Done (bs +:+ t, r)
      end
  end.

Definition parse_quoted_string (s : string) : presult (string * string) :=
  s ← lift (expect_char DQ s);
  quoted_go (S (String.length s)) s.

Section grammar.
Context `{UnicodeTables}.
Variable input : string.

(** [self.pos] when the suffix is [s]. *)
Definition pos_of (s : string) : nat := String.length input - String.length s.

Definition ident_char (c : N) : bool :=
  is_alphanumeric c || (c =? 95)%N || (c =? 45)%N || (c =? 46)%N.

Definition value_char (c : N) : bool :=
  is_alphanumeric c || (c =? 95)%N || (c =? 45)%N || (c =? 46)%N || (c =? 47)%N || (c =? 58)%N.

Definition parse_identifier (s : string) : result report (string * string) :=
  let '(id, rest) := span ident_char s in
  if decide (id = "") then bail ("expected identifier at position " +:+ pretty (pos_of s))
  else Ok (id, rest).

Definition parse_bare_value (s : string) : result report (string * string) :=
  let '(v, rest) := span value_char s in
  if decide (v = "") then bail ("expected value at position " +:+ pretty (pos_of s))
  else Ok (v, rest).

Definition parse_value (s : string) : presult (string * string) :=
  if peek_is DQ s then parse_quoted_string s else lift (parse_bare_value s).

Definition try_keyword (kw s : string) : option string :=
  match parse_identifier s with
  | Ok (id, rest) => if decide (id = kw) then Some rest else None
  | Err _ => None
  end.

Definition expect_keyword (kw s : string) : result report string :=
  match try_keyword kw s with
  | Some rest => Ok rest
  | None => bail ("expected keyword '" +:+ kw +:+ "'")
  end.

Fixpoint attributes_go (fuel : nat) (attrs : gmap string string) (s0 : string)
  : presult (gmap string string * string) :=
  match fuel with
  | O => OutOfFuel
  | S fuel =>
      let s := skip_ws s0 in
      if peek_is "]" s then Done (attrs, advance s)
      else if decide (s = "") then Failed ["unexpected EOF in attribute list"]
      else if peek_is "," s || peek_is ";" s then attributes_go fuel attrs (advance s)
      else
        '(key, s) ← lift (wrap_err "expected attribute name" (parse_identifier s));
        let s := skip_ws s in
        s ← lift (wrap_err "expected '=' in attribute" (expect_char "=" s));
        let s := skip_ws s in
        '(value, s) ← parse_value s;
        attributes_go fuel (<[key := value]> attrs) s
  end.

Definition parse_attributes (s : string) : presult (gmap string string * string) :=
  s ← lift (expect_char "[" s);
  attributes_go (S (String.length s)) ∅ s.

(** [if self.peek() == Some('[') { self.parse_attributes()? } else { HashMap::new() }] *)
Definition optional_attributes (s : string) : presult (gmap string string * string) :=
  if peek_is "[" s then parse_attributes s else Done (∅, s).

Fixpoint chain_go (fuel : nat) (chain : list string) (s0 : string)
  : presult (list string * string) :=
  match fuel with
  | O => OutOfFuel
  | S fuel =>
      '(next, s) ← lift (wrap_err "expected node ID after '->'" (parse_identifier (skip_ws s0)));
      let chain := chain ++ [next] in
      let s := skip_ws s in
      match try_str "->" s with
      | Some s => chain_go fuel chain s
      | None => Done (chain, s)
      end
  end.

(** [chain.windows(2)]. *)
Definition windows2 (l : list string) : list (string * string) := zip l (tail l).

Definition parse_edge_chain (g : PipelineGraph) (first s : string)
  : presult (list string * PipelineGraph * string) :=
  '(chain, s) ← chain_go (S (String.length s)) [first] s;
  '(attrs, s) ← optional_attributes (skip_ws s);
  Done (chain,
        foldl (fun g pair => push_edge (build_edge pair.1 pair.2 attrs) g) g (windows2 chain),
        s).

(** [if !node_ids.contains(&id) { node_ids.push(id) }]. *)
Definition push_new (node_ids : list string) (id : string) : list string :=
  if decide (id ∈ node_ids) then node_ids else node_ids ++ [id].

Fixpoint subgraph_go (fuel : nat) (subgraph_id : string) (label : option string)
    (node_ids : list string) (g : PipelineGraph) (s0 : string)
  : presult (option string * list string * PipelineGraph * string) :=
  match fuel with
  | O => OutOfFuel
  | S fuel =>
      let s := skip_ws s0 in
      if peek_is "}" s then Done (label, node_ids, g, advance s)
      else if decide (s = "") then
        Failed ["unexpected EOF in subgraph '" +:+ subgraph_id +:+ "'"]
      else match try_keyword "graph" s with
      | Some s =>
          let s := skip_ws s in
          '(label, s) ←
            (if peek_is "[" s then
               '(attrs, s) ← parse_attributes s;
               Done (match attrs !! "label" with Some l => Some l | None => label end, s)
             else Done (label, s));
          subgraph_go fuel subgraph_id label node_ids g (skip_optional_semicolon s)
      | None =>
          '(first_id, s) ← lift (wrap_err "expected node ID in subgraph" (parse_identifier s));
          let s := skip_ws s in
          match try_str "->" s with
          | Some s =>
              '(chain, g, s) ← parse_edge_chain g first_id s;
              subgraph_go fuel subgraph_id label (foldl push_new node_ids chain) g
                (skip_optional_semicolon s)
          | None =>
              '(attrs, s) ← optional_attributes s;
              let g := insert_node first_id (build_node first_id attrs) g in
              subgraph_go fuel subgraph_id label (push_new node_ids first_id) g
                (skip_optional_semicolon s)
          end
      end
  end.

Definition parse_subgraph (g : PipelineGraph) (s0 : string) : presult (PipelineGraph * string) :=
  '(subgraph_id, s) ← lift (wrap_err "expected subgraph name" (parse_identifier (skip_ws s0)));
  s ← lift (wrap_err "expected '{' after subgraph name" (expect_char "{" (skip_ws s)));
  '(label, node_ids, g, s) ← subgraph_go (S (String.length s)) subgraph_id None [] g s;
  Done (push_subgraph {| sg_id := subgraph_id; sg_label := label; sg_node_ids := node_ids |} g, s).

Definition parse_statement (g : PipelineGraph) (s0 : string) : presult (PipelineGraph * string) :=
  let s := skip_ws s0 in
  match try_keyword "graph" s with
  | Some s =>
      let s := skip_ws s in
      '(g, s) ←
        (if peek_is "[" s then
           '(attrs, s) ← parse_attributes s; Done (apply_graph_attrs g attrs, s)
         else Done (g, s));
      Done (g, skip_optional_semicolon s)
  | None =>
  match try_keyword "subgraph" s with
  | Some s =>
      '(g, s) ← parse_subgraph g s;
      Done (g, skip_optional_semicolon s)
  | None =>
      '(first_id, s) ← lift (wrap_err "expected node ID or '}'" (parse_identifier s));
      let s := skip_ws s in
      '(g, s) ←
        match try_str "->" s with
        | Some s => '(_, g, s) ← parse_edge_chain g first_id s; Done (g, s)
        | None =>
            if peek_is "=" s then
              let s := skip_ws (advance s) in
              if peek_is DQ s then '(_, s) ← parse_quoted_string s; Done (g, s)
              else Done (g, match parse_identifier s with Ok (_, s') => s' | Err _ => s end)
            else
              '(attrs, s) ← optional_attributes s;
              Done (insert_node first_id (build_node first_id attrs) g, s)
        end;
      Done (g, skip_optional_semicolon s)
  end
  end.

Fixpoint statements_go (fuel : nat) (g : PipelineGraph) (s0 : string)
  : presult (PipelineGraph * string) :=
  match fuel with
  | O => OutOfFuel
  | S fuel =>
      let s := skip_ws s0 in
      if peek_is "}" s then Done (g, advance s)
      else if decide (s = "") then Failed ["unexpected EOF, expected '}'"]
      else '(g, s) ← parse_statement g s; statements_go fuel g s
  end.

Definition parse (s0 : string) : presult PipelineGraph :=
  s ← lift (wrap_err "expected 'digraph' keyword" (expect_keyword "digraph" (skip_ws s0)));
  let s := skip_ws s in
  '(id, s) ←
    (if peek_is "{" s then Done ("pipeline", s)
     else lift (wrap_err "expected graph name or '{'" (parse_identifier s)));
  let id := bound_graph_id id in
  s ← lift (wrap_err "expected '{'" (expect_char "{" (skip_ws s)));
  '(g, s) ← statements_go (S (String.length s)) (empty_graph id) s;
  Done (ensure_endpoints g).
End grammar.

Definition parse_dot_fuel `{UnicodeTables} (input : string) : presult PipelineGraph :=
  parse input input.

(** The fuel never runs out ([parse_dot_total]). *)
Definition parse_dot `{UnicodeTables} (input : string) : result report PipelineGraph :=
  match parse_dot_fuel input with
  | Done g => Ok g
  | Failed e => Err e
  | OutOfFuel => bail "out of fuel"
  end.

(** ** Reasoning about parses

    [pok P p]: the parse does not run out of fuel, and if it succeeds its result
    satisfies [P]. *)

Definition pok {A} (P : A -> Prop) (p : presult A) : Prop :=
  match p with Done a => P a | Failed _ => True | OutOfFuel => False end.

Lemma pok_bind {A B} (P : A -> Prop) (Q : B -> Prop) (p : presult A) (f : A -> presult B) :
  pok P p -> (forall a, P a -> pok Q (f a)) -> pok Q (p ≫= f).
Proof. destruct p; cbn; auto. Qed.

Lemma pok_mono {A} (P Q : A -> Prop) (p : presult A) :
  pok P p -> (forall a, P a -> Q a) -> pok Q p.
Proof. destruct p; cbn; auto. Qed.

Lemma pok_lift {A} (P : A -> Prop) (r : result report A) :
  (forall a, r = Ok a -> P a) -> pok P (lift r).
Proof. destruct r; cbn; auto. Qed.

Abbreviation slen := String.length.

Lemma span_go_length f fuel s : slen (span_go f fuel s).2 <= slen s.
Proof.
  revert s; induction fuel as [|fuel IH]; intros s; cbn; [done|].
  destruct (next_char s) as [[[c bs] rest]|] eqn:Hn; [|done]. destruct (f c); [|done].
  apply next_char_length in Hn. specialize (IH rest). destruct (span_go f fuel rest). cbn in *. lia.
Qed.

Lemma span_go_split f fuel s : (span_go f fuel s).1 +:+ (span_go f fuel s).2 = s.
Proof.
  revert s; induction fuel as [|fuel IH]; intros s; cbn; [done|].
  destruct (next_char s) as [[[c bs] rest]|] eqn:Hn; [|done]. destruct (f c); [|done].
  apply next_char_spec in Hn as [-> _]. specialize (IH rest).
  destruct (span_go f fuel rest). cbn in *. by rewrite str_app_assoc, IH.
Qed.

Lemma span_strict f s : (span f s).1 <> "" -> slen (span f s).2 < slen s.
Proof.
  intros Hne. unfold span in *. pose proof (span_go_split f (slen s) s) as Hs.
  apply (f_equal slen) in Hs. rewrite length_str_app in Hs.
  destruct (span_go f (slen s) s).1; [done|]. cbn in Hs. lia.
Qed.

Lemma advance_length s : slen (advance s) <= slen s.
Proof.
  unfold advance. destruct (next_char s) as [[[c bs] r]|] eqn:Hn; [|done].
  apply next_char_length in Hn. lia.
Qed.

Lemma peek_is_advance c s : peek_is c s = true -> slen (advance s) < slen s.
Proof.
  unfold peek_is, peek, advance. intros Hp%bool_decide_eq_true.
  destruct (next_char s) as [[[d bs] r]|] eqn:Hn; [|done]. by apply next_char_length in Hn.
Qed.

Lemma skip_line_length fuel s : slen (skip_line fuel s) <= slen s.
Proof.
  revert s; induction fuel as [|fuel IH]; intros s; cbn; [done|].
  destruct (next_char s) as [[[d bs] r]|] eqn:Hn; [|done]. apply next_char_length in Hn.
  case_match; [lia|]. specialize (IH r). lia.
Qed.

Lemma skip_block_length fuel s : slen (skip_block fuel s) <= slen s.
Proof.
  revert s; induction fuel as [|fuel IH]; intros s; cbn [skip_block]; [done|].
  case_decide; [done|]. case_match; [rewrite length_str_drop; lia|].
  specialize (IH (advance s)). pose proof (advance_length s). lia.
Qed.

Lemma skip_ws_go_length fuel s : slen (skip_ws_go fuel s) <= slen s.
Proof.
  revert s; induction fuel as [|fuel IH]; intros s; cbn [skip_ws_go]; [done|].
  pose proof (span_go_length is_whitespace (slen s) s) as Hs. fold (span is_whitespace s) in Hs.
  set (s1 := (span is_whitespace s).2) in *. case_match; [|case_match; [|done]].
  - etrans; [apply IH|]. pose proof (skip_line_length (slen s1) s1). lia.
  - etrans; [apply IH|]. etrans; [apply skip_block_length|]. rewrite length_str_drop. lia.
Qed.

Lemma skip_ws_length s : slen (skip_ws s) <= slen s.
Proof. apply skip_ws_go_length. Qed.

Lemma skip_optional_semicolon_length s : slen (skip_optional_semicolon s) <= slen s.
Proof.
  unfold skip_optional_semicolon. pose proof (skip_ws_length s). case_match; [|done].
  pose proof (advance_length (skip_ws s)). lia.
Qed.

Lemma expect_char_length c s r : expect_char c s = Ok r -> slen r < slen s.
Proof.
  unfold expect_char. destruct (next_char s) as [[[d bs] t]|] eqn:Hn; [|done].
  case_match; [|done]. intros ?. simplify_eq. by apply next_char_length in Hn.
Qed.

Lemma try_str_length p s r : try_str p s = Some r -> slen r <= slen s.
Proof.
  unfold try_str, strip_prefix. case_match; [|done]. intros ?. simplify_eq.
  rewrite length_str_drop. lia.
Qed.

Lemma quoted_go_ok fuel s :
  slen s < fuel -> pok (fun '(_, r) => slen r < slen s) (quoted_go fuel s).
Proof.
  revert s; induction fuel as [|fuel IH]; intros s Hf; [lia|]. cbn [quoted_go].
  destruct (next_char s) as [[[c bs] rest]|] eqn:Hn; [|done]. apply next_char_length in Hn.
  case_match; [done|]. case_match.
  - destruct (next_char rest) as [[[d ds] rest']|] eqn:Hn'; [|done]. apply next_char_length in Hn'.
    eapply pok_bind; [apply IH; lia|]. intros [t r] Hr. cbn in *. lia.
  - eapply pok_bind; [apply IH; lia|]. intros [t r] Hr. cbn in *. lia.
Qed.

Lemma parse_quoted_string_ok s :
  pok (fun '(_, r) => slen r < slen s) (parse_quoted_string s).
Proof.
  unfold parse_quoted_string. eapply pok_bind.
  - apply pok_lift. apply expect_char_length.
  - intros r Hr. eapply pok_mono; [apply quoted_go_ok; lia|]. intros [t r'] ?. cbn in *. lia.
Qed.

#[export] Hint Resolve skip_ws_length skip_optional_semicolon_length advance_length
  peek_is_advance try_str_length expect_char_length : octos.

(** Length facts about the lexical functions occurring in the goal. *)
Ltac lens :=
  repeat match goal with
  | |- context [slen (skip_ws ?s)] =>
      lazymatch goal with H : slen (skip_ws s) <= slen s |- _ => fail | _ =>
        pose proof (skip_ws_length s) end
  | H : context [slen (skip_ws ?s)] |- _ =>
      lazymatch goal with H : slen (skip_ws s) <= slen s |- _ => fail | _ =>
        pose proof (skip_ws_length s) end
  | |- context [slen (skip_optional_semicolon ?s)] =>
      lazymatch goal with H : slen (skip_optional_semicolon s) <= slen s |- _ => fail | _ =>
        pose proof (skip_optional_semicolon_length s) end
  | H : context [slen (skip_optional_semicolon ?s)] |- _ =>
      lazymatch goal with H : slen (skip_optional_semicolon s) <= slen s |- _ => fail | _ =>
        pose proof (skip_optional_semicolon_length s) end
  | |- context [slen (advance ?s)] =>
      lazymatch goal with H : slen (advance s) <= slen s |- _ => fail | _ =>
        pose proof (advance_length s) end
  end; lia.

(** ** Every statement consumes input and preserves the graph invariants

    [G] is any property of graphs closed under the updates the grammar performs. *)

#[local] Arguments advance : simpl never.
#[local] Arguments skip_ws : simpl never.
#[local] Arguments skip_optional_semicolon : simpl never.

Section grammar_ok.
Context `{UT : UnicodeTables} (input : string).
Variable G : PipelineGraph -> Prop.
Hypothesis G_attrs : forall g attrs, G g -> G (apply_graph_attrs g attrs).
Hypothesis G_node : forall g id attrs, G g -> G (insert_node id (build_node id attrs) g).
Hypothesis G_edge : forall g a b attrs, G g -> G (push_edge (build_edge a b attrs) g).
Hypothesis G_sub : forall g sg, G g -> G (push_subgraph sg g).

Lemma parse_identifier_length s id r : parse_identifier input s = Ok (id, r) -> slen r < slen s.
Proof.
  unfold parse_identifier. pose proof (span_strict ident_char s).
  destruct (span ident_char s) as [t u]. case_decide; [done|]. intros ?. simplify_eq/=. auto.
Qed.

Lemma parse_bare_value_length s v r : parse_bare_value input s = Ok (v, r) -> slen r < slen s.
Proof.
  unfold parse_bare_value. pose proof (span_strict value_char s).
  destruct (span value_char s) as [t u]. case_decide; [done|]. intros ?. simplify_eq/=. auto.
Qed.

Lemma try_keyword_length kw s r : try_keyword input kw s = Some r -> slen r < slen s.
Proof.
  unfold try_keyword. destruct (parse_identifier input s) as [[id u]|] eqn:Hp; [|done].
  case_decide; [|done]. intros ?. simplify_eq. by apply parse_identifier_length in Hp.
Qed.

Lemma identifier_ok msg s :
  pok (fun '(_, r) => slen r < slen s) (lift (wrap_err msg (parse_identifier input s))).
Proof. apply pok_lift. intros [id r] Hr%wrap_err_Ok. by apply parse_identifier_length in Hr. Qed.

Lemma expect_char_ok msg c s :
  pok (fun r => slen r < slen s) (lift (wrap_err msg (expect_char c s))).
Proof. apply pok_lift. intros r Hr%wrap_err_Ok. by apply expect_char_length in Hr. Qed.

Lemma parse_value_ok s : pok (fun '(_, r) => slen r < slen s) (parse_value input s).
Proof.
  unfold parse_value. case_match; [apply parse_quoted_string_ok|].
  apply pok_lift. intros [v r] Hr. by apply parse_bare_value_length in Hr.
Qed.

Lemma attributes_go_ok fuel attrs s :
  slen s < fuel -> pok (fun '(_, r) => slen r < slen s) (attributes_go input fuel attrs s).
Proof.
  revert attrs s; induction fuel as [|fuel IH]; intros attrs s Hf; [lia|]. cbn [attributes_go].
  pose proof (skip_ws_length s) as Hws. set (s1 := skip_ws s) in *.
  destruct (peek_is "]" s1) eqn:Hend; [apply peek_is_advance in Hend; cbn; lia|].
  case_decide; [done|]. destruct (_ || _) eqn:Hsep.
  - assert (slen (advance s1) < slen s1) by
      (apply orb_true_iff in Hsep as [?|?]; by eapply peek_is_advance).
    eapply pok_mono; [apply IH; lia|]. intros [a r] Hr. cbn in *. lia.
  - eapply pok_bind; [apply identifier_ok|]. intros [key s2] H2. cbn in H2.
    eapply pok_bind; [apply expect_char_ok|]. intros s3 H3. cbn in H3.
    eapply pok_bind; [apply parse_value_ok|]. intros [v s4] H4. cbn in H4.
    eapply pok_mono; [apply IH; lens|]. intros [a r] Hr. cbn in *. lens.
Qed.

Lemma parse_attributes_ok s : pok (fun '(_, r) => slen r < slen s) (parse_attributes input s).
Proof.
  unfold parse_attributes. eapply pok_bind.
  - apply pok_lift. apply expect_char_length.
  - intros r Hr. eapply pok_mono; [apply attributes_go_ok; lia|]. intros [t r'] ?. cbn in *. lia.
Qed.

Lemma optional_attributes_ok s :
  pok (fun '(_, r) => slen r <= slen s) (optional_attributes input s).
Proof.
  unfold optional_attributes. case_match; [|cbn; lia].
  eapply pok_mono; [apply parse_attributes_ok|]. intros [a r] ?. cbn in *. lia.
Qed.

Lemma chain_go_ok fuel chain s :
  slen s < fuel -> pok (fun '(_, r) => slen r < slen s) (chain_go input fuel chain s).
Proof.
  revert chain s; induction fuel as [|fuel IH]; intros chain s Hf; [lia|]. cbn [chain_go].
  eapply pok_bind; [apply identifier_ok|]. intros [next s1] H1. cbn in H1.
  destruct (try_str "->" (skip_ws s1)) as [s2|] eqn:Ht.
  - apply try_str_length in Ht. eapply pok_mono; [apply IH; lens|]. intros [c r] ?. cbn in *. lens.
  - cbn. lens.
Qed.

Lemma push_edges_G attrs (pairs : list (string * string)) g :
  G g -> G (foldl (fun g pair => push_edge (build_edge pair.1 pair.2 attrs) g) g pairs).
Proof. revert g; induction pairs; cbn; auto. Qed.

Lemma parse_edge_chain_ok g first s :
  pok (fun '(_, g', r) => slen r < slen s /\ (G g -> G g')) (parse_edge_chain input g first s).
Proof.
  unfold parse_edge_chain. eapply pok_bind; [apply chain_go_ok; lia|].
  intros [chain s1] H1. cbn in H1. eapply pok_bind; [apply optional_attributes_ok|].
  intros [attrs s2] H2. cbn in *. split; [lens|apply push_edges_G].
Qed.

Definition stmt_ok (g : PipelineGraph) (s : string) : PipelineGraph * string -> Prop :=
  fun '(g', r) => slen r < slen s /\ (G g -> G g').

Lemma subgraph_go_ok fuel sid label ids g s :
  slen s < fuel ->
  pok (fun '(_, _, g', r) => slen r < slen s /\ (G g -> G g'))
    (subgraph_go input fuel sid label ids g s).
Proof.
  revert label ids g s; induction fuel as [|fuel IH]; intros label ids g s Hf; [lia|].
  cbn [subgraph_go]. pose proof (skip_ws_length s) as Hws. set (s1 := skip_ws s) in *.
  destruct (peek_is "}" s1) eqn:Hend; [apply peek_is_advance in Hend; cbn; split; [lia|done]|].
  case_decide; [done|]. destruct (try_keyword input "graph" s1) as [s2|] eqn:Hk.
  - apply try_keyword_length in Hk.
    eapply (pok_bind (fun '(_, r) => slen r <= slen s2)).
    + case_match; [|cbn; lens]. eapply pok_bind; [apply parse_attributes_ok|].
      intros [a r] Hr. cbn in *. lens.
    + intros [label' s3] H3. cbn in H3. eapply pok_mono; [apply IH; lens|].
      intros [[[? ?] g'] r] [? ?]. split; [lens|done].
  - eapply pok_bind; [apply identifier_ok|]. intros [first s2] H2. cbn in H2.
    destruct (try_str "->" (skip_ws s2)) as [s3|] eqn:Ht.
    + apply try_str_length in Ht. eapply pok_bind; [apply parse_edge_chain_ok|].
      intros [[chain g'] s4] [H4 HG]. eapply pok_mono; [apply IH; lens|].
      intros [[[? ?] g''] r] [? ?]. split; [lens|auto].
    + eapply pok_bind; [apply optional_attributes_ok|]. intros [attrs s3] H3. cbn in H3.
      eapply pok_mono; [apply IH; lens|]. intros [[[? ?] g''] r] [? ?]. split; [lens|auto].
Qed.

Lemma parse_subgraph_ok g s : pok (stmt_ok g s) (parse_subgraph input g s).
Proof.
  unfold parse_subgraph. eapply pok_bind; [apply identifier_ok|]. intros [sid s1] H1. cbn in H1.
  eapply pok_bind; [apply expect_char_ok|]. intros s2 H2. cbn in H2.
  eapply pok_bind; [apply subgraph_go_ok; lia|]. intros [[[label ids] g'] s3] [H3 HG].
  cbn. split; [lens|auto].
Qed.

Lemma parse_statement_ok g s : pok (stmt_ok g s) (parse_statement input g s).
Proof.
  unfold parse_statement. pose proof (skip_ws_length s) as Hws. set (s1 := skip_ws s) in *.
  destruct (try_keyword input "graph" s1) as [s2|] eqn:Hk.
  { apply try_keyword_length in Hk.
    eapply (pok_bind (fun '(g', r) => slen r <= slen s2 /\ (G g -> G g'))).
    - case_match; [|cbn; split; [lens|done]]. eapply pok_bind; [apply parse_attributes_ok|].
      intros [a r] Hr. cbn in *. split; [lens|auto].
    - intros [g' s3] [H3 ?]. cbn. split; [lens|done]. }
  destruct (try_keyword input "subgraph" s1) as [s2|] eqn:Hk2.
  { apply try_keyword_length in Hk2. eapply pok_bind; [apply parse_subgraph_ok|].
    intros [g' s3] [H3 ?]. cbn. split; [lens|done]. }
  eapply pok_bind; [apply identifier_ok|]. intros [first s2] H2. cbn in H2.
  eapply (pok_bind (fun '(g', r) => slen r <= slen s2 /\ (G g -> G g')));
    [|intros [g' s3] [H3 ?]; cbn; split; [lens|done]].
  destruct (try_str "->" (skip_ws s2)) as [s3|] eqn:Ht.
  - apply try_str_length in Ht. eapply pok_bind; [apply parse_edge_chain_ok|].
    intros [[chain g'] s4] [H4 HG]. cbn. split; [lens|done].
  - case_match.
    + case_match.
      * eapply pok_bind; [apply parse_quoted_string_ok|]. intros [v r] Hr. cbn in *.
        split; [|done]. pose proof (advance_length (skip_ws s2)). lens.
      * cbn. split; [|done]. pose proof (advance_length (skip_ws s2)).
        destruct (parse_identifier _ _) as [[id r]|] eqn:Hid; [apply parse_identifier_length in Hid|];
          lens.
    + eapply pok_bind; [apply optional_attributes_ok|]. intros [attrs s3] H3. cbn in *.
      split; [lens|auto].
Qed.

Lemma statements_go_ok fuel g s :
  slen s < fuel -> pok (stmt_ok g s) (statements_go input fuel g s).
Proof.
  revert g s; induction fuel as [|fuel IH]; intros g s Hf; [lia|]. cbn [statements_go].
  pose proof (skip_ws_length s) as Hws. set (s1 := skip_ws s) in *.
  destruct (peek_is "}" s1) eqn:Hend; [apply peek_is_advance in Hend; cbn; split; [lia|done]|].
  case_decide; [done|]. eapply pok_bind; [apply parse_statement_ok|]. intros [g' s2] [H2 HG].
  eapply pok_mono; [apply IH; lia|]. intros [g'' r] [? ?]. split; [lia|auto].
Qed.

Lemma parse_ok s :
  (forall id, slen id <= MAX_GRAPH_ID_BYTES -> G (empty_graph id)) ->
  pok (fun g => exists g0, G g0 /\ g = ensure_endpoints g0) (parse input s).
Proof.
  intros Hempty. unfold parse. eapply (pok_bind (fun _ => True)); [by apply pok_lift|].
  intros s1 _. eapply (pok_bind (fun _ => True)).
  { case_match; [done|]. by apply pok_lift. }
  intros [id s2] _. eapply (pok_bind (fun _ => True)); [by apply pok_lift|]. intros s3 _.
  eapply pok_bind; [apply statements_go_ok; lia|]. intros [g s4] [_ HG]. cbn.
  exists g. split; [|done]. apply HG, Hempty. unfold bound_graph_id.
  case_decide; [done|]. rewrite length_str_take.
  pose proof (floor_boundary_le id MAX_GRAPH_ID_BYTES). lia.
Qed.
End grammar_ok.

(** ** Well-formed parsed graphs *)

Definition opt_in (lo hi : Z) (o : option Z) : Prop := forall v, o = Some v -> (lo <= v <= hi)%Z.

Record wf_node (id : string) (n : PipelineNode) : Prop := {
  wf_id : pn_id n = id;
  wf_retries : (0 <= pn_max_retries n <= u32_max)%Z;
  wf_context : opt_in 0 u32_max (pn_context_window n);
  wf_output : opt_in 0 u32_max (pn_max_output_tokens n);
  wf_iterations : opt_in 0 u32_max (pn_max_iterations n);
  wf_tasks : opt_in 0 u32_max (pn_max_tasks n);
  wf_timeout : opt_in 0 u64_max (pn_timeout_secs n);
  wf_deadline : forall d, pn_deadline_secs n = Some d ->
    f64_is_finite d = true /\ f64_le f64_zero d = true;
  wf_action : forall m, pn_deadline_action n = Some (Retry_action m) -> (1 <= m <= u32_max)%Z;
  wf_handler : pn_handler n <> Notify /\ pn_handler n <> Wait
}.

Record wf_graph (g : PipelineGraph) : Prop := {
  wf_nodes : forall id n, pg_nodes g !! id = Some n -> wf_node id n;
  wf_graph_id : slen (pg_id g) <= MAX_GRAPH_ID_BYTES;
  wf_budget : opt_in 0 u32_max (pg_max_total_tokens g);
  wf_default_timeout : opt_in 0 u64_max (pg_default_timeout_secs g)
}.

Definition endpoints_declared (g : PipelineGraph) : Prop :=
  forall e, e ∈ pg_edges g ->
    is_Some (pg_nodes g !! pe_source e) /\ is_Some (pg_nodes g !! pe_target e).

Lemma opt_in_bind max (o : option string) : opt_in 0 max (o ≫= parse_uint max).
Proof. intros v. destruct o; cbn; [apply parse_uint_bounds|done]. Qed.

Lemma parse_duration_secs_bounds s v : parse_duration_secs s = Some v -> (0 <= v <= u64_max)%Z.
Proof.
  assert (Hmul : forall k n v, (0 <= k)%Z -> (v ← parse_u64 n; u64_checked_mul v k) = Some v ->
    (0 <= v <= u64_max)%Z).
  { intros k n w Hk Hw. apply bind_Some in Hw as (x & Hx%parse_uint_bounds & Hm).
    unfold u64_checked_mul in Hm. destruct (x * k <=? u64_max)%Z eqn:Hle; [|done].
    apply Z.leb_le in Hle. simplify_eq. split; [|done]. apply Z.mul_nonneg_nonneg; lia. }
  unfold parse_duration_secs. repeat case_match; eauto using parse_uint_bounds.
  - apply Hmul. lia.
  - apply Hmul. lia.
Qed.

Lemma parse_duration_secs_f64_ok s d :
  parse_duration_secs_f64 s = Some d -> f64_is_finite d = true /\ f64_le f64_zero d = true.
Proof.
  unfold parse_duration_secs_f64. intros (p & _ & Hd)%bind_Some.
  destruct (f64_is_finite p) eqn:Hf, (f64_le f64_zero p) eqn:Hl; cbn in Hd; by simplify_eq.
Qed.

Lemma parse_deadline_action_retry s m :
  parse_deadline_action s = Some (Retry_action m) -> (1 <= m <= u32_max)%Z.
Proof.
  unfold parse_deadline_action. repeat (case_decide; [done|]).
  intros (r & _ & (n & Hn%parse_uint_bounds & Hz)%bind_Some)%bind_Some.
  destruct (n =? 0)%Z eqn:Hn0; [done|]. apply Z.eqb_neq in Hn0. simplify_eq. lia.
Qed.

Lemma from_str_kind s h : HandlerKind_from_str s = Some h -> h <> Notify /\ h <> Wait.
Proof. unfold HandlerKind_from_str. intros H. repeat case_decide; by simplify_eq. Qed.

Lemma from_shape_kind s h : HandlerKind_from_shape s = Some h -> h <> Notify /\ h <> Wait.
Proof. unfold HandlerKind_from_shape. intros H. repeat case_decide; by simplify_eq. Qed.

Lemma build_node_wf id attrs : wf_node id (build_node id attrs).
Proof.
  split; cbn; try apply opt_in_bind; try done.
  - destruct (attrs !! "max_retries" ≫= parse_u32) as [v|] eqn:Hv; cbn; [|done].
    by apply opt_in_bind in Hv.
  - intros v. destruct (attrs !! "timeout_secs"); cbn; [apply parse_duration_secs_bounds|done].
  - intros d. destruct (attrs !! "deadline_secs"); cbn; [apply parse_duration_secs_f64_ok|done].
  - intros m. destruct (attrs !! "deadline_action"); cbn; [apply parse_deadline_action_retry|done].
  - destruct (attrs !! "handler" ≫= HandlerKind_from_str) as [h|] eqn:Hh.
    + apply bind_Some in Hh as (s & _ & Hs). by apply from_str_kind in Hs.
    + destruct (attrs !! "shape" ≫= HandlerKind_from_shape) as [h|] eqn:Hs; cbn; [|done].
      apply bind_Some in Hs as (s & _ & Hs). by apply from_shape_kind in Hs.
Qed.

Lemma default_node_wf id : wf_node id (PipelineNode_default id).
Proof. split; done. Qed.

Lemma wf_insert_node g id n : wf_graph g -> wf_node id n -> wf_graph (insert_node id n g).
Proof.
  intros [Hn Hi Hb Ht] Hw. split; cbn; [|done..].
  intros id' n'. rewrite lookup_insert. case_decide; [by intros; simplify_eq|]. apply Hn.
Qed.

Lemma wf_ensure_node g id : wf_graph g -> wf_graph (ensure_node id g).
Proof.
  intros Hg. unfold ensure_node. case_match; [done|]. by apply wf_insert_node, default_node_wf.
Qed.

Lemma wf_apply_graph_attrs g attrs : wf_graph g -> wf_graph (apply_graph_attrs g attrs).
Proof.
  intros [Hn Hi Hb Ht]. split; cbn; [done..| |].
  - case_match; [|done]. intros v. apply parse_uint_bounds.
  - case_match; [|done]. intros v. apply parse_duration_secs_bounds.
Qed.

Lemma ensure_node_edges g id : pg_edges (ensure_node id g) = pg_edges g.
Proof. unfold ensure_node. by case_match. Qed.

Lemma ensure_node_lookup g id id' :
  is_Some (pg_nodes g !! id') \/ id' = id -> is_Some (pg_nodes (ensure_node id g) !! id').
Proof.
  unfold ensure_node. destruct (pg_nodes g !! id) eqn:Hl; [naive_solver|]. cbn.
  rewrite lookup_insert. case_decide; naive_solver.
Qed.

Lemma ensure_fold_spec (edges : list PipelineEdge) g :
  let g' := foldl (fun g e => ensure_node (pe_target e) (ensure_node (pe_source e) g)) g edges in
  pg_edges g' = pg_edges g /\ (wf_graph g -> wf_graph g') /\
  (forall id, is_Some (pg_nodes g !! id) -> is_Some (pg_nodes g' !! id)) /\
  (forall e, e ∈ edges -> is_Some (pg_nodes g' !! pe_source e) /\ is_Some (pg_nodes g' !! pe_target e)).
Proof.
  revert g; induction edges as [|e es IH]; intros g; cbn; [split_and!; [done..|set_solver]|].
  specialize (IH (ensure_node (pe_target e) (ensure_node (pe_source e) g))) as (He & Hw & Hk & Hs).
  split_and!.
  - by rewrite He, !ensure_node_edges.
  - intros Hg. by apply Hw, wf_ensure_node, wf_ensure_node.
  - intros id Hid. apply Hk. auto using ensure_node_lookup.
  - intros e' [->|Hin]%elem_of_cons; [|auto]. split; apply Hk; auto using ensure_node_lookup.
Qed.

(** The DOT parser always returns: on every input, every loop of the lexer and
    of the grammar ends within its fuel, with a graph or an error report. *)
Theorem parse_dot_total `{UnicodeTables} (input : string) :
  exists r, parse_dot_fuel input = match r with Ok g => Done g | Err e => Failed e end /\
            parse_dot input = r.
Proof.
  unfold parse_dot. pose proof (parse_ok input (fun _ => True)) as Hok.
  specialize (Hok ltac:(done) ltac:(done) ltac:(done) ltac:(done) input ltac:(done)).
  unfold parse_dot_fuel. destruct (parse input input) as [g|e|]; [|by exists (Err e)|done].
  by exists (Ok g).
Qed.

(** C34.  Every graph [parse_dot] returns is well formed: node keys are node ids, the
    graph id has at most 128 bytes, every machine-integer attribute is within its
    width (an overflowing or malformed one is dropped), deadlines are finite and
    non-negative, a retry action has at least one attempt, only handler kinds with a
    DOT spelling occur, and both endpoints of every edge are declared nodes. *)
Theorem parse_dot_wf `{UnicodeTables} (input : string) (g : PipelineGraph) :
  parse_dot input = Ok g -> wf_graph g /\ endpoints_declared g.
Proof.
  unfold parse_dot, parse_dot_fuel. intros Hp.
  assert (Hok : pok (fun g => exists g0, wf_graph g0 /\ g = ensure_endpoints g0) (parse input input)).
  { apply parse_ok; auto using wf_apply_graph_attrs, wf_insert_node, build_node_wf.
    - intros ???? []. by split.
    - intros ?? []. by split.
    - intros id Hid. split; cbn; [done|done|done|done]. }
  destruct (parse input input) as [g1|e|]; simplify_eq. destruct Hok as (g0 & Hw & ->).
  destruct (ensure_fold_spec (pg_edges g0) g0) as (He & Hwf & _ & Hs). split; [auto|].
  intros e. unfold ensure_endpoints. rewrite He. apply Hs.
Qed.

Lemma parse_dot_wf_witness :
  exists g, @parse_dot ascii_tables "digraph g { a -> b -> c [weight=2.5]; a [max_retries=3] }" = Ok g /\
    wf_graph g /\ endpoints_declared g.
Proof.
  eexists. split; [vm_compute; reflexivity|].
  apply (@parse_dot_wf ascii_tables "digraph g { a -> b -> c [weight=2.5]; a [max_retries=3] }").
  vm_compute. reflexivity.
Defined.
