(* ===== verification/ToolPolicy.v ===== *)
(** * Tool policies

    Model of [crates/octos-agent/src/tools/policy.rs] (allow/deny lists, static
    groups, wildcards, tags), of [crates/octos-agent/src/tools/robot_groups.rs] (the
    registry of robot tools by safety tier) and of [SafetyTier] in
    [crates/octos-agent/src/permissions.rs].  The metric counter of a denial is not
    modelled; the reason it is labelled with is. *)

From S2P Require Import Prelude RustStr.

(** ** Safety tiers *)

Inductive SafetyTier := Observe | SafeMotion | FullActuation | EmergencyOverride.

#[export] Instance SafetyTier_eq_dec : EqDecision SafetyTier.
Proof. solve_decision. Defined.

(** The declaration order, which [derive(PartialOrd, Ord)] compares by. *)
Definition tier_rank (t : SafetyTier) : nat :=
  match t with Observe => 0 | SafeMotion => 1 | FullActuation => 2 | EmergencyOverride => 3 end.

Definition tier_le (a b : SafetyTier) : bool := bool_decide (tier_rank a <= tier_rank b).

Definition tier_of_rank (n : nat) : option SafetyTier :=
  match n with
  | 0 => Some Observe | 1 => Some SafeMotion | 2 => Some FullActuation
  | 3 => Some EmergencyOverride | _ => None
  end.

Lemma tier_of_rank_rank t : tier_of_rank (tier_rank t) = Some t.
Proof. by destruct t. Qed.

#[export] Instance SafetyTier_countable : Countable SafetyTier :=
  inj_countable tier_rank tier_of_rank tier_of_rank_rank.

Definition SafetyTier_label (t : SafetyTier) : string :=
  match t with
  | Observe => "observe"
  | SafeMotion => "safe_motion"
  | FullActuation => "full_actuation"
  | EmergencyOverride => "emergency_override"
  end.

Definition SafetyTier_ALL : list SafetyTier :=
  [Observe; SafeMotion; FullActuation; EmergencyOverride].

(** [FromStr]; the error carries the rejected input. *)
Definition SafetyTier_from_str (s : string) : result string SafetyTier :=
  let l := to_ascii_lowercase (trim s) in
  if decide (l = "observe") then Ok Observe
  else if decide (l = "safe_motion") then Ok SafeMotion
  else if decide (l = "full_actuation") then Ok FullActuation
  else if decide (l = "emergency_override") then Ok EmergencyOverride
  else Err s.

(** ** The robot tool registry *)

Definition ROBOT_GROUP_PREFIX : string := "group:robot:".

Definition group_name (t : SafetyTier) : string := ROBOT_GROUP_PREFIX +:+ SafetyTier_label t.

Definition parse_group_name (group : string) : option SafetyTier :=
  tier ← strip_prefix ROBOT_GROUP_PREFIX group;
  ok (SafetyTier_from_str tier).

(** [BTreeMap<SafetyTier, BTreeSet<String>>]: the tools declared at each tier. *)
Record RobotToolRegistry := { by_tier : gmap SafetyTier (gset string) }.

Definition registry_new : RobotToolRegistry := {| by_tier := ∅ |}.

(** The set stored at a tier. *)
Definition at_tier (reg : RobotToolRegistry) (t : SafetyTier) : gset string :=
  default ∅ (by_tier reg !! t).

(** The returned flag of [BTreeSet::insert] and [BTreeSet::remove] is the second
    component. *)
Definition registry_insert (tool_name : string) (tier : SafetyTier) (reg : RobotToolRegistry)
  : RobotToolRegistry * bool :=
  let tiers := (fun set => set ∖ {[tool_name]}) <$> by_tier reg in
  let set := default ∅ (tiers !! tier) in
  ({| by_tier := <[tier := {[tool_name]} ∪ set]> tiers |}, bool_decide (tool_name ∉ set)).

Definition registry_remove (tool_name : string) (reg : RobotToolRegistry)
  : RobotToolRegistry * bool :=
  ({| by_tier := (fun set => set ∖ {[tool_name]}) <$> by_tier reg |},
   existsb (fun t => bool_decide (tool_name ∈ at_tier reg t)) SafetyTier_ALL).

(** The loops run over the map in key order, that is in tier order. *)
Definition tier_of (reg : RobotToolRegistry) (tool_name : string) : option SafetyTier :=
  find (fun t => bool_decide (tool_name ∈ (at_tier reg t))) SafetyTier_ALL.

Definition tools_for_tier (reg : RobotToolRegistry) (tier : SafetyTier) : list string :=
  btree_iter (⋃ ((fun t => if tier_le t tier then at_tier reg t else ∅) <$> SafetyTier_ALL)).

Definition matches_group (reg : RobotToolRegistry) (group tool_name : string) : bool :=
  match parse_group_name group with
  | Some tier =>
      match tier_of reg tool_name with
      | Some actual => tier_le actual tier
      | None => false
      end
  | None => false
  end.

(** The global registry is an argument of the operations that read it. *)
Definition group_covers_tool (reg : RobotToolRegistry) (group tool_name : string) : bool :=
  if negb (starts_with ROBOT_GROUP_PREFIX group) then false
  else matches_group reg group tool_name.

Definition tool_has_tier (reg : RobotToolRegistry) (tool_name : string) : bool :=
  bool_decide (is_Some (tier_of reg tool_name)).

(** ** Static groups *)

(** [TOOL_GROUPS]: name and tools (the descriptions are documentation). *)
Definition TOOL_GROUPS : list (string * list string) := [
  ("group:fs", ["read_file"; "write_file"; "apply_patch"; "edit_file"; "diff_edit"]);
  ("group:runtime", ["shell"; "exec_command"; "write_stdin"; "bash"]);
  ("group:web", ["web_search"; "web_fetch"; "browser"]);
  ("group:search", ["glob"; "grep"; "list_dir"]);
  ("group:sessions", ["spawn"; "spawn_agent"; "send_input"; "resume_agent"; "wait_agent";
                      "close_agent"; "delegate"]);
  ("group:memory", ["recall_memory"; "save_memory"; "memory_note"; "record_memory_use"]);
  ("group:research", ["search"; "synthesize_research"; "deep_crawl"]);
  ("group:admin", ["manage_skills"; "configure_tool"; "model_check"]);
  ("group:media", ["mofa_make"; "mofa_describe_content_type"; "mofa_comic"; "mofa_slides";
                   "mofa_infographic"; "mofa_cards"; "fm_tts"; "fm_voice_list"]);
  ("group:delegated", ["delegate_task"; "delegate"; "spawn"; "spawn_agent"; "send_input";
                       "resume_agent"; "wait_agent"; "close_agent"; "message"; "save_memory";
                       "memory_note"])
].

Definition tool_group_info (name : string) : option (string * list string) :=
  find (fun grp => bool_decide (grp.1 = name)) TOOL_GROUPS.

Definition expand_group (name : string) : option (list string) := snd <$> tool_group_info name.

(** ** Policies *)

Inductive BashFileWrites := BfwAllow | BfwWarn | BfwDeny.

Record ToolPolicy := {
  tp_allow : list string;
  tp_deny : list string;
  tp_require_tags : list string;
  tp_bash_file_writes : BashFileWrites
}.

Inductive PolicyDecision :=
| Allow
| Deny (reason : string).

#[export] Instance PolicyDecision_eq_dec : EqDecision PolicyDecision.
Proof. solve_decision. Defined.

Definition ROBOT_TIER_GATE_REASON : string := "robot_tier_gate".
Definition GENERIC_DENY_REASON : string := "policy_deny".

Definition entry_is_robot_group (entry : string) : bool :=
  bool_decide (is_Some (parse_group_name entry)).

Section policy.
Variable reg : RobotToolRegistry.

Definition entry_matches (entry tool_name : string) : bool :=
  if entry_is_robot_group entry then group_covers_tool reg entry tool_name
  else match expand_group entry with
       | Some tools => bool_decide (tool_name ∈ tools)
       | None =>
           match strip_suffix "*" entry with
           | Some prefix => starts_with prefix tool_name
           | None => bool_decide (entry = tool_name)
           end
       end.

Definition ToolPolicy_evaluate (p : ToolPolicy) (tool_name : string) : PolicyDecision :=
  match find (fun entry => entry_matches entry tool_name) (tp_deny p) with
  | Some entry =>
      Deny (if entry_is_robot_group entry then ROBOT_TIER_GATE_REASON else GENERIC_DENY_REASON)
  | None =>
      if decide (tp_allow p = []) then Allow
      else if existsb (fun entry => entry_matches entry tool_name) (tp_allow p) then Allow
      else Deny (if existsb entry_is_robot_group (tp_allow p) && tool_has_tier reg tool_name
                 then ROBOT_TIER_GATE_REASON else GENERIC_DENY_REASON)
  end.

Definition is_allowed (p : ToolPolicy) (tool_name : string) : bool :=
  bool_decide (ToolPolicy_evaluate p tool_name = Allow).

Definition is_allowed_with_tags (p : ToolPolicy) (tool_name : string) (tool_tags : list string)
  : bool :=
  if negb (is_allowed p tool_name) then false
  else if decide (tp_require_tags p = []) then true
  else existsb (fun tag => existsb (fun req => String.eqb req tag) (tp_require_tags p)) tool_tags.

Definition ToolPolicy_is_empty (p : ToolPolicy) : bool :=
  bool_decide (tp_allow p = []) && bool_decide (tp_deny p = [])
  && bool_decide (tp_require_tags p = []).
End policy.

(** ** Lemmas *)

Lemma find_None {A} (f : A -> bool) l : List.find f l = None <-> forall x, x ∈ l -> f x = false.
Proof.
  split.
  - intros Hf x Hx. apply (List.find_none f l Hf). by apply list_elem_of_In.
  - intros Hall. destruct (List.find f l) as [x|] eqn:Hx; [|done].
    apply List.find_some in Hx as [Hx%list_elem_of_In Hf]. by rewrite Hall in Hf.
Qed.

Lemma existsb_true {A} (f : A -> bool) l : existsb f l = true <-> exists x, x ∈ l /\ f x = true.
Proof. rewrite existsb_exists. by setoid_rewrite list_elem_of_In. Qed.

Lemma existsb_false {A} (f : A -> bool) l : existsb f l = false <-> forall x, x ∈ l -> f x = false.
Proof.
  rewrite <- not_true_iff_false, existsb_true. split.
  - intros Hn x Hx. apply not_true_iff_false. eauto.
  - intros Hall (x & Hx & Hf). by rewrite Hall in Hf.
Qed.

(** A policy permits a tool exactly when no deny entry matches it and the allow list
    is empty or has a matching entry. *)
Lemma is_allowed_spec reg p tool :
  is_allowed reg p tool = true <->
  (forall d, d ∈ tp_deny p -> entry_matches reg d tool = false) /\
  (tp_allow p = [] \/ exists a, a ∈ tp_allow p /\ entry_matches reg a tool = true).
Proof.
  unfold is_allowed, ToolPolicy_evaluate. rewrite bool_decide_eq_true, <- find_None, <- existsb_true.
  destruct (List.find _ _) as [d|] eqn:Hd; [naive_solver|].
  case_decide; [naive_solver|]. case_match; naive_solver.
Qed.

(** Each tool sits in at most one tier. *)
Definition registry_ok (reg : RobotToolRegistry) : Prop :=
  forall t1 t2 tool, tool ∈ at_tier reg t1 -> tool ∈ at_tier reg t2 -> t1 = t2.

Lemma registry_insert_tier tool tier reg t x :
  x ∈ at_tier (registry_insert tool tier reg).1 t <->
  (x = tool /\ t = tier) \/ (x <> tool /\ x ∈ at_tier reg t).
Proof.
  unfold registry_insert, at_tier. cbn [fst by_tier]. rewrite lookup_insert.
  case_decide as Ht; [subst; cbn|]; rewrite lookup_fmap; destruct (by_tier reg !! _); set_solver.
Qed.

Lemma registry_remove_tier tool reg t x :
  x ∈ at_tier (registry_remove tool reg).1 t <-> x <> tool /\ x ∈ at_tier reg t.
Proof.
  unfold registry_remove, at_tier. cbn [fst by_tier]. rewrite lookup_fmap.
  destruct (by_tier reg !! t); set_solver.
Qed.

Lemma tier_of_Some reg tool t :
  registry_ok reg -> tier_of reg tool = Some t <-> tool ∈ at_tier reg t.
Proof.
  intros Hok. unfold tier_of. split.
  - intros [_ Hf]%List.find_some. by apply bool_decide_eq_true in Hf.
  - intros Hin. destruct (List.find _ _) as [t'|] eqn:Hf.
    + apply List.find_some in Hf as [_ Hf%bool_decide_eq_true]. f_equal. by eapply Hok.
    + rewrite find_None in Hf. specialize (Hf t ltac:(destruct t; set_solver)). cbn in Hf.
      by apply bool_decide_eq_false in Hf.
Qed.

Lemma registry_insert_ok tool tier reg : registry_ok reg -> registry_ok (registry_insert tool tier reg).1.
Proof. intros Hok t1 t2 x. rewrite !registry_insert_tier. naive_solver. Qed.

Lemma registry_remove_ok tool reg : registry_ok reg -> registry_ok (registry_remove tool reg).1.
Proof. intros Hok t1 t2 x. rewrite !registry_remove_tier. naive_solver. Qed.

Lemma parse_group_name_name t : parse_group_name (group_name t) = Some t.
Proof. by destruct t; vm_compute. Qed.

Lemma matches_group_tier reg t tool :
  matches_group reg (group_name t) tool = match tier_of reg tool with
                                          | Some a => tier_le a t | None => false end.
Proof. unfold matches_group. by rewrite parse_group_name_name. Qed.

Inductive registry_op :=
| ROInsert (tool : string) (tier : SafetyTier)
| RORemove (tool : string).

(** The registry after a sequence of integrator calls, oldest first. *)
Definition run_registry (ops : list registry_op) : RobotToolRegistry :=
  foldl (fun reg op => match op with
                       | ROInsert tool tier => (registry_insert tool tier reg).1
                       | RORemove tool => (registry_remove tool reg).1
                       end) registry_new ops.

(** Abstract specification: a tool has the tier of the last call about it. *)
Definition last_tier (ops : list registry_op) (tool : string) : option SafetyTier :=
  foldl (fun acc op => match op with
                       | ROInsert t tier => if decide (t = tool) then Some tier else acc
                       | RORemove t => if decide (t = tool) then None else acc
                       end) None ops.

Lemma run_registry_spec ops :
  registry_ok (run_registry ops) /\
  forall t tool, tool ∈ at_tier (run_registry ops) t <-> last_tier ops tool = Some t.
Proof.
  induction ops as [|op ops [Hok IH]] using rev_ind; [split; [by intros ????|set_solver]|].
  unfold run_registry, last_tier in *. rewrite !foldl_app. cbn [foldl].
  destruct op; split; auto using registry_insert_ok, registry_remove_ok.
  - intros t tl. rewrite foldl_app. cbn [foldl]. rewrite registry_insert_tier, IH.
    case_decide; naive_solver.
  - intros t tl. rewrite foldl_app. cbn [foldl]. rewrite registry_remove_tier, IH.
    case_decide; naive_solver.
Qed.

(**  The robot tool registry refines the map "tool -> tier of the last call
    about it": after any sequence of [insert] and [remove] calls [tier_of] answers
    that map (so a tool is in at most one tier), and a grant of a tier's group covers
    exactly the tools whose tier is at most the granted one, the strict nesting
    observe, safe_motion, full_actuation, emergency_override. *)
Theorem robot_registry_refines (ops : list registry_op) (tool : string) (tier : SafetyTier) :
  tier_of (run_registry ops) tool = last_tier ops tool /\
  (entry_matches (run_registry ops) (group_name tier) tool = true <->
     exists actual, last_tier ops tool = Some actual /\ tier_rank actual <= tier_rank tier) /\
  (tool ∈ tools_for_tier (run_registry ops) tier <->
     exists actual, last_tier ops tool = Some actual /\ tier_rank actual <= tier_rank tier).
Proof.
  destruct (run_registry_spec ops) as [Hok Hspec].
  assert (Ht : tier_of (run_registry ops) tool = last_tier ops tool).
  { destruct (last_tier ops tool) as [t|] eqn:Hl.
    - by apply tier_of_Some, Hspec.
    - destruct (tier_of _ _) as [t|] eqn:Hf; [|done].
      apply tier_of_Some, Hspec in Hf; [congruence|done]. }
  split_and!; [done| |].
  - unfold entry_matches, entry_is_robot_group. rewrite parse_group_name_name.
    rewrite bool_decide_eq_true_2 by eauto. unfold group_covers_tool.
    replace (starts_with _ _) with true by (by destruct tier). cbn [negb].
    rewrite matches_group_tier, Ht. unfold tier_le.
    destruct (last_tier ops tool); rewrite ?bool_decide_eq_true; naive_solver.
  - unfold tools_for_tier. rewrite elem_of_btree_iter, elem_of_union_list. split.
    + intros (X & (t & -> & _)%list_elem_of_fmap & Hin). unfold tier_le in Hin.
      case_bool_decide; [|set_solver]. exists t. by rewrite <- Hspec.
    + intros (t & Hl & Hle). eexists. split; [apply list_elem_of_fmap; exists t|].
      * split; [done|]. destruct t; set_solver.
      * unfold tier_le. rewrite bool_decide_eq_true_2 by done. by apply Hspec.
Qed.

(**  Deny wins and tags fail closed: whatever the registry, a tool passes
    [is_allowed_with_tags] exactly when no deny entry matches it, the allow list is
    empty or has a matching entry, and either no tag is required or the tool declares
    one of the required tags; in particular an untagged tool never passes a non-empty
    tag filter. *)
Theorem policy_deny_wins (reg : RobotToolRegistry) (p : ToolPolicy) (tool : string) (tags : list string) :
  is_allowed_with_tags reg p tool tags = true <->
  (forall d, d ∈ tp_deny p -> entry_matches reg d tool = false) /\
  (tp_allow p = [] \/ exists a, a ∈ tp_allow p /\ entry_matches reg a tool = true) /\
  (tp_require_tags p = [] \/ exists tag, tag ∈ tags /\ tag ∈ tp_require_tags p).
Proof.
  unfold is_allowed_with_tags. pose proof (is_allowed_spec reg p tool) as Hsp.
  destruct (is_allowed reg p tool) eqn:Ha; cbn [negb]; [|naive_solver].
  assert (Hex : existsb (fun tag => existsb (fun req => String.eqb req tag) (tp_require_tags p)) tags
                = true <-> exists tag, tag ∈ tags /\ tag ∈ tp_require_tags p).
  { rewrite existsb_true. setoid_rewrite existsb_true. setoid_rewrite String.eqb_eq. naive_solver. }
  case_decide; naive_solver.
Qed.
