(* ===== verification/Validate.v ===== *)
(** * Graph validation

    Model of [crates/octos-pipeline/src/validate.rs]: the 23 lint rules every graph
    passes before execution, with the [SHELL_TOOLS] table of [profile.rs] and the
    tool policy a codergen node's agent runs under ([handler.rs]).  A rule is the list of the diagnostics it pushes.  The main result is an exact
    characterisation: validation succeeds if and only if the declarative
    specification [valid_graph] holds, whatever the hash-map iteration order. *)

From S2P Require Import Prelude RustStr RustNum Fidelity Graph Condition ToolPolicy.

(** ** Diagnostics *)

Inductive Severity := Error_sev | Warning_sev.

#[export] Instance Severity_eq_dec : EqDecision Severity.
Proof. solve_decision. Defined.

Inductive GraphLocation :=
| GraphLoc
| NodeLoc (id : string)
| EdgeLoc (source target : string).

Inductive RuleId :=
| StartNode | Connectivity | EdgeTargetExists | NoSelfLoop | GoalGateEdges
| ConditionParse | KnownHandler | PromptRequired | NoDuplicateEdges | PositiveWeight
| NonEmptyGraph | EdgeSourceExists | ParallelConverge | DynamicParallelRule | NoCycle
| TemplateBinding | DeadEdge | KnownModel | KnownToolPolicy | FanoutBound
| HumanGateResolver | ReferenceResolution | NoShell.

Definition RuleId_number (r : RuleId) : Z :=
  match r with
  | StartNode => 1 | Connectivity => 2 | EdgeTargetExists => 3 | NoSelfLoop => 4
  | GoalGateEdges => 5 | ConditionParse => 6 | KnownHandler => 7 | PromptRequired => 8
  | NoDuplicateEdges => 9 | PositiveWeight => 10 | NonEmptyGraph => 11
  | EdgeSourceExists => 12 | ParallelConverge => 13 | DynamicParallelRule => 14
  | NoCycle => 15 | TemplateBinding => 16 | DeadEdge => 17 | KnownModel => 18
  | KnownToolPolicy => 19 | FanoutBound => 20 | HumanGateResolver => 21
  | ReferenceResolution => 22 | NoShell => 23
  end.

Definition RuleId_code (r : RuleId) : string :=
  match r with
  | TemplateBinding => "T-Agent"
  | DeadEdge => "T-Edge"
  | Connectivity | NoCycle | NoSelfLoop => "T-Conn"
  | KnownModel => "OCTOS-Model"
  | KnownToolPolicy => "OCTOS-ToolPolicy"
  | FanoutBound => "OCTOS-Fanout"
  | HumanGateResolver => "OCTOS-HumanGate"
  | ReferenceResolution => "OCTOS-Ref"
  | _ => "PipelineLint"
  end.

Record LintDiagnostic := {
  ld_rule : Z;
  ld_rule_id : RuleId;
  ld_severity : Severity;
  ld_location : GraphLocation;
  ld_message : string;
  ld_fix_hint : option string
}.

(** One [push_diag(diags, ...)] call; a rule is the list of its pushes. *)
Definition push_diag (r : RuleId) (s : Severity) (l : GraphLocation) (msg : string)
    (hint : string) : list LintDiagnostic :=
  [{| ld_rule := RuleId_number r; ld_rule_id := r; ld_severity := s; ld_location := l;
      ld_message := msg; ld_fix_hint := Some hint |}].

Definition has_errors (diags : list LintDiagnostic) : bool :=
  existsb (fun d => bool_decide (ld_severity d = Error_sev)) diags.

(** ** Tables *)

Definition MAX_DECLARED_FANOUT_DEGREE : Z := 50.

Definition SHELL_TOOLS : list string := ["shell"; "bash"; "exec"; "exec_command"; "write_stdin"].

Definition default_runtime_variables : gset string := list_to_set [
  "input"; "user_input"; "topic"; "task"; "label"; "context"; "previous"; "workspace"; "cwd";
  "run_dir"; "artifact"; "artifacts"; "outcome"; "status"; "files"; "current_date"; "now"].

Definition default_known_models : gset string := list_to_set [
  "cheap"; "fast"; "strong"; "default"; "mock"; "test-model"; "gpt-4o"; "gpt-4o-mini";
  "claude-haiku"; "claude-sonnet-4"; "claude-sonnet-4-20250514"; "claude-haiku-4-5-20251001"].

Definition default_known_tools : gset string := list_to_set ([
  "shell"; "exec_command"; "write_stdin"; "bash"; "read_file"; "write_file"; "apply_patch";
  "edit_file"; "diff_edit"; "glob"; "grep"; "list_dir"; "check_workspace_contract";
  "workspace_log"; "workspace_show"; "workspace_diff"; "view_image"; "web_search"; "web_fetch";
  "browser"; "tool_search"; "tool_suggest"; "request_user_input"; "update_plan"; "spawn";
  "spawn_agent"; "send_input"; "resume_agent"; "wait_agent"; "close_agent"; "delegate";
  "read_task_output"; "send_file"] ++ (grp ← TOOL_GROUPS; grp.2)).

Record ValidationContext := {
  vc_known_models : gset string;
  vc_known_tools : gset string;
  vc_runtime_variables : gset string;
  vc_artifact_refs : gset string;
  vc_checkpoint_refs : gset string;
  vc_human_gate_resolvers : gset string;
  vc_max_fanout_degree : Z
}.

Definition ValidationContext_default : ValidationContext := {|
  vc_known_models := default_known_models;
  vc_known_tools := default_known_tools;
  vc_runtime_variables := default_runtime_variables;
  vc_artifact_refs := ∅;
  vc_checkpoint_refs := ∅;
  vc_human_gate_resolvers := ∅;
  vc_max_fanout_degree := MAX_DECLARED_FANOUT_DEGREE |}.

Definition with_known_tools (c : ValidationContext) (tools : list string) : ValidationContext := {|
  vc_known_models := vc_known_models c;
  vc_known_tools := vc_known_tools c ∪ list_to_set tools;
  vc_runtime_variables := vc_runtime_variables c;
  vc_artifact_refs := vc_artifact_refs c;
  vc_checkpoint_refs := vc_checkpoint_refs c;
  vc_human_gate_resolvers := vc_human_gate_resolvers c;
  vc_max_fanout_degree := vc_max_fanout_degree c |}.

Definition with_known_models (c : ValidationContext) (models : list string) : ValidationContext := {|
  vc_known_models := vc_known_models c ∪ list_to_set models;
  vc_known_tools := vc_known_tools c;
  vc_runtime_variables := vc_runtime_variables c;
  vc_artifact_refs := vc_artifact_refs c;
  vc_checkpoint_refs := vc_checkpoint_refs c;
  vc_human_gate_resolvers := vc_human_gate_resolvers c;
  vc_max_fanout_degree := vc_max_fanout_degree c |}.

Definition with_runtime_variables (c : ValidationContext) (vars : list string)
  : ValidationContext := {|
  vc_known_models := vc_known_models c;
  vc_known_tools := vc_known_tools c;
  vc_runtime_variables := vc_runtime_variables c ∪ list_to_set vars;
  vc_artifact_refs := vc_artifact_refs c;
  vc_checkpoint_refs := vc_checkpoint_refs c;
  vc_human_gate_resolvers := vc_human_gate_resolvers c;
  vc_max_fanout_degree := vc_max_fanout_degree c |}.

(** ** Helpers of the rules *)

Definition has_back_edge_marker (value : string) : bool :=
  let value := to_ascii_lowercase value in
  contains value "retry" || contains value "back_edge" || contains value "back-edge"
  || contains value "guard_back".

Definition is_some_and {A} (o : option A) (f : A -> bool) : bool :=
  match o with Some a => f a | None => false end.

Definition edge_allows_back_edge (e : PipelineEdge) : bool :=
  is_some_and (pe_label e) has_back_edge_marker
  || is_some_and (pe_condition e) has_back_edge_marker.

Definition tool_entry_grants_shell (entry : string) : bool :=
  let e := trim entry in
  if bool_decide (e ∈ SHELL_TOOLS) then true
  else if eq_ignore_ascii_case e "group:runtime" || bool_decide (e = "group:*") then true
  else if negb (starts_with "group:" e) then
    match strip_suffix "*" e with
    | Some prefix =>
        bool_decide (prefix = "") || existsb (fun s => starts_with prefix s) SHELL_TOOLS
    | None => false
    end
  else false.

Definition model_known (model : string) (known_models : gset string) : bool :=
  bool_decide (model ∈ known_models)
  || is_some_and (split_once "/" model) (fun p => bool_decide (p.2 ∈ known_models)).

Definition tool_policy_entry_known (entry : string) (ctx : ValidationContext) : bool :=
  if decide (entry = "") then false
  else if starts_with "group:" entry then is_some_and (tool_group_info entry) (fun _ => true)
  else match strip_suffix "*" entry with
       | Some prefix => existsb (fun tool => starts_with prefix tool)
                                (btree_iter (vc_known_tools ctx))
       | None => bool_decide (entry ∈ vc_known_tools ctx)
       end.

Definition edge_location (e : PipelineEdge) : GraphLocation :=
  EdgeLoc (pe_source e) (pe_target e).

Definition incoming_sources (g : PipelineGraph) : gmap string (gset string) :=
  foldl (fun m e => <[pe_target e := default ∅ (m !! pe_target e) ∪ {[pe_source e]}]> m)
        ∅ (pg_edges g).

Definition is_template_ref_token (candidate : string) : bool :=
  bool_decide (candidate <> "")
  && forallb (fun c => is_ascii_alphanumeric c.1
       || bool_decide (c.1 ∈ (byte_val <$> ["_"; "-"; "."; ":"]%char))) (chars candidate).

(** The [while let Some(start) = rest.find('{')] loop; each round consumes a
    brace, so the length of the prompt bounds the rounds. *)
Fixpoint extract_refs_go (fuel : nat) (rest : string) (refs : gset string) : gset string :=
  match fuel with
  | O => refs
  | S fuel =>
      match split_once "{" rest with
      | None => refs
      | Some (_, rest) =>
          match split_once "}" rest with
          | None => refs
          | Some (inner, rest) =>
              let candidate := trim inner in
              extract_refs_go fuel rest
                (if is_template_ref_token candidate then {[candidate]} ∪ refs else refs)
          end
      end
  end.

Definition extract_template_refs (prompt : string) : gset string :=
  extract_refs_go (S (String.length prompt)) prompt ∅.

Definition template_refs_for_node (n : PipelineNode) : gset string :=
  from_option extract_template_refs ∅ (pn_prompt n)
  ∪ from_option extract_template_refs ∅ (pn_worker_prompt n).

(** [reference.split(['.', ':']).next()]. *)
Fixpoint before_sep (s : string) : string :=
  match s with
  | EmptyString => ""
  | String b s' => if bool_decide (b = "." \/ b = ":")%char then "" else String b (before_sep s')
  end.

Definition runtime_ref_stem (reference : string) : option string :=
  let stem := trim (before_sep reference) in
  if decide (stem = "") then None else Some stem.

Definition is_ref_to_node (reference node_id : string) : bool :=
  bool_decide (runtime_ref_stem reference = Some node_id).

Definition artifact_ref_resolves (artifact : string) (ctx : ValidationContext)
    (g : PipelineGraph) : bool :=
  bool_decide (artifact ∈ dom (pg_nodes g)) || bool_decide (artifact ∈ vc_artifact_refs ctx).

Section rules.
Context `{HashIter} `{RustFmt}.
Implicit Types (g : PipelineGraph) (ctx : ValidationContext).

Definition graph_checkpoint_names g ctx : gset string :=
  foldl (fun names n => names ∪ list_to_set (mc_name <$> pn_checkpoints n))
        (vc_checkpoint_refs ctx) (hm_values (pg_nodes g)).

Definition reference_resolves_in_template (reference : string) (upstream : gset string)
    ctx g : bool :=
  match strip_prefix "artifact:" reference with
  | Some artifact => artifact_ref_resolves artifact ctx g
  | None =>
  match strip_prefix "artifact." reference with
  | Some artifact => artifact_ref_resolves artifact ctx g
  | None =>
  match strip_prefix "checkpoint:" reference with
  | Some checkpoint => bool_decide (checkpoint ∈ graph_checkpoint_names g ctx)
  | None =>
  match strip_prefix "checkpoint." reference with
  | Some checkpoint => bool_decide (checkpoint ∈ graph_checkpoint_names g ctx)
  | None =>
      is_some_and (runtime_ref_stem reference) (fun stem =>
        bool_decide (stem ∈ vc_runtime_variables ctx) || bool_decide (stem ∈ upstream))
  end end end end.

(** The nodes without incoming edge, in hash-map order. *)
Definition source_nodes g : list string :=
  filter (fun id => id ∉ (list_to_set (pe_target <$> pg_edges g) : gset string))
         (hm_keys (pg_nodes g)).

Definition find_start_node g : option string :=
  if decide ("start" ∈ dom (pg_nodes g)) then Some "start"
  else match source_nodes g with
       | [s] => Some s
       | _ => None
       end.

(** The breadth-first loop of rule 2: [for &next in neighbors] and the queue.
    [None] when the fuel runs out. *)
Fixpoint bfs_push (ns : list string) (visited : gset string) (queue : list string)
  : gset string * list string :=
  match ns with
  | [] => (visited, queue)
  | next :: ns =>
      if decide (next ∈ visited) then bfs_push ns visited queue
      else bfs_push ns ({[next]} ∪ visited) (queue ++ [next])
  end.

Fixpoint bfs (fuel : nat) (adj : gmap string (list string)) (visited : gset string)
    (queue : list string) : option (gset string) :=
  match queue with
  | [] => Some visited
  | node :: queue =>
      match fuel with
      | O => None
      | S fuel =>
          let (visited, queue) := bfs_push (adj_get adj node) visited queue in
          bfs fuel adj visited queue
      end
  end.

(** Every node enters the queue once: the start node, or the target of an edge. *)
Definition bfs_fuel g : nat := S (length (pg_edges g)).

Definition reachable_set g (start : string) : option (gset string) :=
  bfs (bfs_fuel g) (build_adj (pg_edges g)) {[start]} [start].

Definition detect_cycles_ignoring_marked_back_edges g : option (result string unit) :=
  detect_cycles_on g (build_adj (filter (fun e => edge_allows_back_edge e = false) (pg_edges g))).

(** ** The rules *)

Definition rule_01_start_node g : list LintDiagnostic :=
  match find_start_node g with
  | Some _ => []
  | None =>
      let sources := source_nodes g in
      push_diag StartNode Error_sev GraphLoc
        (if decide (sources = []) then "no start node found (all nodes have incoming edges)"
         else "ambiguous start: " +:+ pretty (length sources) +:+
              " nodes with no incoming edges: " +:+ String.concat ", " sources)
        "name the first node `start` or connect the extra source nodes"
  end.

Definition rule_02_unreachable_nodes g : list LintDiagnostic :=
  match find_start_node g with
  | None => []
  | Some start =>
      match reachable_set g start with
      | None => []
      | Some visited =>
          id ← hm_keys (pg_nodes g);
          if decide (id ∈ visited) then []
          else push_diag Connectivity Error_sev (NodeLoc id)
                 ("node '" +:+ id +:+ "' is unreachable from start")
                 ("connect '" +:+ id +:+ "' to a source path or remove the orphan node")
      end
  end.

Definition rule_03_edge_targets_exist g : list LintDiagnostic :=
  e ← pg_edges g;
  if decide (pe_target e ∈ dom (pg_nodes g)) then []
  else push_diag EdgeTargetExists Error_sev (edge_location e)
         ("edge target '" +:+ pe_target e +:+ "' does not exist")
         ("declare node '" +:+ pe_target e +:+ "' or correct the edge target").

Definition rule_04_no_self_loops g : list LintDiagnostic :=
  e ← pg_edges g;
  if bool_decide (pe_source e = pe_target e) && negb (edge_allows_back_edge e) then
    push_diag NoSelfLoop Error_sev (edge_location e)
      ("self-loop on '" +:+ pe_source e +:+ "' without an explicit retry/back-edge marker")
      "add a retry/back_edge condition or remove the self-loop"
  else [].

Definition has_outgoing g (id : string) : bool :=
  existsb (fun e => bool_decide (pe_source e = id)) (pg_edges g).

Definition rule_05_goal_gate_edges g : list LintDiagnostic :=
  n ← hm_values (pg_nodes g);
  if pn_goal_gate n && negb (has_outgoing g (pn_id n)) then
    push_diag GoalGateEdges Warning_sev (NodeLoc (pn_id n))
      ("goal_gate node '" +:+ pn_id n +:+ "' has no outgoing edges (will always terminate)")
      "add an outgoing failure/retry edge if termination is not intended"
  else [].

(** [Display] of a report prints its outermost message. *)
Definition report_display (r : report) : string := default "" (head r).

Definition rule_06_conditions_parse g : list LintDiagnostic :=
  e ← pg_edges g;
  match pe_condition e with
  | None => []
  | Some cond =>
      match parse_condition cond with
      | Ok _ => []
      | Err err =>
          push_diag ConditionParse Error_sev (edge_location e)
            ("edge " +:+ pe_source e +:+ " -> " +:+ pe_target e +:+ ": invalid condition '"
             +:+ cond +:+ "': " +:+ report_display err)
            "rewrite the condition using the pipeline condition expression grammar"
      end
  end.

Definition rule_07_known_handler g : list LintDiagnostic := [].

Definition rule_08_prompt_required g : list LintDiagnostic :=
  n ← hm_values (pg_nodes g);
  if bool_decide (pn_handler n = Codergen) && bool_decide (pn_prompt n = None) then
    push_diag PromptRequired Warning_sev (NodeLoc (pn_id n))
      ("codergen node '" +:+ pn_id n +:+ "' has no prompt (will use default worker prompt)")
      "add a prompt attribute so the node's intent is explicit"
  else [].

Fixpoint duplicate_edges (seen : gset (string * string)) (edges : list PipelineEdge)
  : list LintDiagnostic :=
  match edges with
  | [] => []
  | e :: es =>
      let key := (pe_source e, pe_target e) in
      if decide (key ∈ seen) then
        push_diag NoDuplicateEdges Warning_sev (edge_location e)
          ("duplicate edge from '" +:+ pe_source e +:+ "' to '" +:+ pe_target e +:+ "'")
          "remove the duplicate edge or add a condition that makes the edge distinct"
        ++ duplicate_edges seen es
      else duplicate_edges ({[key]} ∪ seen) es
  end.

Definition rule_09_no_duplicate_edges g : list LintDiagnostic := duplicate_edges ∅ (pg_edges g).

Definition rule_10_positive_weight g : list LintDiagnostic :=
  e ← pg_edges g;
  if f64_le (pe_weight e) f64_zero then
    push_diag PositiveWeight Error_sev (edge_location e)
      ("edge " +:+ pe_source e +:+ " -> " +:+ pe_target e +:+ ": weight must be positive, got "
       +:+ f64_display (pe_weight e))
      "set weight to a positive number"
  else [].

Definition rule_11_at_least_one_node g : list LintDiagnostic :=
  if decide (pg_nodes g = ∅) then
    push_diag NonEmptyGraph Error_sev GraphLoc "graph has no nodes" "declare at least one node"
  else [].

Definition rule_12_edge_sources_exist g : list LintDiagnostic :=
  e ← pg_edges g;
  if decide (pe_source e ∈ dom (pg_nodes g)) then []
  else push_diag EdgeSourceExists Error_sev (edge_location e)
         ("edge source '" +:+ pe_source e +:+ "' does not exist")
         ("declare node '" +:+ pe_source e +:+ "' or correct the edge source").

(** The [match &node.converge] both fan-out rules start with. *)
Definition converge_diags g (r : RuleId) (kind : string) (n : PipelineNode)
  : list LintDiagnostic :=
  match pn_converge n with
  | None =>
      push_diag r Error_sev (NodeLoc (pn_id n))
        (kind +:+ " node '" +:+ pn_id n +:+ "' missing converge attribute")
        "set converge to the merge node id"
  | Some target =>
      if decide (target ∈ dom (pg_nodes g)) then []
      else push_diag r Error_sev (NodeLoc (pn_id n))
             (kind +:+ " node '" +:+ pn_id n +:+ "' converge target '" +:+ target
              +:+ "' does not exist")
             ("declare converge target '" +:+ target +:+ "'")
  end.

Definition rule_13_parallel_converge g : list LintDiagnostic :=
  n ← hm_values (pg_nodes g);
  if decide (pn_handler n = Parallel) then
    converge_diags g ParallelConverge "parallel" n
    ++ (if has_outgoing g (pn_id n) then []
        else push_diag ParallelConverge Warning_sev (NodeLoc (pn_id n))
               ("parallel node '" +:+ pn_id n +:+ "' has no outgoing edges")
               "add fan-out edges or change the handler")
  else [].

Definition rule_14_dynamic_parallel g : list LintDiagnostic :=
  n ← hm_values (pg_nodes g);
  if decide (pn_handler n = DynamicParallel) then
    converge_diags g DynamicParallelRule "dynamic_parallel" n
    ++ (if decide (pn_prompt n = None) then
          push_diag DynamicParallelRule Warning_sev (NodeLoc (pn_id n))
            ("dynamic_parallel node '" +:+ pn_id n
             +:+ "' has no prompt (will use default planning prompt)")
            "add a planning prompt for the dynamic fan-out"
        else [])
  else [].

Definition rule_15_no_cycles g : list LintDiagnostic :=
  match detect_cycles_ignoring_marked_back_edges g with
  | Some (Err cycle_path) =>
      push_diag NoCycle Error_sev GraphLoc cycle_path
        "remove the cycle or mark the retry/guard back-edge explicitly"
  | _ => []
  end.

Definition rule_16_template_bindings g ctx : list LintDiagnostic :=
  let incoming := incoming_sources g in
  n ← hm_values (pg_nodes g);
  let upstream := default ∅ (incoming !! pn_id n) in
  reference ← btree_iter (template_refs_for_node n);
  if reference_resolves_in_template reference upstream ctx g then []
  else push_diag TemplateBinding Error_sev (NodeLoc (pn_id n))
         ("node '" +:+ pn_id n +:+ "' prompt references unbound template variable '{"
          +:+ reference +:+ "}'")
         ("bind the variable via runtime inputs, an upstream node output, or a known "
          +:+ "runtime channel").

Definition rule_17_dead_edges g : list LintDiagnostic :=
  e ← pg_edges g;
  match pg_nodes g !! pe_target e with
  | None => []
  | Some target =>
      let consumed := existsb (fun reference =>
        is_ref_to_node reference (pe_source e)
        || is_some_and (runtime_ref_stem reference) (fun stem =>
             bool_decide (stem ∈ ["input"; "previous"; "context"])))
        (btree_iter (template_refs_for_node target)) in
      if consumed then []
      else push_diag DeadEdge Warning_sev (edge_location e)
             ("edge " +:+ pe_source e +:+ " -> " +:+ pe_target e
              +:+ " is not referenced by the target template")
             ("reference '{" +:+ pe_source e +:+ "}' or '{input}' in node '" +:+ pe_target e
              +:+ "' if this edge carries data")
  end.

Definition validate_model_name (model : string) ctx (location : GraphLocation)
  : list LintDiagnostic :=
  if model_known model (vc_known_models ctx) then []
  else push_diag KnownModel Error_sev location ("unknown pipeline model '" +:+ model +:+ "'")
         "choose a model present in model_catalog.json / pipeline_models.json".

(** The model names of a node: [model] then [planner_model], split at commas,
    trimmed, empty pieces dropped. *)
Definition node_models (n : PipelineNode) : list string :=
  filter (fun m => m <> "")
    (trim <$> (models ← option_list (pn_model n) ++ option_list (pn_planner_model n);
               split_on "," models)).

Definition rule_18_known_models g ctx : list LintDiagnostic :=
  match pg_default_model g with
  | Some m => validate_model_name m ctx GraphLoc
  | None => []
  end ++
  (n ← hm_values (pg_nodes g);
   model ← node_models n;
   validate_model_name model ctx (NodeLoc (pn_id n))).

Definition rule_19_known_tools g ctx : list LintDiagnostic :=
  n ← hm_values (pg_nodes g);
  tool ← pn_tools n;
  if decide (trim tool = "") then []
  else if tool_policy_entry_known tool ctx then []
  else push_diag KnownToolPolicy Error_sev (NodeLoc (pn_id n))
         ("node '" +:+ pn_id n +:+ "' references unknown tool/group '" +:+ tool +:+ "'")
         "use a registered tool name or one of the known group:* policy groups".

Definition outgoing_degrees g : gmap string Z :=
  foldl (fun m e => <[pe_source e := (default 0 (m !! pe_source e) + 1)%Z]> m) ∅ (pg_edges g).

Definition rule_20_fanout_bound g ctx : list LintDiagnostic :=
  ('(source, degree) ← hm_iter (outgoing_degrees g);
   if (vc_max_fanout_degree ctx <? degree)%Z then
     push_diag FanoutBound Error_sev (NodeLoc source)
       ("node '" +:+ source +:+ "' declares fan-out degree " +:+ pretty degree +:+ " above cap "
        +:+ pretty (vc_max_fanout_degree ctx))
       "split the fan-out into bounded batches or lower the outgoing edge count"
   else []) ++
  (n ← hm_values (pg_nodes g);
   match pn_max_tasks n with
   | Some max_tasks =>
       if (vc_max_fanout_degree ctx <? max_tasks)%Z then
         push_diag FanoutBound Error_sev (NodeLoc (pn_id n))
           ("node '" +:+ pn_id n +:+ "' declares max_tasks " +:+ pretty max_tasks
            +:+ " above cap " +:+ pretty (vc_max_fanout_degree ctx))
           "lower max_tasks or raise the validation context cap intentionally"
       else []
   | None => []
   end).

Definition rule_21_human_gate_resolver g ctx : list LintDiagnostic :=
  n ← hm_values (pg_nodes g);
  if negb (pn_human_gate n) then []
  else match pn_resolver n with
       | None | Some EmptyString =>
           push_diag HumanGateResolver Error_sev (NodeLoc (pn_id n))
             ("human-gate node '" +:+ pn_id n +:+ "' has no resolver configured")
             "set resolver or gate_resolver on the human-gate node"
       | Some resolver =>
           if negb (bool_decide (vc_human_gate_resolvers ctx = ∅))
              && negb (bool_decide (resolver ∈ vc_human_gate_resolvers ctx)) then
             push_diag HumanGateResolver Error_sev (NodeLoc (pn_id n))
               ("human-gate node '" +:+ pn_id n +:+ "' references unknown resolver '"
                +:+ resolver +:+ "'")
               "use one of the configured human gate resolvers"
           else []
       end.

Definition rule_22_reference_resolution g ctx : list LintDiagnostic :=
  let checkpoint_names := graph_checkpoint_names g ctx in
  n ← hm_values (pg_nodes g);
  (artifact ← pn_artifact_refs n;
   if artifact_ref_resolves artifact ctx g then []
   else push_diag ReferenceResolution Error_sev (NodeLoc (pn_id n))
          ("node '" +:+ pn_id n +:+ "' references dangling artifact '" +:+ artifact +:+ "'")
          "reference an upstream node artifact or a known runtime artifact")
  ++ (checkpoint ← pn_checkpoint_refs n;
      if decide (checkpoint ∈ checkpoint_names) then []
      else push_diag ReferenceResolution Error_sev (NodeLoc (pn_id n))
             ("node '" +:+ pn_id n +:+ "' references dangling checkpoint '" +:+ checkpoint
              +:+ "'")
             "declare the checkpoint on a node or pass it in the validation context").

Definition rule_23_no_shell g : list LintDiagnostic :=
  n ← hm_values (pg_nodes g);
  (if decide (pn_handler n = Shell) then
     push_diag NoShell Error_sev (NodeLoc (pn_id n))
       ("node '" +:+ pn_id n
        +:+ "' uses the `shell` handler, which is not permitted in pipelines")
       "shell is arbitrary code execution and is banned; use a codergen/gate/noop handler"
   else [])
  ++ match find (fun t => tool_entry_grants_shell t) (pn_tools n) with
     | Some tool =>
         push_diag NoShell Error_sev (NodeLoc (pn_id n))
           ("node '" +:+ pn_id n +:+ "' grants shell access via the tool entry '" +:+ tool
            +:+ "', which is not permitted")
           ("use explicit non-shell tool names; remove shell/bash/exec/exec_command/"
            +:+ "write_stdin, wildcards (`*`), and `group:runtime`/`group:*`")
     | None => []
     end.

Definition diagnostics_with_context g ctx : list LintDiagnostic :=
  rule_01_start_node g ++
  rule_02_unreachable_nodes g ++
  rule_03_edge_targets_exist g ++
  rule_04_no_self_loops g ++
  rule_05_goal_gate_edges g ++
  rule_06_conditions_parse g ++
  rule_07_known_handler g ++
  rule_08_prompt_required g ++
  rule_09_no_duplicate_edges g ++
  rule_10_positive_weight g ++
  rule_11_at_least_one_node g ++
  rule_12_edge_sources_exist g ++
  rule_13_parallel_converge g ++
  rule_14_dynamic_parallel g ++
  rule_15_no_cycles g ++
  rule_16_template_bindings g ctx ++
  rule_17_dead_edges g ++
  rule_18_known_models g ctx ++
  rule_19_known_tools g ctx ++
  rule_20_fanout_bound g ctx ++
  rule_21_human_gate_resolver g ctx ++
  rule_22_reference_resolution g ctx ++
  rule_23_no_shell g.

Definition diagnostics g : list LintDiagnostic :=
  diagnostics_with_context g ValidationContext_default.

Definition validate_with_context g ctx : result (list LintDiagnostic) unit :=
  let diags := diagnostics_with_context g ctx in
  if has_errors diags then Err diags else Ok tt.

Definition validate g : result (list LintDiagnostic) unit :=
  validate_with_context g ValidationContext_default.

(** ** The tool policy of a codergen node

    [CodergenHandler::execute]: a present but empty tool list denies everything; the
    shell family and the delegation tools are denied in every other case. *)

Definition DENIED_TOOLS : list string :=
  ["spawn"; "run_pipeline"; "send_file"; "message"; "shell"; "exec_command"; "bash"; "exec";
   "write_stdin"].

Definition codergen_policy (n : PipelineNode) : ToolPolicy :=
  let allowed := filter (fun t => trim t <> "") (pn_tools n) in
  if bool_decide (pn_tools n <> []) && bool_decide (allowed = []) then
    {| tp_allow := []; tp_deny := ["*"]; tp_require_tags := []; tp_bash_file_writes := BfwAllow |}
  else
    {| tp_allow := allowed;
       tp_deny := DENIED_TOOLS;
       tp_require_tags := []; tp_bash_file_writes := BfwAllow |}.

(** ** Tool names for rule 19 *)

Definition referenced_tool_entries g : list string := n ← hm_values (pg_nodes g); pn_tools n.

(** [builtins] are the registry's built-in tool names; [loaded] those of the
    registry after the plugin loader ran on [plugin_dirs]. *)
Definition entry_needs_plugins (builtins : list string) (t0 : string) : bool :=
  let t := trim t0 in
  if bool_decide (t = "") || starts_with "group:" t then false
  else match strip_suffix "*" t with
       | Some prefix => negb (existsb (fun b => starts_with prefix b) builtins)
       | None => negb (bool_decide (t ∈ builtins))
       end.

Definition known_tool_names_with_plugins (builtins loaded plugin_dirs : list string)
    (referenced_tools : list string) : list string :=
  if decide (plugin_dirs = []) then builtins
  else if negb (existsb (entry_needs_plugins builtins) referenced_tools) then builtins
  else loaded.
End rules.

(** ** Breadth-first search *)

Section bfs_correct.
Variables (adj : gmap string (list string)) (T : gset string).
Hypothesis adj_T : forall x y, arc adj x y -> y ∈ T.

Lemma bfs_push_spec ns vis q vis' q' :
  bfs_push ns vis q = (vis', q') -> (forall y, y ∈ ns -> y ∈ T) ->
  (forall x, x ∈ vis' <-> x ∈ vis \/ x ∈ ns) /\
  (forall x, x ∈ q' <-> x ∈ q \/ (x ∈ ns /\ x ∉ vis)) /\
  length q' + size (T ∖ vis') <= length q + size (T ∖ vis).
Proof.
  revert vis q; induction ns as [|n ns IH]; intros vis q; cbn [bfs_push].
  - intros [= <- <-] _. split_and!; [set_solver..|done].
  - case_decide as Hn; intros Hp HT.
    + apply IH in Hp as (Hv & Hq & Hs); [|set_solver]. split_and!; [set_solver..|done].
    + apply IH in Hp as (Hv & Hq & Hs); [|set_solver]. split_and!; [set_solver| |].
      * intros x. rewrite Hq. destruct (decide (x = n)); set_solver.
      * assert (Hlt : size (T ∖ ({[n]} ∪ vis)) < size (T ∖ vis)).
        { apply subset_size. split; [set_solver|]. specialize (HT n). set_solver. }
        rewrite length_app in Hs. cbn in Hs. lia.
Qed.

Lemma arc_closed (vis : gset string) a b :
  (forall x y, x ∈ vis -> arc adj x y -> y ∈ vis) -> a ∈ vis -> rtc (arc adj) a b -> b ∈ vis.
Proof. intros Hc Ha Hab. induction Hab; eauto. Qed.

Lemma bfs_spec start fuel vis q :
  length q + size (T ∖ vis) <= fuel ->
  (forall x, x ∈ q -> x ∈ vis) -> (forall x, x ∈ vis -> rtc (arc adj) start x) ->
  (forall x y, x ∈ vis -> x ∉ q -> arc adj x y -> y ∈ vis) -> start ∈ vis ->
  exists vis', bfs fuel adj vis q = Some vis' /\ forall x, x ∈ vis' <-> rtc (arc adj) start x.
Proof.
  revert vis q; induction fuel as [|fuel IH]; intros vis q Hf Hq Hr Hc Hs.
  - destruct q; [|cbn in Hf; lia]. exists vis. split; [done|]. intros x. split; [auto|].
    apply arc_closed; [|done]. intros ????. eapply Hc; set_solver.
  - destruct q as [|n q]; cbn [bfs].
    + exists vis. split; [done|]. intros x. split; [auto|].
      apply arc_closed; [|done]. intros ????. eapply Hc; set_solver.
    + destruct (bfs_push (adj_get adj n) vis q) as [vis' q'] eqn:Hp.
      apply bfs_push_spec in Hp as (Hv & Hq' & Hsz); [|intros y Hy; by apply (adj_T n)].
      assert (Hn : n ∈ vis) by set_solver.
      apply IH.
      * cbn in Hf. lia.
      * intros x. rewrite Hq', Hv. set_solver.
      * intros x [Hx|Hx]%Hv; [auto|]. eapply rtc_r; [by apply Hr|done].
      * intros x y Hx Hxq Hxy. rewrite Hv. rewrite Hv in Hx. rewrite Hq' in Hxq.
        destruct (decide (x = n)) as [->|Hne]; [by right|]. left.
        assert (Hxv : x ∈ vis) by (destruct (decide (x ∈ vis)); [done|]; naive_solver).
        apply (Hc x y); [done| |done]. set_solver.
      * apply Hv. auto.
Qed.
End bfs_correct.

Lemma reachable_set_spec g start :
  exists vis, reachable_set g start = Some vis /\ forall x, x ∈ vis <-> rtc (edge g) start x.
Proof.
  destruct (bfs_spec (build_adj (pg_edges g)) (list_to_set (pe_target <$> pg_edges g))
              ltac:(intros x y (e & He & _ & <-)%arc_build_adj;
                    apply elem_of_list_to_set, list_elem_of_fmap; eauto)
              start (bfs_fuel g) {[start]} [start]) as (vis & Hb & Hv).
  - unfold bfs_fuel. cbn [length].
    assert (size (list_to_set (pe_target <$> pg_edges g) ∖ {[start]} : gset string)
            <= length (pg_edges g)); [|lia].
    etrans; [apply (subseteq_size _ (list_to_set (pe_target <$> pg_edges g))); set_solver|].
    etrans; [apply size_list_to_set_le|]. by rewrite length_fmap.
  - set_solver.
  - intros x ->%elem_of_singleton. done.
  - set_solver.
  - set_solver.
  - exists vis. split; [done|]. intros x. rewrite Hv. split; apply rtc_congruence with (f := id);
      intros ??; by apply arc_build_adj.
Qed.

(** ** What validation promises *)

(** [s] is where execution starts: the node named [start], or else the only node
    without incoming edge. *)
Definition is_start (g : PipelineGraph) (s : string) : Prop :=
  if decide ("start" ∈ dom (pg_nodes g)) then s = "start"
  else forall id, id = s <-> id ∈ dom (pg_nodes g) /\ forall e, e ∈ pg_edges g -> pe_target e <> id.

(** An edge that carries no retry/back-edge marker. *)
Definition plain_edge (g : PipelineGraph) (x y : string) : Prop :=
  exists e, e ∈ pg_edges g /\ edge_allows_back_edge e = false /\ pe_source e = x /\ pe_target e = y.

Definition checkpoint_declared (g : PipelineGraph) (ctx : ValidationContext) (c : string) : Prop :=
  c ∈ vc_checkpoint_refs ctx \/
  exists id n m, pg_nodes g !! id = Some n /\ m ∈ pn_checkpoints n /\ mc_name m = c.

Definition artifact_known (g : PipelineGraph) (ctx : ValidationContext) (a : string) : Prop :=
  a ∈ dom (pg_nodes g) \/ a ∈ vc_artifact_refs ctx.

(** A template reference of node [id] is bound: an artifact or a checkpoint by its
    prefix, else a runtime variable or a node with an edge into [id]. *)
Definition template_bound (g : PipelineGraph) (ctx : ValidationContext) (id r : string) : Prop :=
  match strip_prefix "artifact:" r, strip_prefix "artifact." r,
        strip_prefix "checkpoint:" r, strip_prefix "checkpoint." r with
  | Some a, _, _, _ | None, Some a, _, _ => artifact_known g ctx a
  | None, None, Some c, _ | None, None, None, Some c => checkpoint_declared g ctx c
  | None, None, None, None =>
      exists stem, runtime_ref_stem r = Some stem /\
        (stem ∈ vc_runtime_variables ctx \/ edge g stem id)
  end.

Record node_valid (g : PipelineGraph) (ctx : ValidationContext) (n : PipelineNode) : Prop := {
  nv_converge : pn_handler n = Parallel \/ pn_handler n = DynamicParallel ->
    exists t, pn_converge n = Some t /\ t ∈ dom (pg_nodes g);
  nv_templates : forall r, r ∈ template_refs_for_node n -> template_bound g ctx (pn_id n) r;
  nv_models : forall m, m ∈ node_models n -> model_known m (vc_known_models ctx) = true;
  nv_tools : forall t, t ∈ pn_tools n -> trim t = "" \/ tool_policy_entry_known t ctx = true;
  nv_tasks : forall k, pn_max_tasks n = Some k -> (k <= vc_max_fanout_degree ctx)%Z;
  nv_gate : pn_human_gate n = true ->
    exists r, pn_resolver n = Some r /\ r <> "" /\
      (vc_human_gate_resolvers ctx = ∅ \/ r ∈ vc_human_gate_resolvers ctx);
  nv_artifacts : forall a, a ∈ pn_artifact_refs n -> artifact_known g ctx a;
  nv_checkpoints : forall c, c ∈ pn_checkpoint_refs n -> checkpoint_declared g ctx c;
  nv_no_shell : pn_handler n <> Shell /\
    forall t, t ∈ pn_tools n -> tool_entry_grants_shell t = false
}.

Record edge_valid `{RustFmt} (g : PipelineGraph) (e : PipelineEdge) : Prop := {
  ev_source : pe_source e ∈ dom (pg_nodes g);
  ev_target : pe_target e ∈ dom (pg_nodes g);
  ev_condition : forall c, pe_condition e = Some c -> exists x, parse_condition c = Ok x;
  ev_weight : f64_le (pe_weight e) f64_zero = false
}.

Record valid_graph `{RustFmt} (g : PipelineGraph) (ctx : ValidationContext) : Prop := {
  vg_start : exists s, is_start g s /\ forall id, id ∈ dom (pg_nodes g) -> rtc (edge g) s id;
  vg_nonempty : pg_nodes g <> ∅;
  vg_edges : forall e, e ∈ pg_edges g -> edge_valid g e;
  vg_acyclic : forall n, ~ tc (plain_edge g) n n;
  vg_nodes : forall id n, pg_nodes g !! id = Some n -> node_valid g ctx n;
  vg_default_model : forall m, pg_default_model g = Some m ->
    model_known m (vc_known_models ctx) = true;
  vg_fanout : forall e, e ∈ pg_edges g ->
    (Z.of_nat (length (targets_from (pe_source e) (pg_edges g))) <= vc_max_fanout_degree ctx)%Z
}.

(** ** Error-free diagnostics *)

Lemma has_errors_app a b : has_errors (a ++ b) = false <-> has_errors a = false /\ has_errors b = false.
Proof. unfold has_errors. by rewrite existsb_app, orb_false_iff. Qed.

Lemma has_errors_bind {A} (l : list A) (f : A -> list LintDiagnostic) :
  has_errors (l ≫= f) = false <-> forall x, x ∈ l -> has_errors (f x) = false.
Proof.
  induction l as [|x l IH]; [split; [set_solver|done]|].
  rewrite bind_cons, has_errors_app, IH. set_solver.
Qed.

Lemma has_errors_values `{HashIter} g (f : PipelineNode -> list LintDiagnostic) :
  has_errors (hm_values (pg_nodes g) ≫= f) = false <->
  forall id n, pg_nodes g !! id = Some n -> has_errors (f n) = false.
Proof.
  rewrite has_errors_bind. setoid_rewrite elem_of_hm_values. naive_solver.
Qed.

Lemma has_errors_error r l m h : has_errors (push_diag r Error_sev l m h) = true.
Proof. done. Qed.

Lemma has_errors_warning r l m h : has_errors (push_diag r Warning_sev l m h) = false.
Proof. done. Qed.

Lemma has_errors_guard (b : bool) r l m h :
  has_errors (if b then push_diag r Error_sev l m h else []) = false <-> b = false.
Proof. by destruct b. Qed.

Lemma has_errors_guard_not (b : bool) r l m h :
  has_errors (if b then [] else push_diag r Error_sev l m h) = false <-> b = true.
Proof. by destruct b. Qed.

Lemma has_errors_decide (P : Prop) `{Decision P} r l m h :
  has_errors (if decide P then [] else push_diag r Error_sev l m h) = false <-> P.
Proof. by case_decide. Qed.

Lemma has_errors_decide_not (P : Prop) `{Decision P} r l m h :
  has_errors (if decide P then push_diag r Error_sev l m h else []) = false <-> ~ P.
Proof. by case_decide. Qed.

Section rule_lemmas.
Context `{HI : HashIter} `{RF : RustFmt}.
Implicit Types (g : PipelineGraph) (ctx : ValidationContext).

Lemma elem_of_source_nodes g id :
  id ∈ source_nodes g <->
  id ∈ dom (pg_nodes g) /\ forall e, e ∈ pg_edges g -> pe_target e <> id.
Proof.
  unfold source_nodes. rewrite list_elem_of_filter, elem_of_hm_keys, elem_of_dom.
  rewrite elem_of_list_to_set, list_elem_of_fmap. naive_solver.
Qed.

Lemma find_start_node_spec g s : find_start_node g = Some s <-> is_start g s.
Proof.
  unfold find_start_node, is_start. case_decide; [naive_solver|].
  setoid_rewrite <- elem_of_source_nodes.
  assert (Hnd : NoDup (source_nodes g)) by (apply NoDup_filter, NoDup_hm_keys).
  destruct (source_nodes g) as [|a [|b l]].
  - split; [done|]. intros Hs. by specialize (proj1 (Hs s) eq_refl) as ?%not_elem_of_nil.
  - split; [intros [= ->] id; set_solver|]. intros Hs.
    specialize (proj1 (Hs s) eq_refl). set_solver.
  - split; [done|]. intros Hs. exfalso. apply NoDup_cons in Hnd as [Hab _].
    assert (a = s) by (apply Hs; set_solver). assert (b = s) by (apply Hs; set_solver). set_solver.
Qed.

Lemma rule_01_ok g : has_errors (rule_01_start_node g) = false <-> exists s, is_start g s.
Proof.
  unfold rule_01_start_node. setoid_rewrite <- find_start_node_spec.
  destruct (find_start_node g); naive_solver.
Qed.

Lemma rule_02_ok g s :
  is_start g s ->
  has_errors (rule_02_unreachable_nodes g) = false <->
  forall id, id ∈ dom (pg_nodes g) -> rtc (edge g) s id.
Proof.
  intros Hs%find_start_node_spec. unfold rule_02_unreachable_nodes. rewrite Hs.
  destruct (reachable_set_spec g s) as (vis & -> & Hv). rewrite has_errors_bind.
  setoid_rewrite has_errors_decide. setoid_rewrite elem_of_hm_keys.
  setoid_rewrite elem_of_dom. by setoid_rewrite Hv.
Qed.

Lemma arc_plain g x y :
  arc (build_adj (filter (fun e => edge_allows_back_edge e = false) (pg_edges g))) x y <->
  plain_edge g x y.
Proof.
  unfold arc, plain_edge. rewrite adj_get_build, elem_of_targets_from.
  setoid_rewrite list_elem_of_filter. naive_solver.
Qed.

Lemma rule_15_ok g :
  (forall e, e ∈ pg_edges g -> pe_source e ∈ dom (pg_nodes g)) ->
  has_errors (rule_15_no_cycles g) = false <-> forall n, ~ tc (plain_edge g) n n.
Proof.
  intros Hsrc. unfold rule_15_no_cycles, detect_cycles_ignoring_marked_back_edges.
  set (adj := build_adj _).
  assert (Hadj : forall x y, arc adj x y <-> plain_edge g x y) by apply arc_plain.
  pose proof (detect_cycles_on_spec g adj) as Hspec.
  destruct (detect_cycles_on g adj) as [[[]|msg]|].
  - split; [|done]. intros _ n Hc. apply (arc_acc_no_cycle adj n).
    + apply Hspec; [intros x y (e & ? & _ & _ & <-)%Hadj; eauto|].
      inversion Hc as [?? (e & ? & _ & <- & _)|??? (e & ? & _ & <- & _)]; subst; eauto.
    + revert Hc. apply tc_congruence with (f := id). intros ??. apply Hadj.
  - split; [done|]. intros Hno. exfalso.
    destruct Hspec as (c & Hc & _); [intros x y (e & ? & _ & _ & <-)%Hadj; eauto|].
    apply is_cycle_tc in Hc as [a Ha]. apply (Hno a). revert Ha.
    apply tc_congruence with (f := id). intros ??. apply Hadj.
  - exfalso. apply Hspec. intros x y (e & ? & _ & _ & <-)%Hadj. eauto.
Qed.

Lemma self_loop_cycle g :
  (forall n, ~ tc (plain_edge g) n n) -> has_errors (rule_04_no_self_loops g) = false.
Proof.
  intros Hac. apply has_errors_bind. intros e He. apply has_errors_guard.
  apply not_true_iff_false. intros Ht. bool_to_prop.
  apply (Hac (pe_source e)), tc_once. exists e. auto.
Qed.

Lemma rule_06_ok g :
  has_errors (rule_06_conditions_parse g) = false <->
  forall e, e ∈ pg_edges g -> forall c, pe_condition e = Some c -> exists x, parse_condition c = Ok x.
Proof.
  unfold rule_06_conditions_parse. rewrite has_errors_bind. apply forall_proper. intros e.
  apply forall_proper. intros _. destruct (pe_condition e) as [c|]; [|done]. split.
  - intros Hh c' [= <-]. destruct (parse_condition c); [eauto|done].
  - intros Hc. by destruct (Hc c eq_refl) as [x ->].
Qed.

Lemma duplicate_edges_no_error seen es : has_errors (duplicate_edges seen es) = false.
Proof.
  revert seen; induction es as [|e es IH]; intros seen; cbn [duplicate_edges]; [done|].
  case_decide; [|done]. by apply has_errors_app.
Qed.

Lemma converge_ok g r kind n :
  has_errors (converge_diags g r kind n) = false <->
  exists t, pn_converge n = Some t /\ t ∈ dom (pg_nodes g).
Proof.
  unfold converge_diags. destruct (pn_converge n) as [t|]; [|naive_solver].
  rewrite has_errors_decide. naive_solver.
Qed.

Lemma rule_13_14_ok g :
  has_errors (rule_13_parallel_converge g) = false /\
  has_errors (rule_14_dynamic_parallel g) = false <->
  forall id n, pg_nodes g !! id = Some n -> pn_handler n = Parallel \/ pn_handler n = DynamicParallel ->
    exists t, pn_converge n = Some t /\ t ∈ dom (pg_nodes g).
Proof.
  unfold rule_13_parallel_converge, rule_14_dynamic_parallel. rewrite !has_errors_values.
  split.
  - intros [H13 H14] id n Hn [Hh|Hh]; [specialize (H13 id n Hn)|specialize (H14 id n Hn)];
      rewrite decide_True in * by done; [apply has_errors_app in H13 as [Hc _]|
      apply has_errors_app in H14 as [Hc _]]; by apply converge_ok in Hc.
  - intros Hall. split; intros id n Hn; case_decide as Hh; try done; apply has_errors_app;
      (split; [eapply converge_ok, Hall; eauto|by case_match]).
Qed.

Lemma graph_checkpoint_names_spec g ctx c :
  c ∈ graph_checkpoint_names g ctx <-> checkpoint_declared g ctx c.
Proof.
  unfold graph_checkpoint_names, checkpoint_declared.
  assert (Hf : forall ns (names : gset string), c ∈ foldl (fun names n => names ∪ list_to_set (mc_name <$> pn_checkpoints n)) names ns
    <-> c ∈ names \/ exists n m, n ∈ ns /\ m ∈ pn_checkpoints n /\ mc_name m = c).
  { intros ns; induction ns as [|n ns IH]; intros names; cbn [foldl]; [set_solver|].
    rewrite IH, elem_of_union, elem_of_list_to_set, list_elem_of_fmap. set_solver. }
  rewrite Hf. setoid_rewrite elem_of_hm_values. naive_solver.
Qed.

Lemma artifact_ref_resolves_spec g ctx a :
  artifact_ref_resolves a ctx g = true <-> artifact_known g ctx a.
Proof. unfold artifact_ref_resolves, artifact_known. by rewrite orb_true_iff, !bool_decide_eq_true. Qed.

Lemma incoming_sources_spec g x id :
  x ∈ default ∅ (incoming_sources g !! id) <-> edge g x id.
Proof.
  unfold incoming_sources, edge.
  assert (Hf : forall es (m : gmap string (gset string)),
    x ∈ default ∅ (foldl (fun m e => <[pe_target e := default ∅ (m !! pe_target e) ∪ {[pe_source e]}]> m) m es !! id)
    <-> x ∈ default ∅ (m !! id) \/ exists e, e ∈ es /\ pe_source e = x /\ pe_target e = id).
  { intros es; induction es as [|e es IH]; intros m; cbn [foldl]; [set_solver|].
    rewrite IH, lookup_insert. case_decide as Ht; [rewrite <- Ht; cbn|]; set_solver. }
  rewrite Hf. set_solver.
Qed.

Lemma reference_resolves_spec g ctx id r :
  reference_resolves_in_template r (default ∅ (incoming_sources g !! id)) ctx g = true <->
  template_bound g ctx id r.
Proof.
  unfold reference_resolves_in_template, template_bound.
  repeat case_match; rewrite ?artifact_ref_resolves_spec, ?bool_decide_eq_true,
    ?graph_checkpoint_names_spec; try done.
  destruct (runtime_ref_stem r) as [stem|]; cbn [is_some_and]; [|naive_solver].
  rewrite orb_true_iff, !bool_decide_eq_true, incoming_sources_spec. naive_solver.
Qed.

Lemma rule_16_ok g ctx :
  has_errors (rule_16_template_bindings g ctx) = false <->
  forall id n, pg_nodes g !! id = Some n -> forall r, r ∈ template_refs_for_node n ->
    template_bound g ctx (pn_id n) r.
Proof.
  unfold rule_16_template_bindings. rewrite has_errors_values. setoid_rewrite has_errors_bind.
  setoid_rewrite has_errors_guard_not. setoid_rewrite reference_resolves_spec.
  by setoid_rewrite elem_of_btree_iter.
Qed.

Lemma rule_17_no_error g : has_errors (rule_17_dead_edges g) = false.
Proof.
  apply has_errors_bind. intros e _. destruct (pg_nodes g !! pe_target e); [|done].
  cbv zeta. by destruct (existsb _ _).
Qed.

Lemma rule_18_ok g ctx :
  has_errors (rule_18_known_models g ctx) = false <->
  (forall m, pg_default_model g = Some m -> model_known m (vc_known_models ctx) = true) /\
  forall id n, pg_nodes g !! id = Some n -> forall m, m ∈ node_models n ->
    model_known m (vc_known_models ctx) = true.
Proof.
  unfold rule_18_known_models, validate_model_name. rewrite has_errors_app, has_errors_values.
  setoid_rewrite has_errors_bind. setoid_rewrite has_errors_guard_not.
  apply and_iff_compat_r. destruct (pg_default_model g) as [m|]; [|done].
  rewrite has_errors_guard_not. split; [by intros ?? [= <-]|auto].
Qed.

Lemma rule_19_ok g ctx :
  has_errors (rule_19_known_tools g ctx) = false <->
  forall id n, pg_nodes g !! id = Some n -> forall t, t ∈ pn_tools n ->
    trim t = "" \/ tool_policy_entry_known t ctx = true.
Proof.
  unfold rule_19_known_tools. rewrite has_errors_values. setoid_rewrite has_errors_bind.
  split.
  - intros Hall id n Hn t Ht. specialize (Hall id n Hn t Ht). cbn beta in Hall.
    case_decide; [by left|]. right. by apply has_errors_guard_not in Hall.
  - intros Hall id n Hn t Ht. case_decide; [done|]. apply has_errors_guard_not.
    by destruct (Hall id n Hn t Ht).
Qed.

Lemma outgoing_degrees_spec g s :
  outgoing_degrees g !! s =
  match targets_from s (pg_edges g) with
  | [] => None
  | l => Some (Z.of_nat (length l))
  end.
Proof.
  unfold outgoing_degrees.
  assert (Hf : forall es (m : gmap string Z),
    foldl (fun m e => <[pe_source e := (default 0 (m !! pe_source e) + 1)%Z]> m) m es !! s =
    match targets_from s es with
    | [] => m !! s
    | l => Some (default 0 (m !! s) + Z.of_nat (length l))%Z
    end).
  { intros es; induction es as [|e es IH]; intros m; cbn [foldl]; [done|].
    rewrite IH, lookup_insert. unfold targets_from. rewrite filter_cons.
    case_decide as Hs; [|done]. rewrite Hs, fmap_cons.
    destruct (pe_target <$> _); cbn; f_equal; lia. }
  rewrite Hf, lookup_empty. by destruct (targets_from _ _).
Qed.

Lemma rule_20_ok g ctx :
  has_errors (rule_20_fanout_bound g ctx) = false <->
  (forall e, e ∈ pg_edges g ->
    (Z.of_nat (length (targets_from (pe_source e) (pg_edges g))) <= vc_max_fanout_degree ctx)%Z) /\
  forall id n, pg_nodes g !! id = Some n -> forall k, pn_max_tasks n = Some k ->
    (k <= vc_max_fanout_degree ctx)%Z.
Proof.
  unfold rule_20_fanout_bound. rewrite has_errors_app, has_errors_values, has_errors_bind.
  assert (Hd : forall s k, (s, k) ∈ hm_iter (outgoing_degrees g) <->
    (exists e, e ∈ pg_edges g /\ pe_source e = s) /\ k = Z.of_nat (length (targets_from s (pg_edges g)))).
  { intros s k. rewrite elem_of_hm_iter, outgoing_degrees_spec.
    destruct (targets_from s (pg_edges g)) as [|t l] eqn:Ht.
    - split; [done|]. intros [(e & He & <-) _]. exfalso.
      assert (Hin : pe_target e ∈ targets_from (pe_source e) (pg_edges g))
        by (apply elem_of_targets_from; eauto). rewrite Ht in Hin. by apply not_elem_of_nil in Hin.
    - assert (Hin : t ∈ targets_from s (pg_edges g)) by (rewrite Ht; left).
      apply elem_of_targets_from in Hin. naive_solver. }
  split; (intros [H1 H2]; split).
  - intros e He. specialize (H1 (_, _) (proj2 (Hd _ _) (conj (ex_intro _ e (conj He eq_refl)) eq_refl))).
    apply has_errors_guard in H1. by apply Z.ltb_ge in H1.
  - intros id n Hn k Hk. specialize (H2 id n Hn). rewrite Hk in H2.
    apply has_errors_guard in H2. by apply Z.ltb_ge in H2.
  - intros [s k] [(e & He & <-) ->]%Hd. apply has_errors_guard. apply Z.ltb_ge. auto.
  - intros id n Hn. specialize (H2 id n Hn). destruct (pn_max_tasks n); [|done].
    apply has_errors_guard, Z.ltb_ge. auto.
Qed.

Lemma rule_21_ok g ctx :
  has_errors (rule_21_human_gate_resolver g ctx) = false <->
  forall id n, pg_nodes g !! id = Some n -> pn_human_gate n = true ->
    exists r, pn_resolver n = Some r /\ r <> "" /\
      (vc_human_gate_resolvers ctx = ∅ \/ r ∈ vc_human_gate_resolvers ctx).
Proof.
  unfold rule_21_human_gate_resolver. rewrite has_errors_values.
  do 3 (apply forall_proper; intros ?). destruct (pn_human_gate _); [cbn [negb]|by split].
  destruct (pn_resolver _) as [[|b r]|]; [split; [done|]; naive_solver| |split; [done|]; naive_solver].
  rewrite has_errors_guard, andb_false_iff, !negb_false_iff, !bool_decide_eq_true. split; [eauto|].
  intros Hg. destruct (Hg eq_refl) as (r' & [= <-] & _ & Ho). done.
Qed.

Lemma rule_22_ok g ctx :
  has_errors (rule_22_reference_resolution g ctx) = false <->
  (forall id n, pg_nodes g !! id = Some n -> forall a, a ∈ pn_artifact_refs n -> artifact_known g ctx a) /\
  (forall id n, pg_nodes g !! id = Some n -> forall c, c ∈ pn_checkpoint_refs n -> checkpoint_declared g ctx c).
Proof.
  unfold rule_22_reference_resolution. rewrite has_errors_values. setoid_rewrite has_errors_app.
  setoid_rewrite has_errors_bind. setoid_rewrite has_errors_guard_not.
  setoid_rewrite artifact_ref_resolves_spec. setoid_rewrite has_errors_decide.
  setoid_rewrite graph_checkpoint_names_spec. naive_solver.
Qed.

Lemma rule_23_ok g :
  has_errors (rule_23_no_shell g) = false <->
  forall id n, pg_nodes g !! id = Some n -> pn_handler n <> Shell /\
    forall t, t ∈ pn_tools n -> tool_entry_grants_shell t = false.
Proof.
  unfold rule_23_no_shell. rewrite has_errors_values. setoid_rewrite has_errors_app.
  setoid_rewrite has_errors_decide_not. do 3 (apply forall_proper; intros ?).
  apply and_iff_compat_l. rewrite <- find_None. by destruct (List.find _ _).
Qed.

Lemma warnings_only g :
  has_errors (rule_05_goal_gate_edges g) = false /\ has_errors (rule_07_known_handler g) = false /\
  has_errors (rule_08_prompt_required g) = false /\ has_errors (rule_09_no_duplicate_edges g) = false /\
  has_errors (rule_17_dead_edges g) = false.
Proof.
  split_and!; [|done| |apply duplicate_edges_no_error|apply rule_17_no_error];
    apply has_errors_values; intros; by case_match.
Qed.
End rule_lemmas.

Lemma validate_with_context_spec `{HashIter} `{RustFmt} (g : PipelineGraph) (ctx : ValidationContext) :
  validate_with_context g ctx = Ok tt <-> valid_graph g ctx.
Proof.
  destruct (warnings_only g) as (W5 & W7 & W8 & W9 & W17).
  assert (Hok : validate_with_context g ctx = Ok tt <->
                has_errors (diagnostics_with_context g ctx) = false).
  { unfold validate_with_context. cbv zeta. by destruct (has_errors (diagnostics_with_context _ _)). }
  rewrite Hok. unfold diagnostics_with_context. rewrite !has_errors_app.
  assert (H3 : has_errors (rule_03_edge_targets_exist g) = false <->
    forall e, e ∈ pg_edges g -> pe_target e ∈ dom (pg_nodes g)).
  { unfold rule_03_edge_targets_exist. rewrite has_errors_bind. by setoid_rewrite has_errors_decide. }
  assert (H12 : has_errors (rule_12_edge_sources_exist g) = false <->
    forall e, e ∈ pg_edges g -> pe_source e ∈ dom (pg_nodes g)).
  { unfold rule_12_edge_sources_exist. rewrite has_errors_bind. by setoid_rewrite has_errors_decide. }
  assert (H10 : has_errors (rule_10_positive_weight g) = false <->
    forall e, e ∈ pg_edges g -> f64_le (pe_weight e) f64_zero = false).
  { unfold rule_10_positive_weight. rewrite has_errors_bind. by setoid_rewrite has_errors_guard. }
  assert (H11 : has_errors (rule_11_at_least_one_node g) = false <-> pg_nodes g <> ∅)
    by apply has_errors_decide_not.
  pose proof (rule_13_14_ok g) as H1314.
  rewrite rule_01_ok, rule_06_ok, H3, H10, H11, H12, rule_16_ok, rule_18_ok, rule_19_ok, rule_20_ok,
    rule_21_ok, rule_22_ok, rule_23_ok.
  split.
  - intros ((s & Hs) & R2 & R3 & _ & _ & R6 & _ & _ & _ & R10 & R11 & R12 & R13 & R14 & R15 & R16
      & _ & [R18 R18'] & R19 & [R20 R20'] & R21 & [R22 R22'] & R23).
    rewrite (rule_02_ok g s Hs) in R2. rewrite (rule_15_ok g R12) in R15.
    split; eauto.
    + intros e He. split; eauto.
    + pose proof (proj1 H1314 (conj R13 R14)). intros id n Hn. split; eauto.
  - intros [(s & Hs & Hr) Hne He Hac Hn Hm Hf].
    assert (Hsrc : forall e, e ∈ pg_edges g -> pe_source e ∈ dom (pg_nodes g)) by (intros; by apply He).
    destruct (proj2 H1314) as [R13 R14]; [intros id n Hin; by apply (Hn id n Hin)|].
    split_and!; try assumption; try (intros; by eapply He); try (intros id n Hin; by apply (Hn id n Hin));
      [eauto|by apply (rule_02_ok g s)|by apply self_loop_cycle|by apply (rule_15_ok g)].
Qed.

(** C7.  Validation is exact, for every hash-map iteration order:
    [validate_with_context] returns [Ok] if and only if the graph satisfies
    [valid_graph]: there is a start node that reaches every node, both endpoints of
    every edge are declared, conditions parse, weights are not negative or zero, the
    edges without back-edge marker form no cycle, fan-out nodes name an existing
    converge node, template variables, models, tools, resolvers, artifacts and
    checkpoints resolve, fan-out is bounded, and no node has the shell handler or a
    tool entry that grants the shell. *)
Theorem validate_iff_valid `{HashIter} `{RustFmt} (g : PipelineGraph) (ctx : ValidationContext) :
  validate_with_context g ctx = Ok tt <-> valid_graph g ctx.
Proof. apply validate_with_context_spec. Qed.

(** ** The shell is out of reach *)

Lemma tool_group_cases t grp : tool_group_info t = Some grp -> grp ∈ TOOL_GROUPS /\ t = grp.1.
Proof.
  intros [Hin%list_elem_of_In Hb]%List.find_some. by apply bool_decide_eq_true in Hb.
Qed.

Lemma shell_wildcards_granted s n :
  s ∈ SHELL_TOOLS -> n <= String.length s -> tool_entry_grants_shell (str_take n s +:+ "*") = true.
Proof.
  intros Hs Hn.
  assert (Hall : forallb (fun s => forallb (fun n => tool_entry_grants_shell (str_take n s +:+ "*"))
                            (seq 0 (S (String.length s)))) SHELL_TOOLS = true) by by vm_compute.
  rewrite forallb_forall in Hall. specialize (Hall s (proj1 (list_elem_of_In _ _) Hs)).
  rewrite forallb_forall in Hall. apply Hall, in_seq. lia.
Qed.

Lemma shell_names_granted s : s ∈ SHELL_TOOLS -> tool_entry_grants_shell s = true.
Proof.
  intros Hs%list_elem_of_In. revert s Hs. apply forallb_forall. by vm_compute.
Qed.

Lemma group_entry_shell grp s :
  grp ∈ TOOL_GROUPS -> s ∈ SHELL_TOOLS -> s ∈ grp.2 -> tool_entry_grants_shell grp.1 = true.
Proof.
  intros Hg Hs Hin.
  assert (Hall : forallb (fun grp => forallb (fun s => implb (bool_decide (s ∈ grp.2))
            (tool_entry_grants_shell grp.1)) SHELL_TOOLS) TOOL_GROUPS = true) by by vm_compute.
  rewrite forallb_forall in Hall. specialize (Hall grp (proj1 (list_elem_of_In _ _) Hg)).
  rewrite forallb_forall in Hall. specialize (Hall s (proj1 (list_elem_of_In _ _) Hs)).
  by rewrite bool_decide_eq_true_2 in Hall.
Qed.

(** A tool entry rule 23 lets pass, and that is not a robot-tier group, matches no
    shell tool under the policy's own reading of it. *)
Lemma entry_matches_no_shell reg t s :
  s ∈ SHELL_TOOLS -> entry_is_robot_group t = false -> tool_entry_grants_shell t = false ->
  entry_matches reg t s = false.
Proof.
  intros Hs Hr Hg. apply not_true_iff_false. unfold entry_matches, expand_group. rewrite Hr.
  intros Hm. destruct (tool_group_info t) as [grp|] eqn:Ht; cbn [fmap option_fmap option_map] in Hm.
  - apply tool_group_cases in Ht as [Hin ->]. apply bool_decide_eq_true in Hm.
    by rewrite (group_entry_shell grp s) in Hg.
  - destruct (strip_suffix "*" t) as [prefix|] eqn:Hp.
    + apply strip_suffix_Some in Hp as ->. apply starts_with_app in Hm as [rest ->].
      rewrite <- (str_take_app prefix rest), shell_wildcards_granted in Hg; [done..|].
      rewrite length_str_app. lia.
    + apply bool_decide_eq_true in Hm as ->. by rewrite shell_names_granted in Hg.
Qed.

Lemma known_entry_not_robot t ctx :
  tool_policy_entry_known t ctx = true -> entry_is_robot_group t = false.
Proof.
  intros Hk. apply bool_decide_eq_false. intros [tier Ht].
  unfold parse_group_name in Ht. apply bind_Some in Ht as (r & Hr & Ht).
  unfold strip_prefix in Hr. destruct (starts_with ROBOT_GROUP_PREFIX t) eqn:Hsw; [|done].
  apply starts_with_app in Hsw as [rest ->]. unfold tool_policy_entry_known in Hk.
  case_decide; [done|]. replace (starts_with "group:" _) with true in Hk by done.
  destruct (tool_group_info _) as [grp|] eqn:Hg; [|done].
  apply tool_group_cases in Hg as [Hin%list_elem_of_In Heq].
  assert (Hall : forallb (fun grp => negb (starts_with ROBOT_GROUP_PREFIX grp.1)) TOOL_GROUPS = true)
    by by vm_compute.
  rewrite forallb_forall in Hall. apply Hall in Hin. rewrite <- Heq in Hin.
  by rewrite (proj2 (starts_with_app _ _)) in Hin by eauto.
Qed.

Lemma codergen_policy_no_shell reg n s :
  s ∈ SHELL_TOOLS -> is_allowed reg (codergen_policy n) s = false.
Proof.
  intros Hs. apply not_true_iff_false. rewrite is_allowed_spec. intros [Hd _].
  unfold codergen_policy in Hd. case_match; cbn [tp_deny] in Hd.
  - specialize (Hd "*" ltac:(set_solver)).
    replace (entry_matches reg "*" s) with true in Hd; [done|]. by destruct s.
  - assert (Hall : forallb (fun s => bool_decide (s ∈ DENIED_TOOLS) && entry_matches reg s s) SHELL_TOOLS = true)
      by by vm_compute.
    rewrite forallb_forall in Hall. apply list_elem_of_In in Hs. apply Hall in Hs. bool_to_prop.
    by rewrite Hd in *.
Qed.


(** A two-node graph, for concrete instances. *)
Definition demo_node (id : string) (tools : list string) : PipelineNode := {|
  pn_id := id; pn_handler := Codergen; pn_prompt := Some "summarise {input}"; pn_label := None;
  pn_model := Some "cheap"; pn_context_window := None; pn_max_output_tokens := None;
  pn_reasoning_effort := None; pn_max_iterations := None; pn_tools := tools;
  pn_goal_gate := false; pn_max_retries := 0; pn_timeout_secs := None;
  pn_suggested_next := None; pn_converge := None; pn_worker_prompt := None;
  pn_planner_model := None; pn_max_tasks := None; pn_human_gate := false;
  pn_resolver := None; pn_artifact_refs := []; pn_checkpoint_refs := [];
  pn_deadline_secs := None; pn_deadline_action := None;
  pn_continue_on_error := false; pn_checkpoints := [] |}.

Definition demo_edge (a b : string) : PipelineEdge :=
  {| pe_source := a; pe_target := b; pe_label := None; pe_condition := None; pe_weight := f64_one |}.

Definition demo_graph : PipelineGraph := {|
  pg_id := "demo"; pg_label := None; pg_default_model := None; pg_max_total_tokens := None;
  pg_default_timeout_secs := None; pg_result_fidelity := None;
  pg_nodes := list_to_map [("start", demo_node "start" ["read_*"]); ("end", demo_node "end" ["group:fs"])];
  pg_edges := [demo_edge "start" "end"]; pg_subgraphs := [] |}.


(** ** Skipping the plugin loader *)

Lemma bind_ext_in {A B} (f h : A -> list B) (l : list A) :
  (forall x, x ∈ l -> f x = h x) -> l ≫= f = l ≫= h.
Proof.
  induction l as [|x l IH]; intros Hx; [done|]. rewrite !bind_cons, Hx by left. f_equal.
  apply IH. intros y Hy. apply Hx. by right.
Qed.

Lemma entry_known_mono t ctx tools1 tools2 :
  (forall b, b ∈ tools1 -> b ∈ tools2) ->
  tool_policy_entry_known t (with_known_tools ctx tools1) = true ->
  tool_policy_entry_known t (with_known_tools ctx tools2) = true.
Proof.
  intros Hsub. unfold tool_policy_entry_known. case_decide; [done|]. case_match; [done|].
  case_match; rewrite ?bool_decide_eq_true, ?existsb_true; cbn [with_known_tools vc_known_tools];
    [setoid_rewrite elem_of_btree_iter|]; set_solver.
Qed.

Lemma entry_covered t ctx builtins :
  trim t = t -> t <> "" -> entry_needs_plugins builtins t = false ->
  starts_with "group:" t = true \/
  tool_policy_entry_known t (with_known_tools ctx builtins) = true.
Proof.
  unfold entry_needs_plugins, tool_policy_entry_known. intros -> Hne.
  rewrite decide_False, (bool_decide_eq_false_2 (t = "")) by done. cbn [orb].
  destruct (starts_with "group:" t); [by left|]. right.
  destruct (strip_suffix "*" t) as [prefix|].
  - apply negb_false_iff, existsb_true in H as (b & Hb & Hp). apply existsb_true. exists b.
    split; [|done]. apply elem_of_btree_iter. cbn. set_solver.
  - apply negb_false_iff, bool_decide_eq_true in H. apply bool_decide_eq_true. cbn. set_solver.
Qed.

(** Loading plugins lazily does not change validation: when the entries of a graph
    carry no surrounding blanks (the parser trims them) and the loader keeps the
    built-in tools, rule 19 computed with the names of
    [known_tool_names_with_plugins], which skips the loader for graphs the built-ins
    cover, reports exactly the diagnostics it reports with the fully loaded
    registry. *)
Theorem lazy_plugin_load_equiv `{HashIter} (g : PipelineGraph) (ctx : ValidationContext)
    (builtins loaded plugin_dirs : list string) :
  plugin_dirs <> [] -> (forall b, b ∈ builtins -> b ∈ loaded) ->
  (forall id n t, pg_nodes g !! id = Some n -> t ∈ pn_tools n -> trim t = t) ->
  rule_19_known_tools g (with_known_tools ctx
    (known_tool_names_with_plugins builtins loaded plugin_dirs (referenced_tool_entries g))) =
  rule_19_known_tools g (with_known_tools ctx loaded).
Proof.
  intros Hd Hsub Htrim. unfold known_tool_names_with_plugins. rewrite decide_False by done.
  destruct (existsb _ _) eqn:Hex; cbn [negb]; [done|].
  rewrite existsb_false in Hex. unfold rule_19_known_tools.
  apply bind_ext_in. intros n Hn. apply bind_ext_in. intros t Ht. case_decide as Hne; [done|].
  assert (Htt : trim t = t) by (apply elem_of_hm_values in Hn as [id ?]; eauto).
  destruct (entry_covered t ctx builtins) as [Hgrp|Hk]; [done|congruence| | |].
  - apply Hex. apply list_elem_of_bind. eauto.
  - unfold tool_policy_entry_known. by rewrite Hgrp.
  - by rewrite Hk, (entry_known_mono t ctx builtins loaded).
Qed.

Lemma lazy_plugin_load_equiv_witness :
  rule_19_known_tools demo_graph (with_known_tools ValidationContext_default
    (known_tool_names_with_plugins ["read_file"] ["read_file"; "plug"] ["plugins"]
       (referenced_tool_entries demo_graph))) =
  rule_19_known_tools demo_graph (with_known_tools ValidationContext_default ["read_file"; "plug"]).
Proof.
  apply lazy_plugin_load_equiv; [done|set_solver|].
  intros id n t Hn Ht.
  assert (Hall : forallb (fun p => forallb (fun t => bool_decide (trim t = t)) (pn_tools p.2))
                   (map_to_list (pg_nodes demo_graph)) = true) by by vm_compute.
  rewrite forallb_forall in Hall. apply elem_of_map_to_list, list_elem_of_In, Hall in Hn.
  rewrite forallb_forall in Hn. apply list_elem_of_In, Hn in Ht. by apply bool_decide_eq_true in Ht.
Defined.
