(* ===== verification/Ir.v ===== *)
(** * Typed pipeline programs

    Model of [crates/octos-pipeline/src/ir.rs]: the closed palette a language model
    writes pipelines with, the capability contract of each palette kind, and the
    compiler that lowers a program to a graph.  (The JSON reader is derived code; a
    value of [PipelineIr] is what it produces.)  The theorems: when compilation
    succeeds and what it produces, that capabilities come from the palette, and
    which validation rules compiled graphs can never violate. *)

From S2P Require Import Prelude RustStr RustNum Fidelity Graph Condition ToolPolicy Validate.

Inductive IrNodeKind :=
| Research (prompt : string) (max_output_tokens max_iterations : option Z)
| Transform (prompt : string)
| Synthesize (prompt : string) (max_output_tokens max_iterations : option Z)
| Report (prompt : string) (max_output_tokens max_iterations : option Z)
| Gate
| Fanout (plan_prompt : option string) (worker_prompt converge : string) (max_tasks : option Z)
| CodeReview (prompt : string) (scope : option string)
| CodeEdit (prompt : string) (files : option (list string))
| ShellCheck (command : string) (timeout_secs : option Z)
| SubAgent (task : string) (tools : option (list string)) (model : option string)
| Notify (message : string) (channel : option string)
| Wait (seconds : option Z) (until_condition : option string) (timeout_secs : option Z).

Record IrNode := { in_id : string; in_kind : IrNodeKind }.

Record IrEdge := {
  ie_source : string;
  ie_target : string;
  ie_condition : option string;
  ie_back_edge : bool
}.

Record PipelineIr := {
  ir_id : string;
  ir_label : option string;
  ir_nodes : list IrNode;
  ir_edges : list IrEdge
}.

Record PaletteContract := {
  pc_handler : HandlerKind;
  pc_allowed_tools : list string;
  pc_model : option string
}.

Definition contract (h : HandlerKind) (tools : list string) (model : option string)
  : PaletteContract :=
  {| pc_handler := h; pc_allowed_tools := tools; pc_model := model |}.

Definition contract_for (kind : IrNodeKind) : PaletteContract :=
  match kind with
  | Research _ _ _ => contract Codergen ["web_search"; "web_fetch"; "read_file"] (Some "cheap")
  | Transform _ => contract Codergen ["read_file"] (Some "cheap")
  | Synthesize _ _ _ => contract Codergen ["read_file"] (Some "strong")
  | Report _ _ _ => contract Codergen ["read_file"; "write_file"] (Some "strong")
  | Gate => contract Graph.Gate [] None
  | Fanout _ _ _ _ =>
      contract DynamicParallel ["web_search"; "web_fetch"; "read_file"; "write_file"] (Some "cheap")
  | CodeReview _ _ => contract Codergen ["read_file"; "grep"; "glob"; "list_dir"] (Some "strong")
  | CodeEdit _ _ =>
      contract Codergen ["read_file"; "write_file"; "edit_file"; "grep"; "glob"] (Some "strong")
  | ShellCheck _ _ => contract Graph.ShellCheck [] None
  | SubAgent _ _ _ => contract Codergen ["spawn"] (Some "strong")
  | Notify _ _ => contract Graph.Notify [] None
  | Wait _ _ _ => contract Graph.Wait [] None
  end.

(** The fields a kind sets on the default node; the others keep their default. *)
Record NodeFields := {
  nf_prompt : option string;
  nf_label : option string;
  nf_model : option string;
  nf_max_output_tokens : option Z;
  nf_max_iterations : option Z;
  nf_timeout_secs : option Z;
  nf_worker_prompt : option string;
  nf_converge : option string;
  nf_max_tasks : option Z
}.

Definition no_fields (model : option string) : NodeFields :=
  {| nf_prompt := None; nf_label := None; nf_model := model; nf_max_output_tokens := None;
     nf_max_iterations := None; nf_timeout_secs := None; nf_worker_prompt := None;
     nf_converge := None; nf_max_tasks := None |}.

(** Prompt, label and timeout of a node, the assignments most kinds make. *)
Definition text_fields (model prompt label : option string) (timeout : option Z) : NodeFields :=
  {| nf_prompt := prompt; nf_label := label; nf_model := model; nf_max_output_tokens := None;
     nf_max_iterations := None; nf_timeout_secs := timeout; nf_worker_prompt := None;
     nf_converge := None; nf_max_tasks := None |}.

Definition subagent_prompt (task : string) : string :=
  "You are a delegator. Your ONLY tool is `spawn`. Use it to create a sub-agent that completes this task:"
  +:+ String NL (String NL task) +:+ String NL (String NL
  "Return the sub-agent's final output as your result.").

(** The [match &n.kind] of [compile_node]; [model] is the contract's. *)
Definition kind_fields (kind : IrNodeKind) (model : option string) : NodeFields :=
  match kind with
  | Research prompt max_output_tokens max_iterations
  | Synthesize prompt max_output_tokens max_iterations
  | Report prompt max_output_tokens max_iterations =>
      {| nf_prompt := Some prompt; nf_label := None; nf_model := model;
         nf_max_output_tokens := max_output_tokens; nf_max_iterations := max_iterations;
         nf_timeout_secs := None; nf_worker_prompt := None; nf_converge := None;
         nf_max_tasks := None |}
  | Transform prompt => text_fields model (Some prompt) None None
  | Gate => no_fields model
  | Fanout plan_prompt worker_prompt converge max_tasks =>
      {| nf_prompt := plan_prompt; nf_label := None; nf_model := model;
         nf_max_output_tokens := None; nf_max_iterations := None; nf_timeout_secs := None;
         nf_worker_prompt := Some worker_prompt; nf_converge := Some converge;
         nf_max_tasks := max_tasks |}
  | CodeReview prompt scope => text_fields model (Some prompt) scope None
  | CodeEdit prompt files => text_fields model (Some prompt) (String.concat ", " <$> files) None
  | ShellCheck command timeout_secs =>
      text_fields model (Some command) (Some "shell_check") (Some (default 60%Z timeout_secs))
  | SubAgent task tools model_override =>
      text_fields (match model_override with Some m => Some m | None => model end)
        (Some (subagent_prompt task))
        ((fun ts => "subagent:" +:+ String.concat "," ts) <$> tools) None
  | Notify message channel =>
      text_fields model (Some message)
        (match channel with Some c => Some c | None => Some "notify" end) None
  | Wait seconds until_condition timeout_secs =>
      match seconds, until_condition with
      | Some s, _ =>
          text_fields model (Some ("wait " +:+ pretty s +:+ "s")) (Some "wait") (Some s)
      | None, Some cond =>
          text_fields model (Some ("wait until " +:+ cond)) (Some "wait")
            (Some (default 300%Z timeout_secs))
      | None, None => text_fields model None (Some "wait") None
      end
  end.

Definition compile_node (n : IrNode) : PipelineNode :=
  let c := contract_for (in_kind n) in
  let f := kind_fields (in_kind n) (pc_model c) in
  {| pn_id := in_id n; pn_handler := pc_handler c; pn_prompt := nf_prompt f;
     pn_label := nf_label f; pn_model := nf_model f; pn_context_window := None;
     pn_max_output_tokens := nf_max_output_tokens f; pn_reasoning_effort := None;
     pn_max_iterations := nf_max_iterations f; pn_tools := pc_allowed_tools c;
     pn_goal_gate := false; pn_max_retries := 0; pn_timeout_secs := nf_timeout_secs f;
     pn_suggested_next := None; pn_converge := nf_converge f;
     pn_worker_prompt := nf_worker_prompt f; pn_planner_model := None;
     pn_max_tasks := nf_max_tasks f; pn_human_gate := false; pn_resolver := None;
     pn_artifact_refs := []; pn_checkpoint_refs := []; pn_deadline_secs := None;
     pn_deadline_action := None; pn_continue_on_error := false; pn_checkpoints := [] |}.

Definition compile_edge (e : IrEdge) : PipelineEdge :=
  {| pe_source := ie_source e; pe_target := ie_target e;
     pe_label := if ie_back_edge e then Some "back_edge" else None;
     pe_condition := ie_condition e; pe_weight := f64_one |}.

Fixpoint compile_nodes (l : list IrNode) (nodes : gmap string PipelineNode)
  : result report (gmap string PipelineNode) :=
  match l with
  | [] => Ok nodes
  | n :: l =>
      if decide (in_id n ∈ dom nodes) then bail ("duplicate node id '" +:+ in_id n +:+ "'")
      else compile_nodes l (<[in_id n := compile_node n]> nodes)
  end.

Fixpoint compile_edges (nodes : gmap string PipelineNode) (l : list IrEdge)
    (edges : list PipelineEdge) : result report (list PipelineEdge) :=
  match l with
  | [] => Ok edges
  | e :: l =>
      if decide (ie_source e ∉ dom nodes) then
        bail ("edge source '" +:+ ie_source e +:+ "' is not a declared node")
      else if decide (ie_target e ∉ dom nodes) then
        bail ("edge target '" +:+ ie_target e +:+ "' is not a declared node")
      else compile_edges nodes l (edges ++ [compile_edge e])
  end.

Definition compile (ir : PipelineIr) : result report PipelineGraph :=
  nodes ← compile_nodes (ir_nodes ir) ∅;
  edges ← compile_edges nodes (ir_edges ir) [];
  mret {| pg_id := ir_id ir; pg_label := ir_label ir; pg_default_model := None;
          pg_max_total_tokens := None; pg_default_timeout_secs := None;
          pg_result_fidelity := None; pg_nodes := nodes; pg_edges := edges;
          pg_subgraphs := [] |}.

(** ** Correctness of the compiler *)

Lemma compile_nodes_spec l nodes :
  match compile_nodes l nodes with
  | Ok nodes' =>
      NoDup (in_id <$> l) /\ (forall n, n ∈ l -> in_id n ∉ dom nodes) /\
      forall id n, nodes' !! id = Some n <->
        nodes !! id = Some n \/ exists i, i ∈ l /\ in_id i = id /\ n = compile_node i
  | Err _ => ~ (NoDup (in_id <$> l) /\ forall n, n ∈ l -> in_id n ∉ dom nodes)
  end.
Proof.
  revert nodes; induction l as [|i l IH]; intros nodes; cbn [compile_nodes fmap list_fmap].
  - split_and!; [constructor|set_solver|set_solver].
  - case_decide as Hin.
    + intros [_ Hd]. by apply (Hd i); [left|].
    + specialize (IH (<[in_id i := compile_node i]> nodes)).
      destruct (compile_nodes l _) as [nodes'|e].
      * destruct IH as (Hnd & Hd & Hl). rewrite dom_insert_L in Hd. split_and!.
        -- apply NoDup_cons. split; [|done]. intros (j & Hj & Hjl)%list_elem_of_fmap.
           specialize (Hd j Hjl). set_solver.
        -- intros n [->|Hn]%elem_of_cons; [done|]. specialize (Hd n Hn). set_solver.
        -- intros id n. rewrite Hl, lookup_insert. setoid_rewrite elem_of_cons.
           case_decide as Hid; [subst|].
           ++ assert (nodes !! in_id i = None) by (by apply not_elem_of_dom). split.
              ** intros [[= <-]|(j & Hj & Hji & ->)]; right; eauto.
              ** intros [?|(j & [->|Hj] & Hji & ->)]; [congruence|by left|].
                 exfalso. apply (Hd j Hj). rewrite Hji. set_solver.
           ++ split; [|naive_solver]. intros [?|(j & ? & ? & ->)]; [by left|right; eauto].
      * intros [[Hni Hnd]%NoDup_cons Hd]. apply IH. split; [done|].
        intros n Hn. rewrite dom_insert_L, not_elem_of_union. split; [|apply Hd; by right].
        intros Heq%elem_of_singleton. apply Hni, list_elem_of_fmap. eauto.
Qed.

Lemma compile_edges_spec nodes l edges :
  match compile_edges nodes l edges with
  | Ok edges' =>
      edges' = edges ++ (compile_edge <$> l) /\
      forall e, e ∈ l -> ie_source e ∈ dom nodes /\ ie_target e ∈ dom nodes
  | Err _ => ~ forall e, e ∈ l -> ie_source e ∈ dom nodes /\ ie_target e ∈ dom nodes
  end.
Proof.
  revert edges; induction l as [|e l IH]; intros edges; cbn [compile_edges].
  - split; [by rewrite app_nil_r|set_solver].
  - case_decide as Hs; [intros Hall; by apply Hs, Hall; left|].
    case_decide as Ht; [intros Hall; by apply Ht, Hall; left|].
    specialize (IH (edges ++ [compile_edge e])). destruct (compile_edges nodes l _).
    + destruct IH as [-> Hl]. split; [by rewrite <- app_assoc|].
      intros e' [->|He]%elem_of_cons; [|auto].
      destruct (decide (ie_source e ∈ dom nodes)), (decide (ie_target e ∈ dom nodes)); tauto.
    + intros Hall. apply IH. intros e' He. apply Hall. by right.
Qed.

(** The program is closed: ids are distinct and edges join declared nodes. *)
Definition ir_closed (ir : PipelineIr) : Prop :=
  NoDup (in_id <$> ir_nodes ir) /\
  forall e, e ∈ ir_edges ir -> ie_source e ∈ in_id <$> ir_nodes ir /\ ie_target e ∈ in_id <$> ir_nodes ir.

Lemma compile_spec ir :
  match compile ir with
  | Ok g =>
      ir_closed ir /\ pg_id g = ir_id ir /\ pg_edges g = compile_edge <$> ir_edges ir /\
      (forall id n, pg_nodes g !! id = Some n <->
         exists i, i ∈ ir_nodes ir /\ in_id i = id /\ n = compile_node i)
  | Err _ => ~ ir_closed ir
  end.
Proof.
  unfold compile, ir_closed.
  pose proof (compile_nodes_spec (ir_nodes ir) ∅) as Hn.
  destruct (compile_nodes (ir_nodes ir) ∅) as [nodes|e]; cbn [mbind result_bind].
  - destruct Hn as (Hnd & _ & Hl).
    assert (Hdom : forall id, id ∈ dom nodes <-> id ∈ in_id <$> ir_nodes ir).
    { intros id. rewrite elem_of_dom, list_elem_of_fmap. split.
      - intros [n [?|(i & ? & <- & _)]%Hl]; [done|eauto].
      - intros (i & -> & Hi). exists (compile_node i). apply Hl. eauto. }
    pose proof (compile_edges_spec nodes (ir_edges ir) []) as He.
    destruct (compile_edges nodes (ir_edges ir) []) as [es|err]; setoid_rewrite Hdom in He.
    + destruct He as [-> He]. cbn. split_and!; [done|done|done|done|]. intros id n.
      rewrite Hl, lookup_empty. naive_solver.
    + intros [_ Hall]. by apply He.
  - intros [Hnd _]. apply Hn. split; [done|]. set_solver.
Qed.

(** [compile] succeeds exactly on closed programs (distinct node ids, edges
    between declared nodes), and then the graph has one node per IR node, the image of
    [compile_node] under its own id, and the edges in order. *)
Theorem compile_correct (ir : PipelineIr) :
  (is_ok (compile ir) = true <-> ir_closed ir) /\
  forall g, compile ir = Ok g ->
    pg_edges g = compile_edge <$> ir_edges ir /\
    forall id n, pg_nodes g !! id = Some n <->
      exists i, i ∈ ir_nodes ir /\ in_id i = id /\ n = compile_node i.
Proof.
  pose proof (compile_spec ir) as Hs. destruct (compile ir) as [g|e]; cbn [is_ok].
  - destruct Hs as (Hc & _ & He & Hn). split; [done|]. by intros ? [= <-].
  - split; [|done]. split; [done|]. intros. by exfalso.
Qed.

(** ** Capabilities *)

(** The tools a contract can hand out. *)
Definition palette_tools : list string :=
  ["web_search"; "web_fetch"; "read_file"; "write_file"; "edit_file"; "grep"; "glob"; "list_dir";
   "spawn"].

Lemma contract_tools kind t : t ∈ pc_allowed_tools (contract_for kind) -> t ∈ palette_tools.
Proof. unfold palette_tools. destruct kind; cbn; set_solver. Qed.

Lemma palette_tools_safe t :
  t ∈ palette_tools ->
  tool_entry_grants_shell t = false /\
  tool_policy_entry_known t ValidationContext_default = true.
Proof.
  intros Ht%list_elem_of_In.
  assert (Hall : forallb (fun t => negb (tool_entry_grants_shell t)
            && tool_policy_entry_known t ValidationContext_default) palette_tools = true)
    by by vm_compute.
  rewrite forallb_forall in Hall. apply Hall in Ht. by bool_to_prop.
Qed.

(** C23.  Capability lock: whatever the program says, a node of a compiled graph has
    the handler and the tools of its palette contract; the handler is never the shell,
    every tool is one of nine fixed names, none of which the policy layer expands to a
    tool of the shell family; and only a sub-agent node can carry a model that is not
    the contract's. *)
Theorem compiled_capabilities_locked (ir : PipelineIr) (g : PipelineGraph) (id : string)
    (n : PipelineNode) (reg : RobotToolRegistry) :
  compile ir = Ok g -> pg_nodes g !! id = Some n ->
  exists i, i ∈ ir_nodes ir /\ pn_id n = id /\ in_id i = id /\
    pn_handler n = pc_handler (contract_for (in_kind i)) /\
    pn_tools n = pc_allowed_tools (contract_for (in_kind i)) /\
    pn_handler n <> Shell /\
    (forall t, t ∈ pn_tools n -> t ∈ palette_tools /\
       forall s, s ∈ SHELL_TOOLS -> entry_matches reg t s = false) /\
    (pn_model n = pc_model (contract_for (in_kind i)) \/
     exists task tools m, in_kind i = SubAgent task tools (Some m) /\ pn_model n = Some m).
Proof.
  intros Hc Hn. pose proof (compile_spec ir) as Hs. rewrite Hc in Hs.
  destruct Hs as (_ & _ & _ & Hl). apply Hl in Hn as (i & Hi & <- & ->).
  exists i. split_and!; [done..| | |].
  - cbn. by destruct (in_kind i).
  - intros t Ht%contract_tools. split; [done|]. intros s Hs.
    apply palette_tools_safe in Ht as [Hg Hk].
    apply entry_matches_no_shell; [done| |done]. by eapply known_entry_not_robot.
  - cbn. destruct (in_kind i) as [| | | | | | | | |task tools [m|]| |]; try (by left).
    + right. by exists task, tools, m.
    + left. cbn. by repeat case_match.
Qed.

(** A program with a research node that retries until its output says "done". *)
Definition demo_ir : PipelineIr := {|
  ir_id := "p"; ir_label := None;
  ir_nodes := [{| in_id := "start"; in_kind := Research "find {input}" None None |};
               {| in_id := "sub"; in_kind := SubAgent "t" None (Some "fast") |}];
  ir_edges := [{| ie_source := "start"; ie_target := "sub"; ie_condition := None;
                  ie_back_edge := false |};
               {| ie_source := "sub"; ie_target := "start"; ie_condition := None;
                  ie_back_edge := true |}] |}.

Definition demo_ir_graph : PipelineGraph :=
  match compile demo_ir with Ok g => g | Err _ => demo_graph end.

Lemma compiled_capabilities_locked_witness :
  exists i, i ∈ ir_nodes demo_ir /\ "sub" = "sub" /\ in_id i = "sub" /\
    Codergen = pc_handler (contract_for (in_kind i)) /\
    ["spawn"] = pc_allowed_tools (contract_for (in_kind i)) /\
    Codergen <> Shell /\
    (forall t, t ∈ ["spawn"] -> t ∈ palette_tools /\
       forall s, s ∈ SHELL_TOOLS -> entry_matches registry_new t s = false) /\
    (Some "fast" = pc_model (contract_for (in_kind i)) \/
     exists task tools m, in_kind i = SubAgent task tools (Some m) /\ Some "fast" = Some m).
Proof.
  apply (compiled_capabilities_locked demo_ir demo_ir_graph "sub"
           (compile_node {| in_id := "sub"; in_kind := SubAgent "t" None (Some "fast") |})
           registry_new); by vm_compute.
Defined.

(** Compiled graphs and the validator fit: for every program that compiles, the
    endpoint, weight, tool, resolver, reference and shell rules report no error under
    the default validation context, and an edge is exempt from the cycle rule exactly
    when the program marks it as a back edge or its condition spells a marker. *)
Theorem compiled_graph_passes_rules `{HashIter} `{RustFmt} (ir : PipelineIr) (g : PipelineGraph) :
  compile ir = Ok g ->
  let ctx := ValidationContext_default in
  has_errors (rule_03_edge_targets_exist g ++ rule_10_positive_weight g ++
    rule_12_edge_sources_exist g ++ rule_19_known_tools g ctx ++ rule_21_human_gate_resolver g ctx ++
    rule_22_reference_resolution g ctx ++ rule_23_no_shell g) = false /\
  forall e, e ∈ ir_edges ir ->
    edge_allows_back_edge (compile_edge e) =
    ie_back_edge e || is_some_and (ie_condition e) has_back_edge_marker.
Proof.
  intros Hc ctx. pose proof (compile_spec ir) as Hs. rewrite Hc in Hs.
  destruct Hs as ([_ Hcl] & _ & He & Hn).
  assert (Hdom : forall id, id ∈ in_id <$> ir_nodes ir -> id ∈ dom (pg_nodes g)).
  { intros id (i & -> & Hi)%list_elem_of_fmap. apply elem_of_dom. exists (compile_node i). apply Hn. eauto. }
  assert (Hnode : forall id n, pg_nodes g !! id = Some n -> exists i, n = compile_node i) by naive_solver.
  split.
  - rewrite !has_errors_app, rule_19_ok, rule_21_ok, rule_22_ok, rule_23_ok.
    unfold rule_03_edge_targets_exist, rule_10_positive_weight, rule_12_edge_sources_exist.
    rewrite !has_errors_bind, He. split_and!.
    + intros e' (e & -> & Hin)%list_elem_of_fmap. apply has_errors_decide. by apply Hdom, Hcl.
    + intros e' (e & -> & Hin)%list_elem_of_fmap. done.
    + intros e' (e & -> & Hin)%list_elem_of_fmap. apply has_errors_decide. by apply Hdom, Hcl.
    + intros id n (i & ->)%Hnode t Ht%contract_tools. right. by apply palette_tools_safe.
    + intros id n (i & ->)%Hnode. done.
    + intros id n (i & ->)%Hnode. cbn. set_solver.
    + intros id n (i & ->)%Hnode. cbn. set_solver.
    + intros id n (i & ->)%Hnode. split; [cbn; by destruct (in_kind i)|].
      intros t Ht%contract_tools. by apply palette_tools_safe.
  - intros e _. unfold edge_allows_back_edge. cbn. by destruct (ie_back_edge e).
Qed.

Lemma compiled_graph_passes_rules_witness :
  let ctx := ValidationContext_default in let g := demo_ir_graph in
  has_errors (rule_03_edge_targets_exist g ++ @rule_10_positive_weight no_fmt g ++
    rule_12_edge_sources_exist g ++ rule_19_known_tools g ctx ++ rule_21_human_gate_resolver g ctx ++
    rule_22_reference_resolution g ctx ++ rule_23_no_shell g) = false /\
  forall e, e ∈ ir_edges demo_ir ->
    edge_allows_back_edge (compile_edge e) =
    ie_back_edge e || is_some_and (ie_condition e) has_back_edge_marker.
Proof. apply (@compiled_graph_passes_rules tree_iter no_fmt demo_ir demo_ir_graph). by vm_compute. Defined.

(** A sub-agent node has no usable tool: its contract allows only [spawn], which
    the policy of the codergen handler that runs it denies, so every tool name is
    refused, [spawn] included (the node's prompt tells the model to call it). *)
Theorem subagent_node_has_no_tool (id task : string) (tools : option (list string))
    (model : option string) (reg : RobotToolRegistry) (tool : string) :
  is_allowed reg (codergen_policy (compile_node {| in_id := id; in_kind := SubAgent task tools model |}))
    tool = false.
Proof.
  apply not_true_iff_false. rewrite is_allowed_spec. intros [Hd Ha].
  replace (codergen_policy _) with (codergen_policy (demo_node "" ["spawn"])) in * by done.
  replace (tp_allow (codergen_policy (demo_node "" ["spawn"]))) with ["spawn"] in Ha by by vm_compute.
  destruct Ha as [?|(a & ->%list_elem_of_singleton & Hm)]; [done|].
  rewrite Hd in Hm; [done|]. change (tp_deny _) with DENIED_TOOLS. unfold DENIED_TOOLS. set_solver.
Qed.
