(* ===== verification/Profile.v ===== *)
(** * Autonomy profiles

    Model of [crates/octos-pipeline/src/profile.rs]: the bounds a graph written by a
    language model must respect (number of nodes and edges, length of the longest chain,
    handlers, no shell, explicit tool lists), with the topological longest-path
    computation behind the depth bound.  The worklist loop has a fuel, one more than the
    number of nodes and edges; a node enters the queue once. *)

From S2P Require Import Prelude RustStr RustNum Fidelity Graph Condition ToolPolicy Validate Ir.

(** ** Data *)

(** [allowed_handlers] is only tested for membership. *)
Record ValidationProfile := {
  vp_allowed_handlers : list HandlerKind;
  vp_max_nodes : Z;
  vp_max_edges : Z;
  vp_max_depth : Z;
  vp_ban_shell : bool
}.

Definition l2_default : ValidationProfile := {|
  vp_allowed_handlers := [Codergen; Graph.Gate; Noop; Parallel; DynamicParallel;
                          Graph.ShellCheck; Graph.Notify; Graph.Wait];
  vp_max_nodes := 40; vp_max_edges := 120; vp_max_depth := 20; vp_ban_shell := true |}.

Record ProfileViolation := { pv_node : option string; pv_message : string }.

Definition graph_violation (message : string) : ProfileViolation :=
  {| pv_node := None; pv_message := message |}.

Definition node_violation (id message : string) : ProfileViolation :=
  {| pv_node := Some id; pv_message := message |}.

(** ** The longest forward chain *)

Definition chain_edges (g : PipelineGraph) : list PipelineEdge :=
  filter (fun e => pe_label e <> Some "back_edge") (pg_edges g).

Definition indegrees (g : PipelineGraph) : gmap string Z :=
  foldl (fun m e => <[pe_target e := (default 0 (m !! pe_target e) + 1)%Z]> m)
    ((fun _ => 0%Z) <$> pg_nodes g) (chain_edges g).

Record chain_state := {
  ch_indeg : gmap string Z;
  ch_dist : gmap string Z;
  (** [queue[i..]]. *)
  ch_queue : list string
}.

(** [*dist.get(n).unwrap_or(&1)]. *)
Definition dist_of (dist : gmap string Z) (n : string) : Z := default 1%Z (dist !! n).

(** The body of [for &w in neighbors]. *)
Definition relax (du : Z) (st : chain_state) (w : string) : chain_state :=
  let dist :=
    if (dist_of (ch_dist st) w <? du + 1)%Z then <[w := (du + 1)%Z]> (ch_dist st) else ch_dist st in
  match ch_indeg st !! w with
  | Some d =>
      {| ch_indeg := <[w := (d - 1)%Z]> (ch_indeg st); ch_dist := dist;
         ch_queue := if decide (d - 1 = 0)%Z then ch_queue st ++ [w] else ch_queue st |}
  | None => {| ch_indeg := ch_indeg st; ch_dist := dist; ch_queue := ch_queue st |}
  end.

(** [while i < queue.len()]; [None] when the fuel runs out. *)
Fixpoint chain_loop (fuel : nat) (adj : gmap string (list string)) (st : chain_state)
  : option (gmap string Z) :=
  match ch_queue st with
  | [] => Some (ch_dist st)
  | u :: queue =>
      match fuel with
      | O => None
      | S fuel =>
          let st := {| ch_indeg := ch_indeg st; ch_dist := ch_dist st; ch_queue := queue |} in
          chain_loop fuel adj (foldl (relax (dist_of (ch_dist st) u)) st (adj_get adj u))
      end
  end.

(** [Iterator::max]. *)
Definition z_max (l : list Z) : option Z :=
  match l with [] => None | x :: l => Some (foldl Z.max x l) end.

Definition chain_fuel (g : PipelineGraph) : nat := size (pg_nodes g) + length (pg_edges g).

Section profile.
Context `{HashIter}.

Definition chain_init (g : PipelineGraph) : chain_state := {|
  ch_indeg := indegrees g;
  ch_dist := (fun _ => 1%Z) <$> pg_nodes g;
  ch_queue := (filter (fun nd => nd.2 = 0%Z) (hm_iter (indegrees g))).*1 |}.

Definition longest_chain_fuel (g : PipelineGraph) : option (option Z) :=
  dist ← chain_loop (chain_fuel g) (build_adj (chain_edges g)) (chain_init g);
  Some (z_max (hm_values dist)).

(** The fuel never runs out ([longest_chain_total]). *)
Definition longest_chain (g : PipelineGraph) : option Z := default None (longest_chain_fuel g).

(** ** The check *)

Definition node_violations (p : ValidationProfile) (n : PipelineNode) : list ProfileViolation :=
  (if decide (pn_handler n ∈ vp_allowed_handlers p) then []
   else [node_violation (pn_id n)
           ("handler " +:+ HandlerKind_debug (pn_handler n) +:+ " is not allowed at this level")])
  ++ (if vp_ban_shell p then
        (if decide (pn_handler n = Shell)
         then [node_violation (pn_id n) "shell handler is banned"] else [])
        ++ match find (fun t => bool_decide (t ∈ SHELL_TOOLS)) (pn_tools n) with
           | Some tool => [node_violation (pn_id n) ("shell-family tool '" +:+ tool +:+ "' is banned")]
           | None => []
           end
      else [])
  ++ (if decide ((pn_handler n = Codergen \/ pn_handler n = DynamicParallel) /\ pn_tools n = [])
      then [node_violation (pn_id n)
              "node must declare an explicit tool allowlist (empty = all builtins)"]
      else []).

Definition validate_under_profile (g : PipelineGraph) (p : ValidationProfile)
  : list ProfileViolation :=
  let nodes := Z.of_nat (size (pg_nodes g)) in
  let edges := Z.of_nat (length (pg_edges g)) in
  (if (vp_max_nodes p <? nodes)%Z then
     [graph_violation ("graph has " +:+ pretty nodes +:+ " nodes, exceeds max_nodes "
                       +:+ pretty (vp_max_nodes p))]
   else [])
  ++ (if (vp_max_edges p <? edges)%Z then
        [graph_violation ("graph has " +:+ pretty edges +:+ " edges, exceeds max_edges "
                          +:+ pretty (vp_max_edges p))]
      else [])
  ++ match longest_chain g with
     | Some depth =>
         if (vp_max_depth p <? depth)%Z then
           [graph_violation ("graph depth " +:+ pretty depth +:+ " exceeds max_depth "
                             +:+ pretty (vp_max_depth p))]
         else []
     | None => []
     end
  ++ (n ← hm_values (pg_nodes g); node_violations p n).
End profile.

(** ** The chain computation is right *)

(** An edge that [longest_chain] follows. *)
Definition chain_edge (g : PipelineGraph) (x y : string) : Prop :=
  exists e, e ∈ chain_edges g /\ pe_source e = x /\ pe_target e = y.

(** A declared node or the target of such an edge. *)
Definition known (g : PipelineGraph) (w : string) : Prop :=
  is_Some (pg_nodes g !! w) \/ exists x, chain_edge g x w.

(** A chain of nodes, listed from its last node backwards. *)
Inductive chain (g : PipelineGraph) : list string -> Prop :=
| chain_node n : known g n -> chain g [n]
| chain_step m n l : chain g (n :: l) -> chain_edge g n m -> chain g (m :: n :: l).

Section kahn.
Variable g : PipelineGraph.

Definition pairs : list (string * string) :=
  (fun e => (pe_source e, pe_target e)) <$> chain_edges g.

(** How many edges of [R] lead to [w]. *)
Definition into (R : list (string * string)) (w : string) : nat :=
  length (filter (fun e => e.2 = w) R).

(** The edges whose source is not in [P]. *)
Definition outside (P : list string) : list (string * string) :=
  filter (fun e => e.1 ∉ P) pairs.

Lemma elem_of_pairs x y : (x, y) ∈ pairs <-> chain_edge g x y.
Proof.
  unfold pairs, chain_edge. rewrite list_elem_of_fmap. split.
  - intros (e & [= -> ->] & He). eauto.
  - intros (e & He & <- & <-). eauto.
Qed.

Lemma into_cons x w R v : into ((x, w) :: R) v = (if decide (w = v) then 1 else 0) + into R v.
Proof. unfold into. rewrite filter_cons. cbn [snd]. by case_decide. Qed.

Lemma into_perm R R' w : R ≡ₚ R' -> into R w = into R' w.
Proof. intros Hp. unfold into. by rewrite Hp. Qed.

Lemma into_0 R w : into R w = 0 <-> forall x, (x, w) ∉ R.
Proof.
  unfold into. rewrite length_zero_iff_nil. split.
  - intros Hf x Hx. assert (Hin : (x, w) ∈ filter (fun e => e.2 = w) R)
      by (by apply list_elem_of_filter). rewrite Hf in Hin. by apply not_elem_of_nil in Hin.
  - intros Hn. destruct (filter _ R) as [|[x y] l] eqn:Hf; [done|].
    assert (Hin : (x, y) ∈ filter (fun e => e.2 = w) R) by (rewrite Hf; left).
    apply list_elem_of_filter in Hin as [<- Hin]. by apply Hn in Hin.
Qed.

Lemma into_pos R w : into R w <> 0 -> exists x, (x, w) ∈ R.
Proof.
  unfold into. destruct (filter _ R) as [|[x y] l] eqn:Hf; [done|]. intros _.
  assert (Hin : (x, y) ∈ filter (fun e => e.2 = w) R) by (rewrite Hf; left).
  apply list_elem_of_filter in Hin as [<- Hin]. eauto.
Qed.

Lemma indegrees_fold es (m : gmap string Z) w :
  foldl (fun m e => <[pe_target e := (default 0 (m !! pe_target e) + 1)%Z]> m) m es !! w =
  let k := Z.of_nat (into ((fun e => (pe_source e, pe_target e)) <$> es) w) in
  match m !! w with
  | Some d => Some (d + k)%Z
  | None => if decide (k = 0)%Z then None else Some k
  end.
Proof.
  revert m; induction es as [|e es IH]; intros m; cbn [foldl].
  - cbn. destruct (m !! w) as [d|]; [|done]. f_equal. lia.
  - rewrite IH, fmap_cons, into_cons. cbv zeta. destruct (decide (pe_target e = w)) as [<-|Hne].
    + rewrite lookup_insert_eq. destruct (m !! pe_target e) as [d|]; cbn [default from_option id].
      * f_equal. lia.
      * rewrite decide_False by lia. f_equal. lia.
    + rewrite lookup_insert_ne by done. done.
Qed.

Lemma indegrees_spec w d :
  indegrees g !! w = Some d <-> known g w /\ d = Z.of_nat (into pairs w).
Proof.
  unfold indegrees. rewrite indegrees_fold. fold pairs. cbv zeta. rewrite lookup_fmap.
  unfold known. setoid_rewrite <- elem_of_pairs.
  destruct (pg_nodes g !! w) as [n|] eqn:Hn; cbn [fmap option_fmap option_map].
  - split; [intros [= <-]; split; [by left; eexists|lia]|]. intros [_ ->]. done.
  - case_decide as Hk.
    + split; [done|]. intros [[[? ?]|[x Hx]] _]; [done|]. exfalso.
      assert (Hz : into pairs w = 0) by lia. by apply (proj1 (into_0 _ _) Hz) in Hx.
    + split; [|by intros [_ ->]]. intros [= <-]. split; [|done]. right. apply into_pos. lia.
Qed.

(** The worklist invariant: [P] has been taken from the queue, the edges [D] have been
    relaxed and the edges [R] have not. *)
Record worklist_inv (P : list string) (D R : list (string * string)) (st : chain_state) : Prop := {
  wi_split : D ++ R ≡ₚ pairs;
  wi_done : forall p w, (p, w) ∈ D ->
    p ∈ P /\ (dist_of (ch_dist st) p + 1 <= dist_of (ch_dist st) w)%Z;
  wi_indeg : forall w d, ch_indeg st !! w = Some d <-> known g w /\ d = Z.of_nat (into R w);
  wi_nodup : NoDup (P ++ ch_queue st);
  wi_queue : forall w, w ∈ P ++ ch_queue st <-> known g w /\ into R w = 0;
  wi_dist : forall w, known g w ->
    exists l, chain g (w :: l) /\ dist_of (ch_dist st) w = Z.of_nat (S (length l));
  wi_nodes : forall n, is_Some (pg_nodes g !! n) -> is_Some (ch_dist st !! n);
  wi_known : forall n, is_Some (ch_dist st !! n) -> known g n
}.

Lemma worklist_inv_init `{HashIter} : worklist_inv [] [] pairs (chain_init g).
Proof.
  assert (Hd : forall w, dist_of (ch_dist (chain_init g)) w = 1%Z).
  { intros w. unfold dist_of. cbn [ch_dist chain_init]. rewrite lookup_fmap. by destruct (pg_nodes g !! w). }
  split; cbn [ch_indeg ch_queue ch_dist chain_init app].
  - done.
  - by intros p w ?%not_elem_of_nil.
  - apply indegrees_spec.
  - apply (sublist_NoDup _ (hm_keys (indegrees g))); [apply NoDup_hm_keys|].
    unfold hm_keys. apply fmap_sublist. apply sublist_filter.
  - intros w. rewrite list_elem_of_fmap. split.
    + intros ([w' d] & -> & [Hz Hin]%list_elem_of_filter). apply elem_of_hm_iter, indegrees_spec in Hin as [Hk ->].
      cbn in Hz. split; [done|]. cbn. lia.
    + intros [Hk Hz]. exists (w, 0%Z). split; [done|]. apply list_elem_of_filter. split; [done|].
      apply elem_of_hm_iter, indegrees_spec. split; [done|]. lia.
  - intros w Hk. exists []. split; [by apply chain_node|]. apply Hd.
  - intros n Hn. rewrite lookup_fmap. by apply fmap_is_Some.
  - intros n Hn. left. rewrite lookup_fmap in Hn. by apply fmap_is_Some in Hn.
Qed.

Lemma dist_relax du st w v :
  dist_of (ch_dist (relax du st w)) v =
  if decide (v = w) then Z.max (dist_of (ch_dist st) w) (du + 1) else dist_of (ch_dist st) v.
Proof.
  assert (Hd : ch_dist (relax du st w) =
    if (dist_of (ch_dist st) w <? du + 1)%Z then <[w := (du + 1)%Z]> (ch_dist st) else ch_dist st).
  { unfold relax. by destruct (ch_indeg st !! w). }
  rewrite Hd. unfold dist_of at 1. destruct (Z.ltb_spec (dist_of (ch_dist st) w) (du + 1)); case_decide; subst.
  - rewrite lookup_insert_eq. cbn. lia.
  - by rewrite lookup_insert_ne.
  - change (dist_of (ch_dist st) w = Z.max (dist_of (ch_dist st) w) (du + 1)). lia.
  - done.
Qed.

(** Relaxing one edge of a node taken from the queue. *)
Lemma relax_inv P D R u w st :
  u ∈ P -> worklist_inv P D ((u, w) :: R) st ->
  let st' := relax (dist_of (ch_dist st) u) st w in
  worklist_inv P (D ++ [(u, w)]) R st' /\ dist_of (ch_dist st') u = dist_of (ch_dist st) u.
Proof.
  intros Hu [Hsplit Hdone Hindeg Hnd Hq Hdist Hnodes Hknown] st'.
  assert (Hedge : chain_edge g u w).
  { apply elem_of_pairs. rewrite <- Hsplit. apply elem_of_app. right. left. }
  assert (Hkw : known g w) by (right; by exists u).
  assert (Hw : w ∉ P ++ ch_queue st).
  { rewrite Hq, into_cons, decide_True by done. lia. }
  assert (Hwp : w ∉ P) by (intros ?; apply Hw, elem_of_app; by left).
  assert (Hiw : ch_indeg st !! w = Some (Z.of_nat (S (into R w)))).
  { apply Hindeg. split; [done|]. rewrite into_cons, decide_True by done. lia. }
  assert (Hi' : ch_indeg st' = <[w := Z.of_nat (into R w)]> (ch_indeg st)).
  { unfold st', relax. rewrite Hiw. cbn [ch_indeg]. f_equal. lia. }
  assert (Hq' : ch_queue st' = if decide (into R w = 0) then ch_queue st ++ [w] else ch_queue st).
  { unfold st', relax. rewrite Hiw. cbn [ch_queue]. repeat case_decide; done || lia. }
  assert (Hother : forall v, v <> w -> into ((u, w) :: R) v = into R v).
  { intros v Hv. rewrite into_cons, decide_False by done. done. }
  assert (Huw : u <> w) by congruence.
  split; [|unfold st'; by rewrite dist_relax, decide_False].
  split.
  - by rewrite <- app_assoc.
  - intros p v Hpv. unfold st'. rewrite !dist_relax.
    apply elem_of_app in Hpv as [Hpv|[= -> ->]%list_elem_of_singleton].
    + apply Hdone in Hpv as [Hp Hle]. rewrite (decide_False (P := p = w)) by congruence.
      split; [done|]. destruct (decide (v = w)) as [->|]; lia.
    + rewrite decide_False, decide_True by done. split; [done|lia].
  - intros v d. rewrite Hi'. destruct (decide (v = w)) as [->|Hv].
    + rewrite lookup_insert_eq. naive_solver.
    + rewrite lookup_insert_ne by done. by rewrite Hindeg, Hother.
  - rewrite Hq'. destruct (decide (into R w = 0)); [|done]. rewrite app_assoc. apply NoDup_app. split_and!; [done| |by apply NoDup_singleton].
    by intros x Hx ->%list_elem_of_singleton.
  - intros v. rewrite Hq'. destruct (decide (v = w)) as [->|Hv].
    + destruct (decide (into R w = 0)); [rewrite app_assoc, elem_of_app, list_elem_of_singleton; tauto|tauto].
    + assert (Hin : v ∈ P ++ (if decide (into R w = 0) then ch_queue st ++ [w] else ch_queue st)
        <-> v ∈ P ++ ch_queue st).
      { destruct (decide (into R w = 0)); [|done]. rewrite app_assoc, elem_of_app, list_elem_of_singleton. tauto. }
      by rewrite Hin, Hq, Hother.
  - intros v Hv. unfold st'. rewrite dist_relax. destruct (decide (v = w)) as [->|]; [|by apply Hdist].
    destruct (Z.max_spec (dist_of (ch_dist st) w) (dist_of (ch_dist st) u + 1)) as [[_ ->]|[_ ->]];
      [|by apply Hdist].
    destruct (Hdist u) as (l & Hl & Hlen); [apply Hq, elem_of_app; by left|].
    exists (u :: l). split; [by apply chain_step|]. cbn [length]. lia.
  - intros n Hn. apply Hnodes in Hn. unfold st', relax. destruct (ch_indeg st !! w); cbn [ch_dist];
      (destruct (_ <? _)%Z; [|done]); rewrite lookup_insert; by destruct (decide (w = n)).
  - intros n. unfold st', relax. destruct (ch_indeg st !! w); cbn [ch_dist];
      (destruct (_ <? _)%Z; [|by apply Hknown]); rewrite lookup_insert;
      (destruct (decide (w = n)) as [<-|]; [done|by apply Hknown]).
Qed.

Lemma relax_all P u ns D R st :
  u ∈ P -> worklist_inv P D ((pair u <$> ns) ++ R) st ->
  exists D', worklist_inv P D' R (foldl (relax (dist_of (ch_dist st) u)) st ns).
Proof.
  intros Hu. revert D st; induction ns as [|w ns IH]; intros D st Hi; [eauto|].
  rewrite fmap_cons, <- app_comm_cons in Hi. apply relax_inv in Hi as [Hi Hd]; [|done].
  cbn [foldl]. apply IH in Hi. by rewrite Hd in Hi.
Qed.

Lemma worklist_inv_perm P D R R' st : R ≡ₚ R' -> worklist_inv P D R st -> worklist_inv P D R' st.
Proof.
  intros Hp [Hsplit Hdone Hindeg Hnd Hq Hdist Hnodes Hknown]. split; try done.
  - by rewrite <- Hp.
  - intros w d. by rewrite Hindeg, (into_perm _ _ w Hp).
  - intros w. by rewrite Hq, (into_perm _ _ w Hp).
Qed.

(** Taking a node from the queue exposes its outgoing edges. *)
Lemma outside_pop P u :
  u ∉ P -> outside P ≡ₚ (pair u <$> targets_from u (chain_edges g)) ++ outside (P ++ [u]).
Proof.
  intros Hu. unfold outside, pairs, targets_from. induction (chain_edges g) as [|e es IH]; [done|].
  rewrite !fmap_cons, !filter_cons. cbn [fst]. destruct (decide (pe_source e = u)) as [He|Hne].
  - rewrite decide_True, (decide_False (P := _ ∉ _ ++ _)) by set_solver.
    rewrite fmap_cons, He. cbn [fmap app]. by rewrite IH.
  - destruct (decide (pe_source e ∈ P)).
    + rewrite !decide_False by set_solver. done.
    + rewrite !decide_True by set_solver. rewrite IH. by rewrite Permutation_middle.
Qed.

Definition known_list : list string := elements (dom (pg_nodes g)) ++ (pairs.*2).

Lemma worklist_length P D R st : worklist_inv P D R st -> length P + length (ch_queue st) <= chain_fuel g.
Proof.
  intros Hi. rewrite <- length_app.
  assert (Hsub : P ++ ch_queue st ⊆+ known_list).
  { apply NoDup_submseteq; [apply Hi|]. intros w [[Hw|[x Hx]] _]%(wi_queue _ _ _ _ Hi).
    - apply elem_of_app. left. by apply elem_of_elements, elem_of_dom.
    - apply elem_of_app. right. apply list_elem_of_fmap. exists (x, w). by rewrite elem_of_pairs. }
  apply submseteq_length in Hsub.
  assert (Hn : length (elements (dom (pg_nodes g))) = size (pg_nodes g)) by apply size_dom.
  assert (He : length (pairs.*2) <= length (pg_edges g)).
  { unfold pairs. rewrite !length_fmap. apply length_filter. }
  unfold known_list in Hsub. rewrite (length_app (elements _)), Hn in Hsub. unfold chain_fuel. lia.
Qed.

Lemma chain_loop_ok fuel P D st :
  worklist_inv P D (outside P) st -> chain_fuel g <= fuel + length P ->
  exists dist P' D' indeg,
    chain_loop fuel (build_adj (chain_edges g)) st = Some dist /\
    worklist_inv P' D' (outside P') {| ch_indeg := indeg; ch_dist := dist; ch_queue := [] |}.
Proof.
  revert P D st; induction fuel as [|fuel IH]; intros P D st Hi Hf;
    pose proof (worklist_length _ _ _ _ Hi) as Hlen;
    destruct st as [indeg dist [|u q]]; cbn [chain_loop ch_queue ch_dist ch_indeg length] in *;
    [by eauto 10|lia|by eauto 10|].
  assert (Hu : u ∉ P).
  { pose proof (wi_nodup _ _ _ _ Hi) as Hnd. cbn in Hnd. apply NoDup_app in Hnd as (_ & Hd & _).
    intros Hp. by apply (Hd u Hp); left. }
  apply (worklist_inv_perm _ _ _ _ _ (outside_pop P u Hu)) in Hi.
  assert (Hi' : worklist_inv (P ++ [u]) D
    ((pair u <$> targets_from u (chain_edges g)) ++ outside (P ++ [u]))
    {| ch_indeg := indeg; ch_dist := dist; ch_queue := q |}).
  { destruct Hi as [Hsplit Hdone Hindeg Hnd Hq Hdist Hnodes Hknown]. split; try done.
    - intros p w [Hp ?]%Hdone. split; [set_solver|done].
    - cbn in *. by rewrite <- app_assoc.
    - intros w. cbn in *. rewrite <- app_assoc. apply Hq. }
  apply relax_all in Hi' as [D' Hi']; [|set_solver]. rewrite adj_get_build.
  eapply IH; [done|]. rewrite length_app. cbn. lia.
Qed.

Lemma longest_chain_dist `{HashIter} : exists dist P D indeg,
  longest_chain_fuel g = Some (z_max (hm_values dist)) /\
  worklist_inv P D (outside P) {| ch_indeg := indeg; ch_dist := dist; ch_queue := [] |}.
Proof.
  assert (Hout : outside [] = pairs).
  { unfold outside. induction pairs as [|x l IH]; [done|].
    rewrite filter_cons, decide_True by apply not_elem_of_nil. by rewrite IH. }
  destruct (chain_loop_ok (chain_fuel g) [] [] (chain_init g)) as (dist & P & D & indeg & Hl & Hi).
  { rewrite Hout. apply worklist_inv_init. }
  { lia. }
  exists dist, P, D, indeg. unfold longest_chain_fuel. by rewrite Hl.
Qed.

Lemma longest_chain_total `{HashIter} : longest_chain_fuel g = Some (longest_chain g).
Proof.
  destruct longest_chain_dist as (dist & P & D & indeg & Hl & _). unfold longest_chain. by rewrite Hl.
Qed.

Hypothesis endpoints : forall e, e ∈ pg_edges g ->
  is_Some (pg_nodes g !! pe_source e) /\ is_Some (pg_nodes g !! pe_target e).
Hypothesis acyclic : forall n, ~ tc (chain_edge g) n n.

Lemma chain_edge_acc n : Acc (chain_edge g) n.
Proof.
  change (sn (flip (chain_edge g)) n).
  assert (Hflip : forall a b, tc (flip (chain_edge g)) a b -> tc (chain_edge g) b a).
  { intros a b Hab. induction Hab as [a b Hab|a b c Hab _ IH]; [by apply tc_once|]. by eapply tc_r. }
  apply (@tc_finite_sn _ (flip (chain_edge g)) n).
  - intros x Hx. by apply (acyclic x), Hflip.
  - exists (pairs.*1). intros x Hx%Hflip.
    assert (Hy : exists y, chain_edge g x y) by (inversion Hx; eauto). destruct Hy as [y Hy].
    apply list_elem_of_fmap. exists (x, y). by rewrite elem_of_pairs.
Qed.

Lemma known_declared w : known g w -> is_Some (pg_nodes g !! w).
Proof.
  intros [Hw|(x & e & [_ He]%list_elem_of_filter & _ & <-)]; [done|]. by apply endpoints.
Qed.

(** At the end every node has been taken from the queue, so every edge was relaxed. *)
Lemma all_taken P D st w : worklist_inv P D (outside P) st -> ch_queue st = [] -> known g w -> w ∈ P.
Proof.
  intros Hi Hq. induction (chain_edge_acc w) as [w _ IH]. intros Hw.
  assert (Hin : w ∈ P ++ ch_queue st).
  { apply (wi_queue _ _ _ _ Hi). split; [done|]. apply into_0. intros x [Hx He]%list_elem_of_filter.
    apply Hx. apply elem_of_pairs in He. apply IH; [done|]. left.
    destruct He as (e & [_ He]%list_elem_of_filter & <- & _). by apply endpoints. }
  by rewrite Hq, app_nil_r in Hin.
Qed.

Lemma chain_le_dist P D st w l :
  worklist_inv P D (outside P) st -> ch_queue st = [] -> chain g (w :: l) ->
  (Z.of_nat (S (length l)) <= dist_of (ch_dist st) w)%Z.
Proof.
  intros Hi Hq. revert w; induction l as [|n l IH]; intros w Hc; inversion Hc as [? Hk|? ? ? Hc' He]; subst.
  - destruct (wi_dist _ _ _ _ Hi w Hk) as (l & _ & ->). cbn [length]. lia.
  - specialize (IH n Hc').
    assert (Hn : n ∈ P).
    { apply (all_taken P D st); [done..|]. left. destruct He as (e & [_ He]%list_elem_of_filter & <- & _).
      by apply endpoints. }
    assert (Hd : (n, w) ∈ D).
    { apply elem_of_pairs in He. rewrite <- (wi_split _ _ _ _ Hi) in He.
      apply elem_of_app in He as [?|[Ho _]%list_elem_of_filter]; [done|]. by cbn in Ho. }
    apply (wi_done _ _ _ _ Hi) in Hd as [_ Hd]. cbn [length]. lia.
Qed.
End kahn.

Lemma z_max_spec l : l <> [] -> exists d, z_max l = Some d /\ d ∈ l /\ forall x, x ∈ l -> (x <= d)%Z.
Proof.
  destruct l as [|x l]; [done|]. intros _. exists (foldl Z.max x l). split; [done|].
  revert x; induction l as [|y l IH]; intros x; cbn [foldl].
  - split; [left|]. intros z ->%list_elem_of_singleton. lia.
  - destruct (IH (Z.max x y)) as [Hin Hmax]. split.
    + apply elem_of_cons in Hin as [->|?]; [|by do 2 right].
      destruct (Z.max_spec x y) as [[_ ->]|[_ ->]]; [right; left|left].
    + pose proof (Hmax (Z.max x y) ltac:(left)). intros z [->|[->|Hz]%elem_of_cons]%elem_of_cons; [lia..|].
      apply Hmax. by right.
Qed.

Lemma longest_chain_longest `{HashIter} (g : PipelineGraph) :
  (forall e, e ∈ pg_edges g ->
     is_Some (pg_nodes g !! pe_source e) /\ is_Some (pg_nodes g !! pe_target e)) ->
  (forall n, ~ tc (chain_edge g) n n) -> pg_nodes g <> ∅ ->
  exists d, longest_chain_fuel g = Some (Some d) /\ longest_chain g = Some d /\
    (exists l, chain g l /\ Z.of_nat (length l) = d) /\
    forall l, chain g l -> (Z.of_nat (length l) <= d)%Z.
Proof.
  intros Hends Hac Hne. rewrite longest_chain_total.
  destruct (longest_chain_dist g) as (dist & P & D & indeg & Hl & Hi).
  rewrite longest_chain_total in Hl. injection Hl as ->.
  assert (Hv : hm_values dist <> []).
  { apply map_choose in Hne as (n & x & Hn). destruct (wi_nodes _ _ _ _ _ Hi n) as [d Hd]; [eauto|].
    assert (Hin : d ∈ hm_values dist) by (apply elem_of_hm_values; eauto).
    intros Heq. rewrite Heq in Hin. by apply not_elem_of_nil in Hin. }
  apply z_max_spec in Hv as (d & -> & Hd & Hmax). exists d. split_and!; [done..| |].
  - apply elem_of_hm_values in Hd as [w Hw].
    destruct (wi_dist _ _ _ _ _ Hi w) as (l & Hc & Hlen); [apply (wi_known _ _ _ _ _ Hi); eauto|].
    exists (w :: l). split; [done|]. cbn in Hlen. unfold dist_of in Hlen. rewrite Hw in Hlen. done.
  - intros [|w l] Hc; [inversion Hc|]. etrans; [by apply (chain_le_dist g Hends Hac P D _ w l Hi)|].
    assert (Hk : known g w) by (inversion Hc as [|? ? ? ? He]; subst; [done|right; eauto]).
    apply known_declared in Hk as Hn; [|done]. apply (wi_nodes _ _ _ _ _ Hi) in Hn as [x Hx].
    cbn [ch_dist] in *. unfold dist_of. rewrite Hx. apply Hmax, elem_of_hm_values. eauto.
Qed.

Lemma longest_chain_empty `{HashIter} (g : PipelineGraph) :
  (forall w, ~ known g w) -> longest_chain g = None.
Proof.
  intros Hno. destruct (longest_chain_dist g) as (dist & P & D & indeg & Hl & Hi).
  unfold longest_chain. rewrite Hl. cbn [default from_option id].
  destruct (hm_values dist) as [|d l] eqn:Hv; [done|]. exfalso.
  assert (Hin : d ∈ hm_values dist) by (rewrite Hv; left).
  apply elem_of_hm_values in Hin as [w Hw]. apply (Hno w), (wi_known _ _ _ _ _ Hi). by exists d.
Qed.

Lemma chain_known g l : chain g l -> exists w, known g w.
Proof. induction 1; eauto. Qed.

(**  The depth the profile bounds is right: on a graph with declared endpoints whose
    edges other than those labelled [back_edge] form no cycle, [longest_chain] returns the
    length of a longest chain of nodes along these edges (whatever the order in which hash
    maps are walked). *)
Theorem longest_chain_correct `{HashIter} (g : PipelineGraph) :
  (forall e, e ∈ pg_edges g ->
     is_Some (pg_nodes g !! pe_source e) /\ is_Some (pg_nodes g !! pe_target e)) ->
  (forall n, ~ tc (chain_edge g) n n) -> pg_nodes g <> ∅ ->
  exists d, longest_chain_fuel g = Some (Some d) /\ longest_chain g = Some d /\
    (exists l, chain g l /\ Z.of_nat (length l) = d) /\
    forall l, chain g l -> (Z.of_nat (length l) <= d)%Z.
Proof. apply longest_chain_longest. Qed.

Lemma demo_endpoints e : e ∈ pg_edges demo_graph ->
  is_Some (pg_nodes demo_graph !! pe_source e) /\ is_Some (pg_nodes demo_graph !! pe_target e).
Proof. intros ->%list_elem_of_singleton. split; by eexists. Qed.

Lemma demo_acyclic n : ~ tc (chain_edge demo_graph) n n.
Proof.
  assert (He : forall x y, chain_edge demo_graph x y -> x = "start" /\ y = "end").
  { intros x y (e & [_ ->%list_elem_of_singleton]%list_elem_of_filter & <- & <-). done. }
  assert (Ht : forall x y, tc (chain_edge demo_graph) x y -> x = "start" /\ y = "end").
  { intros x y Hxy. induction Hxy as [x y Hxy|x y z Hxy _ [-> ->]]; [by apply He|].
    by apply He in Hxy as [-> ?]. }
  intros [-> ?]%Ht. done.
Qed.

Lemma longest_chain_correct_witness :
  exists d, @longest_chain_fuel tree_iter demo_graph = Some (Some d) /\
    @longest_chain tree_iter demo_graph = Some d /\
    (exists l, chain demo_graph l /\ Z.of_nat (length l) = d) /\
    forall l, chain demo_graph l -> (Z.of_nat (length l) <= d)%Z.
Proof.
  apply (@longest_chain_correct tree_iter demo_graph); [apply demo_endpoints|apply demo_acyclic|].
  intros Hn. assert (Hs : pg_nodes demo_graph !! "start" = None) by (by rewrite Hn). by vm_compute in Hs.
Defined.

(** ** The check is right *)

(** What the profile documents of a node, and of a graph. *)
Record node_within (p : ValidationProfile) (n : PipelineNode) : Prop := {
  nw_handler : pn_handler n ∈ vp_allowed_handlers p;
  nw_shell : vp_ban_shell p = true ->
    pn_handler n <> Shell /\ forall t, t ∈ pn_tools n -> t ∉ SHELL_TOOLS;
  nw_tools : pn_handler n = Codergen \/ pn_handler n = DynamicParallel -> pn_tools n <> []
}.

Record within_profile (g : PipelineGraph) (p : ValidationProfile) : Prop := {
  wp_nodes : (Z.of_nat (size (pg_nodes g)) <= vp_max_nodes p)%Z;
  wp_edges : (Z.of_nat (length (pg_edges g)) <= vp_max_edges p)%Z;
  wp_depth : forall l, chain g l -> (Z.of_nat (length l) <= vp_max_depth p)%Z;
  wp_node : forall id n, pg_nodes g !! id = Some n -> node_within p n
}.

Lemma app_nil_iff {A} (l k : list A) : l ++ k = [] <-> l = [] /\ k = [].
Proof. destruct l; naive_solver. Qed.

Lemma if_nil (b : bool) (v : ProfileViolation) : (if b then [v] else []) = [] <-> b = false.
Proof. by destruct b. Qed.

Lemma node_violations_nil p n : node_violations p n = [] <-> node_within p n.
Proof.
  unfold node_violations. rewrite !app_nil_iff. split.
  - intros (H1 & H2 & H3). destruct (decide (pn_handler n ∈ _)) in H1; [|done].
    destruct (decide (_ /\ _)) as [|Ht] in H3; [done|].
    split; [done| |naive_solver]. intros Hb. rewrite Hb, app_nil_iff in H2. destruct H2 as [H2 H4].
    destruct (decide (pn_handler n = Shell)) in H2; [done|]. split; [done|]. intros t Ht' Hs.
    destruct (find _ _) eqn:Hf in H4; [done|]. eapply find_none in Hf; [|by apply list_elem_of_In].
    by rewrite bool_decide_eq_true_2 in Hf.
  - intros [Hh Hs Ht]. rewrite decide_True by done. split; [done|].
    rewrite (decide_False (P := _ /\ _)) by naive_solver. split; [|done].
    destruct (vp_ban_shell p); [|done]. destruct Hs as [Hs Hn]; [done|]. rewrite decide_False by done.
    destruct (find _ _) as [t|] eqn:Hf; [|done]. apply find_some in Hf as [Hin Hb].
    apply list_elem_of_In in Hin. bool_to_prop. by apply Hn in Hin.
Qed.

Lemma bind_nil {A B} (f : A -> list B) (l : list A) : l ≫= f = [] <-> forall x, x ∈ l -> f x = [].
Proof.
  induction l as [|x l IH]; [split; [by intros _ ? ?%not_elem_of_nil|done]|].
  change ((x :: l) ≫= f) with (f x ++ (l ≫= f)). rewrite app_nil_iff, IH. set_solver.
Qed.

Lemma validate_under_profile_iff `{HashIter} (g : PipelineGraph) (p : ValidationProfile) :
  (forall e, e ∈ pg_edges g ->
     is_Some (pg_nodes g !! pe_source e) /\ is_Some (pg_nodes g !! pe_target e)) ->
  (forall n, ~ tc (chain_edge g) n n) ->
  validate_under_profile g p = [] <-> within_profile g p.
Proof.
  intros Hends Hac. unfold validate_under_profile. cbv zeta.
  rewrite !app_nil_iff, !if_nil, bind_nil, !Z.ltb_ge.
  assert (Hnodes : (forall n, n ∈ hm_values (pg_nodes g) -> node_violations p n = []) <->
    forall id n, pg_nodes g !! id = Some n -> node_within p n).
  { setoid_rewrite elem_of_hm_values. setoid_rewrite node_violations_nil. naive_solver. }
  assert (Hdepth : match longest_chain g with
      | Some depth => if (vp_max_depth p <? depth)%Z then
          [graph_violation ("graph depth " +:+ pretty depth +:+ " exceeds max_depth "
             +:+ pretty (vp_max_depth p))] else []
      | None => [] end = [] <-> forall l, chain g l -> (Z.of_nat (length l) <= vp_max_depth p)%Z).
  { destruct (decide (pg_nodes g = ∅)) as [He|Hne].
    - assert (Hno : forall w, ~ known g w).
      { intros w Hw%known_declared; [|done]. rewrite He, lookup_empty in Hw. by destruct Hw. }
      rewrite (longest_chain_empty g Hno). split; [|done]. intros _ l Hl. exfalso.
      destruct (chain_known g l Hl) as (w & Hw). by apply (Hno w).
    - destruct (longest_chain_longest g Hends Hac Hne) as (d & _ & -> & (l & Hl & <-) & Hmax).
      rewrite if_nil, Z.ltb_ge. split; [|naive_solver]. intros Hle l' Hl'. etrans; [by apply Hmax|done]. }
  rewrite Hdepth, Hnodes. split; [intros (? & ? & ? & ?); by split|by intros []].
Qed.

(**  The profile check is exact: on a graph with declared endpoints whose forward edges
    form no cycle, [validate_under_profile] reports no violation if and only if the graph
    has at most [max_nodes] nodes, [max_edges] edges and [max_depth] nodes on any chain,
    and every node has a permitted handler, no shell (when banned) and, if it runs an
    agent, an explicit tool list. *)
Theorem validate_under_profile_exact `{HashIter} (g : PipelineGraph) (p : ValidationProfile) :
  (forall e, e ∈ pg_edges g ->
     is_Some (pg_nodes g !! pe_source e) /\ is_Some (pg_nodes g !! pe_target e)) ->
  (forall n, ~ tc (chain_edge g) n n) ->
  validate_under_profile g p = [] <-> within_profile g p.
Proof. apply validate_under_profile_iff. Qed.

Lemma validate_under_profile_exact_witness :
  @validate_under_profile tree_iter demo_graph l2_default = [] <-> within_profile demo_graph l2_default.
Proof.
  apply (@validate_under_profile_exact tree_iter demo_graph l2_default);
    [apply demo_endpoints|apply demo_acyclic].
Defined.

(** ** Compiled programs *)

Lemma contract_within_l2 kind :
  pc_handler (contract_for kind) ∈ vp_allowed_handlers l2_default /\
  pc_handler (contract_for kind) <> Shell /\
  (pc_handler (contract_for kind) = Codergen \/ pc_handler (contract_for kind) = DynamicParallel ->
   pc_allowed_tools (contract_for kind) <> []).
Proof. destruct kind; cbn; (split_and!; [set_solver|done|naive_solver]). Qed.

(** The palette stays within the profile: for every program that compiles, each
    violation [validate_under_profile] reports under the L2 profile is about the size or
    the depth of the graph; no node of a compiled graph violates it. *)
Theorem compiled_nodes_within_l2 `{HashIter} (ir : PipelineIr) (g : PipelineGraph) (v : ProfileViolation) :
  compile ir = Ok g -> v ∈ validate_under_profile g l2_default -> pv_node v = None.
Proof.
  intros Hc Hv. pose proof (compile_spec ir) as Hs. rewrite Hc in Hs.
  destruct Hs as (_ & _ & _ & Hn).
  assert (Hnodes : (n ← hm_values (pg_nodes g); node_violations l2_default n) = []).
  { apply bind_nil. intros n [id Hid]%elem_of_hm_values. apply Hn in Hid as (i & _ & _ & ->).
    apply node_violations_nil. destruct (contract_within_l2 (in_kind i)) as (H1 & H2 & H3).
    split; [done| |done]. intros _. split; [done|]. intros t Ht%contract_tools Hsh.
    apply palette_tools_safe in Ht as [Hg _]. unfold tool_entry_grants_shell in Hg.
    assert (Hall : forallb (fun s => String.eqb (trim s) s) SHELL_TOOLS = true) by by vm_compute.
    rewrite forallb_forall in Hall. apply list_elem_of_In in Hsh as Hin.
    apply Hall, String.eqb_eq in Hin. rewrite Hin in Hg. by rewrite bool_decide_eq_true_2 in Hg. }
  unfold validate_under_profile in Hv. cbv zeta in Hv. rewrite Hnodes, app_nil_r in Hv.
  repeat (apply elem_of_app in Hv as [Hv|Hv]); repeat case_match;
    try (by apply not_elem_of_nil in Hv); by apply list_elem_of_singleton in Hv as ->.
Qed.

(** A chain of [n] nodes. *)
Definition long_ir (n : nat) : PipelineIr := {|
  ir_id := "p"; ir_label := None;
  ir_nodes := (fun i => {| in_id := pretty i; in_kind := Transform "go" |}) <$> seq 0 n;
  ir_edges := (fun i => {| ie_source := pretty i; ie_target := pretty (S i); ie_condition := None;
                           ie_back_edge := false |}) <$> seq 0 (n - 1) |}.

Definition long_graph (n : nat) : PipelineGraph :=
  match compile (long_ir n) with Ok g => g | Err _ => demo_graph end.

Definition long_violation : ProfileViolation :=
  graph_violation "graph depth 25 exceeds max_depth 20".

Lemma compiled_nodes_within_l2_witness : pv_node long_violation = None.
Proof.
  apply (@compiled_nodes_within_l2 tree_iter (long_ir 25) (long_graph 25)); [by vm_compute|].
  replace (@validate_under_profile tree_iter (long_graph 25) l2_default) with [long_violation]
    by by vm_compute.
  left.
Defined.
