(* ===== verification/Compose.v ===== *)
(** * Composition of typed programs

    Model of [crates/octos-pipeline/src/compose.rs]: a program written by a language model
    is read, compiled, checked for cycles, validated and held against an autonomy profile;
    every failure becomes feedback for a repair.  The JSON reader is a parameter. *)

From S2P Require Import Prelude RustStr RustNum Fidelity Graph Condition ToolPolicy Validate Ir.
From S2P Require Import Profile.

Inductive ComposeError :=
| Parse_error (msg : string)
| Compile_error (msg : string)
| Cycle_error (msg : string)
| Structural_error (errs : list string)
| Profile_error (violations : list ProfileViolation).

Definition violation_line (v : ProfileViolation) : string :=
  match pv_node v with
  | Some n => "node '" +:+ n +:+ "': " +:+ pv_message v
  | None => "graph: " +:+ pv_message v
  end.

Definition feedback_lines (e : ComposeError) : list string :=
  match e with
  | Parse_error m => ["parse error: " +:+ m]
  | Compile_error m => ["compile error: " +:+ m]
  | Cycle_error m =>
      ["cycle: " +:+ m +:+ ". If this is an intentional retry/guard loop, set "
       +:+ quoted "back_edge"
       +:+ ": true on the looping edge; otherwise remove the cycle."]
  | Structural_error errs => (fun e => "structural: " +:+ e) <$> errs
  | Profile_error vs => violation_line <$> vs
  end.

(** [Display]. *)
Definition ComposeError_fmt (e : ComposeError) : string := String.concat "; " (feedback_lines e).

Section compose.
Context `{HashIter} `{RustFmt}.

(** The search of [Graph] without the edges labelled [back_edge]. *)
Definition detect_cycle_ir (g : PipelineGraph) : option (result string unit) :=
  detect_cycles_by (fun st node => negb (bool_decide (node ∈ black st))) g (build_adj (chain_edges g)).

Definition compose_context (g : PipelineGraph) (variables : list string) : ValidationContext :=
  let known_models := omap pn_model (hm_values (pg_nodes g)) in
  let known_tools := n ← hm_values (pg_nodes g); pn_tools n in
  with_known_tools
    (with_known_models (with_runtime_variables ValidationContext_default variables) known_models)
    known_tools.

Definition structural_errors (diags : list LintDiagnostic) : list string :=
  (fun d => RuleId_code (ld_rule_id d) +:+ ": " +:+ ld_message d)
    <$> filter (fun d => ld_severity d = Error_sev) diags.

(** [from_str] is [serde_json::from_str] with its error rendered. *)
Definition compose (from_str : string -> result string PipelineIr) (ir_json : string)
    (p : ValidationProfile) (variables : list string) : result ComposeError PipelineGraph :=
  match from_str ir_json with
  | Err e => Err (Parse_error e)
  | Ok ir =>
      match compile ir with
      | Err e => Err (Compile_error (report_display e))
      | Ok g =>
          match detect_cycle_ir g with
          | Some (Err cycle) => Err (Cycle_error cycle)
          | _ =>
              let diags := diagnostics_with_context g (compose_context g variables) in
              if has_errors diags then Err (Structural_error (structural_errors diags))
              else
                let violations := validate_under_profile g p in
                if decide (violations = []) then Ok g else Err (Profile_error violations)
          end
      end
  end.

Definition compose_l2 (from_str : string -> result string PipelineIr) (ir_json : string)
  : result ComposeError PipelineGraph :=
  compose from_str ir_json l2_default [].

(** ** The cycle gate *)

Lemma arc_chain_edge g x y : arc (build_adj (chain_edges g)) x y <-> chain_edge g x y.
Proof. unfold arc, chain_edge. by rewrite adj_get_build, elem_of_targets_from. Qed.

Lemma detect_cycle_ir_spec g :
  (forall e, e ∈ pg_edges g -> is_Some (pg_nodes g !! pe_source e)) ->
  exists r, detect_cycle_ir g = Some r /\ (r = Ok tt <-> forall n, ~ tc (chain_edge g) n n).
Proof.
  intros Hsrc. set (adj := build_adj (chain_edges g)).
  assert (Htc : forall x y, tc (chain_edge g) x y <-> tc (arc adj) x y).
  { intros x y. split; apply tc_congruence with (f := id); intros ??; by apply arc_chain_edge. }
  assert (Hspec : match detect_cycle_ir g with
    | None => False
    | Some (Ok _) => forall n, n ∈ dom (pg_nodes g) -> arc_acc adj n
    | Some (Err e) => exists c, is_cycle adj c /\ e = cycle_message c
    end).
  { apply (detect_cycles_by_spec g adj) with (cover := fun _ _ => True); [| |done|done].
    - intros x y (e & [_ He]%list_elem_of_filter & _ & <-)%arc_chain_edge. eauto.
    - intros st n _ Hn. apply negb_false_iff in Hn. by bool_to_prop. }
  destruct (detect_cycle_ir g) as [[[]|msg]|]; [| |done].
  - exists (Ok tt). split; [done|]. split; [|done]. intros _ n Hc.
    apply (arc_acc_no_cycle adj n); [|by apply Htc]. apply Hspec, elem_of_dom.
    inversion Hc as [?? He|??? He]; subst;
      destruct He as (e & [_ He]%list_elem_of_filter & <- & _); eauto.
  - exists (Err msg). split; [done|]. split; [done|]. intros Hno. exfalso.
    destruct Hspec as (c & Hc & _). apply is_cycle_tc in Hc as [n Hn]. by apply (Hno n), Htc.
Qed.

Lemma compile_endpoints ir g : compile ir = Ok g -> forall e, e ∈ pg_edges g ->
  is_Some (pg_nodes g !! pe_source e) /\ is_Some (pg_nodes g !! pe_target e).
Proof.
  intros Hc. pose proof (compile_spec ir) as Hs. rewrite Hc in Hs.
  destruct Hs as ([_ Hcl] & _ & -> & Hn). intros e' (e & -> & [Hsrc Ht]%Hcl)%list_elem_of_fmap.
  split; [apply list_elem_of_fmap in Hsrc as (i & Hi & Hin)|apply list_elem_of_fmap in Ht as (i & Hi & Hin)];
    exists (compile_node i); apply Hn; cbn; eauto.
Qed.

Lemma has_errors_structural diags : has_errors diags = true -> structural_errors diags <> [].
Proof.
  unfold has_errors, structural_errors. intros (d & Hd & Hs)%existsb_exists Hnil.
  apply fmap_nil_inv in Hnil. apply list_elem_of_In in Hd. bool_to_prop.
  assert (Hin : d ∈ filter (fun d => ld_severity d = Error_sev) diags) by (by apply list_elem_of_filter).
  rewrite Hnil in Hin. by apply not_elem_of_nil in Hin.
Qed.
End compose.

(**  [compose] is exact: it returns a graph if and only if the text is a program that
    compiles to that graph, the edges not declared as back edges form no cycle, the graph
    is valid in the context of its own models and tools, and it is within the profile
    (size, chain length, handlers, tools).  The cycle gate is what makes the depth bound
    of the profile meaningful. *)
Theorem compose_exact `{HashIter} `{RustFmt} (from_str : string -> result string PipelineIr)
    (ir_json : string) (p : ValidationProfile) (variables : list string) (g : PipelineGraph) :
  compose from_str ir_json p variables = Ok g <->
  exists ir, from_str ir_json = Ok ir /\ compile ir = Ok g /\
    (forall n, ~ tc (chain_edge g) n n) /\
    valid_graph g (compose_context g variables) /\ within_profile g p.
Proof.
  unfold compose. destruct (from_str ir_json) as [ir|e]; [|split; [done|by intros (? & ? & _)]].
  destruct (compile ir) as [g0|e] eqn:Hc; [|split; [done|intros (? & [= <-] & Hg & _); congruence]].
  assert (Hends := compile_endpoints ir g0 Hc).
  destruct (detect_cycle_ir_spec g0) as (r & -> & Hr); [by intros e [? _]%Hends|].
  assert (Hvc : has_errors (diagnostics_with_context g0 (compose_context g0 variables)) = false <->
    valid_graph g0 (compose_context g0 variables)).
  { rewrite <- validate_with_context_spec. unfold validate_with_context. cbv zeta.
    by destruct (has_errors (diagnostics_with_context _ _)). }
  cbv zeta.
  destruct r as [[]|cycle].
  - pose proof (proj1 Hr eq_refl) as Hac. pose proof (validate_under_profile_iff g0 p Hends Hac) as Hp.
    split.
    + destruct (has_errors _) eqn:He; [done|]. case_decide; [|done]. intros [= ->].
      exists ir. split_and!; [done..|by apply Hvc|by apply Hp].
    + intros (ir' & [= <-] & Hg & _ & Hv & Hw). rewrite Hc in Hg. injection Hg as ->.
      apply Hvc in Hv. rewrite Hv, decide_True by (by apply Hp). done.
  - split; [done|]. intros (ir' & [= <-] & Hg & Hac & _). rewrite Hc in Hg. injection Hg as ->.
    by apply Hr in Hac.
Qed.

(** Every rejection carries feedback: an error of [compose] renders to at least one
    line for the repair loop, whatever gate refused the program. *)
Theorem compose_feedback `{HashIter} `{RustFmt} (from_str : string -> result string PipelineIr)
    (ir_json : string) (p : ValidationProfile) (variables : list string) (e : ComposeError) :
  compose from_str ir_json p variables = Err e -> feedback_lines e <> [].
Proof.
  unfold compose. destruct (from_str ir_json) as [ir|m]; [|by intros [= <-]].
  destruct (compile ir) as [g|m]; [|by intros [= <-]].
  assert (Hrest : (if has_errors (diagnostics_with_context g (compose_context g variables))
      then Err (Structural_error (structural_errors (diagnostics_with_context g (compose_context g variables))))
      else if decide (validate_under_profile g p = []) then Ok g
      else Err (Profile_error (validate_under_profile g p))) = Err e -> feedback_lines e <> []).
  { destruct (has_errors _) eqn:He.
    - intros [= <-]. cbn. intros ?%fmap_nil_inv. by eapply has_errors_structural.
    - case_decide as Hv; [done|]. intros [= <-]. cbn. by intros ?%fmap_nil_inv. }
  destruct (detect_cycle_ir g) as [[[]|cycle]|]; [done| |done]. by intros [= <-].
Qed.

(** Readers that know one program. *)
Definition demo_reader (ir : PipelineIr) (s : string) : result string PipelineIr :=
  if decide (s = "program") then Ok ir else Err "unknown program".

Lemma compose_feedback_witness : feedback_lines (Profile_error [long_violation]) <> [].
Proof.
  apply (@compose_feedback tree_iter no_fmt (demo_reader (long_ir 25)) "program" l2_default []).
  by vm_compute.
Defined.

(** The demonstration program composes. *)
Example compose_demo : @compose tree_iter no_fmt (demo_reader demo_ir) "program" l2_default [] = Ok demo_ir_graph.
Proof. by vm_compute. Qed.
