(* ===== verification/Host.v ===== *)
(** * The host of a pipeline run

    The executor calls node handlers, the clock, the task supervisor, the cost
    accountant and the validators.  [Host] is the record of these operations over an
    arbitrary world [W]; every operation of the executor is a computation [io W A]
    that threads the world and ends in a value, an [eyre] error or a panic.  Progress
    reporting (status lines, the heartbeat, metrics, logs) has no effect on results
    and is left out. *)

From S2P Require Import Prelude RustStr RustNum Fidelity Graph.
From Stdlib Require Import SpecFloat.

(** ** Computations *)

Inductive flow (A : Type) : Type :=
| Val (a : A)
| Bail (e : report)
| Panic.
Arguments Val {A} _.
Arguments Bail {A} _.
Arguments Panic {A}.

#[export] Instance flow_ret : MRet flow := fun A a => Val a.
#[export] Instance flow_bind : MBind flow :=
  fun A B f m => match m with Val a => f a | Bail e => Bail e | Panic => Panic end.

(** A [Result] followed by [?]; an [Option] that is unwrapped. *)
Definition of_result {A} (r : result report A) : flow A :=
  match r with Ok a => Val a | Err e => Bail e end.
Definition of_option {A} (o : option A) : flow A :=
  match o with Some a => Val a | None => Panic end.

Definition io (W A : Type) : Type := W -> flow A * W.

#[export] Instance io_ret {W} : MRet (io W) := fun A a w => (Val a, w).
#[export] Instance io_bind {W} : MBind (io W) :=
  fun A B f m w =>
    match m w with
    | (Val a, w) => f a w
    | (Bail e, w) => (Bail e, w)
    | (Panic, w) => (Panic, w)
    end.

(** Pure code inside a computation. *)
Definition lift_flow {W A} (f : flow A) : io W A := fun w => (f, w).
Definition try {W A} (r : result report A) : io W A := lift_flow (of_result r).

Definition throw {W A} (msg : string) : io W A := fun w => (Bail [msg], w).

(** An operation of the host that cannot fail. *)
Definition lift_pure {W A} (f : W -> A * W) : io W A := fun w => let (a, w) := f w in (Val a, w).
Definition effect {W} (f : W -> W) : io W unit := fun w => (Val tt, f w).

(** A host operation that returns a [Result], kept as a value. *)
Definition call {W A} (f : W -> result report A * W) : io W A :=
  fun w => let (r, w) := f w in (of_result r, w).

(** A value dropped when the computation fails or panics: [cleanup] is its [Drop].  *)
Definition dropping {W A} (cleanup : W -> W) (m : io W A) : io W A :=
  fun w => match m w with
           | (Val a, w) => (Val a, w)
           | (Bail e, w) => (Bail e, cleanup w)
           | (Panic, w) => (Panic, cleanup w)
           end.

(** ** Durations

    [std::time::Duration] in nanoseconds.  [from_secs_f64] panics on a value that is
    negative, not a number, or at least [2^64] seconds, and rounds to the nearest
    nanosecond. *)

Definition Duration := Z.

Definition from_secs (n : Z) : Duration := (n * 10 ^ 9)%Z.

Definition round_half_even (num den : Z) : Z :=
  let q := (num / den)%Z in
  let r := (num mod den)%Z in
  if (2 * r <? den)%Z then q
  else if (den <? 2 * r)%Z then (q + 1)%Z
  else if Z.even q then q else (q + 1)%Z.

Definition from_secs_f64 (x : f64) : option Duration :=
  match x with
  | S754_zero _ => Some 0%Z
  | S754_finite false m e =>
      if f64_lt x (f64_of_Z (2 ^ 64)) then
        Some (if (0 <=? e)%Z then Zpos m * 2 ^ e * 10 ^ 9
              else round_half_even (Zpos m * 10 ^ 9) (2 ^ (- e)))%Z
      else None
  | _ => None
  end.

Definition as_secs (d : Duration) : Z := (d / 10 ^ 9)%Z.

(** ** The host *)

Record HandlerContext := {
  hc_input : string;
  hc_completed : gmap string NodeOutcome;
  hc_predecessor_outcomes : list NodeOutcome
}.

(** [Handler::execute]. *)
Definition Handler (W : Type) : Type :=
  PipelineNode -> HandlerContext -> W -> result report NodeOutcome * W.

Record Host (W : Type) := {
  (** [HandlerRegistry::get]. *)
  h_handler : HandlerKind -> option (Handler W);
  (** [tokio::time::timeout] around an attempt: [None] on expiry. *)
  h_timeout : Duration -> io W NodeOutcome -> W -> option (flow NodeOutcome) * W;
  (** [tokio::time::sleep], in milliseconds. *)
  h_sleep : Z -> W -> W;
  (** The clock, in milliseconds. *)
  h_clock : W -> Z;
  (** The [OnSpawnFailure] hook of an escalation (no effect when none is set). *)
  h_escalate : PipelineNode -> W -> W;
  (** [register_node_task]: no supervisor, a task id, or a refusal. *)
  h_register : string -> W -> result string (option string) * W;
  h_mark_running : string -> W -> W;
  h_mark_completed : string -> list string -> W -> W;
  h_mark_failed : string -> string -> W -> W;
  (** [reserve_node_budget]: the reserved amount, if any. *)
  h_reserve : string -> PipelineNode -> W -> result report (option f64) * W;
  (** Dropping the reservation handle. *)
  h_release : option f64 -> W -> W;
  (** [run_node_validators]. *)
  h_validate : string -> W -> result string unit * W;
  (** [project_cost_usd(model, tokens_in, tokens_out)]. *)
  h_project_cost : string -> Z -> Z -> option f64;
  (** The shutdown flag. *)
  h_shutdown : W -> bool;
  (** [serde_json::to_string] of an object with a node id and an input text. *)
  h_json_input : string -> string -> string
}.
Arguments h_handler {W} _ _.
Arguments h_timeout {W} _ _ _ _.
Arguments h_sleep {W} _ _ _.
Arguments h_clock {W} _ _.
Arguments h_escalate {W} _ _ _.
Arguments h_register {W} _ _ _.
Arguments h_mark_running {W} _ _ _.
Arguments h_mark_completed {W} _ _ _ _.
Arguments h_mark_failed {W} _ _ _ _.
Arguments h_reserve {W} _ _ _ _.
Arguments h_release {W} _ _ _.
Arguments h_validate {W} _ _ _.
Arguments h_project_cost {W} _ _ _ _.
Arguments h_shutdown {W} _ _.
Arguments h_json_input {W} _ _ _.

(** What the executor relies on of [tokio::time::timeout]: when it does not expire,
    the attempt ran to its end. *)
Class TimeoutLaw {W} (h : Host W) : Prop := {
  timeout_completes : forall d m w r w',
    h_timeout h d m w = (Some r, w') -> m w = (r, w')
}.

(** ** Lemmas *)

Section io_lemmas.
Context {W A B : Type}.

Lemma io_bind_Val (m : io W A) (f : A -> io W B) w b w' :
  (m ≫= f) w = (Val b, w') <-> exists a w1, m w = (Val a, w1) /\ f a w1 = (Val b, w').
Proof.
  unfold mbind, io_bind. destruct (m w) as [[a|e|] w1]; split.
  - intros Hf. by exists a, w1.
  - by intros (a' & w2 & [= <- <-] & Hf).
  - done.
  - by intros (? & ? & [=] & _).
  - done.
  - by intros (? & ? & [=] & _).
Qed.

(** A computation that cannot panic. *)
Definition no_panic (m : io W A) : Prop := forall w, (m w).1 <> Panic.
End io_lemmas.

Section no_panic_lemmas.
Context {W : Type}.

Lemma no_panic_bind {A B} (m : io W A) (f : A -> io W B) :
  no_panic m -> (forall a, no_panic (f a)) -> no_panic (m ≫= f).
Proof.
  intros Hm Hf w. unfold mbind, io_bind. specialize (Hm w).
  destruct (m w) as [[a|e|] w1]; [apply Hf|done|done].
Qed.

Lemma no_panic_ret {A} (a : A) : no_panic (mret a : io W A).
Proof. by intros w. Qed.

Lemma no_panic_try {A} (r : result report A) : no_panic (try r : io W A).
Proof. intros w. by destruct r. Qed.

Lemma no_panic_throw {A} msg : no_panic (throw msg : io W A).
Proof. by intros w. Qed.

Lemma no_panic_effect (f : W -> W) : no_panic (effect f).
Proof. by intros w. Qed.

Lemma no_panic_lift {A} (f : W -> A * W) : no_panic (lift_pure f).
Proof. intros w. unfold lift_pure. by destruct (f w). Qed.

Lemma no_panic_call {A} (f : W -> result report A * W) : no_panic (call f).
Proof. intros w. unfold call. destruct (f w) as [[a|e] w']; done. Qed.

Lemma no_panic_lift_flow {A} (f : flow A) : f <> Panic -> no_panic (lift_flow f : io W A).
Proof. by intros Hf w. Qed.
End no_panic_lemmas.

Lemma no_panic_dropping {W A} (c : W -> W) (m : io W A) : no_panic m -> no_panic (dropping c m).
Proof. intros Hm w. specialize (Hm w). unfold dropping. by destruct (m w) as [[] w']. Qed.

#[export] Hint Resolve no_panic_dropping no_panic_bind no_panic_ret no_panic_try no_panic_throw no_panic_effect
  no_panic_lift no_panic_call no_panic_lift_flow : octos.
