(* ===== verification/Dispatch.v ===== *)
(** * Running one node

    Model of the per-node machinery of [crates/octos-pipeline/src/executor.rs]
    (retries, deadlines, fan-out workers, edge selection of the single-path walk, the
    token budget) and of [crates/octos-pipeline/src/recovery.rs] (the single recovery
    attempt after a failure).  Handlers, timeouts and hooks are operations of the
    [Host]; theorems hold for every host. *)

From S2P Require Import Prelude RustStr RustNum Fidelity Graph Condition Parser ToolPolicy.
From S2P Require Import Validate Host.
From Stdlib Require Import SpecFloat.

(** ** Recovery of a failed node *)

Record RetryableSignal := {
  rs_node_id : string;
  rs_error_message : string;
  rs_suggested_alternatives : list string;
  (** The serialised input, [None] for a JSON null. *)
  rs_original_input : option string
}.

Inductive RecoveryDecision :=
| RecoveryPass
| Retryable (signal : RetryableSignal)
| Terminal.

Record RecoveryOutcome := { ro_outcome : NodeOutcome; ro_retried : bool }.

(** The [for line in content.lines()] loop, stopping at three alternatives. *)
Fixpoint alternatives_go (ls : list string) (out : list string) : list string :=
  match ls with
  | [] => out
  | line :: ls =>
      let trimmed := trim line in
      if decide (trimmed = "") then alternatives_go ls out
      else
        let out :=
          if starts_with "- " trimmed || starts_with "Try " trimmed
             || starts_with "Use " trimmed || starts_with "Alternative:" trimmed then
            let cleaned :=
              trim (trim_start_matches "Alternative:" (trim_start_matches "- " trimmed)) in
            if decide (cleaned = "") then out else out ++ [cleaned]
          else out in
        if decide (3 <= length out) then out else alternatives_go ls out
  end.

Definition extract_suggested_alternatives (content : string) : list string :=
  alternatives_go (lines content) [].

Definition from_outcome (n : PipelineNode) (o : NodeOutcome) (input : option string)
  : RetryableSignal :=
  {| rs_node_id := pn_id n; rs_error_message := no_content o;
     rs_suggested_alternatives := extract_suggested_alternatives (no_content o);
     rs_original_input := input |}.

Definition classify_outcome (n : PipelineNode) (o : NodeOutcome) (input : option string)
  : RecoveryDecision :=
  match pn_handler n with
  | Codergen | DynamicParallel =>
      match no_status o with
      | Pass => RecoveryPass
      | Skipped => Terminal
      | Fail | Error => Retryable (from_outcome n o input)
      end
  | _ => match no_status o with
         | Pass => RecoveryPass
         | _ => Terminal
         end
  end.

Definition nl (s : string) : string := String NL s.

Definition build_recovery_prompt (s : RetryableSignal) : string :=
  let alternatives_block :=
    match rs_suggested_alternatives s with
    | [] => ""
    | alts => nl "Detected alternatives:" +:+
              nl (String.concat (nl "") ((fun alt => "- " +:+ alt) <$> alts)) +:+ nl ""
    end in
  let input_block :=
    match rs_original_input s with
    | None => ""
    | Some input => nl "Original input: " +:+ input
    end in
  "[system-internal] Pipeline node `" +:+ rs_node_id s +:+ "` failed on the first attempt."
  +:+ nl "Error: " +:+ rs_error_message s +:+ input_block +:+ alternatives_block
  +:+ nl ("Re-engage this node with a recovery plan: try the safest alternative, simplify "
          +:+ "the request, or surface a clear blocker. Do not just repeat the same approach.").

(** A copy of a node with another prompt. *)
Definition set_prompt (n : PipelineNode) (p : option string) : PipelineNode := {|
  pn_id := pn_id n; pn_handler := pn_handler n; pn_prompt := p; pn_label := pn_label n;
  pn_model := pn_model n; pn_context_window := pn_context_window n;
  pn_max_output_tokens := pn_max_output_tokens n;
  pn_reasoning_effort := pn_reasoning_effort n; pn_max_iterations := pn_max_iterations n;
  pn_tools := pn_tools n; pn_goal_gate := pn_goal_gate n; pn_max_retries := pn_max_retries n;
  pn_timeout_secs := pn_timeout_secs n; pn_suggested_next := pn_suggested_next n;
  pn_converge := pn_converge n; pn_worker_prompt := pn_worker_prompt n;
  pn_planner_model := pn_planner_model n; pn_max_tasks := pn_max_tasks n;
  pn_human_gate := pn_human_gate n; pn_resolver := pn_resolver n;
  pn_artifact_refs := pn_artifact_refs n; pn_checkpoint_refs := pn_checkpoint_refs n;
  pn_deadline_secs := pn_deadline_secs n; pn_deadline_action := pn_deadline_action n;
  pn_continue_on_error := pn_continue_on_error n; pn_checkpoints := pn_checkpoints n |}.

Definition recovery_prompt (n : PipelineNode) (s : RetryableSignal) : string :=
  match pn_prompt n with
  | Some existing => existing +:+ nl (nl (build_recovery_prompt s))
  | None => build_recovery_prompt s
  end.

Section recovery.
Context {W : Type} (h : Host W).

Definition recover_node (handler : Handler W) (n : PipelineNode) (ctx : HandlerContext)
    (s : RetryableSignal) : io W RecoveryOutcome :=
  fun w =>
    if h_shutdown h w then
      (Val {| ro_outcome :=
                {| no_node_id := pn_id n; no_status := Error;
                   no_content := "Recovery skipped for node '" +:+ pn_id n +:+
                     "': pipeline shutdown signal raised before retry.";
                   no_token_usage := TokenUsage_default; no_files_modified := [] |};
              ro_retried := false |}, w)
    else
      (outcome ← call (handler (set_prompt n (Some (recovery_prompt n s))) ctx);
       mret {| ro_outcome := outcome; ro_retried := true |}) w.
End recovery.

(** ** Retries and deadlines *)

Definition u64_wrap (n : Z) : Z := n mod 2 ^ 64.

Inductive DispatchOutcome :=
| Completed (o : NodeOutcome)
| DSkipped (label : string).

Section dispatch.
Context {W : Type} (h : Host W) `{RustFmt}.

(** [for attempt in 0..=max_retries]: [iters] rounds are left; falling out of the loop
    is [unreachable!()].  The pause doubles with each attempt. *)
Fixpoint retry_loop (handler : Handler W) (n : PipelineNode) (ctx : HandlerContext)
    (max_retries : Z) (iters : nat) (attempt : Z) : io W NodeOutcome :=
  match iters with
  | O => lift_flow Panic
  | S iters =>
      outcome ← call (handler n ctx);
      if negb (bool_decide (no_status outcome = Error)) || (max_retries <=? attempt)%Z
      then mret outcome
      else
        _ ← effect (h_sleep h (u64_wrap (1000 * 2 ^ attempt)));
        retry_loop handler n ctx max_retries iters (attempt + 1)
  end.

Definition execute_with_retries (handler : Handler W) (n : PipelineNode) (ctx : HandlerContext)
    (max_retries : Z) : io W NodeOutcome :=
  retry_loop handler n ctx max_retries (Z.to_nat (max_retries + 1)) 0.

Definition node_label (n : PipelineNode) : string := default (pn_id n) (pn_label n).

Definition deadline_attempts (action : DeadlineAction) : Z :=
  match action with
  | Retry_action max_attempts => Z.max max_attempts 1
  | _ => 1
  end.

(** [for attempt in 0..max_attempts] of [dispatch_node]. *)
Fixpoint deadline_loop (handler : Handler W) (n : PipelineNode) (ctx : HandlerContext)
    (max_retries : Z) (secs : f64) (deadline : Duration) (action : DeadlineAction)
    (iters : nat) (attempt : Z) (last_err : option report) : io W DispatchOutcome :=
  match iters with
  | O => fun w => (Bail (default ["node '" +:+ pn_id n +:+ "' failed all retry attempts"] last_err), w)
  | S iters => fun w =>
      match h_timeout h deadline (execute_with_retries handler n ctx max_retries) w with
      | (Some (Val outcome), w) => (Val (Completed outcome), w)
      | (Some (Bail e), w) =>
          if (deadline_attempts action <=? attempt + 1)%Z then (Bail e, w)
          else deadline_loop handler n ctx max_retries secs deadline action iters (attempt + 1)
                 (Some e) w
      | (Some Panic, w) => (Panic, w)
      | (None, w) =>
          match action with
          | Abort_action =>
              (Bail ["node '" +:+ pn_id n +:+ "' exceeded deadline of " +:+ f64_display secs
                     +:+ "s (action=abort)"], w)
          | Skip_action => (Val (DSkipped (node_label n)), w)
          | Retry_action _ =>
              if (deadline_attempts action <=? attempt + 1)%Z then
                (Bail ["node '" +:+ pn_id n +:+ "' exceeded deadline on all "
                       +:+ pretty (deadline_attempts action) +:+ " retry attempt(s)"], w)
              else deadline_loop handler n ctx max_retries secs deadline action iters
                     (attempt + 1) last_err w
          | Escalate_action =>
              (Bail ["node '" +:+ pn_id n +:+ "' exceeded deadline of " +:+ f64_display secs
                     +:+ "s (action=escalate)"], h_escalate h n w)
          end
      end
  end.

Definition dispatch_node (handler : Handler W) (n : PipelineNode) (ctx : HandlerContext)
    (max_retries : Z) : io W DispatchOutcome :=
  match pn_deadline_secs n with
  | None =>
      outcome ← execute_with_retries handler n ctx max_retries;
      mret (Completed outcome)
  | Some secs =>
      deadline ← lift_flow (of_option (from_secs_f64 secs));
      let action := default Abort_action (pn_deadline_action n) in
      deadline_loop handler n ctx max_retries secs deadline action
        (Z.to_nat (deadline_attempts action)) 0 None
  end.

(** ** Fan-out workers *)

Definition MAX_FANOUT_WORKER_SECS : Z := 3600.

Definition fanout_worker_deadline (n : PipelineNode) : option Duration :=
  let by_timeout :=
    match pn_timeout_secs n with
    | Some secs => if (0 <? secs)%Z then Some (from_secs (Z.min secs MAX_FANOUT_WORKER_SECS))
                   else Some (from_secs MAX_FANOUT_WORKER_SECS)
    | None => Some (from_secs MAX_FANOUT_WORKER_SECS)
    end in
  match pn_deadline_secs n with
  | Some secs =>
      if f64_is_finite secs && f64_lt f64_zero secs
      then from_secs_f64 (f64_min secs (f64_of_Z MAX_FANOUT_WORKER_SECS))
      else by_timeout
  | None => by_timeout
  end.

Definition skipped_outcome (n : PipelineNode) : NodeOutcome :=
  {| no_node_id := pn_id n; no_status := Skipped;
     no_content := "Node '" +:+ pn_id n +:+ "' skipped (deadline exceeded)";
     no_token_usage := TokenUsage_default; no_files_modified := [] |}.

Definition worker_message (n : PipelineNode) (deadline : Duration) (tail : string) : string :=
  "fan-out worker '" +:+ pn_id n +:+ "' exceeded deadline of " +:+ pretty (as_secs deadline)
  +:+ "s" +:+ tail.

Fixpoint worker_loop (handler : Handler W) (n : PipelineNode) (ctx : HandlerContext)
    (max_retries : Z) (deadline : Duration) (action : DeadlineAction)
    (iters : nat) (attempt : Z) (last_err : option report) : io W NodeOutcome :=
  match iters with
  | O => fun w =>
      (Bail (default ["fan-out worker '" +:+ pn_id n +:+ "' failed all retry attempts"] last_err), w)
  | S iters => fun w =>
      match h_timeout h deadline (execute_with_retries handler n ctx max_retries) w with
      | (Some r, w) => (r, w)
      | (None, w) =>
          match action with
          | Abort_action => (Bail [worker_message n deadline " (action=abort)"], w)
          | Skip_action => (Val (skipped_outcome n), w)
          | Retry_action _ =>
              if (deadline_attempts action <=? attempt + 1)%Z then
                (Bail ["fan-out worker '" +:+ pn_id n +:+ "' exceeded deadline on all "
                       +:+ pretty (deadline_attempts action) +:+ " retry attempt(s)"], w)
              else worker_loop handler n ctx max_retries deadline action iters (attempt + 1)
                     (Some [worker_message n deadline ""]) w
          | Escalate_action =>
              (Bail [worker_message n deadline " (action=escalate)"], h_escalate h n w)
          end
      end
  end.

Definition run_fanout_worker (handler : Handler W) (n : PipelineNode) (ctx : HandlerContext)
    (max_retries : Z) : io W NodeOutcome :=
  deadline ← lift_flow (of_option (fanout_worker_deadline n));
  let action := default Abort_action (pn_deadline_action n) in
  worker_loop handler n ctx max_retries deadline action (Z.to_nat (deadline_attempts action)) 0 None.
End dispatch.

(** ** Edge selection of the single-path walk *)

(** [None] is the panic of [unwrap] on an empty list of ties. *)
Definition pick_by_weight (edges : list PipelineEdge) : option string :=
  let max_weight := foldl f64_max f64_neg_infinity (pe_weight <$> edges) in
  let ties := filter (fun e =>
    f64_lt (f64_abs (f64_sub (pe_weight e) max_weight)) f64_epsilon = true) edges in
  str_min (pe_target <$> ties).

Section select.
Context `{RustFmt}.

(** Step 1: the conditional edges whose condition holds, in order. *)
Fixpoint condition_matches (edges : list PipelineEdge) (o : NodeOutcome)
  : result report (list PipelineEdge) :=
  match edges with
  | [] => Ok []
  | e :: es =>
      match pe_condition e with
      | Some cond =>
          expr ← parse_condition cond;
          rest ← condition_matches es o;
          mret (if evaluate expr o then e :: rest else rest)
      | None => condition_matches es o
      end
  end.

Definition label_match (edges : list PipelineEdge) (o : NodeOutcome) : option PipelineEdge :=
  find (fun e => is_some_and (pe_label e) (fun label => contains (no_content o) label)) edges.

(** Steps 4 to 6: a label found in the content, the heaviest unconditional edge, the
    first edge by target. *)
Definition select_unconditional (outgoing : list PipelineEdge) (o : NodeOutcome)
  : flow (option string) :=
  match label_match outgoing o with
  | Some e => mret (Some (pe_target e))
  | None =>
      let unconditional := filter (fun e => pe_condition e = None) outgoing in
      if negb (bool_decide (unconditional = [])) then
        t ← of_option (pick_by_weight unconditional); mret (Some t)
      else
        t ← of_option (str_min (pe_target <$> outgoing)); mret (Some t)
  end.

Definition select_next_edge (g : PipelineGraph) (current : string) (o : NodeOutcome)
  : flow (option string) :=
  let outgoing := filter (fun e => pe_source e = current) (pg_edges g) in
  if decide (outgoing = []) then mret None
  else
    condition_matches ← of_result (condition_matches outgoing o);
    if negb (bool_decide (condition_matches = [])) then
      t ← of_option (pick_by_weight condition_matches); mret (Some t)
    else
      node ← of_option (pg_nodes g !! current);
      match pn_suggested_next node with
      | Some next =>
          if existsb (fun e => bool_decide (pe_target e = next)) outgoing
          then mret (Some next) else select_unconditional outgoing o
      | None => select_unconditional outgoing o
      end.
End select.

(** ** The token budget *)

Definition total_pipeline_tokens (u : TokenUsage) : Z :=
  u32_saturating_add (input_tokens u) (output_tokens u).

Definition remaining_pipeline_tokens (max_total_tokens : option Z) (u : TokenUsage) : option Z :=
  max_total ← max_total_tokens;
  Some (u32_saturating_sub max_total (total_pipeline_tokens u)).

Definition set_max_output_tokens (n : PipelineNode) (v : option Z) : PipelineNode := {|
  pn_id := pn_id n; pn_handler := pn_handler n; pn_prompt := pn_prompt n; pn_label := pn_label n;
  pn_model := pn_model n; pn_context_window := pn_context_window n;
  pn_max_output_tokens := v;
  pn_reasoning_effort := pn_reasoning_effort n; pn_max_iterations := pn_max_iterations n;
  pn_tools := pn_tools n; pn_goal_gate := pn_goal_gate n; pn_max_retries := pn_max_retries n;
  pn_timeout_secs := pn_timeout_secs n; pn_suggested_next := pn_suggested_next n;
  pn_converge := pn_converge n; pn_worker_prompt := pn_worker_prompt n;
  pn_planner_model := pn_planner_model n; pn_max_tasks := pn_max_tasks n;
  pn_human_gate := pn_human_gate n; pn_resolver := pn_resolver n;
  pn_artifact_refs := pn_artifact_refs n; pn_checkpoint_refs := pn_checkpoint_refs n;
  pn_deadline_secs := pn_deadline_secs n; pn_deadline_action := pn_deadline_action n;
  pn_continue_on_error := pn_continue_on_error n; pn_checkpoints := pn_checkpoints n |}.

(** [u32::try_from(peer_count.max(1)).unwrap_or(u32::MAX).max(1)] is the divisor. *)
Definition cap_node_output_tokens_for_remaining_budget (n : PipelineNode) (remaining_tokens : Z)
    (peer_count : Z) : PipelineNode :=
  if negb (bool_decide (pn_handler n = Codergen)) || (remaining_tokens =? 0)%Z then n
  else
    let divisor := Z.max (Z.min (Z.max peer_count 1) u32_max) 1 in
    let per_node_cap := Z.max (remaining_tokens / divisor) 1 in
    set_max_output_tokens n (Some
      match pn_max_output_tokens n with
      | None => per_node_cap
      | Some existing => Z.max (Z.min existing per_node_cap) 1
      end).

(** ** Merging the results of fan-out workers *)

Record WorkerResults := {
  wr_merged_content : string;
  wr_any_error : bool;
  wr_any_pass : bool;
  wr_summaries : list NodeSummary;
  wr_tokens : TokenUsage;
  wr_outcomes : list (string * NodeOutcome)
}.

Record WorkerResult := {
  w_task_id : string;
  w_node : PipelineNode;
  w_elapsed_ms : Z;
  w_result : result report NodeOutcome
}.

(** [+=] on the two counters (wrapping, as in a release build). *)
Definition add_tokens (total used : TokenUsage) : TokenUsage :=
  {| input_tokens := u32_add (input_tokens total) (input_tokens used);
     output_tokens := u32_add (output_tokens total) (output_tokens used);
     reasoning_tokens := reasoning_tokens total;
     cache_read_tokens := cache_read_tokens total;
     cache_write_tokens := cache_write_tokens total |}.

Definition worker_outcome (r : WorkerResult) : NodeOutcome :=
  match w_result r with
  | Ok o => o
  | Err e =>
      {| no_node_id := w_task_id r; no_status := Error;
         no_content := "Error: " +:+ report_display e;
         no_token_usage := TokenUsage_default; no_files_modified := [] |}
  end.

Definition worker_label (r : WorkerResult) : string := default (w_task_id r) (pn_label (w_node r)).

(** One round of the loop over the results; [parts] are the merged parts. *)
Definition merge_worker (acc : WorkerResults * list string) (r : WorkerResult)
  : WorkerResults * list string :=
  let (wr, parts) := acc in
  let o := worker_outcome r in
  ({| wr_merged_content := wr_merged_content wr;
      wr_any_error := wr_any_error wr || bool_decide (no_status o = Error);
      wr_any_pass := wr_any_pass wr || bool_decide (no_status o = Pass);
      wr_summaries := wr_summaries wr ++
        [{| ns_node_id := w_task_id r; ns_label := worker_label r; ns_model := pn_model (w_node r);
            ns_token_usage := no_token_usage o; ns_duration_ms := w_elapsed_ms r;
            ns_success := bool_decide (no_status o = Pass) |}];
      wr_tokens := match w_result r with
                   | Ok o => add_tokens (wr_tokens wr) (no_token_usage o)
                   | Err _ => wr_tokens wr
                   end;
      wr_outcomes := wr_outcomes wr ++ [(w_task_id r, o)] |},
   parts ++ ["## " +:+ worker_label r +:+ nl (nl (no_content o))]).

Definition SEPARATOR : string := nl (nl "---") +:+ nl (nl "").

(** [resolve] inlines the search result files the text refers to
    ([resolve_search_result_files], which reads the disk). *)
Definition process_worker_results (resolve : string -> string) (results : list WorkerResult)
  : WorkerResults :=
  let '(wr, parts) := foldl merge_worker
    ({| wr_merged_content := ""; wr_any_error := false; wr_any_pass := false; wr_summaries := [];
        wr_tokens := TokenUsage_default; wr_outcomes := [] |}, []) results in
  {| wr_merged_content := resolve (String.concat SEPARATOR parts);
     wr_any_error := wr_any_error wr; wr_any_pass := wr_any_pass wr;
     wr_summaries := wr_summaries wr; wr_tokens := wr_tokens wr; wr_outcomes := wr_outcomes wr |}.

(** ** Lists of files

    [Vec<PathBuf>] with [sort] and [dedup]: Unix paths compare by their components
    (root, then [.], then [..], then names), repeated separators and inner [.] being
    ignored.  [sort] is stable and [dedup] keeps the first of equal neighbours. *)

Definition path_component (first : bool) (s : string) : option (nat * string) :=
  if decide (s = "") then None
  else if decide (s = ".") then (if first then Some (1, "") else None)
  else if decide (s = "..") then Some (2, "")
  else Some (3, s).

Definition path_components (p : string) : list (nat * string) :=
  match split_on "/" p with
  | [] => []
  | x :: rest =>
      (if starts_with "/" p then [(0, "")] else option_list (path_component true x))
      ++ omap (path_component false) rest
  end.

Definition component_leb (a b : nat * string) : bool :=
  bool_decide (a.1 < b.1) || bool_decide (a.1 = b.1) && String.leb a.2 b.2.

Fixpoint components_leb (a b : list (nat * string)) : bool :=
  match a, b with
  | [], _ => true
  | _ :: _, [] => false
  | x :: a, y :: b => if decide (x = y) then components_leb a b else component_leb x y
  end.

Definition path_leb (p q : string) : bool := components_leb (path_components p) (path_components q).

Fixpoint insert_path (p : string) (l : list string) : list string :=
  match l with
  | [] => [p]
  | q :: l' => if path_leb p q then p :: l else q :: insert_path p l'
  end.

Definition sort_paths (l : list string) : list string := foldr insert_path [] l.

Fixpoint dedup_paths (l : list string) : list string :=
  match l with
  | [] => []
  | p :: l' =>
      match dedup_paths l' with
      | q :: l'' => if decide (path_components p = path_components q) then p :: l'' else p :: q :: l''
      | [] => [p]
      end
  end.

Definition collect_completed_files `{HashIter} (completed : gmap string NodeOutcome) : list string :=
  dedup_paths (sort_paths (o ← hm_values completed; no_files_modified o)).

(** ** Retries *)

Section retry_spec.
Context {W : Type} (h : Host W) (handler : Handler W) (n : PipelineNode) (ctx : HandlerContext).

(** [error_run a w b w']: attempts [a, ..., b-1] all returned an [Error] outcome, each
    followed by its pause, and lead from world [w] to world [w']. *)
Inductive error_run : Z -> W -> Z -> W -> Prop :=
| error_run_nil a w : error_run a w a w
| error_run_cons a w o w1 b w2 :
    handler n ctx w = (Ok o, w1) -> no_status o = Error ->
    error_run (a + 1) (h_sleep h (u64_wrap (1000 * 2 ^ a)) w1) b w2 ->
    error_run a w b w2.

(** The attempt that ends the loop, after [k] failed ones. *)
Definition last_attempt (max_retries k : Z) (w : W) (r : flow NodeOutcome) (w' : W) : Prop :=
  match handler n ctx w with
  | (Err e, w2) => r = Bail e /\ w' = w2
  | (Ok o, w2) => r = Val o /\ w' = w2 /\ (no_status o <> Error \/ k = max_retries)
  end.

Lemma retry_loop_spec max_retries iters attempt w r w' :
  Z.of_nat iters = (max_retries + 1 - attempt)%Z -> (0 <= attempt <= max_retries)%Z ->
  retry_loop h handler n ctx max_retries iters attempt w = (r, w') ->
  exists k w1, (attempt <= k <= max_retries)%Z /\ error_run attempt w k w1 /\
    last_attempt max_retries k w1 r w'.
Proof.
  revert attempt w; induction iters as [|iters IH]; intros attempt w Hi Ha Hr; [lia|].
  cbn [retry_loop] in Hr. unfold mbind, io_bind, call in Hr.
  destruct (handler n ctx w) as [[o|e] w1] eqn:Hh; cbn [of_result] in Hr.
  - destruct (negb _ || _) eqn:Hstop.
    + exists attempt, w. injection Hr as <- <-. split; [lia|]. split; [constructor|].
      unfold last_attempt. rewrite Hh. split_and!; [done..|].
      apply orb_true_iff in Hstop as [Hs|Hs]; [left; by bool_to_prop|right; lia].
    + apply orb_false_iff in Hstop as [Hs Hm]. bool_to_prop. cbn in Hr.
      apply IH in Hr as (k & w2 & Hk & Herr & Hlast); [|lia|lia].
      exists k, w2. split; [lia|]. split; [|done]. by eapply error_run_cons.
  - exists attempt, w. injection Hr as <- <-. split; [lia|]. split; [constructor|].
    unfold last_attempt. by rewrite Hh.
Qed.

Lemma execute_with_retries_run max_retries w r w' :
  (0 <= max_retries)%Z ->
  execute_with_retries h handler n ctx max_retries w = (r, w') ->
  exists k w1, (0 <= k <= max_retries)%Z /\ error_run 0 w k w1 /\ last_attempt max_retries k w1 r w'.
Proof. intros Hm. apply retry_loop_spec; lia. Qed.

Lemma execute_with_retries_no_panic max_retries :
  (0 <= max_retries)%Z -> no_panic (execute_with_retries h handler n ctx max_retries).
Proof.
  intros Hm w. destruct (execute_with_retries h handler n ctx max_retries w) as [r w'] eqn:Hr.
  apply execute_with_retries_run in Hr as (k & w1 & _ & _ & Hl); [|done].
  unfold last_attempt in Hl. cbn. destruct (handler n ctx w1) as [[o|e] w2]; naive_solver.
Qed.
End retry_spec.

(** [execute_with_retries] calls the handler at most [max_retries + 1] times:
    there is a [k <= max_retries] such that the first [k] calls returned an [Error]
    outcome (each followed by its pause) and the result is that of the next call, which
    is an [eyre] error, a non-[Error] outcome, or the last permitted attempt.  In
    particular the [unreachable!()] after the loop is unreachable. *)
Theorem execute_with_retries_spec {W : Type} (h : Host W) (handler : Handler W)
    (n : PipelineNode) (ctx : HandlerContext) (max_retries : Z) (w : W) (r : flow NodeOutcome) (w' : W) :
  (0 <= max_retries <= u32_max)%Z ->
  execute_with_retries h handler n ctx max_retries w = (r, w') ->
  r <> Panic /\
  exists k w1, (0 <= k <= max_retries)%Z /\ error_run h handler n ctx 0 w k w1 /\
    last_attempt handler n ctx max_retries k w1 r w'.
Proof.
  intros [Hm _] Hr. split; [|by apply (execute_with_retries_run h)].
  intros ->. apply (execute_with_retries_no_panic h handler n ctx max_retries Hm w). by rewrite Hr.
Qed.

(** A host whose world counts the calls so far; the handler fails twice, then passes. *)
Definition demo_outcome (id : string) (s : OutcomeStatus) : NodeOutcome :=
  {| no_node_id := id; no_status := s; no_content := "text of " +:+ id;
     no_token_usage := TokenUsage_default; no_files_modified := [] |}.

Definition demo_handler (fails : nat) : Handler nat :=
  fun n _ w => (Ok (demo_outcome (pn_id n) (if decide (w < fails) then Error else Pass)), S w).

Definition demo_host (fails : nat) : Host nat := {|
  h_handler := fun _ => Some (demo_handler fails);
  h_timeout := fun _ m w => let (r, w) := m w in (Some r, w);
  h_sleep := fun _ w => w;
  h_clock := fun w => Z.of_nat w;
  h_escalate := fun _ w => w;
  h_register := fun _ w => (Ok None, w);
  h_mark_running := fun _ w => w;
  h_mark_completed := fun _ _ w => w;
  h_mark_failed := fun _ _ w => w;
  h_reserve := fun _ _ w => (Ok None, w);
  h_release := fun _ w => w;
  h_validate := fun _ w => (Ok tt, w);
  h_project_cost := fun _ _ _ => None;
  h_shutdown := fun _ => false;
  h_json_input := fun _ input => quoted input |}.

Definition demo_ctx : HandlerContext :=
  {| hc_input := "in"; hc_completed := ∅; hc_predecessor_outcomes := [] |}.

Lemma execute_with_retries_spec_witness :
  Val (demo_outcome "a" Pass) <> Panic /\
  exists k w1, (0 <= k <= 5)%Z /\
    error_run (demo_host 2) (demo_handler 2) (PipelineNode_default "a") demo_ctx 0 0 k w1 /\
    last_attempt (demo_handler 2) (PipelineNode_default "a") demo_ctx 5 k w1
      (Val (demo_outcome "a" Pass)) 3.
Proof.
  apply (execute_with_retries_spec (demo_host 2) (demo_handler 2) (PipelineNode_default "a") demo_ctx 5
           0 (Val (demo_outcome "a" Pass)) 3); [by vm_compute|]. by vm_compute.
Defined.

(** ** Deadlines *)

#[export] Instance demo_timeout_law fails : TimeoutLaw (demo_host fails).
Proof. split. intros d m w r w'. cbn. destruct (m w). naive_solver. Qed.

Section deadline_spec.
Context {W : Type} (h : Host W) `{RustFmt} {TL : TimeoutLaw h}.
Variables (handler : Handler W) (n : PipelineNode) (ctx : HandlerContext) (max_retries : Z).
Hypothesis retries_ok : (0 <= max_retries)%Z.

Definition dispatch_result_ok (action : DeadlineAction) (r : flow DispatchOutcome) : Prop :=
  match r with
  | Val (Completed o) => exists w1 w2, execute_with_retries h handler n ctx max_retries w1 = (Val o, w2)
  | Val (DSkipped l) => action = Skip_action /\ l = node_label n
  | Bail _ => True
  | Panic => False
  end.

Lemma deadline_loop_ok secs deadline action iters attempt last_err w :
  dispatch_result_ok action
    (deadline_loop h handler n ctx max_retries secs deadline action iters attempt last_err w).1.
Proof.
  revert attempt last_err w; induction iters as [|iters IH]; intros attempt last_err w;
    cbn [deadline_loop]; [done|].
  destruct (h_timeout h deadline _ w) as [[r|] w1] eqn:Ht.
  - apply timeout_completes in Ht. destruct r as [o|e|]; cbn.
    + eauto.
    + case_match; [done|apply IH].
    + by eapply (execute_with_retries_no_panic h handler n ctx max_retries retries_ok w); rewrite Ht.
  - destruct action; try done. case_match; [done|apply IH].
Qed.
End deadline_spec.

Lemma dispatch_node_ok {W : Type} (h : Host W) `{RustFmt} `{TimeoutLaw W h} (handler : Handler W)
    (n : PipelineNode) (ctx : HandlerContext) (max_retries : Z) (w : W) (r : flow DispatchOutcome) (w' : W) :
  (0 <= max_retries)%Z ->
  dispatch_node h handler n ctx max_retries w = (r, w') ->
  match r with
  | Val (Completed o) => exists w1 w2, execute_with_retries h handler n ctx max_retries w1 = (Val o, w2)
  | Val (DSkipped l) =>
      is_Some (pn_deadline_secs n) /\ pn_deadline_action n = Some Skip_action /\ l = node_label n
  | Bail _ => True
  | Panic => exists secs, pn_deadline_secs n = Some secs /\ from_secs_f64 secs = None
  end.
Proof.
  intros Hm. unfold dispatch_node. destruct (pn_deadline_secs n) as [secs|] eqn:Hs.
  - unfold mbind, io_bind, lift_flow. destruct (from_secs_f64 secs) as [d|] eqn:Hd; cbn [of_option].
    + intros Hr. pose proof (deadline_loop_ok h handler n ctx max_retries Hm secs d
        (default Abort_action (pn_deadline_action n))
        (Z.to_nat (deadline_attempts (default Abort_action (pn_deadline_action n)))) 0 None w) as Hok.
      rewrite Hr in Hok. cbn [fst] in Hok. destruct r as [[o|l]|e|]; [done| |done|done].
      destruct Hok as [Ha ->]. split_and!; [eauto| |done].
      destruct (pn_deadline_action n); cbn in Ha; by subst.
    + intros [= <- <-]. eauto.
  - unfold mbind, io_bind, mret, io_ret.
    destruct (execute_with_retries h handler n ctx max_retries w) as [[o|e|] w1] eqn:He;
      intros [= <- <-]; [eauto|done|]. exfalso.
    by eapply (execute_with_retries_no_panic h handler n ctx max_retries Hm w); rewrite He.
Qed.

(**  What [dispatch_node] can return, when an unexpired timeout means the attempt
    ran to its end: a completed outcome is the result of one whole
    [execute_with_retries] run; a skip happens only on a node with a deadline whose
    action is [skip], and carries the node's label; and the only panic is a deadline
    that does not fit a [Duration]. *)
Theorem dispatch_node_spec {W : Type} (h : Host W) `{RustFmt} `{TimeoutLaw W h} (handler : Handler W)
    (n : PipelineNode) (ctx : HandlerContext) (max_retries : Z) (w : W) (r : flow DispatchOutcome) (w' : W) :
  (0 <= max_retries <= u32_max)%Z ->
  dispatch_node h handler n ctx max_retries w = (r, w') ->
  match r with
  | Val (Completed o) => exists w1 w2, execute_with_retries h handler n ctx max_retries w1 = (Val o, w2)
  | Val (DSkipped l) =>
      is_Some (pn_deadline_secs n) /\ pn_deadline_action n = Some Skip_action /\ l = node_label n
  | Bail _ => True
  | Panic => exists secs, pn_deadline_secs n = Some secs /\ from_secs_f64 secs = None
  end.
Proof. intros [Hm _]. by apply dispatch_node_ok. Qed.

Lemma dispatch_node_spec_witness :
  exists w1 w2, execute_with_retries (demo_host 2) (demo_handler 2) (PipelineNode_default "a") demo_ctx 5 w1
                = (Val (demo_outcome "a" Pass), w2).
Proof.
  apply (@dispatch_node_spec nat (demo_host 2) no_fmt _ (demo_handler 2) (PipelineNode_default "a")
           demo_ctx 5 0 (Val (Completed (demo_outcome "a" Pass))) 3); by vm_compute.
Defined.


(** A node whose deadline was written as [1e30] seconds, as the DOT parser builds it. *)
Definition huge_deadline_node : PipelineNode := build_node "slow" {["deadline_secs" := "1e30"]}.

(** A deadline can crash the executor: the parser accepts [deadline_secs=1e30] (any
    finite value), but [Duration::from_secs_f64] has no such duration, so dispatching
    the node panics on every host instead of returning an error. *)
Theorem huge_deadline_panics {W : Type} (h : Host W) `{RustFmt} (handler : Handler W)
    (ctx : HandlerContext) (w : W) :
  is_Some (pn_deadline_secs huge_deadline_node) /\
  dispatch_node h handler huge_deadline_node ctx (pn_max_retries huge_deadline_node) w = (Panic, w).
Proof.
  assert (Hs : bool_decide (pn_deadline_secs huge_deadline_node ≫= from_secs_f64 = None)
               && bool_decide (is_Some (pn_deadline_secs huge_deadline_node)) = true) by by vm_compute.
  apply andb_true_iff in Hs as [Hd%bool_decide_eq_true Hs%bool_decide_eq_true]. split; [done|].
  destruct Hs as [secs Hs]. unfold dispatch_node. rewrite Hs in *. cbn in Hd.
  unfold mbind, io_bind, lift_flow. by rewrite Hd.
Qed.

(** ** Fan-out deadlines *)

Lemma round_half_even_bounds num den k :
  (0 < den -> 0 <= num <= k * den -> 0 <= round_half_even num den <= k)%Z.
Proof.
  intros Hd [H0 Hk]. unfold round_half_even.
  pose proof (Z.div_pos num den H0 Hd) as Hq. pose proof (Z.mod_pos_bound num den Hd) as Hr.
  pose proof (Z.div_mod num den ltac:(lia)) as Hdm.
  assert (Hle : (num / den <= k)%Z) by (apply Z.div_le_upper_bound; lia).
  assert (Hup : (num / den + 1 <= k \/ num mod den = 0)%Z).
  { destruct (Z.eq_dec (num / den) k) as [He|]; [right; nia|left; lia]. }
  destruct (2 * (num mod den) <? den)%Z eqn:H1; [lia|]. apply Z.ltb_ge in H1.
  destruct (den <? _)%Z; [lia|]. destruct (Z.even _); lia.
Qed.

Definition ceiling_secs : f64 := f64_of_Z MAX_FANOUT_WORKER_SECS.

Lemma pos_not_lt (k m : positive) :
  match (k ?= m)%positive with Lt => true | _ => false end = false -> (m <= k)%positive.
Proof. destruct (Pos.compare_spec k m); [subst|done|]; lia. Qed.

(** A positive float that does not exceed 3600 and has a 53-bit mantissa. *)
Lemma from_secs_f64_ceiling m e :
  (Zpos m < 2 ^ 53)%Z -> f64_lt ceiling_secs (S754_finite false m e) = false ->
  exists d, from_secs_f64 (S754_finite false m e) = Some d /\ (0 <= d <= from_secs 3600)%Z.
Proof.
  intros Hm. unfold f64_lt, SFltb.
  replace ceiling_secs with (S754_finite false 7916483719987200 (-41)) by by vm_compute.
  cbn [SFcompare]. destruct (Z.compare_spec (-41) e) as [<-|He|He]; [|done|].
  - change (Pos.compare_cont Eq 7916483719987200 m) with (7916483719987200 ?= m)%positive.
    intros Hle%pos_not_lt. exists (round_half_even (Zpos m * 10 ^ 9) (2 ^ 41)). split; [done|].
    apply (round_half_even_bounds _ _ (from_secs 3600)); [done|].
    apply Pos2Z.pos_le_pos in Hle. clear Hm. split; [lia|].
    change (from_secs 3600 * 2 ^ 41)%Z with (7916483719987200 * 10 ^ 9)%Z.
    by apply Z.mul_le_mono_nonneg_r.
  - intros _. unfold from_secs_f64, f64_lt, SFltb.
    replace (f64_of_Z (2 ^ 64)) with (S754_finite false 4503599627370496 12) by by vm_compute.
    cbn [SFcompare]. rewrite (proj2 (Z.compare_lt_iff e 12)) by lia.
    eexists. split; [reflexivity|]. destruct (0 <=? e)%Z eqn:Hz; [apply Z.leb_le in Hz; lia|].
    apply round_half_even_bounds; [apply Z.pow_pos_nonneg; lia|].
    assert (Hp : (2 ^ 42 <= 2 ^ (- e))%Z) by (apply Z.pow_le_mono_r; lia).
    unfold from_secs. split; [lia|]. nia.
Qed.

Lemma fanout_worker_deadline_ok (n : PipelineNode) :
  (forall s m e, pn_deadline_secs n = Some (S754_finite s m e) -> (Zpos m < 2 ^ 53)%Z) ->
  exists d, fanout_worker_deadline n = Some d /\ (0 <= d <= from_secs MAX_FANOUT_WORKER_SECS)%Z.
Proof.
  intros Hv. unfold fanout_worker_deadline.
  assert (Hto : exists d, match pn_timeout_secs n with
    | Some secs => if (0 <? secs)%Z then Some (from_secs (Z.min secs MAX_FANOUT_WORKER_SECS))
                   else Some (from_secs MAX_FANOUT_WORKER_SECS)
    | None => Some (from_secs MAX_FANOUT_WORKER_SECS) end = Some d /\
    (0 <= d <= from_secs MAX_FANOUT_WORKER_SECS)%Z).
  { unfold from_secs, MAX_FANOUT_WORKER_SECS. destruct (pn_timeout_secs n) as [secs|].
    - destruct (0 <? secs)%Z eqn:H0; eexists; (split; [reflexivity|]); lia.
    - eexists; split; [reflexivity|]; lia. }
  destruct (pn_deadline_secs n) as [secs|]; [|done].
  destruct (f64_is_finite secs && f64_lt f64_zero secs) eqn:Hf; [|done]. bool_to_prop.
  destruct secs as [[]|[]| |[] m e]; try done. unfold f64_min. cbn [f64_is_nan].
  fold ceiling_secs. replace (f64_is_nan ceiling_secs) with false by by vm_compute.
  destruct (f64_lt ceiling_secs (S754_finite false m e)) eqn:Hlt.
  - exists (from_secs 3600). by vm_compute.
  - apply from_secs_f64_ceiling; [by eapply Hv|done].
Qed.

(** A fan-out worker always has a deadline, of at most one hour: for every node whose
    [deadline_secs], when present, is a float with a 53-bit mantissa,
    [fanout_worker_deadline] does not panic and
    returns a duration between zero and [MAX_FANOUT_WORKER_SECS]. *)
Theorem fanout_worker_deadline_bounded (n : PipelineNode) :
  (forall s m e, pn_deadline_secs n = Some (S754_finite s m e) -> (Zpos m < 2 ^ 53)%Z) ->
  exists d, fanout_worker_deadline n = Some d /\ (0 <= d <= from_secs MAX_FANOUT_WORKER_SECS)%Z.
Proof. apply fanout_worker_deadline_ok. Qed.

Lemma fanout_worker_deadline_bounded_witness :
  exists d, fanout_worker_deadline huge_deadline_node = Some d /\
            (0 <= d <= from_secs MAX_FANOUT_WORKER_SECS)%Z.
Proof.
  apply (fanout_worker_deadline_bounded huge_deadline_node).
  intros s m e Hs. vm_compute in Hs. simplify_eq. lia.
Defined.

(** ** Edge selection *)

Lemma fold_max_cases ws acc :
  foldl f64_max acc ws = acc \/ foldl f64_max acc ws ∈ ws.
Proof.
  revert acc; induction ws as [|w ws IH]; intros acc; cbn [foldl]; [by left|].
  destruct (IH (f64_max acc w)) as [->|Hin]; [|right; by right].
  destruct (f64_max_cases acc w) as [->| ->]; [by left|right; left].
Qed.

Lemma f64_max_neg_infinity x : f64_is_finite x = true -> f64_max f64_neg_infinity x = x.
Proof. intros Hf. unfold f64_max. destruct x as [[]|[]| |[] m e]; done. Qed.

(** With finite weights the maximum is one of them. *)
Lemma max_weight_elem ws :
  ws <> [] -> (forall w, w ∈ ws -> f64_is_finite w = true) -> foldl f64_max f64_neg_infinity ws ∈ ws.
Proof.
  destruct ws as [|w ws]; [done|]. intros _ Hfin. cbn [foldl].
  rewrite f64_max_neg_infinity by (apply Hfin; left).
  destruct (fold_max_cases ws w) as [->|Hin]; [left|by right].
Qed.

Definition tied (w max : f64) : bool := f64_lt (f64_abs (f64_sub w max)) f64_epsilon.

Lemma tied_refl w : f64_is_finite w = true -> tied w w = true.
Proof. intros Hf. unfold tied. destruct (f64_sub_diag w Hf) as [b ->]. by destruct b. Qed.

Lemma pick_by_weight_elem edges t :
  pick_by_weight edges = Some t -> exists e, e ∈ edges /\ pe_target e = t.
Proof.
  unfold pick_by_weight. intros (e & -> & [_ He]%list_elem_of_filter)%str_min_elem%list_elem_of_fmap.
  eauto.
Qed.

Lemma pick_by_weight_finite edges :
  edges <> [] -> (forall e, e ∈ edges -> f64_is_finite (pe_weight e) = true) ->
  exists best e, best ∈ edges /\ e ∈ edges /\ pick_by_weight edges = Some (pe_target e) /\
    pe_weight best = foldl f64_max f64_neg_infinity (pe_weight <$> edges) /\
    tied (pe_weight e) (pe_weight best) = true /\
    forall e', e' ∈ edges -> tied (pe_weight e') (pe_weight best) = true ->
      String.le (pe_target e) (pe_target e').
Proof.
  intros Hne Hfin. set (mx := foldl f64_max f64_neg_infinity (pe_weight <$> edges)).
  assert (Hmx : mx ∈ pe_weight <$> edges).
  { apply max_weight_elem; [by destruct edges|]. intros w (e & -> & He)%list_elem_of_fmap. auto. }
  apply list_elem_of_fmap in Hmx as (best & Hb & Hbin).
  unfold pick_by_weight. fold mx. change (fun e => _ = true) with (fun e => tied (pe_weight e) mx = true).
  set (ties := filter _ edges).
  assert (Hbt : best ∈ ties).
  { apply list_elem_of_filter. split; [|done]. rewrite Hb. by apply tied_refl, Hfin. }
  destruct (str_min (pe_target <$> ties)) as [t|] eqn:Ht.
  - pose proof (str_min_elem _ _ Ht) as (e & -> & [Hte He]%list_elem_of_filter)%list_elem_of_fmap.
    exists best, e. split_and!; try done; [by rewrite <- Hb|]. intros e' He' Hte'.
    apply (str_min_le _ _ _ Ht), list_elem_of_fmap. exists e'. split; [done|].
    apply list_elem_of_filter. by rewrite Hb.
  - apply str_min_None, fmap_nil_inv in Ht. rewrite Ht in Hbt. by apply not_elem_of_nil in Hbt.
Qed.

(** [pick_by_weight] on a non-empty list of edges with finite weights does not
    panic: it returns the least target, in string order, among the edges whose weight
    ties with the maximum weight (within [f64::EPSILON]). *)
Theorem pick_by_weight_correct (edges : list PipelineEdge) :
  edges <> [] -> (forall e, e ∈ edges -> f64_is_finite (pe_weight e) = true) ->
  exists best e, best ∈ edges /\ e ∈ edges /\ pick_by_weight edges = Some (pe_target e) /\
    pe_weight best = foldl f64_max f64_neg_infinity (pe_weight <$> edges) /\
    tied (pe_weight e) (pe_weight best) = true /\
    forall e', e' ∈ edges -> tied (pe_weight e') (pe_weight best) = true ->
      String.le (pe_target e) (pe_target e').
Proof. apply pick_by_weight_finite. Qed.

Lemma pick_by_weight_correct_witness :
  let edges := [demo_edge "s" "b"; demo_edge "s" "a"] in
  exists best e, best ∈ edges /\ e ∈ edges /\ pick_by_weight edges = Some (pe_target e) /\
    pe_weight best = foldl f64_max f64_neg_infinity (pe_weight <$> edges) /\
    tied (pe_weight e) (pe_weight best) = true /\
    forall e', e' ∈ edges -> tied (pe_weight e') (pe_weight best) = true ->
      String.le (pe_target e) (pe_target e').
Proof.
  intros edges. apply (pick_by_weight_correct edges); [done|].
  intros e He. unfold edges in He. rewrite !elem_of_cons in He.
  destruct He as [->|[->|He]]; [done..|by apply not_elem_of_nil in He].
Defined.

Section select_spec.
Context `{RustFmt}.

Lemma condition_matches_sub edges o ms :
  condition_matches edges o = Ok ms -> forall e, e ∈ ms -> e ∈ edges.
Proof.
  revert ms; induction edges as [|e edges IH]; cbn [condition_matches]; intros ms Hm.
  - by simplify_eq.
  - destruct (pe_condition e) as [cond|]; [|intros e' He'; right; by eapply IH].
    apply bind_Ok in Hm as (expr & _ & Hm). apply bind_Ok in Hm as (rest & Hrest & Hm).
    injection Hm as <-. specialize (IH _ Hrest). case_match; set_solver.
Qed.

Lemma condition_matches_total edges o :
  (forall e c, e ∈ edges -> pe_condition e = Some c -> exists x, parse_condition c = Ok x) ->
  exists ms, condition_matches edges o = Ok ms.
Proof.
  induction edges as [|e edges IH]; cbn [condition_matches]; intros Hp; [by eexists|].
  destruct IH as [ms Hms]; [intros; eapply Hp; [by right|done]|].
  destruct (pe_condition e) as [c|] eqn:Hc; [|eauto].
  destruct (Hp e c) as [x Hx]; [left|done|]. rewrite Hx, Hms. cbn. eauto.
Qed.

Lemma select_unconditional_spec outgoing o :
  outgoing <> [] -> (forall e, e ∈ outgoing -> f64_is_finite (pe_weight e) = true) ->
  exists e, e ∈ outgoing /\ select_unconditional outgoing o = Val (Some (pe_target e)).
Proof.
  intros Hne Hfin. unfold select_unconditional, label_match.
  destruct (List.find _ _) as [e|] eqn:Hf.
  - apply List.find_some in Hf as [He%list_elem_of_In _]. eauto.
  - case_bool_decide as Hu; cbn [negb].
    + destruct (str_min (pe_target <$> outgoing)) as [t|] eqn:Ht.
      * apply str_min_elem, list_elem_of_fmap in Ht as (e & -> & He). eauto.
      * by apply str_min_None, fmap_nil_inv in Ht.
    + destruct (pick_by_weight_finite (filter (fun e => pe_condition e = None) outgoing))
        as (_ & e & _ & He & -> & _); [done| |].
      * intros e [_ He]%list_elem_of_filter. auto.
      * apply list_elem_of_filter in He as [_ He]. eauto.
Qed.
End select_spec.

(** The selected node is the target of an outgoing edge. *)
Lemma select_unconditional_edge out o next : select_unconditional out o = Val (Some next) ->
  exists e, e ∈ out /\ pe_target e = next.
Proof.
  unfold select_unconditional, label_match. destruct (List.find _ _) as [e|] eqn:Hf.
  - intros [= <-]. apply List.find_some in Hf as [He%list_elem_of_In _]. eauto.
  - case_bool_decide; cbn [negb].
    + destruct (str_min _) as [t|] eqn:Ht; [|done]. intros [= <-].
      apply str_min_elem, list_elem_of_fmap in Ht as (e & -> & He). eauto.
    + destruct (pick_by_weight _) as [t|] eqn:Ht; [|done]. intros [= <-].
      apply pick_by_weight_elem in Ht as (e & [_ He]%list_elem_of_filter & <-). eauto.
Qed.

Lemma select_next_edge_edge `{RustFmt} g current o next :
  select_next_edge g current o = Val (Some next) -> edge g current next.
Proof.
  unfold select_next_edge. set (out := filter _ _).
  assert (Hout : forall e t, e ∈ out /\ pe_target e = t -> edge g current t).
  { intros e t [[Hs He]%list_elem_of_filter <-]. by exists e. }
  case_decide; [done|]. destruct (condition_matches out o) as [ms|] eqn:Hms; [|done].
  cbn [of_result mbind flow_bind]. case_bool_decide as Hne; cbn [negb].
  - destruct (pg_nodes g !! current) as [node|]; [|done]. cbn [of_option mbind flow_bind].
    assert (Hun : select_unconditional out o = Val (Some next) -> edge g current next).
    { intros (e & He)%select_unconditional_edge. eauto. }
    destruct (pn_suggested_next node) as [sn|]; [|done].
    destruct (existsb (fun e => bool_decide (pe_target e = sn)) out) eqn:Hex; [|done].
    intros [= <-]. apply existsb_true in Hex as (e & He & Ht%bool_decide_eq_true). eauto.
  - destruct (pick_by_weight ms) as [t|] eqn:Ht; [|done]. intros [= <-].
    apply pick_by_weight_elem in Ht as (e & He & <-). eapply Hout. split; [|done].
    by eapply condition_matches_sub.
Qed.

Lemma select_next_edge_valid `{HashIter} `{RustFmt} (g : PipelineGraph) (ctx : ValidationContext)
    (current : string) (o : NodeOutcome) :
  validate_with_context g ctx = Ok tt ->
  (forall e, e ∈ pg_edges g -> f64_is_finite (pe_weight e) = true) ->
  current ∈ dom (pg_nodes g) ->
  (has_outgoing g current = false /\ select_next_edge g current o = Val None) \/
  (exists next, select_next_edge g current o = Val (Some next) /\ edge g current next).
Proof.
  intros Hv Hfin [node Hcur]%elem_of_dom. apply validate_with_context_spec in Hv.
  unfold select_next_edge. set (outgoing := filter _ _).
  assert (Hout : forall e, e ∈ outgoing -> e ∈ pg_edges g /\ pe_source e = current).
  { intros e [? ?]%list_elem_of_filter. done. }
  case_decide as Hne.
  - left. split; [|done]. apply existsb_false. intros e He. apply bool_decide_eq_false. intros Hs.
    assert (Hin : e ∈ outgoing) by (by apply list_elem_of_filter). rewrite Hne in Hin.
    by apply not_elem_of_nil in Hin.
  - right.
    assert (Hedge : forall e, e ∈ outgoing -> edge g current (pe_target e)).
    { intros e [He Hs]%Hout. by exists e. }
    destruct (condition_matches_total outgoing o) as [ms Hms].
    { intros e c [He _]%Hout Hc. eapply vg_edges in He; [|done]. by apply He. }
    pose proof (condition_matches_sub outgoing o ms Hms) as Hsub. rewrite Hms.
    cbn [of_result mbind flow_bind]. case_bool_decide as Hmn; cbn [negb].
    + rewrite Hcur. cbn [of_option].
      destruct (select_unconditional_spec outgoing o Hne) as (e & He & Hsel).
      { intros e [He _]%Hout. auto. }
      assert (Hun : exists next, select_unconditional outgoing o = Val (Some next) /\ edge g current next)
        by eauto.
      cbn [mbind flow_bind]. destruct (pn_suggested_next node) as [next|]; [|exact Hun].
      destruct (existsb (fun e => bool_decide (pe_target e = next)) outgoing) eqn:Hex; [|exact Hun].
      apply existsb_true in Hex as (e' & He' & Ht%bool_decide_eq_true).
      exists next. split; [done|]. rewrite <- Ht. auto.
    + destruct (pick_by_weight_finite ms Hmn) as (_ & e & _ & He & -> & _).
      { intros e He%Hsub. apply Hfin. by apply Hout. }
      exists (pe_target e). split; [done|]. auto.
Qed.

(** On a validated graph whose weights are finite, [select_next_edge] from a
    declared node never fails or panics: it returns [None] exactly when the node has no
    outgoing edge, and otherwise the target of one of its outgoing edges. *)
Theorem select_next_edge_total `{HashIter} `{RustFmt} (g : PipelineGraph) (ctx : ValidationContext)
    (current : string) (o : NodeOutcome) :
  validate_with_context g ctx = Ok tt ->
  (forall e, e ∈ pg_edges g -> f64_is_finite (pe_weight e) = true) ->
  current ∈ dom (pg_nodes g) ->
  (has_outgoing g current = false /\ select_next_edge g current o = Val None) \/
  (exists next, select_next_edge g current o = Val (Some next) /\ edge g current next).
Proof. apply select_next_edge_valid. Qed.

Lemma select_next_edge_total_witness :
  (has_outgoing demo_graph "start" = false /\
   @select_next_edge no_fmt demo_graph "start" (demo_outcome "start" Pass) = Val None) \/
  (exists next, @select_next_edge no_fmt demo_graph "start" (demo_outcome "start" Pass) = Val (Some next) /\
     edge demo_graph "start" next).
Proof.
  apply (@select_next_edge_total tree_iter no_fmt demo_graph ValidationContext_default "start").
  - by vm_compute.
  - intros e He. apply list_elem_of_singleton in He as ->. by vm_compute.
  - apply (bool_decide_eq_true ("start" ∈ dom (pg_nodes demo_graph))). by vm_compute.
Defined.

(** An edge written with [weight=inf]. *)
Definition inf_edge : PipelineEdge := build_edge "start" "end" {["weight" := "inf"]}.

Definition inf_graph : PipelineGraph := {|
  pg_id := "demo"; pg_label := None; pg_default_model := None; pg_max_total_tokens := None;
  pg_default_timeout_secs := None; pg_result_fidelity := None;
  pg_nodes := pg_nodes demo_graph; pg_edges := [inf_edge]; pg_subgraphs := [] |}.

(** The finiteness hypothesis is needed: an edge parsed from [weight=inf] passes
    validation (rule 10 only rejects [weight <= 0]), and the edge selection of the
    validated graph panics, because [inf - inf] is not a number and no edge ties with
    the maximum. *)
Theorem infinite_weight_panics (o : NodeOutcome) :
  @validate tree_iter no_fmt inf_graph = Ok tt /\ @select_next_edge no_fmt inf_graph "start" o = Panic.
Proof.
  split; [by vm_compute|].
  unfold select_next_edge. replace (filter _ (pg_edges inf_graph)) with [inf_edge] by by vm_compute.
  rewrite decide_False by done. cbn [condition_matches].
  replace (pe_condition inf_edge) with (@None string) by by vm_compute.
  cbn [of_result mbind flow_bind]. rewrite bool_decide_eq_true_2 by done. cbn [negb].
  replace (pg_nodes inf_graph !! "start") with (Some (demo_node "start" ["read_*"])) by by vm_compute.
  cbn [of_option pn_suggested_next demo_node]. unfold select_unconditional, label_match.
  cbn [List.find]. replace (pe_label inf_edge) with (@None string) by by vm_compute. cbn [is_some_and].
  by vm_compute.
Qed.

(** ** Budget and fan-out merging *)

(** The output cap never exceeds the remaining budget: for a codergen node and a
    positive remainder, [max_output_tokens] afterwards is at least 1, at most the
    remainder, at most an even share among the peers (or 1), and at most what the node
    asked for (or 1); other nodes are left alone. *)
Theorem output_cap_within_budget (n : PipelineNode) (remaining peers : Z) :
  (0 <= remaining <= u32_max)%Z ->
  let n' := cap_node_output_tokens_for_remaining_budget n remaining peers in
  (pn_handler n <> Codergen \/ remaining = 0%Z -> n' = n) /\
  (pn_handler n = Codergen -> (0 < remaining)%Z ->
     exists cap, pn_max_output_tokens n' = Some cap /\
       (1 <= cap <= remaining)%Z /\ (cap <= Z.max 1 (remaining / Z.min (Z.max peers 1) u32_max))%Z /\
       forall asked, pn_max_output_tokens n = Some asked -> (cap <= Z.max 1 asked)%Z).
Proof.
  intros Hr n'. unfold n', cap_node_output_tokens_for_remaining_budget. split.
  - intros [Hh| ->]; [by rewrite bool_decide_eq_false_2|]. by rewrite orb_true_r.
  - intros Hh Hp. rewrite bool_decide_eq_true_2 by done.
    replace (remaining =? 0)%Z with false by (symmetry; apply Z.eqb_neq; lia). cbn [negb orb].
    cbn [pn_max_output_tokens set_max_output_tokens]. eexists. split; [reflexivity|].
    set (d := Z.max (Z.min (Z.max peers 1) u32_max) 1).
    assert (Hd : (1 <= d)%Z) by (unfold d; lia).
    assert (Hdd : d = Z.min (Z.max peers 1) u32_max) by (unfold d, u32_max; lia).
    assert (Hq : (remaining / d <= remaining)%Z) by (apply Z.div_le_upper_bound; nia).
    assert (Hq0 : (0 <= remaining / d)%Z) by (apply Z.div_pos; lia). rewrite <- Hdd.
    destruct (pn_max_output_tokens n); split_and!; try lia; intros ? [= <-]; lia.
Qed.

Lemma output_cap_within_budget_witness :
  let n := demo_node "a" [] in
  let n' := cap_node_output_tokens_for_remaining_budget n 900 4 in
  (pn_handler n <> Codergen \/ 900%Z = 0%Z -> n' = n) /\
  (pn_handler n = Codergen -> (0 < 900)%Z ->
     exists cap, pn_max_output_tokens n' = Some cap /\
       (1 <= cap <= 900)%Z /\ (cap <= Z.max 1 (900 / Z.min (Z.max 4 1) u32_max))%Z /\
       forall asked, pn_max_output_tokens n = Some asked -> (cap <= Z.max 1 asked)%Z).
Proof. apply (output_cap_within_budget (demo_node "a" []) 900 4). by vm_compute. Defined.

Lemma merge_workers_spec results wr parts :
  let r := foldl merge_worker (wr, parts) results in
  wr_any_error r.1 = wr_any_error wr || existsb (fun x => bool_decide (no_status (worker_outcome x) = Error)) results /\
  wr_any_pass r.1 = wr_any_pass wr || existsb (fun x => bool_decide (no_status (worker_outcome x) = Pass)) results /\
  wr_outcomes r.1 = wr_outcomes wr ++ ((fun x => (w_task_id x, worker_outcome x)) <$> results) /\
  wr_summaries r.1 = wr_summaries wr ++ ((fun x =>
    {| ns_node_id := w_task_id x; ns_label := worker_label x; ns_model := pn_model (w_node x);
       ns_token_usage := no_token_usage (worker_outcome x); ns_duration_ms := w_elapsed_ms x;
       ns_success := bool_decide (no_status (worker_outcome x) = Pass) |}) <$> results).
Proof.
  revert wr parts; induction results as [|x results IH]; intros wr parts; cbn [foldl].
  - cbn. by rewrite !orb_false_r, !app_nil_r.
  - destruct (merge_worker (wr, parts) x) as [wr' parts'] eqn:Hm. destruct (IH wr' parts') as (-> & -> & -> & ->).
    injection Hm as <- <-. cbn [wr_any_error wr_any_pass wr_outcomes wr_summaries existsb].
    rewrite !fmap_cons, <- !app_assoc, !orb_assoc. done.
Qed.

(** Merging fan-out results loses no worker and judges the fan-out as documented,
    whatever the file resolver does: outcomes and summaries are in worker order, a worker
    whose future failed counts as an [Error] outcome, [any_error] holds exactly when some
    worker ended in [Error], [any_pass] exactly when some worker passed, and a summary
    is marked successful exactly when its worker passed. *)
Theorem process_worker_results_spec (resolve : string -> string) (results : list WorkerResult) :
  let wr := process_worker_results resolve results in
  wr_outcomes wr = (fun x => (w_task_id x, worker_outcome x)) <$> results /\
  (wr_any_error wr = true <-> exists x, x ∈ results /\ no_status (worker_outcome x) = Error) /\
  (wr_any_pass wr = true <-> exists x, x ∈ results /\ no_status (worker_outcome x) = Pass) /\
  (ns_success <$> wr_summaries wr) =
    (fun x => bool_decide (no_status (worker_outcome x) = Pass)) <$> results.
Proof.
  intros wr. unfold wr, process_worker_results.
  destruct (merge_workers_spec results
    {| wr_merged_content := ""; wr_any_error := false; wr_any_pass := false; wr_summaries := [];
       wr_tokens := TokenUsage_default; wr_outcomes := [] |} []) as (He & Hp & Ho & Hs).
  destruct (foldl merge_worker _ results) as [r parts].
  cbn [wr_any_error wr_any_pass wr_outcomes wr_summaries fst] in *.
  rewrite He, Hp, Ho, Hs. cbn [orb app]. rewrite !existsb_true. setoid_rewrite bool_decide_eq_true.
  split_and!; [done..|]. by rewrite <- list_fmap_compose.
Qed.
