(* ===== verification/Dag.v ===== *)
(** * The DAG scheduler

    Model of the ready-set scheduler of [crates/octos-pipeline/src/executor.rs]:
    back-edge classification, node readiness with fail-closed joins, edge firing, the
    execution of one node, the scheduling loop with its bounded retries and the final
    verdict.  The two nested loops of [execute_graph_dag] are one step function: a step
    runs the least runnable node (with its eager back-edge retry), else prunes the
    least prunable one, else retries the region of a fired back-edge, else ends. *)

From S2P Require Import Prelude RustStr RustNum Fidelity Graph Condition ToolPolicy Validate.
From S2P Require Import Host Dispatch.

(** ** Reachability over the edges

    The [while let Some(n) = stack.pop()] loop of [graph_reaches] and of
    [forward_reachable], over the edges [es]: the head of the list is the top of the
    stack, [stop] is the early exit of [graph_reaches].  [None] when the fuel runs
    out. *)

Fixpoint stack_walk (es : list PipelineEdge) (stop : string -> bool) (fuel : nat)
    (seen : gset string) (stack : list string) : option (bool * gset string) :=
  match stack with
  | [] => Some (false, seen)
  | n :: stack =>
      match fuel with
      | O => None
      | S fuel =>
          if stop n then Some (true, seen)
          else if decide (n ∈ seen) then stack_walk es stop fuel seen stack
          else stack_walk es stop fuel ({[n]} ∪ seen) (reverse (targets_from n es) ++ stack)
      end
  end.

(** Every edge is pushed at most once. *)
Definition walk_fuel (es : list PipelineEdge) : nat := S (length es).

Definition graph_reaches (g : PipelineGraph) (from to : string) : bool :=
  match stack_walk (pg_edges g) (fun n => bool_decide (n = to)) (walk_fuel (pg_edges g)) ∅ [from] with
  | Some (b, _) => b
  | None => false
  end.

Definition edge_is_back (g : PipelineGraph) (e : PipelineEdge) : bool :=
  (is_some_and (pe_label e) has_back_edge_marker
   || is_some_and (pe_condition e) has_back_edge_marker)
  && graph_reaches g (pe_target e) (pe_source e).

Definition forward_edges (g : PipelineGraph) : list PipelineEdge :=
  filter (fun e => edge_is_back g e = false) (pg_edges g).

Definition back_edges (g : PipelineGraph) : list PipelineEdge :=
  filter (fun e => edge_is_back g e = true) (pg_edges g).

Definition forward_reachable (g : PipelineGraph) (start : string) : gset string :=
  match stack_walk (forward_edges g) (fun _ => false) (walk_fuel (forward_edges g)) ∅ [start] with
  | Some (_, seen) => seen
  | None => ∅
  end.

Definition forward_preds (g : PipelineGraph) (node_id : string) : list string :=
  pe_source <$> filter (fun e => pe_target e = node_id) (forward_edges g).

(** ** Edge firing *)

Section firing.
Context `{RustFmt}.

Definition dag_edge_fires_normally (g : PipelineGraph) (e : PipelineEdge) (src : NodeOutcome)
    (coe : bool) : result report bool :=
  match pe_condition e with
  | Some cond =>
      expr ← parse_condition cond;
      mret (evaluate expr src)
  | None =>
      let src_success :=
        bool_decide (no_status src = Pass) || bool_decide (no_status src = Skipped)
        || bool_decide (no_status src = Error) && coe in
      if negb src_success then mret false
      else
        let conditional_sibling_matched :=
          existsb (fun e' => is_some_and (pe_condition e') (fun cond =>
              match parse_condition cond with Ok expr => evaluate expr src | Err _ => false end))
            (filter (fun e' => pe_source e' = pe_source e) (forward_edges g)) in
        mret (negb conditional_sibling_matched)
  end.

(** The [any_matched] loop; the first bad condition is an error. *)
Fixpoint any_condition_matches (es : list PipelineEdge) (src : NodeOutcome) : result report bool :=
  match es with
  | [] => mret false
  | e :: es =>
      match pe_condition e with
      | Some cond =>
          expr ← parse_condition cond;
          if evaluate expr src then mret true else any_condition_matches es src
      | None => any_condition_matches es src
      end
  end.

Definition dag_forward_edge_fires (g : PipelineGraph) (e : PipelineEdge) (src : NodeOutcome)
    (coe : bool) : result report bool :=
  normally ← dag_edge_fires_normally g e src coe;
  if (normally : bool) then mret true
  else
    let outgoing := filter (fun e' => pe_source e' = pe_source e) (forward_edges g) in
    if bool_decide (outgoing = []) || negb (forallb (fun e' => bool_decide (is_Some (pe_condition e'))) outgoing)
    then mret false
    else
      any_matched ← any_condition_matches outgoing src;
      if (any_matched : bool) then mret false
      else mret (bool_decide (str_min (pe_target <$> outgoing) = Some (pe_target e))).

Definition dag_back_edge_fires (e : PipelineEdge) (src : NodeOutcome) : result report bool :=
  match pe_condition e with
  | Some cond =>
      expr ← parse_condition cond;
      mret (evaluate expr src)
  | None => mret false
  end.

Definition node_continue_on_error (g : PipelineGraph) (id : string) : bool :=
  from_option pn_continue_on_error false (pg_nodes g !! id).

(** The [for] loop of [fired_forward_into] over the forward edges into the node. *)
Fixpoint fired_go (g : PipelineGraph) (es : list PipelineEdge) (completed : gmap string NodeOutcome)
  : result report (list string) :=
  match es with
  | [] => mret []
  | e :: es =>
      match completed !! pe_source e with
      | Some src =>
          fires ← dag_forward_edge_fires g e src (node_continue_on_error g (pe_source e));
          rest ← fired_go g es completed;
          mret (if (fires : bool) then pe_source e :: rest else rest)
      | None => fired_go g es completed
      end
  end.

Definition fired_forward_into (g : PipelineGraph) (node_id : string)
    (completed : gmap string NodeOutcome) : result report (list string) :=
  fired_go g (filter (fun e => pe_target e = node_id) (forward_edges g)) completed.

(** ** Readiness *)

Inductive PruneReason := Optional_prune | Failure_prune.

#[global] Instance PruneReason_eq_dec : EqDecision PruneReason.
Proof. solve_decision. Defined.

Inductive NodeReadiness :=
| NotReady
| Runnable
| Prune (r : PruneReason).

Definition missing_required (g : PipelineGraph) (id : string) (completed : gmap string NodeOutcome)
    (pruned : gmap string PruneReason) (fired : list string) (p : string) : bool :=
  if decide (p ∈ fired) then false
  else match pruned !! p with
       | Some Failure_prune => true
       | Some Optional_prune => false
       | None =>
           let edge_unconditional :=
             existsb (fun e => bool_decide (pe_source e = p) && bool_decide (pe_target e = id)
                               && bool_decide (pe_condition e = None)) (forward_edges g) in
           let p_failed :=
             is_some_and (completed !! p) (fun o =>
               bool_decide (no_status o = Fail) || bool_decide (no_status o = Error))
             && negb (node_continue_on_error g p) in
           edge_unconditional && p_failed
       end.

Definition settled (completed : gmap string NodeOutcome) (pruned : gmap string PruneReason)
    (id : string) : bool :=
  bool_decide (id ∈ dom completed) || bool_decide (id ∈ dom pruned).

Definition dag_node_readiness (g : PipelineGraph) (id : string) (completed : gmap string NodeOutcome)
    (pruned : gmap string PruneReason) : result report NodeReadiness :=
  let fpreds := forward_preds g id in
  if negb (forallb (settled completed pruned) fpreds) then mret NotReady
  else if decide (fpreds = []) then mret Runnable
  else
    fired ← fired_forward_into g id completed;
    if existsb (missing_required g id completed pruned fired) fpreds
    then mret (Prune Failure_prune)
    else if decide (fired = []) then mret (Prune Optional_prune)
    else mret Runnable.
End firing.

(** ** Results *)

Record NodeCost := {
  nc_node_id : string;
  nc_model : option string;
  nc_reserved_usd : f64;
  nc_actual_usd : f64;
  nc_tokens_in : Z;
  nc_tokens_out : Z;
  nc_committed : bool
}.

Record PipelineResult := {
  pr_output : string;
  pr_success : bool;
  pr_token_usage : TokenUsage;
  pr_node_summaries : list NodeSummary;
  pr_files_modified : list string;
  pr_node_costs : list NodeCost
}.

Record DagNodeOutput := {
  dno_outcome : NodeOutcome;
  dno_summary : NodeSummary;
  dno_cost : NodeCost
}.

Inductive DagStep :=
| Ran (o : DagNodeOutput)
| Aborted (reason : string).

(** The run-invariant arguments.  A variable is a JSON value; only its [as_str] is
    used. *)
Record DagRunCtx := {
  rc_graph : PipelineGraph;
  rc_user_input : string;
  rc_variables : list (string * option string)
}.

Definition sort_strings (l : list string) : list string := merge_sort String.le l.

Section results.
Context `{HashIter} `{RustFmt}.

Definition is_terminal (g : PipelineGraph) (completed : gmap string NodeOutcome) (n : string) : bool :=
  match completed !! n with
  | None => false
  | Some outcome =>
      negb (existsb (fun e => result_or false
              (dag_forward_edge_fires g e outcome (node_continue_on_error g n)))
            (filter (fun e => pe_source e = n) (forward_edges g)))
  end.

Definition dag_terminal_nodes (g : PipelineGraph) (completed : gmap string NodeOutcome) : list string :=
  sort_strings (filter (fun n => is_terminal g completed n = true) (hm_keys completed)).

Definition dag_build_result (success : option bool) (override_output : option string)
    (completed : gmap string NodeOutcome) (summaries : list NodeSummary) (total_tokens : TokenUsage)
    (node_costs : list NodeCost) (g : PipelineGraph) (had_failure_prune : bool) : PipelineResult :=
  let all_files := collect_completed_files completed in
  let terminals := dag_terminal_nodes g completed in
  let outcomes := omap (fun n => completed !! n) terminals in
  let derived := bool_decide (success = None) in
  let success :=
    default (negb (bool_decide (terminals = []))
             && forallb (fun o => bool_decide (no_status o = Pass)) outcomes) success
    && negb had_failure_prune in
  {| pr_output := default (String.concat SEPARATOR (no_content <$> outcomes)) override_output;
     pr_success := success;
     pr_token_usage := total_tokens;
     pr_node_summaries := summaries;
     pr_files_modified := if success || derived then all_files else [];
     pr_node_costs := node_costs |}.
End results.

(** ** Executing one node *)

Definition resolve_prompt (variables : list (string * option string)) (prompt : string) : string :=
  trim_end (foldl (fun s '(k, v) => replace s ("{" +:+ k +:+ "}") (default "" v))
                  (replace prompt "{input}" "") variables).

Definition set_model (n : PipelineNode) (m : option string) : PipelineNode := {|
  pn_id := pn_id n; pn_handler := pn_handler n; pn_prompt := pn_prompt n; pn_label := pn_label n;
  pn_model := m; pn_context_window := pn_context_window n;
  pn_max_output_tokens := pn_max_output_tokens n;
  pn_reasoning_effort := pn_reasoning_effort n; pn_max_iterations := pn_max_iterations n;
  pn_tools := pn_tools n; pn_goal_gate := pn_goal_gate n; pn_max_retries := pn_max_retries n;
  pn_timeout_secs := pn_timeout_secs n; pn_suggested_next := pn_suggested_next n;
  pn_converge := pn_converge n; pn_worker_prompt := pn_worker_prompt n;
  pn_planner_model := pn_planner_model n; pn_max_tasks := pn_max_tasks n;
  pn_human_gate := pn_human_gate n; pn_resolver := pn_resolver n;
  pn_artifact_refs := pn_artifact_refs n; pn_checkpoint_refs := pn_checkpoint_refs n;
  pn_deadline_secs := pn_deadline_secs n; pn_deadline_action := pn_deadline_action n;
  pn_continue_on_error := pn_continue_on_error n; pn_checkpoints := pn_checkpoints n |}.

(** [node_with_prompt]: prompt resolved and default model, then the output cap when the
    graph has a token budget. *)
Definition resolve_node (rc : DagRunCtx) (node : PipelineNode) : PipelineNode :=
  let n := set_prompt node (resolve_prompt (rc_variables rc) <$> pn_prompt node) in
  if decide (pn_model n = None) then set_model n (pg_default_model (rc_graph rc)) else n.

Definition cap_remaining (remaining_tokens : option Z) (peers : Z) (n : PipelineNode)
  : PipelineNode :=
  match remaining_tokens with
  | Some rem => cap_node_output_tokens_for_remaining_budget n rem peers
  | None => n
  end.

Definition prepare_node (rc : DagRunCtx) (remaining_tokens : option Z) (node : PipelineNode)
  : PipelineNode := cap_remaining remaining_tokens 1 (resolve_node rc node).

Definition handler_context (rc : DagRunCtx) (fired_preds : list string)
    (completed : gmap string NodeOutcome) (feedback : option NodeOutcome) : HandlerContext :=
  let preds := omap (fun p => completed !! p) fired_preds ++ option_list feedback in
  {| hc_input := if decide (preds = []) then rc_user_input rc
                 else String.concat SEPARATOR (no_content <$> preds);
     hc_completed := completed;
     hc_predecessor_outcomes := preds |}.

Section execute_node.
Context {W : Type} (h : Host W) `{RustFmt}.

Definition node_budget_spent (n : PipelineNode) (started : Z) (w : W) : bool :=
  is_some_and (pn_timeout_secs n) (fun secs =>
    (0 <? secs)%Z && (secs * 1000 <=? h_clock h w - started)%Z).

(** The single recovery attempt; its own errors only leave the outcome as it was. *)
Definition recover_outcome (handler : Handler W) (node prepared : PipelineNode) (ctx : HandlerContext)
    (started : Z) (outcome : NodeOutcome) : io W NodeOutcome :=
  fun w =>
    match node_budget_spent node started w,
          classify_outcome prepared outcome (Some (h_json_input h (pn_id node) (hc_input ctx))) with
    | false, Retryable signal =>
        match recover_node h handler prepared ctx signal w with
        | (Val r, w) => (Val (if ro_retried r then ro_outcome r else outcome), w)
        | (Bail _, w) => (Val outcome, w)
        | (Panic, w) => (Panic, w)
        end
    | _, _ => (Val outcome, w)
    end.

Definition reject_outcome (node : PipelineNode) (reason : string) (o : NodeOutcome) : NodeOutcome :=
  {| no_node_id := no_node_id o; no_status := Error;
     no_content := "Pipeline node validator rejected '" +:+ pn_id node +:+ "': " +:+ reason;
     no_token_usage := no_token_usage o; no_files_modified := no_files_modified o |}.

Definition validate_outcome (node : PipelineNode) (o : NodeOutcome) : io W NodeOutcome :=
  if decide (no_status o = Pass) then
    r ← lift_pure (h_validate h (pn_id node));
    mret (match r with Ok _ => o | Err reason => reject_outcome node reason o end)
  else mret o.

Definition mark_terminal (node : PipelineNode) (task : string) (o : NodeOutcome) : W -> W :=
  match no_status o with
  | Pass => h_mark_completed h task (no_files_modified o)
  | Fail | Error => h_mark_failed h task ("node " +:+ pn_id node +:+ " failed")
  | Skipped => h_mark_completed h task []
  end.

Definition on_task (task : option string) (f : string -> W -> W) : io W unit :=
  match task with Some id => effect (f id) | None => mret tt end.

(** The cost row of a node that ran. *)
Definition node_cost (node prepared : PipelineNode) (reservation : option f64)
    (outcome : NodeOutcome) : NodeCost :=
  let reserved := default f64_zero reservation in
  {| nc_node_id := pn_id node; nc_model := pn_model prepared; nc_reserved_usd := reserved;
     nc_actual_usd := default reserved (h_project_cost h
       (default "pipeline-node" (pn_model prepared))
       (input_tokens (no_token_usage outcome)) (output_tokens (no_token_usage outcome)));
     nc_tokens_in := input_tokens (no_token_usage outcome);
     nc_tokens_out := output_tokens (no_token_usage outcome);
     nc_committed := bool_decide (is_Some reservation) |}.

(** After the dispatch: recovery, validators, cost row, supervisor, summary. *)
Definition finish_node (handler : Handler W) (node prepared : PipelineNode) (ctx : HandlerContext)
    (task : option string) (reservation : option f64) (started : Z) (outcome : NodeOutcome)
  : io W DagStep :=
  outcome ← dropping (h_release h reservation)
              (recover_outcome handler node prepared ctx started outcome);
  outcome ← validate_outcome node outcome;
  duration ← lift_pure (fun w => ((h_clock h w - started)%Z, w));
  _ ← effect (h_release h reservation);
  let cost := node_cost node prepared reservation outcome in
  _ ← on_task task (fun id => mark_terminal node id outcome);
  let summary :=
    {| ns_node_id := pn_id node; ns_label := node_label node; ns_model := pn_model prepared;
       ns_token_usage := no_token_usage outcome; ns_duration_ms := duration;
       ns_success := bool_decide (no_status outcome = Pass) |} in
  mret (Ran {| dno_outcome := outcome; dno_summary := summary; dno_cost := cost |}).

Definition dag_execute_node (rc : DagRunCtx) (node_id : string) (fired_preds : list string)
    (completed : gmap string NodeOutcome) (remaining_tokens : option Z) (feedback : option NodeOutcome)
  : io W DagStep :=
  match pg_nodes (rc_graph rc) !! node_id with
  | None => throw ("DAG: unknown node " +:+ node_id)
  | Some node =>
      match h_handler h (pn_handler node) with
      | None => throw ("no handler for " +:+ HandlerKind_debug (pn_handler node))
      | Some handler =>
          let prepared := prepare_node rc remaining_tokens node in
          let ctx := handler_context rc fired_preds completed feedback in
          registered ← lift_pure (h_register h (pn_id node));
          match registered with
          | Err reason => mret (Aborted reason)
          | Ok task =>
              _ ← on_task task (h_mark_running h);
              reservation ← call (h_reserve h (pg_id (rc_graph rc)) prepared);
              started ← lift_pure (fun w => (h_clock h w, w));
              dispatch ← dropping (h_release h reservation)
                           (dispatch_node h handler prepared ctx (pn_max_retries node));
              finish_node handler node prepared ctx task reservation started
                match dispatch with
                | Completed o => o
                | DSkipped _ => skipped_outcome node
                end
          end
      end
  end.
End execute_node.

(** ** The scheduling loop *)

Record DagRun := {
  dr_completed : gmap string NodeOutcome;
  dr_pruned : gmap string PruneReason;
  dr_summaries : list NodeSummary;
  dr_node_costs : list NodeCost;
  dr_total_tokens : TokenUsage;
  dr_feedback : gmap string NodeOutcome;
  dr_any_failure_prune : bool;
  dr_retry_count : gmap string Z
}.

Definition DagRun_init : DagRun := {|
  dr_completed := ∅; dr_pruned := ∅; dr_summaries := []; dr_node_costs := [];
  dr_total_tokens := TokenUsage_default; dr_feedback := ∅; dr_any_failure_prune := false;
  dr_retry_count := ∅ |}.

Definition MAX_NODE_RUNS : Z := 10.

Definition retries_of (st : DagRun) (target : string) : Z := default 0%Z (dr_retry_count st !! target).

Section scheduler.
Context `{HashIter} `{RustFmt}.

Definition is_runnable (g : PipelineGraph) (st : DagRun) (id : string) : bool :=
  negb (settled (dr_completed st) (dr_pruned st) id)
  && match dag_node_readiness g id (dr_completed st) (dr_pruned st) with
     | Ok Runnable => true
     | _ => false
     end.

Definition prune_reason (g : PipelineGraph) (st : DagRun) (id : string) : option PruneReason :=
  if settled (dr_completed st) (dr_pruned st) id then None
  else match dag_node_readiness g id (dr_completed st) (dr_pruned st) with
       | Ok (Prune reason) => Some reason
       | _ => None
       end.

Definition runnable (g : PipelineGraph) (st : DagRun) : option string :=
  str_min (filter (fun id => is_runnable g st id = true) (hm_keys (pg_nodes g))).

Definition prunable (g : PipelineGraph) (st : DagRun) : option (string * PruneReason) :=
  p ← str_min (filter (fun id => is_Some (prune_reason g st id)) (hm_keys (pg_nodes g)));
  r ← prune_reason g st p;
  Some (p, r).

Definition prune_node (st : DagRun) (p : string) (reason : PruneReason) : DagRun := {|
  dr_completed := dr_completed st;
  dr_pruned := <[p := reason]> (dr_pruned st);
  dr_summaries := dr_summaries st; dr_node_costs := dr_node_costs st;
  dr_total_tokens := dr_total_tokens st; dr_feedback := dr_feedback st;
  dr_any_failure_prune := dr_any_failure_prune st || bool_decide (reason = Failure_prune);
  dr_retry_count := dr_retry_count st |}.

(** A back-edge retry: count it, hand the target the source's outcome, and forget the
    forward-reachable region. *)
Definition retry_region (g : PipelineGraph) (st : DagRun) (target : string) (src : NodeOutcome) : DagRun :=
  let region := forward_reachable g target in {|
  dr_completed := filter (fun kv => kv.1 ∉ region) (dr_completed st);
  dr_pruned := filter (fun kv => kv.1 ∉ region) (dr_pruned st);
  dr_summaries := dr_summaries st; dr_node_costs := dr_node_costs st;
  dr_total_tokens := dr_total_tokens st;
  dr_feedback := <[target := src]> (dr_feedback st);
  dr_any_failure_prune := dr_any_failure_prune st;
  dr_retry_count := <[target := (retries_of st target + 1)%Z]> (dr_retry_count st) |}.

(** The back-edges that fire on their completed source, with its outcome. *)
Definition fired_back (st : DagRun) (es : list PipelineEdge) : list (string * NodeOutcome) :=
  omap (fun e =>
    src ← dr_completed st !! pe_source e;
    if result_or false (dag_back_edge_fires e src) then Some (pe_target e, src) else None) es.

(** The first of them whose target is below the guard. *)
Definition retry_candidate (st : DagRun) (fired : list (string * NodeOutcome))
  : option (string * NodeOutcome) :=
  find (fun '(target, _) => (retries_of st target <? MAX_NODE_RUNS)%Z) fired.

Definition eager_retry (g : PipelineGraph) (st : DagRun) (node_id : string) : DagRun :=
  match retry_candidate st (fired_back st (filter (fun e => pe_source e = node_id) (back_edges g))) with
  | Some (target, src) => retry_region g st target src
  | None => st
  end.

Definition record_run (st : DagRun) (node_id : string) (step : DagNodeOutput) : DagRun := {|
  dr_completed := <[node_id := dno_outcome step]> (dr_completed st);
  dr_pruned := dr_pruned st;
  dr_summaries := dr_summaries st ++ [dno_summary step];
  dr_node_costs := dr_node_costs st ++ [dno_cost step];
  dr_total_tokens := add_tokens (dr_total_tokens st) (no_token_usage (dno_outcome step));
  dr_feedback := delete node_id (dr_feedback st);
  dr_any_failure_prune := dr_any_failure_prune st;
  dr_retry_count := dr_retry_count st |}.

Definition exit_early (g : PipelineGraph) (st : DagRun) (success : bool) (msg : string)
  : PipelineResult :=
  dag_build_result (Some success) (Some msg) (dr_completed st) (dr_summaries st)
    (dr_total_tokens st) (dr_node_costs st) g false.

(** What follows a node that ran: hard error, goal gate, budget ceiling, or the eager
    back-edge and the next round. *)
Definition after_run (g : PipelineGraph) (st : DagRun) (node_id : string) (o : NodeOutcome)
  : DagRun + PipelineResult :=
  let goal_gate := from_option pn_goal_gate false (pg_nodes g !! node_id) in
  if decide (no_status o = Error /\ node_continue_on_error g node_id = false) then
    inr (exit_early g st false
           ("Pipeline failed at node '" +:+ node_id +:+ "': " +:+ no_content o))
  else if decide (goal_gate = true /\ no_status o = Pass) then
    inr (exit_early g st true (no_content o))
  else
    let spent := total_pipeline_tokens (dr_total_tokens st) in
    match pg_max_total_tokens g with
    | Some max_total =>
        if (max_total <=? spent)%Z then
          inr (exit_early g st false
                 ("Pipeline token budget exhausted after node '" +:+ node_id +:+ "': spent "
                  +:+ pretty spent +:+ "/" +:+ pretty max_total +:+ " tokens"))
        else inl (eager_retry g st node_id)
    | None => inl (eager_retry g st node_id)
    end.

Context {W : Type} (h : Host W).

Definition run_node (rc : DagRunCtx) (st : DagRun) (node_id : string)
  : io W (DagRun + PipelineResult) :=
  let g := rc_graph rc in
  let remaining_tokens := remaining_pipeline_tokens (pg_max_total_tokens g) (dr_total_tokens st) in
  if decide (remaining_tokens = Some 0%Z) then
    mret (inr (exit_early g st false
      ("Pipeline token budget exhausted before node '" +:+ node_id +:+ "': spent "
       +:+ pretty (total_pipeline_tokens (dr_total_tokens st)) +:+ " tokens")))
  else
    fired ← try (fired_forward_into g node_id (dr_completed st));
    step ← dag_execute_node h rc node_id fired (dr_completed st) remaining_tokens
             (dr_feedback st !! node_id);
    match step with
    | Aborted reason =>
        mret (inr (exit_early g st false
          ("Pipeline aborted before node '" +:+ node_id +:+ "': " +:+ reason)))
    | Ran out => mret (after_run g (record_run st node_id out) node_id (dno_outcome out))
    end.

(** Quiescence: the next back-edge retry, or the derived result. *)
Definition back_phase (g : PipelineGraph) (st : DagRun) : DagRun + PipelineResult :=
  match retry_candidate st (fired_back st (back_edges g)) with
  | Some (target, src) => inl (retry_region g st target src)
  | None =>
      inr (dag_build_result None None (dr_completed st) (dr_summaries st) (dr_total_tokens st)
             (dr_node_costs st) g (dr_any_failure_prune st))
  end.

Definition dag_step (rc : DagRunCtx) (st : DagRun) : io W (DagRun + PipelineResult) :=
  let g := rc_graph rc in
  match runnable g st with
  | Some node_id => run_node rc st node_id
  | None =>
      match prunable g st with
      | Some (p, reason) => mret (inl (prune_node st p reason))
      | None => mret (back_phase g st)
      end
  end.

(** [None] when the fuel runs out. *)
Fixpoint dag_loop (fuel : nat) (rc : DagRunCtx) (st : DagRun) : io W (option PipelineResult) :=
  match fuel with
  | O => mret None
  | S fuel =>
      next ← dag_step rc st;
      match next with
      | inl st => dag_loop fuel rc st
      | inr result => mret (Some result)
      end
  end.

(** Each retry consumes one of the [MAX_NODE_RUNS] retries of a back-edge target; between
    two retries every step settles a node. *)
Definition dag_fuel (g : PipelineGraph) : nat :=
  S (Z.to_nat MAX_NODE_RUNS * length (back_edges g) * S (size (pg_nodes g)) + size (pg_nodes g)).

Definition execute_graph_dag (rc : DagRunCtx) : io W (option PipelineResult) :=
  dag_loop (dag_fuel (rc_graph rc)) rc DagRun_init.

(** ** Which graphs the scheduler accepts *)

Definition graph_is_dag_schedulable (g : PipelineGraph) : bool :=
  let nodes_ok := forallb (fun n =>
    negb (bool_decide (pn_handler n = Parallel) || bool_decide (pn_handler n = DynamicParallel))
    && bool_decide (pn_converge n = None) && bool_decide (pn_suggested_next n = None))
    (hm_values (pg_nodes g)) in
  let edges_ok := forallb (fun e =>
    edge_is_back g e || bool_decide (pe_label e = None)
      && f64_lt (f64_abs (f64_sub (pe_weight e) f64_one)) f64_epsilon) (pg_edges g) in
  let start := find_start_node g in
  let back_edges_ok := forallb (fun e =>
    negb (edge_is_back g e) || bool_decide (is_Some (pe_condition e))
      && (bool_decide (start = Some (pe_target e)) || negb (bool_decide (forward_preds g (pe_target e) = []))))
    (pg_edges g) in
  nodes_ok && edges_ok && back_edges_ok.
End scheduler.

(** ** Reachability lemmas *)

Section walk.
Variables (es : list PipelineEdge) (stop : string -> bool).

Definition es_edge (x y : string) : Prop :=
  exists e, e ∈ es /\ pe_source e = x /\ pe_target e = y.

Lemma elem_of_targets n y : y ∈ targets_from n es <-> es_edge n y.
Proof. apply elem_of_targets_from. Qed.

(** The edges still to be pushed. *)
Definition pending (seen : gset string) : nat :=
  length (filter (fun e => pe_source e ∉ seen) es).

Lemma pending_visit n seen :
  n ∉ seen -> pending seen = pending ({[n]} ∪ seen) + length (targets_from n es).
Proof.
  intros Hn. unfold pending, targets_from. rewrite length_fmap. clear stop.
  induction es as [|e l IH]; [done|]. rewrite !filter_cons.
  destruct (decide (pe_source e = n)) as [He|He].
  - rewrite decide_True by (by rewrite He). rewrite decide_False by set_solver. cbn. lia.
  - destruct (decide (pe_source e ∉ seen)) as [Hs|Hs].
    + rewrite decide_True by set_solver. cbn. lia.
    + rewrite decide_False by set_solver. lia.
Qed.

(** A set closed under the edges contains what is reachable from it. *)
Lemma es_closed (seen : gset string) x y :
  (forall a b, a ∈ seen -> es_edge a b -> b ∈ seen) -> x ∈ seen -> rtc es_edge x y -> y ∈ seen.
Proof. intros Hc Hx Hxy. induction Hxy; eauto. Qed.

Lemma stack_walk_spec start fuel seen stack :
  length stack + pending seen <= fuel ->
  (forall x, x ∈ seen \/ x ∈ stack -> rtc es_edge start x) ->
  (forall x y, x ∈ seen -> es_edge x y -> y ∈ seen \/ y ∈ stack) ->
  (forall x, x ∈ seen -> stop x = false) -> (start ∈ seen \/ start ∈ stack) ->
  exists b seen', stack_walk es stop fuel seen stack = Some (b, seen') /\
    if (b : bool) then exists x, rtc es_edge start x /\ stop x = true
    else (forall x, x ∈ seen' <-> rtc es_edge start x) /\ forall x, x ∈ seen' -> stop x = false.
Proof.
  revert seen stack; induction fuel as [|fuel IH]; intros seen stack Hf Hr Hc Hst Hs;
    (destruct stack as [|n stack];
     [exists false, seen; split; [done|]; split; [|done]; intros x; split; [auto|];
      apply es_closed; [intros a b Ha Hab; destruct (Hc a b Ha Hab); set_solver|set_solver]|]).
  - cbn in Hf. lia.
  - cbn [stack_walk]. destruct (stop n) eqn:Hn.
    + exists true, seen. split; [done|]. exists n. split; [apply Hr; set_solver|done].
    + case_decide as Hin.
      * apply IH; [cbn in Hf; lia| | |done|]; set_solver.
      * assert (Hnr : rtc es_edge start n) by (apply Hr; set_solver).
        apply IH.
        -- rewrite (pending_visit n seen Hin) in Hf. rewrite length_app, length_reverse. cbn in Hf. lia.
        -- intros x Hx. rewrite elem_of_union, elem_of_app, elem_of_reverse, elem_of_targets in Hx.
           destruct Hx as [[Hx%elem_of_singleton|?]|[?|?]]; [by subst| | |]; [apply Hr; set_solver| |apply Hr; set_solver].
           by eapply rtc_r.
        -- intros x y. rewrite elem_of_union, elem_of_singleton, elem_of_app, elem_of_reverse, elem_of_targets.
           intros [->|Hx] Hxy; [auto|]. destruct (Hc x y Hx Hxy) as [?|[->|?]%elem_of_cons]; set_solver.
        -- set_solver.
        -- set_solver.
Qed.

Lemma stack_walk_from start :
  exists b seen, stack_walk es stop (walk_fuel es) ∅ [start] = Some (b, seen) /\
    if (b : bool) then exists x, rtc es_edge start x /\ stop x = true
    else (forall x, x ∈ seen <-> rtc es_edge start x) /\ forall x, x ∈ seen -> stop x = false.
Proof.
  apply stack_walk_spec.
  - unfold pending, walk_fuel. cbn [length plus]. apply le_n_S, length_filter.
  - intros x [Hx|Hx]; [set_solver|]. by apply list_elem_of_singleton in Hx as ->.
  - set_solver.
  - set_solver.
  - set_solver.
Qed.
End walk.

Lemma graph_reaches_spec g a b : graph_reaches g a b = true <-> rtc (edge g) a b.
Proof.
  unfold graph_reaches.
  destruct (stack_walk_from (pg_edges g) (fun n => bool_decide (n = b)) a) as (r & seen & -> & Hr).
  change (es_edge (pg_edges g)) with (edge g) in Hr. destruct r.
  - destruct Hr as (x & Hx & ->%bool_decide_eq_true). done.
  - destruct Hr as [Hs Hst]. split; [done|]. intros Hab%Hs%Hst.
    by apply bool_decide_eq_false in Hab.
Qed.

(** An edge along which outputs flow. *)
Definition fedge (g : PipelineGraph) (x y : string) : Prop := es_edge (forward_edges g) x y.

Lemma forward_reachable_spec g a x : x ∈ forward_reachable g a <-> rtc (fedge g) a x.
Proof.
  unfold forward_reachable.
  destruct (stack_walk_from (forward_edges g) (fun _ => false) a) as (r & seen & -> & Hr).
  destruct r; [by destruct Hr as (? & _ & ?)|]. by destruct Hr as [Hs _].
Qed.

Lemma elem_of_forward_preds g p id : p ∈ forward_preds g id <-> fedge g p id.
Proof.
  unfold forward_preds, fedge, es_edge. rewrite list_elem_of_fmap. split.
  - intros (e & -> & [Ht He]%list_elem_of_filter). eauto.
  - intros (e & He & <- & Ht). exists e. split; [done|]. by apply list_elem_of_filter.
Qed.

Lemma fedge_edge g x y : fedge g x y -> edge g x y.
Proof. intros (e & [_ He]%list_elem_of_filter & Hs & Ht). by exists e. Qed.

(** A back-edge is a marked edge on a cycle. *)
Lemma edge_is_back_spec g e :
  edge_is_back g e = true <-> edge_allows_back_edge e = true /\ rtc (edge g) (pe_target e) (pe_source e).
Proof. unfold edge_is_back, edge_allows_back_edge. by rewrite andb_true_iff, graph_reaches_spec. Qed.

(** When the unmarked edges form no cycle, neither do the forward edges: a marked edge
    on a cycle is a back-edge. *)
Lemma forward_acyclic g :
  (forall n, ~ tc (plain_edge g) n n) -> forall n, ~ tc (fedge g) n n.
Proof.
  intros Hac n Hn.
  assert (Hplain : forall x y, fedge g x y -> rtc (fedge g) y x -> plain_edge g x y).
  { intros x y (e & [Hb He]%list_elem_of_filter & <- & <-) Hr. exists e. split_and!; [done| |done..].
    apply not_true_iff_false. intros Hm. apply not_true_iff_false in Hb. apply Hb.
    apply edge_is_back_spec. split; [done|]. revert Hr. apply rtc_congruence with (f := id).
    intros. by apply fedge_edge. }
  apply (Hac n).
  assert (Hgen : forall x y, tc (fedge g) x y -> rtc (fedge g) y x -> tc (plain_edge g) x y).
  { intros x y Hxy. induction Hxy as [x y Hxy|x y z Hxy Hyz IH]; intros Hback.
    - apply tc_once. auto.
    - eapply tc_l; [apply Hplain; [done|]|apply IH].
      + etrans; [by apply tc_rtc|done].
      + etrans; [done|]. by apply rtc_once. }
  apply Hgen; [done|]. by apply tc_rtc.
Qed.

(** Forward predecessors are well-founded on such graphs. *)
Lemma fedge_wf g n :
  (forall n, ~ tc (plain_edge g) n n) -> Acc (fedge g) n.
Proof.
  intros Hac. change (sn (flip (fedge g)) n).
  assert (Hflip : forall a b, tc (flip (fedge g)) a b -> tc (fedge g) b a).
  { intros a b Hab. induction Hab as [a b Hab|a b c Hab _ IH]; [by apply tc_once|].
    by eapply tc_r. }
  apply (@tc_finite_sn _ (flip (fedge g)) n).
  - intros x Hx. by apply (forward_acyclic g Hac x), Hflip.
  - exists (pe_source <$> pg_edges g). intros x Hx%Hflip.
    assert (Hsrc : exists y, fedge g x y) by (inversion Hx; eauto).
    destruct Hsrc as (y & e & [_ He]%list_elem_of_filter & <- & _).
    apply list_elem_of_fmap. eauto.
Qed.
