(* ===== verification/DagSafety.v ===== *)
(** * Correctness of the DAG scheduler

    Theorems about [Dag]: an invariant of the reachable scheduler states (by rule
    induction over a transition relation that covers every step of
    [execute_graph_dag]), termination within a computed bound, bounded retries,
    fail-closed joins, completeness on validated graphs, the meaning of the success
    verdict, and independence of the hash-map iteration order.  All hold for every
    host. *)

From S2P Require Import Prelude RustStr RustNum Fidelity Graph Condition Parser ToolPolicy.
From S2P Require Import Validate Host Dispatch Dag.

(** ** Readiness depends on the forward predecessors only *)

Lemma settled_spec c p id : settled c p id = true <-> is_Some (c !! id) \/ is_Some (p !! id).
Proof. unfold settled. by rewrite orb_true_iff, !bool_decide_eq_true, !elem_of_dom. Qed.

Section readiness.
Context `{RF : RustFmt} (g : PipelineGraph).
Implicit Types (c : gmap string NodeOutcome) (p : gmap string PruneReason) (id : string).

(** Two pairs of maps that agree on the forward predecessors of [id]. *)
Definition agree_on_preds id c1 p1 c2 p2 : Prop :=
  forall q, fedge g q id -> c1 !! q = c2 !! q /\ p1 !! q = p2 !! q.

Lemma fired_go_agree es c1 c2 :
  (forall e, e ∈ es -> c1 !! pe_source e = c2 !! pe_source e) -> fired_go g es c1 = fired_go g es c2.
Proof.
  induction es as [|e es IH]; intros Ha; cbn [fired_go]; [done|].
  rewrite (Ha e) by left. rewrite IH; [done|]. intros e' He'. apply Ha. by right.
Qed.

Lemma fired_into_agree id c1 p1 c2 p2 :
  agree_on_preds id c1 p1 c2 p2 -> fired_forward_into g id c1 = fired_forward_into g id c2.
Proof.
  intros Ha. apply fired_go_agree. intros e [Ht He]%list_elem_of_filter.
  apply Ha. exists e. done.
Qed.

Lemma forallb_ext_in {A} (f h : A -> bool) l :
  (forall x, x ∈ l -> f x = h x) -> forallb f l = forallb h l.
Proof.
  induction l as [|x l IH]; intros Hx; cbn; [done|]. rewrite Hx by left. f_equal. apply IH.
  intros y Hy. apply Hx. by right.
Qed.

Lemma existsb_ext_in {A} (f h : A -> bool) l :
  (forall x, x ∈ l -> f x = h x) -> existsb f l = existsb h l.
Proof.
  induction l as [|x l IH]; intros Hx; cbn; [done|]. rewrite Hx by left. f_equal. apply IH.
  intros y Hy. apply Hx. by right.
Qed.

Lemma readiness_agree id c1 p1 c2 p2 :
  agree_on_preds id c1 p1 c2 p2 -> dag_node_readiness g id c1 p1 = dag_node_readiness g id c2 p2.
Proof.
  intros Ha. unfold dag_node_readiness. cbv zeta.
  assert (Hs : forallb (settled c1 p1) (forward_preds g id) = forallb (settled c2 p2) (forward_preds g id)).
  { apply forallb_ext_in. intros q [Hc Hp]%elem_of_forward_preds%Ha. unfold settled.
    f_equal; apply bool_decide_ext; rewrite !elem_of_dom; [by rewrite Hc|by rewrite Hp]. }
  rewrite Hs. destruct (negb _); [done|]. case_decide; [done|].
  rewrite (fired_into_agree _ _ _ _ _ Ha). destruct (fired_forward_into g id c2) as [fired|e]; [|done].
  cbn [mbind result_bind].
  rewrite (existsb_ext_in (missing_required g id c1 p1 fired) (missing_required g id c2 p2 fired)); [done|].
  intros q [Hc Hp]%elem_of_forward_preds%Ha. unfold missing_required. by rewrite Hc, Hp.
Qed.

(** A verdict other than [NotReady] needs settled predecessors. *)
Lemma readiness_settled id c p r q :
  dag_node_readiness g id c p = Ok r -> r <> NotReady -> fedge g q id -> settled c p q = true.
Proof.
  unfold dag_node_readiness. cbv zeta. destruct (negb _) eqn:Hs; [by intros [= <-]|].
  intros _ _ Hq%elem_of_forward_preds. apply negb_false_iff in Hs.
  rewrite forallb_forall in Hs. by apply Hs, list_elem_of_In.
Qed.

(** What a fired input is. *)
Lemma fired_go_spec es c fired q :
  fired_go g es c = Ok fired -> q ∈ fired <->
  exists e o, e ∈ es /\ pe_source e = q /\ c !! q = Some o /\
    dag_forward_edge_fires g e o (node_continue_on_error g q) = Ok true.
Proof.
  revert fired; induction es as [|e es IH]; intros fired; cbn [fired_go].
  - intros [= <-]. split; [by intros ?%not_elem_of_nil|]. by intros (e & o & ?%not_elem_of_nil & _).
  - destruct (c !! pe_source e) as [o|] eqn:Ho.
    + intros (b & Hb & Hf)%bind_Ok. apply bind_Ok in Hf as (rest & Hrest & Hf). injection Hf as <-.
      specialize (IH _ Hrest). destruct b.
      * rewrite elem_of_cons, IH. setoid_rewrite elem_of_cons. split.
        -- intros [->|(e' & o' & ? & ?)]; [|naive_solver]. exists e, o. naive_solver.
        -- intros (e' & o' & [->|He'] & <- & ? & ?); [by left|right; eauto 10].
      * rewrite IH. setoid_rewrite elem_of_cons. split; [naive_solver|].
        intros (e' & o' & [->|He'] & <- & ? & ?); [simplify_eq; congruence|eauto 10].
    + intros Hf. rewrite (IH _ Hf). setoid_rewrite elem_of_cons. split; [naive_solver|].
      intros (e' & o' & [->|He'] & <- & ? & ?); [congruence|eauto 10].
Qed.

(** With parsing conditions, firing and readiness never err. *)
Hypothesis conditions_parse : forall e cond, e ∈ pg_edges g -> pe_condition e = Some cond ->
  exists x, parse_condition cond = Ok x.

Lemma any_condition_matches_total es src :
  (forall e, e ∈ es -> e ∈ pg_edges g) -> exists b, any_condition_matches es src = Ok b.
Proof.
  induction es as [|e es IH]; intros Hin; cbn [any_condition_matches]; [by eexists|].
  destruct IH as [b Hb]; [set_solver|].
  destruct (pe_condition e) as [cond|] eqn:Hc; [|eauto].
  destruct (conditions_parse e cond) as [x Hx]; [set_solver|done|]. rewrite Hx. cbn.
  case_match; eauto.
Qed.

Lemma forward_edge_fires_total e src coe :
  e ∈ pg_edges g -> exists b, dag_forward_edge_fires g e src coe = Ok b.
Proof.
  intros He. unfold dag_forward_edge_fires, dag_edge_fires_normally.
  destruct (any_condition_matches_total (filter (fun e' => pe_source e' = pe_source e) (forward_edges g)) src)
    as [b Hb].
  { intros e' [_ [_ ?]%list_elem_of_filter]%list_elem_of_filter. done. }
  destruct (pe_condition e) as [cond|] eqn:Hc.
  - destruct (conditions_parse e cond He Hc) as [x ->]. cbn. rewrite Hb. cbn. repeat case_match; eauto.
  - rewrite Hb. cbn. repeat (case_match; cbn); eauto.
Qed.

Lemma readiness_total id c p : exists r, dag_node_readiness g id c p = Ok r.
Proof.
  unfold dag_node_readiness. cbv zeta. destruct (negb _); [by eexists|]. case_decide; [by eexists|].
  assert (Hf : exists fired, fired_forward_into g id c = Ok fired).
  { unfold fired_forward_into.
    assert (Hes : forall e, e ∈ filter (fun e => pe_target e = id) (forward_edges g) -> e ∈ pg_edges g).
    { intros e [_ [_ ?]%list_elem_of_filter]%list_elem_of_filter. done. }
    induction (filter _ _) as [|e es IH]; cbn [fired_go]; [by eexists|].
    destruct IH as [rest Hrest]; [set_solver|]. destruct (c !! pe_source e) as [o|]; [|eauto].
    destruct (forward_edge_fires_total e o (node_continue_on_error g (pe_source e))) as [b ->]; [set_solver|].
    rewrite Hrest. cbn. eauto. }
  destruct Hf as [fired ->]. cbn. repeat case_match; eauto.
Qed.
End readiness.

(** ** Transitions of the scheduler state *)

Section transitions.
Context `{HI : HashIter} `{RF : RustFmt}.
Variable g : PipelineGraph.
Implicit Types (st : DagRun) (id : string).

Inductive dag_trans : DagRun -> DagRun -> Prop :=
| trans_run st id out :
    id ∈ dom (pg_nodes g) -> is_runnable g st id = true ->
    dag_trans st (record_run st id out)
| trans_prune st id reason :
    id ∈ dom (pg_nodes g) -> prune_reason g st id = Some reason ->
    dag_trans st (prune_node st id reason)
| trans_retry st target src :
    (target, src) ∈ fired_back st (back_edges g) -> (retries_of st target < MAX_NODE_RUNS)%Z ->
    dag_trans st (retry_region g st target src).

Definition dag_reachable st : Prop := rtc dag_trans DagRun_init st.

Definition back_targets : list string := remove_dups (pe_target <$> back_edges g).

Record dag_inv st : Prop := {
  inv_nodes : forall id, settled (dr_completed st) (dr_pruned st) id = true -> id ∈ dom (pg_nodes g);
  inv_disjoint : forall id, is_Some (dr_completed st !! id) -> dr_pruned st !! id = None;
  inv_completed : forall id, is_Some (dr_completed st !! id) ->
    dag_node_readiness g id (dr_completed st) (dr_pruned st) = Ok Runnable;
  inv_pruned : forall id r, dr_pruned st !! id = Some r ->
    dag_node_readiness g id (dr_completed st) (dr_pruned st) = Ok (Prune r);
  inv_retry : forall t, (0 <= retries_of st t <= MAX_NODE_RUNS)%Z;
  inv_failure : dr_any_failure_prune st = false -> forall id, dr_pruned st !! id <> Some Failure_prune
}.

(** Settling a fresh node does not change a verdict that is not [NotReady]. *)
Lemma settle_agree c p c' p' id x r :
  dag_node_readiness g id c p = Ok r -> r <> NotReady -> settled c p x = false ->
  (forall y, y <> x -> c' !! y = c !! y /\ p' !! y = p !! y) ->
  dag_node_readiness g id c' p' = Ok r.
Proof.
  intros Hr Hn Hx Hag. rewrite <- Hr. apply readiness_agree. intros q Hq.
  destruct (decide (q = x)) as [->|Hne]; [|by apply Hag].
  eapply readiness_settled in Hq; [|done..]. congruence.
Qed.

(** Forgetting a region closed under forward edges does not change verdicts outside. *)
Lemma region_agree c p id target :
  id ∉ forward_reachable g target ->
  dag_node_readiness g id (filter (fun kv => kv.1 ∉ forward_reachable g target) c)
    (filter (fun kv => kv.1 ∉ forward_reachable g target) p) = dag_node_readiness g id c p.
Proof.
  intros Hid. apply readiness_agree. intros q Hq.
  assert (Hnq : q ∉ forward_reachable g target).
  { rewrite forward_reachable_spec in *. intros Hr. apply Hid. by eapply rtc_r. }
  split; apply option_eq; intros v; rewrite map_lookup_filter_Some; naive_solver.
Qed.

Lemma retries_of_retry st target src t :
  retries_of (retry_region g st target src) t =
  if decide (target = t) then (retries_of st target + 1)%Z else retries_of st t.
Proof. unfold retries_of. cbn. rewrite lookup_insert. by case_decide. Qed.

Lemma dag_inv_init : dag_inv DagRun_init.
Proof.
  split; cbn; try done; by intros id [].
Qed.

Lemma dag_inv_run st id out :
  dag_inv st -> id ∈ dom (pg_nodes g) -> is_runnable g st id = true -> dag_inv (record_run st id out).
Proof.
  intros [Hn Hd Hc Hp Hr Hf] Hid Hrun. unfold is_runnable in Hrun. apply andb_true_iff in Hrun as [Hs Hrun].
  apply negb_true_iff in Hs.
  destruct (dag_node_readiness g id (dr_completed st) (dr_pruned st)) as [[| |]|] eqn:Hready; try done.
  assert (Hag : forall y, y <> id ->
    <[id := dno_outcome out]> (dr_completed st) !! y = dr_completed st !! y /\
    dr_pruned st !! y = dr_pruned st !! y) by (intros; by rewrite lookup_insert_ne).
  assert (Hnp : dr_pruned st !! id = None).
  { apply eq_None_not_Some. intros Hsome. apply not_true_iff_false in Hs. apply Hs, settled_spec. by right. }
  split; cbn; try done.
  - intros y Hy%settled_spec. destruct (decide (y = id)) as [->|Hne]; [done|].
    rewrite lookup_insert_ne in Hy by done. by apply Hn, settled_spec.
  - intros y. destruct (decide (y = id)) as [->|Hne]; [done|]. rewrite lookup_insert_ne by done. auto.
  - intros y Hy. eapply settle_agree; [|done|exact Hs|done].
    destruct (decide (y = id)) as [->|Hne]; [done|]. rewrite lookup_insert_ne in Hy by done. auto.
  - intros y r Hy. eapply settle_agree; [by apply Hp|done|exact Hs|done].
Qed.

Lemma dag_inv_prune st id reason :
  dag_inv st -> id ∈ dom (pg_nodes g) -> prune_reason g st id = Some reason ->
  dag_inv (prune_node st id reason).
Proof.
  intros [Hn Hd Hc Hp Hr Hf] Hid Hrun. unfold prune_reason in Hrun.
  destruct (settled (dr_completed st) (dr_pruned st) id) eqn:Hs; [done|].
  destruct (dag_node_readiness g id (dr_completed st) (dr_pruned st)) as [[| |r]|] eqn:Hready; try done.
  injection Hrun as ->.
  assert (Hag : forall y, y <> id -> dr_completed st !! y = dr_completed st !! y /\
    <[id := reason]> (dr_pruned st) !! y = dr_pruned st !! y) by (intros; by rewrite lookup_insert_ne).
  assert (Hnc : dr_completed st !! id = None).
  { apply eq_None_not_Some. intros Hsome. apply not_true_iff_false in Hs. apply Hs, settled_spec. by left. }
  split; cbn; try done.
  - intros y Hy%settled_spec. destruct (decide (y = id)) as [->|Hne]; [done|].
    rewrite lookup_insert_ne in Hy by done. by apply Hn, settled_spec.
  - intros y Hy. destruct (decide (y = id)) as [->|Hne]; [by rewrite Hnc in Hy; destruct Hy|].
    rewrite lookup_insert_ne by done. auto.
  - intros y Hy. eapply settle_agree; [by apply Hc|done|exact Hs|done].
  - intros y r Hy. eapply settle_agree; [|done|exact Hs|done].
    destruct (decide (y = id)) as [->|Hne]; [rewrite lookup_insert_eq in Hy; by simplify_eq|].
    rewrite lookup_insert_ne in Hy by done. auto.
  - intros [Hff Hre]%orb_false_iff y Hy. bool_to_prop.
    destruct (decide (y = id)) as [->|Hne]; [rewrite lookup_insert_eq in Hy; by simplify_eq|].
    rewrite lookup_insert_ne in Hy by done. by eapply Hf.
Qed.

Lemma dag_inv_retry st target src :
  dag_inv st -> (retries_of st target < MAX_NODE_RUNS)%Z -> dag_inv (retry_region g st target src).
Proof.
  intros [Hn Hd Hc Hp Hr Hf] Hlt. split.
  - cbn. intros y Hy%settled_spec. apply Hn, settled_spec.
    destruct Hy as [[v Hv]|[v Hv]]; apply map_lookup_filter_Some in Hv as [Hv _]; eauto.
  - cbn. intros y [v [Hv Hy]%map_lookup_filter_Some]. apply map_lookup_filter_None. left. eauto.
  - cbn. intros y [v [Hv Hy]%map_lookup_filter_Some]. rewrite region_agree by done. eauto.
  - cbn. intros y r [Hv Hy]%map_lookup_filter_Some. rewrite region_agree by done. eauto.
  - intros t. rewrite retries_of_retry. pose proof (Hr t). pose proof (Hr target).
    case_decide; lia.
  - cbn. intros Hff y [Hv _]%map_lookup_filter_Some. by eapply Hf.
Qed.

Lemma dag_inv_trans st st' : dag_inv st -> dag_trans st st' -> dag_inv st'.
Proof. intros Hi Ht. destruct Ht; auto using dag_inv_run, dag_inv_prune, dag_inv_retry. Qed.

Lemma dag_inv_reachable st : dag_reachable st -> dag_inv st.
Proof.
  unfold dag_reachable. generalize dag_inv_init. generalize DagRun_init as st0.
  intros st0 Hi Hr. induction Hr; eauto using dag_inv_trans.
Qed.

(** Every step of the loop is a sequence of transitions. *)
Lemma elem_of_runnable st id :
  runnable g st = Some id -> id ∈ dom (pg_nodes g) /\ is_runnable g st id = true.
Proof.
  intros [Hr Hk]%str_min_elem%list_elem_of_filter. split; [|done].
  by apply elem_of_dom, elem_of_hm_keys.
Qed.

Lemma elem_of_prunable st id r :
  prunable g st = Some (id, r) -> id ∈ dom (pg_nodes g) /\ prune_reason g st id = Some r.
Proof.
  unfold prunable. intros (p & [_ Hp]%str_min_elem%list_elem_of_filter & Hr)%bind_Some.
  apply bind_Some in Hr as (r' & Hr' & [= <- <-]). split; [|done]. by apply elem_of_dom, elem_of_hm_keys.
Qed.

Lemma retry_candidate_spec st es target src :
  retry_candidate st (fired_back st es) = Some (target, src) ->
  (forall e, e ∈ es -> e ∈ back_edges g) -> dag_trans st (retry_region g st target src).
Proof.
  intros [Hin%list_elem_of_In Hlt]%List.find_some Hes. apply trans_retry.
  - unfold fired_back in *. apply list_elem_of_omap in Hin as (e & He & Hf).
    apply list_elem_of_omap. eauto.
  - by apply Z.ltb_lt.
Qed.

Lemma eager_retry_trans st id : rtc dag_trans st (eager_retry g st id).
Proof.
  unfold eager_retry. destruct (retry_candidate _ _) as [[t src]|] eqn:Hc; [|done].
  apply rtc_once. eapply retry_candidate_spec; [exact Hc|].
  intros e [_ He]%list_elem_of_filter. done.
Qed.

Context {W : Type} (h : Host W) (rc : DagRunCtx) (Hrc : rc_graph rc = g).

Lemma dag_step_trans st w st' w' :
  dag_step h rc st w = (Val (inl st'), w') -> tc dag_trans st st'.
Proof.
  unfold dag_step. rewrite Hrc. cbv zeta. destruct (runnable g st) as [id|] eqn:Hrun.
  - apply elem_of_runnable in Hrun as [Hid Hrun]. unfold run_node. rewrite Hrc. cbv zeta.
    case_decide; [done|]. intros (fired & w1 & _ & Hs)%io_bind_Val.
    apply io_bind_Val in Hs as ([out|reason] & w2 & _ & Hs); [|done].
    unfold mret, io_ret, after_run in Hs. cbv zeta in Hs.
    assert (Hst : st' = eager_retry g (record_run st id out) id).
    { repeat case_match; simplify_eq; done. }
    subst st'. eapply tc_rtc_r; [apply tc_once; by apply (trans_run st id out)|apply eager_retry_trans].
  - destruct (prunable g st) as [[p r]|] eqn:Hp.
    + intros [= <- _]. apply elem_of_prunable in Hp as [Hid Hp]. by apply tc_once, trans_prune.
    + unfold back_phase. destruct (retry_candidate _ _) as [[t src]|] eqn:Hc; intros [= <- _].
      apply tc_once. by eapply retry_candidate_spec.
Qed.
End transitions.

(** ** Termination *)

Lemma sum_list_with_lt (f f' : string -> nat) l t :
  NoDup l -> t ∈ l -> f' t < f t -> (forall x, x <> t -> f' x = f x) ->
  sum_list_with f' l < sum_list_with f l.
Proof.
  intros Hnd Ht Hlt Heq. induction Hnd as [|x l Hx Hnd IH]; [by apply not_elem_of_nil in Ht|].
  assert (Hrest : t ∉ l -> sum_list_with f' l = sum_list_with f l).
  { intros Hn. clear - Hn Heq. induction l as [|y l IH]; [done|]. cbn.
    rewrite IH by set_solver. rewrite Heq by set_solver. done. }
  cbn. destruct (decide (x = t)) as [->|Hne].
  - rewrite Hrest by done. lia.
  - rewrite Heq by done. assert (t ∈ l) by set_solver. specialize (IH H). lia.
Qed.

Lemma length_remove_dups_le (l : list string) : length (remove_dups l) <= length l.
Proof. induction l as [|x l IH]; cbn; [done|]. case_decide; cbn; lia. Qed.

Lemma sum_list_with_const (l : list string) (f : string -> nat) k :
  (forall x, x ∈ l -> f x <= k) -> sum_list_with f l <= k * length l.
Proof.
  induction l as [|x l IH]; intros Hf; cbn; [lia|].
  assert (f x <= k) by (apply Hf; left).
  assert (sum_list_with f l <= k * length l) by (apply IH; intros; apply Hf; by right). lia.
Qed.

Section measure.
Context `{HI : HashIter} `{RF : RustFmt}.
Variable g : PipelineGraph.
Implicit Types (st : DagRun).

Definition node_count : nat := size (pg_nodes g).

(** Retries still available, over the distinct back-edge targets. *)
Definition retries_left st : nat :=
  sum_list_with (fun t => Z.to_nat (MAX_NODE_RUNS - retries_of st t)) (back_targets g).

Definition settled_set st : gset string := dom (dr_completed st) ∪ dom (dr_pruned st).

Definition unsettled_count st : nat := size (dom (pg_nodes g) ∖ settled_set st).

Definition dag_measure st : nat := retries_left st * S node_count + unsettled_count st.

Lemma elem_of_settled_set st id :
  id ∈ settled_set st <-> settled (dr_completed st) (dr_pruned st) id = true.
Proof. unfold settled_set. by rewrite elem_of_union, settled_spec, !elem_of_dom. Qed.

Lemma settled_set_nodes st : dag_inv g st -> settled_set st ⊆ dom (pg_nodes g).
Proof. intros Hi id Hid. by apply (inv_nodes g st Hi), elem_of_settled_set. Qed.

Lemma size_settled st : dag_inv g st -> size (settled_set st) <= node_count.
Proof. intros Hi. unfold node_count. rewrite <- size_dom. by apply subseteq_size, settled_set_nodes. Qed.

Lemma unsettled_le st : unsettled_count st <= node_count.
Proof. unfold unsettled_count, node_count. rewrite <- size_dom. apply subseteq_size. set_solver. Qed.

(** Settling transitions. *)
Lemma run_settles st id out :
  is_runnable g st id = true ->
  id ∉ settled_set st /\ settled_set (record_run st id out) = {[id]} ∪ settled_set st.
Proof.
  unfold is_runnable. intros [Hs%negb_true_iff _]%andb_true_iff. split.
  - rewrite elem_of_settled_set. by rewrite Hs.
  - unfold settled_set. cbn. rewrite dom_insert_L. set_solver.
Qed.

Lemma prune_settles st id r :
  prune_reason g st id = Some r ->
  id ∉ settled_set st /\ settled_set (prune_node st id r) = {[id]} ∪ settled_set st.
Proof.
  unfold prune_reason. destruct (settled _ _ id) eqn:Hs; [done|]. intros _. split.
  - rewrite elem_of_settled_set. by rewrite Hs.
  - unfold settled_set. cbn. rewrite dom_insert_L. set_solver.
Qed.

Lemma settle_measure st st' id :
  id ∈ dom (pg_nodes g) -> id ∉ settled_set st -> settled_set st' = {[id]} ∪ settled_set st ->
  dr_retry_count st' = dr_retry_count st -> dag_measure st' < dag_measure st.
Proof.
  intros Hid Hn Hs Hr. unfold dag_measure, retries_left, retries_of. rewrite Hr.
  assert (unsettled_count st' < unsettled_count st); [|lia].
  unfold unsettled_count. rewrite Hs. apply subset_size. set_solver.
Qed.

Lemma fired_back_target st target src :
  (target, src) ∈ fired_back st (back_edges g) -> target ∈ back_targets g.
Proof.
  unfold fired_back, back_targets. intros (e & He & Hf)%list_elem_of_omap.
  apply bind_Some in Hf as (o & _ & Hf). case_match; simplify_eq.
  apply elem_of_remove_dups, list_elem_of_fmap. eauto.
Qed.

Lemma retry_uses st target src :
  dag_inv g st -> (target, src) ∈ fired_back st (back_edges g) ->
  (retries_of st target < MAX_NODE_RUNS)%Z ->
  retries_left (retry_region g st target src) < retries_left st.
Proof.
  intros Hi Hf Hlt. unfold retries_left.
  apply (sum_list_with_lt _ _ _ target); [apply NoDup_remove_dups|by eapply fired_back_target| |].
  - rewrite retries_of_retry, decide_True by done. pose proof (inv_retry g st Hi target). lia.
  - intros x Hx. by rewrite retries_of_retry, decide_False.
Qed.

Lemma trans_measure st st' : dag_inv g st -> dag_trans g st st' -> dag_measure st' < dag_measure st.
Proof.
  intros Hi Ht. destruct Ht as [st id out Hid Hr|st id r Hid Hp|st t src Hf Hlt].
  - destruct (run_settles st id out Hr). by eapply settle_measure.
  - destruct (prune_settles st id r Hp). by eapply settle_measure.
  - pose proof (retry_uses st t src Hi Hf Hlt) as Hu. unfold dag_measure.
    pose proof (unsettled_le (retry_region g st t src)). nia.
Qed.

Lemma tc_trans_measure st st' :
  dag_inv g st -> tc (dag_trans g) st st' -> dag_measure st' < dag_measure st /\ dag_inv g st'.
Proof.
  intros Hi Ht. induction Ht as [st st' Ht|st st1 st' Ht _ IH].
  - eauto using trans_measure, dag_inv_trans.
  - pose proof (trans_measure st st1 Hi Ht). destruct IH; [by eapply dag_inv_trans|]. split; [lia|done].
Qed.

Lemma retries_left_init :
  retries_left DagRun_init <= Z.to_nat MAX_NODE_RUNS * length (back_targets g).
Proof. by apply sum_list_with_const. Qed.

Lemma measure_init : dag_measure DagRun_init < dag_fuel g.
Proof.
  unfold dag_measure, dag_fuel. pose proof (unsettled_le DagRun_init) as Hu.
  pose proof retries_left_init as Hr.
  assert (Hl : length (back_targets g) <= length (back_edges g)).
  { unfold back_targets. etrans; [apply length_remove_dups_le|]. by rewrite length_fmap. }
  assert (Hrb : retries_left DagRun_init <= Z.to_nat MAX_NODE_RUNS * length (back_edges g))
    by (etrans; [exact Hr|]; by apply Nat.mul_le_mono_l).
  apply (Nat.mul_le_mono_r _ _ (S node_count)) in Hrb. unfold node_count in *. lia.
Qed.

(** Every execution of a node is paid for by a settled node or by a retry. *)
Definition runs_paid st : Prop :=
  length (dr_summaries st) + node_count * retries_left st <=
  size (settled_set st) + node_count * retries_left DagRun_init.

Lemma runs_paid_trans st st' : dag_inv g st -> runs_paid st -> dag_trans g st st' -> runs_paid st'.
Proof.
  unfold runs_paid. intros Hi Hp Ht. destruct Ht as [st id out Hid Hrun|st id r Hid Hpr|st t src Hf Hlt].
  - destruct (run_settles st id out Hrun) as [Hn ->]. rewrite size_union, size_singleton by set_solver.
    change (retries_left (record_run st id out)) with (retries_left st).
    cbn [dr_summaries record_run]. rewrite length_app. cbn [length]. lia.
  - destruct (prune_settles st id r Hpr) as [Hn ->]. rewrite size_union, size_singleton by set_solver.
    change (retries_left (prune_node st id r)) with (retries_left st).
    cbn [dr_summaries prune_node]. lia.
  - pose proof (retry_uses st t src Hi Hf Hlt). pose proof (size_settled st Hi).
    cbn [dr_summaries retry_region]. nia.
Qed.

Lemma runs_paid_reachable st : dag_reachable g st -> runs_paid st.
Proof.
  assert (Hinit : runs_paid DagRun_init) by (unfold runs_paid; cbn [dr_summaries DagRun_init length]; lia).
  revert Hinit. unfold dag_reachable. generalize (dag_inv_init g). generalize DagRun_init at 1 2 3 as st0.
  intros st0 Hi Hp Hr. induction Hr; eauto using dag_inv_trans, runs_paid_trans.
Qed.

Context {W : Type} (h : Host W) (rc : DagRunCtx) (Hrc : rc_graph rc = g).

Lemma dag_loop_terminates fuel st w :
  dag_inv g st -> dag_measure st < fuel -> (dag_loop h fuel rc st w).1 <> Val None.
Proof.
  revert st w; induction fuel as [|fuel IH]; intros st w Hi Hf; [lia|].
  cbn [dag_loop]. unfold mbind, io_bind.
  destruct (dag_step h rc st w) as [[[st'|r]|e|] w'] eqn:Hs; [|done..].
  apply (dag_step_trans g h rc Hrc) in Hs. apply tc_trans_measure in Hs as [Hm Hi']; [|done].
  apply IH; [done|lia].
Qed.

(** One step of a run that goes on, on scheduler state and world. *)
Definition sched_step (c c' : DagRun * W) : Prop :=
  dag_step h rc c.1 c.2 = (Val (inl c'.1), c'.2).

Lemma sched_reachable c c' :
  dag_reachable g c.1 -> rtc sched_step c c' -> dag_reachable g c'.1.
Proof.
  intros Hr Hs. induction Hs as [|c c1 c' Hs _ IH]; [done|]. apply IH.
  apply (dag_step_trans g h rc Hrc) in Hs. unfold dag_reachable in *.
  etrans; [done|]. by apply tc_rtc.
Qed.

Lemma sched_steps_measure k c c' :
  dag_inv g c.1 -> nsteps sched_step k c c' -> k + dag_measure c'.1 <= dag_measure c.1.
Proof.
  intros Hi Hs. induction Hs as [c|k c c1 c' Hs _ IH]; [done|].
  apply (dag_step_trans g h rc Hrc), tc_trans_measure in Hs as [Hm Hi']; [|done].
  specialize (IH Hi'). lia.
Qed.

(** The last step of a finished run. *)
Lemma dag_loop_result fuel st w r w' :
  dag_loop h fuel rc st w = (Val (Some r), w') ->
  exists st1 w1, rtc sched_step (st, w) (st1, w1) /\ dag_step h rc st1 w1 = (Val (inr r), w').
Proof.
  revert st w; induction fuel as [|fuel IH]; intros st w; [done|].
  cbn [dag_loop]. intros ([st'|r'] & w1 & Hs & Hl)%io_bind_Val.
  - apply IH in Hl as (st1 & w2 & Hl & Hd). exists st1, w2. split; [|done].
    by apply (rtc_l _ _ (st', w1)).
  - injection Hl as -> ->. exists st, w. split; [apply rtc_refl|done].
Qed.

End measure.

Lemma execute_graph_dag_ends `{HashIter} `{RustFmt} {W : Type} (h : Host W) (rc : DagRunCtx) (w : W) :
  (execute_graph_dag h rc w).1 <> Val None.
Proof. by apply (dag_loop_terminates (rc_graph rc)); [|apply dag_inv_init|apply measure_init]. Qed.

(** C1.  The scheduler terminates: for every graph (validated or not), every host and
    every world, every sequence of scheduler steps from the initial state is shorter than
    [dag_fuel], that is [10 * b * (n + 1) + n + 1] for [n] nodes and [b] back-edges, so
    the loop of [execute_graph_dag] never runs out of fuel: it ends in a result, an error
    or a panic. *)
Theorem execute_graph_dag_terminates `{HashIter} `{RustFmt} {W : Type} (h : Host W) (rc : DagRunCtx) (w : W) :
  (execute_graph_dag h rc w).1 <> Val None /\
  forall k c, nsteps (sched_step h rc) k (DagRun_init, w) c -> k < dag_fuel (rc_graph rc).
Proof.
  split; [apply execute_graph_dag_ends|].
  intros k c Hk. pose proof (measure_init (rc_graph rc)).
  apply (sched_steps_measure (rc_graph rc)) in Hk; [cbn [fst] in Hk; lia|done|apply dag_inv_init].
Qed.


(** A retry loop: [start -> work -> check], and [check -> work] while the check fails. *)
Definition loop_dot : string :=
  "digraph loop { start -> work -> check; check -> work [label=retry, condition=" +:+
  quoted "outcome.status == \!fail\!" +:+ "] }".

Definition unescape_bang (s : string) : string := replace s "!" (String DQ "").

Definition graph_of (dot : string) : PipelineGraph :=
  match @parse_dot ascii_tables (unescape_bang dot) with Ok g => g | Err _ => demo_graph end.

Definition run_ctx (g : PipelineGraph) : DagRunCtx :=
  {| rc_graph := g; rc_user_input := "go"; rc_variables := [] |}.

Definition demo_out (id : string) : DagNodeOutput :=
  {| dno_outcome := demo_outcome id Pass;
     dno_summary := {| ns_node_id := id; ns_label := id; ns_model := None;
                       ns_token_usage := TokenUsage_default; ns_duration_ms := 0; ns_success := true |};
     dno_cost := {| nc_node_id := id; nc_model := None; nc_reserved_usd := f64_zero;
                    nc_actual_usd := f64_zero; nc_tokens_in := 0; nc_tokens_out := 0;
                    nc_committed := false |} |}.

Definition started_state : DagRun := record_run DagRun_init "start" (demo_out "start").

Lemma started_reachable : @dag_reachable no_fmt (graph_of loop_dot) started_state.
Proof.
  apply rtc_once, trans_run; [|by vm_compute].
  apply (bool_decide_eq_true ("start" ∈ dom (pg_nodes (graph_of loop_dot)))). by vm_compute.
Qed.


(** ** Fail-closed joins *)

Definition failed (o : NodeOutcome) : Prop := no_status o = Fail \/ no_status o = Error.

(** The edge [e] from [q] to [id] fires on [q]'s outcome. *)
Definition input_fired `{RustFmt} (g : PipelineGraph) (st : DagRun) (q id : string) : Prop :=
  exists e o, e ∈ forward_edges g /\ pe_source e = q /\ pe_target e = id /\
    dr_completed st !! q = Some o /\
    dag_forward_edge_fires g e o (node_continue_on_error g q) = Ok true.

Lemma readiness_runnable `{RustFmt} g id c p :
  dag_node_readiness g id c p = Ok Runnable -> forward_preds g id <> [] ->
  exists fired, fired_forward_into g id c = Ok fired /\ fired <> [] /\
    forall q, fedge g q id -> missing_required g id c p fired q = false.
Proof.
  unfold dag_node_readiness. cbv zeta. destruct (negb _); [done|]. intros Hr Hne.
  rewrite decide_False in Hr by done. apply bind_Ok in Hr as (fired & Hf & Hr).
  destruct (existsb _ _) eqn:Hm; [done|]. case_decide; [done|]. exists fired. split_and!; [done..|].
  rewrite existsb_false in Hm. intros q Hq%elem_of_forward_preds. by apply Hm.
Qed.

Lemma elem_of_fired `{RustFmt} g id c fired q :
  fired_forward_into g id c = Ok fired -> q ∈ fired ->
  exists e o, e ∈ forward_edges g /\ pe_source e = q /\ pe_target e = id /\ c !! q = Some o /\
    dag_forward_edge_fires g e o (node_continue_on_error g q) = Ok true.
Proof.
  intros Hf Hq. eapply fired_go_spec in Hf. apply Hf in Hq as (e & o & [Ht He]%list_elem_of_filter & Hrest).
  exists e, o. naive_solver.
Qed.

Lemma completed_input_fired `{RustFmt} g st id :
  dag_reachable g st -> is_Some (dr_completed st !! id) -> forward_preds g id <> [] ->
  exists q, input_fired g st q id.
Proof.
  intros Hr Hid Hne. pose proof (inv_completed g st (dag_inv_reachable g st Hr) id Hid) as Hready.
  destruct (readiness_runnable g id _ _ Hready Hne) as ([|q l] & Hf & Hfne & _); [done|].
  exists q. destruct (elem_of_fired g id _ _ q Hf) as (e & o & ?); [left|]. by exists e, o.
Qed.

(** C12.  Joins are fail-closed, in every reachable state: a completed node with forward
    predecessors had at least one fired input, and each of its forward predecessors is
    settled; a predecessor was either pruned as a branch not taken, or it completed, and
    then one of its edges into the node fired or it has no unconditional edge into the
    node unless it succeeded (or continues on error).  No node ever runs with an input
    whose producer was pruned because of a failure. *)
Theorem dag_joins_fail_closed `{RustFmt} (g : PipelineGraph) (st : DagRun) (id : string) :
  dag_reachable g st -> is_Some (dr_completed st !! id) -> forward_preds g id <> [] ->
  (exists q, input_fired g st q id) /\
  forall q, fedge g q id ->
    dr_pruned st !! q = Some Optional_prune \/
    exists o, dr_completed st !! q = Some o /\
      (input_fired g st q id \/
       forall e, e ∈ forward_edges g -> pe_source e = q -> pe_target e = id -> pe_condition e = None ->
         ~ failed o \/ node_continue_on_error g q = true).
Proof.
  intros Hr Hid Hne. split; [by apply completed_input_fired|].
  pose proof (inv_completed g st (dag_inv_reachable g st Hr) id Hid) as Hready.
  destruct (readiness_runnable g id _ _ Hready Hne) as (fired & Hf & _ & Hmiss).
  - intros q Hq. specialize (Hmiss q Hq). unfold missing_required in Hmiss.
    pose proof (readiness_settled g id _ _ _ q Hready ltac:(done) Hq) as Hs.
    apply settled_spec in Hs. case_decide as Hin.
    + right. destruct (elem_of_fired g id _ _ q Hf Hin) as (e & o & He & Hsrc & Ht & Ho & Hfire).
      exists o. split; [done|]. left. by exists e, o.
    + destruct (dr_pruned st !! q) as [[]|] eqn:Hp; [by left|done|]. right.
      destruct Hs as [[o Ho]|[? ?]]; [|done]. exists o. split; [done|]. right.
      intros e He Hsrc Ht Hc. rewrite Ho in Hmiss. cbn [is_some_and] in Hmiss.
      apply andb_false_iff in Hmiss as [Hm|Hm].
      * exfalso. rewrite existsb_false in Hm. specialize (Hm e He). cbn beta in Hm.
        by rewrite !bool_decide_eq_true_2 in Hm.
      * apply andb_false_iff in Hm as [Hm|Hm]; [left|right; by apply negb_false_iff in Hm].
        apply orb_false_iff in Hm as [Hm1 Hm2]. bool_to_prop. by intros [?|?].
Qed.

(** ** Completeness *)

Section quiescence.
Context `{HI : HashIter} `{RF : RustFmt}.
Implicit Types (g : PipelineGraph) (st : DagRun).

Lemma runnable_None g st id :
  runnable g st = None -> id ∈ dom (pg_nodes g) -> is_runnable g st id = false.
Proof.
  intros Hn%str_min_None Hid. apply not_true_iff_false. intros Hr.
  assert (Hin : id ∈ filter (fun id => is_runnable g st id = true) (hm_keys (pg_nodes g))).
  { apply list_elem_of_filter. split; [done|]. by apply elem_of_hm_keys, elem_of_dom. }
  rewrite Hn in Hin. by apply not_elem_of_nil in Hin.
Qed.

Lemma prunable_None g st id :
  prunable g st = None -> id ∈ dom (pg_nodes g) -> prune_reason g st id = None.
Proof.
  unfold prunable. intros Hn Hid. apply eq_None_not_Some. intros Hr.
  assert (Hin : id ∈ filter (fun id => is_Some (prune_reason g st id)) (hm_keys (pg_nodes g))).
  { apply list_elem_of_filter. split; [done|]. by apply elem_of_hm_keys, elem_of_dom. }
  destruct (str_min _) as [p|] eqn:Hp.
  - apply str_min_elem, list_elem_of_filter in Hp as [[r Hp] _]. cbn in Hn. by rewrite Hp in Hn.
  - apply str_min_None in Hp. rewrite Hp in Hin. by apply not_elem_of_nil in Hin.
Qed.

Lemma quiescent_settled g ctx st :
  valid_graph g ctx -> runnable g st = None -> prunable g st = None ->
  forall id, id ∈ dom (pg_nodes g) -> settled (dr_completed st) (dr_pruned st) id = true.
Proof.
  intros Hv Hrun Hpr id. induction (fedge_wf g id (vg_acyclic g ctx Hv)) as [id _ IH]. intros Hid.
  destruct (settled _ _ id) eqn:Hs; [done|]. exfalso.
  assert (Hparse : forall e cond, e ∈ pg_edges g -> pe_condition e = Some cond ->
    exists x, parse_condition cond = Ok x).
  { intros e cond He. by apply (vg_edges g ctx Hv e He). }
  destruct (readiness_total g Hparse id (dr_completed st) (dr_pruned st)) as [r Hready].
  assert (Hnr : r <> NotReady).
  { intros ->. unfold dag_node_readiness in Hready. cbv zeta in Hready.
    destruct (negb _) eqn:Hn.
    - apply negb_true_iff, not_true_iff_false in Hn. apply Hn, forallb_forall.
      intros q Hq%list_elem_of_In%elem_of_forward_preds. apply IH; [done|].
      apply fedge_edge in Hq as (e & He & <- & _). by apply (vg_edges g ctx Hv e He).
    - case_decide; [done|]. apply bind_Ok in Hready as (fired & _ & Hready). repeat case_match; done. }
  apply (runnable_None g st id) in Hrun; [|done]. apply (prunable_None g st id) in Hpr; [|done].
  unfold is_runnable in Hrun. unfold prune_reason in Hpr. rewrite Hs, Hready in *. by destruct r.
Qed.
End quiescence.

Lemma dag_joins_fail_closed_witness :
  let g := graph_of loop_dot in
  let st := record_run started_state "work" (demo_out "work") in
  (exists q, @input_fired no_fmt g st q "work") /\
  forall q, fedge g q "work" ->
    dr_pruned st !! q = Some Optional_prune \/
    exists o, dr_completed st !! q = Some o /\
      (@input_fired no_fmt g st q "work" \/
       forall e, e ∈ forward_edges g -> pe_source e = q -> pe_target e = "work" -> pe_condition e = None ->
         ~ failed o \/ node_continue_on_error g q = true).
Proof.
  intros g st. apply (@dag_joins_fail_closed no_fmt g st "work").
  - unfold dag_reachable. eapply rtc_r; [apply started_reachable|].
    apply trans_run; [|by vm_compute].
    apply (bool_decide_eq_true ("work" ∈ dom (pg_nodes g))). by vm_compute.
  - exists (demo_outcome "work" Pass). by vm_compute.
  - by vm_compute.
Defined.

(** ** The verdict *)

Section verdict.
Context `{HI : HashIter} `{RF : RustFmt}.
Implicit Types (g : PipelineGraph) (st : DagRun).

Lemma elem_of_terminals g c n : n ∈ dag_terminal_nodes g c <-> is_terminal g c n = true.
Proof.
  unfold dag_terminal_nodes, sort_strings. rewrite merge_sort_Permutation, list_elem_of_filter, elem_of_hm_keys.
  split; [by intros [? _]|]. intros Ht. split; [done|]. unfold is_terminal in Ht.
  by destruct (c !! n) eqn:Hc.
Qed.

Lemma exit_early_success g st b msg : pr_success (exit_early g st b msg) = b.
Proof. cbn. by rewrite andb_true_r. Qed.

Lemma derived_success g c ss ts cs fp :
  pr_success (dag_build_result None None c ss ts cs g fp) = true <->
  fp = false /\ (exists n, is_terminal g c n = true) /\
  forall n o, is_terminal g c n = true -> c !! n = Some o -> no_status o = Pass.
Proof.
  cbn [dag_build_result pr_success default]. rewrite !andb_true_iff, !negb_true_iff, bool_decide_eq_false.
  assert (Hall : forallb (fun o => bool_decide (no_status o = Pass))
      (omap (fun n => c !! n) (dag_terminal_nodes g c)) = true <->
    forall n o, is_terminal g c n = true -> c !! n = Some o -> no_status o = Pass).
  { rewrite forallb_forall. setoid_rewrite <- list_elem_of_In. setoid_rewrite list_elem_of_omap.
    setoid_rewrite elem_of_terminals. setoid_rewrite bool_decide_eq_true. naive_solver. }
  assert (Hne : dag_terminal_nodes g c <> [] <-> exists n, is_terminal g c n = true).
  { setoid_rewrite <- elem_of_terminals. destruct (dag_terminal_nodes g c) as [|n l].
    - split; [done|]. by intros [n ?%not_elem_of_nil].
    - split; [|done]. intros _. exists n. left. }
  unfold from_option, id. rewrite Hall, Hne. tauto.
Qed.

(** The only successful result of running a node is that of a passing goal gate. *)
Lemma run_node_success {W} (h : Host W) rc st id w r w' :
  run_node h rc st id w = (Val (inr r), w') -> pr_success r = true ->
  exists fired out, fired_forward_into (rc_graph rc) id (dr_completed st) = Ok fired /\
    dag_execute_node h rc id fired (dr_completed st)
      (remaining_pipeline_tokens (pg_max_total_tokens (rc_graph rc)) (dr_total_tokens st))
      (dr_feedback st !! id) w = (Val (Ran out), w') /\
    from_option pn_goal_gate false (pg_nodes (rc_graph rc) !! id) = true /\
    no_status (dno_outcome out) = Pass /\ pr_output r = no_content (dno_outcome out) /\
    pr_node_summaries r = dr_summaries st ++ [dno_summary out].
Proof.
  unfold run_node. cbv zeta. intros Hs Hsucc.
  case_decide; [injection Hs as <- _; by rewrite exit_early_success in Hsucc|].
  apply io_bind_Val in Hs as (fired & w3 & Hf & Hs).
  unfold try, lift_flow in Hf.
  destruct (fired_forward_into _ _ _) as [fired'|e] eqn:Hfired; [|done]. injection Hf as -> ->.
  apply io_bind_Val in Hs as ([out|reason] & w4 & Hx & Hs);
    [|injection Hs as <- _; by rewrite exit_early_success in Hsucc].
  unfold mret, io_ret, after_run in Hs. cbv zeta in Hs. injection Hs as Hs <-.
  case_decide; [injection Hs as <-; by rewrite exit_early_success in Hsucc|].
  case_decide as Hgoal.
  - destruct Hgoal as [Hg Hp]. injection Hs as <-. by exists fired, out.
  - repeat case_match; simplify_eq; by rewrite exit_early_success in Hsucc.
Qed.
End verdict.

(** C2.  A run that reports success did succeed.  On a validated graph, if
    [execute_graph_dag] returns a result with [success] set, then the run went through
    scheduler steps to a last state from which either a runnable goal-gate node was
    executed, passed, and its content is the output; or nothing was left to run, prune or
    retry, every node had completed or been pruned as a branch not taken, at least one node
    was terminal, and every terminal node (completed, with no fired outgoing edge) had
    ended in [Pass]; the summaries returned are those of the run. *)
Theorem dag_success_sound `{HashIter} `{RustFmt} {W : Type} (h : Host W) (rc : DagRunCtx)
    (ctx : ValidationContext) (w w' : W) (r : PipelineResult) :
  validate_with_context (rc_graph rc) ctx = Ok tt ->
  execute_graph_dag h rc w = (Val (Some r), w') -> pr_success r = true ->
  exists st w1, rtc (sched_step h rc) (DagRun_init, w) (st, w1) /\
    ((exists id n fired out, pg_nodes (rc_graph rc) !! id = Some n /\ pn_goal_gate n = true /\
        is_runnable (rc_graph rc) st id = true /\
        fired_forward_into (rc_graph rc) id (dr_completed st) = Ok fired /\
        dag_execute_node h rc id fired (dr_completed st)
          (remaining_pipeline_tokens (pg_max_total_tokens (rc_graph rc)) (dr_total_tokens st))
          (dr_feedback st !! id) w1 = (Val (Ran out), w') /\
        no_status (dno_outcome out) = Pass /\ pr_output r = no_content (dno_outcome out) /\
        pr_node_summaries r = dr_summaries st ++ [dno_summary out]) \/
     (w' = w1 /\ back_phase (rc_graph rc) st = inr r /\ pr_node_summaries r = dr_summaries st /\
      (forall id, id ∈ dom (pg_nodes (rc_graph rc)) ->
         is_Some (dr_completed st !! id) \/ dr_pruned st !! id = Some Optional_prune) /\
      (exists id, is_terminal (rc_graph rc) (dr_completed st) id = true) /\
      (forall id o, is_terminal (rc_graph rc) (dr_completed st) id = true ->
         dr_completed st !! id = Some o -> no_status o = Pass))).
Proof.
  intros Hv%validate_with_context_spec Hex Hsucc. set (g := rc_graph rc) in *.
  apply dag_loop_result in Hex as (st & w1 & Hr & Hs).
  exists st, w1. split; [done|].
  pose proof (dag_inv_reachable g st
    (sched_reachable g h rc eq_refl (DagRun_init, w) (st, w1) (rtc_refl _ _) Hr)) as Hi.
  unfold dag_step in Hs. fold g in Hs. cbv zeta in Hs.
  destruct (runnable g st) as [id|] eqn:Hrun.
  - left. apply elem_of_runnable in Hrun as [[n Hn]%elem_of_dom Hrun].
    apply run_node_success in Hs as (fired & out & Hf & Hx & Hg & Hp & Ho & Hss); [|done].
    fold g in Hg. rewrite Hn in Hg. by exists id, n, fired, out.
  - right. destruct (prunable g st) as [[p pr]|] eqn:Hpr; [done|].
    injection Hs as Hb <-. split; [done|]. split; [done|].
    unfold back_phase in Hb. destruct (retry_candidate _ _) as [[t src]|]; [done|].
    injection Hb as <-. apply derived_success in Hsucc as (Hfp & Hex & Hall).
    split; [done|]. split; [|done]. intros id Hid.
    pose proof (quiescent_settled g ctx st Hv Hrun Hpr id Hid) as Hset.
    apply settled_spec in Hset as [?|[r Hp]]; [by left|right]. destruct r; [done|].
    by eapply inv_failure in Hp.
Qed.

(** ** Independence of the iteration order *)

(** A result without its list of files (whose order can depend on the hash map when two
    nodes spell the same path differently). *)
Definition strip_files (r : PipelineResult) : PipelineResult := {|
  pr_output := pr_output r; pr_success := pr_success r; pr_token_usage := pr_token_usage r;
  pr_node_summaries := pr_node_summaries r; pr_files_modified := [];
  pr_node_costs := pr_node_costs r |}.

Definition flow_map {A B} (f : A -> B) (x : flow A) : flow B :=
  match x with Val a => Val (f a) | Bail e => Bail e | Panic => Panic end.

Definition strip_next (x : DagRun + PipelineResult) : DagRun + PipelineResult :=
  match x with inl st => inl st | inr r => inr (strip_files r) end.

Section order.
Context (HI1 HI2 : HashIter) `{RF : RustFmt}.
Implicit Types (g : PipelineGraph) (st : DagRun).

Lemma filter_keys_perm {A} (m : gmap string A) (P : string -> Prop) `{forall x, Decision (P x)} :
  filter P (@hm_keys HI1 A m) ≡ₚ filter P (@hm_keys HI2 A m).
Proof. by rewrite !hm_keys_perm. Qed.

Lemma terminals_order g c : @dag_terminal_nodes HI1 RF g c = @dag_terminal_nodes HI2 RF g c.
Proof.
  unfold dag_terminal_nodes, sort_strings. apply (Sorted_unique String.le); [apply _..| | |].
  - apply Sorted_merge_sort, _.
  - apply Sorted_merge_sort, _.
  - rewrite !merge_sort_Permutation. apply filter_keys_perm.
Qed.

Lemma build_result_order s o c ss ts cs g fp :
  strip_files (@dag_build_result HI1 RF s o c ss ts cs g fp) =
  strip_files (@dag_build_result HI2 RF s o c ss ts cs g fp).
Proof. unfold strip_files, dag_build_result. cbn. by rewrite terminals_order. Qed.

Lemma runnable_order g st : @runnable HI1 RF g st = @runnable HI2 RF g st.
Proof. unfold runnable. by rewrite filter_keys_perm. Qed.

Lemma prunable_order g st : @prunable HI1 RF g st = @prunable HI2 RF g st.
Proof. unfold prunable. by rewrite filter_keys_perm. Qed.

Lemma exit_early_order g st b msg :
  strip_files (@exit_early HI1 RF g st b msg) = strip_files (@exit_early HI2 RF g st b msg).
Proof. apply build_result_order. Qed.

Lemma after_run_order g st id o :
  strip_next (@after_run HI1 RF g st id o) = strip_next (@after_run HI2 RF g st id o).
Proof.
  unfold after_run. cbv zeta.
  case_decide; [cbn [strip_next]; by rewrite exit_early_order|].
  case_decide; [cbn [strip_next]; by rewrite exit_early_order|].
  destruct (pg_max_total_tokens g) as [m|]; [|done].
  destruct (m <=? _)%Z; [|done]. cbn [strip_next]. by rewrite exit_early_order.
Qed.

Context {W : Type} (h : Host W).

Lemma step_order rc st w :
  prod_map (flow_map strip_next) id (@dag_step HI1 RF W h rc st w) =
  prod_map (flow_map strip_next) id (@dag_step HI2 RF W h rc st w).
Proof.
  unfold dag_step. cbv zeta. rewrite runnable_order, prunable_order.
  destruct (runnable (rc_graph rc) st) as [id|].
  - unfold run_node. cbv zeta. case_decide.
    { unfold mret, io_ret, prod_map. cbn [fst snd flow_map strip_next]. by rewrite exit_early_order. }
    unfold mbind, io_bind, try, lift_flow.
    destruct (of_result (fired_forward_into (rc_graph rc) id (dr_completed st))) as [fired|e|]; [|done..].
    destruct (dag_execute_node h rc id fired _ _ _ w) as [[[out|reason]|e|] w1]; [| |done..].
    + unfold mret, io_ret, prod_map. cbn [fst snd flow_map]. by rewrite after_run_order.
    + unfold mret, io_ret, prod_map. cbn [fst snd flow_map strip_next]. by rewrite exit_early_order.
  - destruct (prunable (rc_graph rc) st) as [[p r]|]; [done|].
    unfold back_phase. destruct (retry_candidate _ _) as [[t src]|]; [done|].
    unfold mret, io_ret, prod_map. cbn [fst snd flow_map strip_next]. by rewrite build_result_order.
Qed.

Lemma loop_order fuel rc st w :
  prod_map (flow_map (fmap (M := option) strip_files)) id (@dag_loop HI1 RF W h fuel rc st w) =
  prod_map (flow_map (fmap (M := option) strip_files)) id (@dag_loop HI2 RF W h fuel rc st w).
Proof.
  revert st w; induction fuel as [|fuel IH]; intros st w; [done|].
  cbn [dag_loop]. unfold mbind, io_bind. pose proof (step_order rc st w) as Hs.
  destruct (@dag_step HI1 _ _ h rc st w) as [[[st1|r1]|e1|] w1],
           (@dag_step HI2 _ _ h rc st w) as [[[st2|r2]|e2|] w2]; cbn in Hs; simplify_eq; try done.
  unfold mret, io_ret, prod_map. cbn. unfold strip_files. congruence.
Qed.
End order.


(** The run of the two-node graph of [Validate] on the host whose handlers pass. *)
Definition demo_run : flow (option PipelineResult) * nat :=
  @execute_graph_dag tree_iter no_fmt nat (demo_host 0) (run_ctx demo_graph) 0.

Definition demo_result : PipelineResult :=
  match demo_run with
  | (Val (Some r), _) => r
  | _ => @exit_early tree_iter no_fmt demo_graph DagRun_init false ""
  end.

Lemma dag_success_sound_witness :
  let g := demo_graph in
  exists st w1, rtc (@sched_step tree_iter no_fmt nat (demo_host 0) (run_ctx g)) (DagRun_init, 0) (st, w1) /\
    ((exists id n fired out, pg_nodes g !! id = Some n /\ pn_goal_gate n = true /\
        @is_runnable no_fmt g st id = true /\
        @fired_forward_into no_fmt g id (dr_completed st) = Ok fired /\
        @dag_execute_node nat (demo_host 0) no_fmt (run_ctx g) id fired (dr_completed st)
          (remaining_pipeline_tokens (pg_max_total_tokens g) (dr_total_tokens st)) (dr_feedback st !! id) w1 = (Val (Ran out), 2) /\
        no_status (dno_outcome out) = Pass /\ pr_output demo_result = no_content (dno_outcome out) /\
        pr_node_summaries demo_result = dr_summaries st ++ [dno_summary out]) \/
     (2 = w1 /\ @back_phase tree_iter no_fmt g st = inr demo_result /\
      pr_node_summaries demo_result = dr_summaries st /\
      (forall id, id ∈ dom (pg_nodes g) ->
         is_Some (dr_completed st !! id) \/ dr_pruned st !! id = Some Optional_prune) /\
      (exists id, @is_terminal no_fmt g (dr_completed st) id = true) /\
      (forall id o, @is_terminal no_fmt g (dr_completed st) id = true ->
         dr_completed st !! id = Some o -> no_status o = Pass))).
Proof.
  apply (@dag_success_sound tree_iter no_fmt nat (demo_host 0) (run_ctx demo_graph)
           ValidationContext_default 0 2 demo_result); by vm_compute.
Defined.

(** ** Roots *)

Lemma root_is_start `{HashIter} `{RustFmt} g ctx id :
  valid_graph g ctx -> graph_is_dag_schedulable g = true ->
  id ∈ dom (pg_nodes g) -> forward_preds g id = [] -> find_start_node g = Some id.
Proof.
  intros Hv Hsch Hid Hroot.
  destruct (vg_start g ctx Hv) as (s & Hs & Hreach). apply find_start_node_spec in Hs.
  destruct (decide (s = id)) as [<-|Hne]; [done|].
  assert (Hin : exists e, e ∈ pg_edges g /\ pe_target e = id).
  { specialize (Hreach id Hid). apply rtc_inv_r in Hreach as [?|(y & _ & e & He & _ & <-)]; [done|eauto]. }
  destruct Hin as (e & He & Ht).
  assert (Hb : edge_is_back g e = true).
  { destruct (edge_is_back g e) eqn:Hb; [done|]. exfalso.
    assert (Hp : pe_source e ∈ forward_preds g id).
    { apply elem_of_forward_preds. exists e. split_and!; [|done..]. by apply list_elem_of_filter. }
    rewrite Hroot in Hp. by apply not_elem_of_nil in Hp. }
  unfold graph_is_dag_schedulable in Hsch. apply andb_true_iff in Hsch as [_ Hback].
  rewrite forallb_forall in Hback. apply list_elem_of_In, Hback in He.
  rewrite Hb in He. cbn [negb orb] in He. apply andb_true_iff in He as [_ He].
  apply orb_true_iff in He as [He|He]; bool_to_prop; rewrite Ht in He; [done|by rewrite Hroot in He].
Qed.

(**  On a validated graph that [graph_is_dag_schedulable] accepts, the start node is
    the only node without forward predecessor; hence in every reachable state of the
    scheduler, each executed node is the start node or had an input that fired. *)
Theorem schedulable_single_root `{HashIter} `{RustFmt} (g : PipelineGraph) (ctx : ValidationContext) :
  validate_with_context g ctx = Ok tt -> graph_is_dag_schedulable g = true ->
  (forall id, id ∈ dom (pg_nodes g) -> forward_preds g id = [] -> find_start_node g = Some id) /\
  forall st id, dag_reachable g st -> is_Some (dr_completed st !! id) ->
    find_start_node g = Some id \/ exists q, input_fired g st q id.
Proof.
  intros Hv%validate_with_context_spec Hsch. split; [eauto using root_is_start|].
  intros st id Hr Hid. destruct (decide (forward_preds g id = [])) as [Hroot|Hne].
  - left. eapply root_is_start; [done..| |done].
    apply (inv_nodes g st (dag_inv_reachable g st Hr)), settled_spec. by left.
  - right. by apply completed_input_fired.
Qed.

Lemma schedulable_single_root_witness :
  (forall id, id ∈ dom (pg_nodes (graph_of loop_dot)) -> forward_preds (graph_of loop_dot) id = [] ->
     @find_start_node tree_iter (graph_of loop_dot) = Some id) /\
  forall st id, @dag_reachable no_fmt (graph_of loop_dot) st -> is_Some (dr_completed st !! id) ->
    @find_start_node tree_iter (graph_of loop_dot) = Some id \/
    exists q, @input_fired no_fmt (graph_of loop_dot) st q id.
Proof.
  apply (@schedulable_single_root tree_iter no_fmt (graph_of loop_dot) ValidationContext_default);
    by vm_compute.
Defined.

(** ** The failure-prune flag survives a retry *)

(** First round: [a] fails, so [b] is failure-pruned and [d] is not taken; [e] runs on [s]
    alone and asks for another round.  Second round: everything passes. *)
Definition sticky_dot : string :=
  "digraph sticky { start -> a; start -> s; a -> b; a -> d [condition=" +:+
  quoted "outcome.status == \!pass\!" +:+ "]; d -> e; s -> e; e -> a [label=retry, condition=" +:+
  quoted "outcome.contains(\!again\!)" +:+ "]; a [handler=noop] }".

Definition sticky_handler : Handler nat := fun n _ w =>
  (Ok {| no_node_id := pn_id n;
         no_status := if decide (pn_id n = "a" /\ w < 2) then Fail else Pass;
         no_content := if decide (pn_id n = "e" /\ w < 4) then "again" else "done";
         no_token_usage := TokenUsage_default; no_files_modified := [] |}, S w).

Definition sticky_host : Host nat := {|
  h_handler := fun _ => Some sticky_handler;
  h_timeout := fun _ m w => let (r, w) := m w in (Some r, w);
  h_sleep := fun _ w => w; h_clock := fun w => Z.of_nat w; h_escalate := fun _ w => w;
  h_register := fun _ w => (Ok None, w); h_mark_running := fun _ w => w;
  h_mark_completed := fun _ _ w => w; h_mark_failed := fun _ _ w => w;
  h_reserve := fun _ _ w => (Ok None, w); h_release := fun _ w => w;
  h_validate := fun _ w => (Ok tt, w); h_project_cost := fun _ _ _ => None;
  h_shutdown := fun _ => false; h_json_input := fun _ input => quoted input |}.

(** The last state before the run ends. *)
Fixpoint last_state (fuel : nat) (rc : DagRunCtx) (st : DagRun) (w : nat) : DagRun * nat :=
  match fuel with
  | O => (st, w)
  | S fuel =>
      match @dag_step tree_iter no_fmt nat sticky_host rc st w with
      | (Val (inl st'), w') => last_state fuel rc st' w'
      | _ => (st, w)
      end
  end.

Definition sticky_last : DagRun * nat :=
  last_state 100 (run_ctx (graph_of sticky_dot)) DagRun_init 0.

(** The failure-prune flag is never cleared by a retry: on this validated, schedulable
    graph the run ends with every completed node passed and no node pruned because of a
    failure, and with the passing terminal's output, yet the result reports failure. *)
Theorem failure_prune_is_sticky :
  @validate tree_iter no_fmt (graph_of sticky_dot) = Ok tt /\
  @graph_is_dag_schedulable tree_iter (graph_of sticky_dot) = true /\
  (forall id o, dr_completed sticky_last.1 !! id = Some o -> no_status o = Pass) /\
  (forall id, dr_pruned sticky_last.1 !! id <> Some Failure_prune) /\
  exists r, @execute_graph_dag tree_iter no_fmt nat sticky_host (run_ctx (graph_of sticky_dot)) 0
            = (Val (Some r), 7) /\
    @dag_step tree_iter no_fmt nat sticky_host (run_ctx (graph_of sticky_dot)) sticky_last.1 sticky_last.2
            = (Val (inr r), 7) /\
    pr_success r = false /\ pr_output r = "done".
Proof.
  split_and!; [by vm_compute|by vm_compute| | |].
  - intros id o Ho%elem_of_map_to_list%list_elem_of_In. revert o Ho.
    assert (Hall : forallb (fun kv => bool_decide (no_status kv.2 = Pass))
                     (map_to_list (dr_completed sticky_last.1)) = true) by by vm_compute.
    rewrite forallb_forall in Hall. intros o Ho%Hall. by apply bool_decide_eq_true in Ho.
  - intros id Ho%elem_of_map_to_list%list_elem_of_In.
    assert (Hall : forallb (fun kv => bool_decide (kv.2 = Optional_prune))
                     (map_to_list (dr_pruned sticky_last.1)) = true) by by vm_compute.
    rewrite forallb_forall in Hall. apply Hall in Ho. by apply bool_decide_eq_true in Ho.
  - pose (r := match @execute_graph_dag tree_iter no_fmt nat sticky_host (run_ctx (graph_of sticky_dot)) 0 with
               | (Val (Some r), _) => r | _ => demo_result end).
    exists r. split_and!; by vm_compute.
Qed.
