(* ===== verification/DagTasks.v ===== *)
(** * Supervisor traffic of a DAG node

    ([Joined] is only logged by the single-path walk, see [WalkTasks.v].)

    What [dag_execute_node] tells the task supervisor.  [logged h] is the host [h] with a
    log of the supervisor calls next to its world; the theorem gives the exact log of one
    node execution on every outcome, for every host. *)

From S2P Require Import Prelude RustStr RustNum Fidelity Graph Condition ToolPolicy Validate.
From S2P Require Import Host Dispatch Dag.

Inductive task_event :=
| Registered (node : string)
| Running (task : string)
| MarkedCompleted (task : string) (files : list string)
| MarkedFailed (task msg : string)
| Joined (workers : nat).

Section logged.
Context {W : Type} (h : Host W).

Definition LW : Type := W * list task_event.

(** An operation that does not touch the log. *)
Definition quiet {A} (m : W -> A * W) : LW -> A * LW :=
  fun lw => let (a, w) := m lw.1 in (a, (w, lw.2)).

Definition emit (ev : task_event) (m : W -> W) : LW -> LW := fun lw => (m lw.1, lw.2 ++ [ev]).

Definition logged : Host LW := {|
  h_handler := fun k => (fun handler n ctx => quiet (handler n ctx)) <$> h_handler h k;
  h_timeout := fun d m lw =>
    let (r, w) := h_timeout h d (fun w => let (r, lw') := m (w, lw.2) in (r, lw'.1)) lw.1 in
    (r, (w, lw.2));
  h_sleep := fun ms lw => (h_sleep h ms lw.1, lw.2);
  h_clock := fun lw => h_clock h lw.1;
  h_escalate := fun n lw => (h_escalate h n lw.1, lw.2);
  h_register := fun id lw =>
    let (r, w) := h_register h id lw.1 in (r, (w, lw.2 ++ [Registered id]));
  h_mark_running := fun t => emit (Running t) (h_mark_running h t);
  h_mark_completed := fun t fs => emit (MarkedCompleted t fs) (h_mark_completed h t fs);
  h_mark_failed := fun t m => emit (MarkedFailed t m) (h_mark_failed h t m);
  h_reserve := fun id n => quiet (h_reserve h id n);
  h_release := fun r lw => (h_release h r lw.1, lw.2);
  h_validate := fun id => quiet (h_validate h id);
  h_project_cost := h_project_cost h;
  h_shutdown := fun lw => h_shutdown h lw.1;
  h_json_input := h_json_input h |}.

(** A computation of the logged host that never logs. *)
Definition silent {A} (m : io LW A) : Prop := forall lw, (m lw).2.2 = lw.2.

Lemma silent_bind {A B} (m : io LW A) (f : A -> io LW B) :
  silent m -> (forall a, silent (f a)) -> silent (m ≫= f).
Proof.
  intros Hm Hf lw. unfold mbind, io_bind. specialize (Hm lw).
  destruct (m lw) as [[a|e|] lw']; cbn in *; [|done..]. by rewrite Hf.
Qed.

Lemma silent_call {A} (f : W -> result report A * W) : silent (call (quiet f)).
Proof. intros lw. unfold call, quiet. by destruct (f lw.1). Qed.

Lemma silent_ret {A} (a : A) : silent (mret a).
Proof. done. Qed.

Lemma silent_retry handler n ctx k iters attempt :
  silent (retry_loop logged (fun n ctx => quiet (handler n ctx)) n ctx k iters attempt).
Proof.
  revert attempt; induction iters as [|iters IH]; intros attempt; cbn [retry_loop]; [done|].
  apply silent_bind; [apply silent_call|]. intros o. case_match; [done|]. by apply silent_bind.
Qed.

Lemma silent_timeout d m lw : (h_timeout logged d m lw).2.2 = lw.2.
Proof. cbn. by destruct (h_timeout h d _ lw.1). Qed.

Lemma silent_dispatch `{RustFmt} handler n ctx k :
  silent (dispatch_node logged (fun n ctx => quiet (handler n ctx)) n ctx k).
Proof.
  unfold dispatch_node. destruct (pn_deadline_secs n) as [secs|].
  - apply silent_bind; [done|]. intros d. generalize (@None report) as last.
    generalize 0%Z as attempt. generalize (default Abort_action (pn_deadline_action n)) as action.
    intros action. generalize (Z.to_nat (deadline_attempts action)) as iters.
    induction iters as [|iters IH]; intros attempt last lw; cbn [deadline_loop]; [done|].
    pose proof (silent_timeout d (execute_with_retries logged
      (fun n ctx => quiet (handler n ctx)) n ctx k) lw) as Ht.
    destruct (h_timeout logged d _ lw) as [[[o|e|]|] lw']; cbn in Ht; [done| |done|].
    + case_match; [done|]. by rewrite IH.
    + destruct action; try done. case_match; [done|]. by rewrite IH.
  - apply silent_bind; [apply silent_retry|done].
Qed.

Lemma silent_recover handler node prepared ctx started o :
  silent (recover_outcome logged (fun n ctx => quiet (handler n ctx)) node prepared ctx started o).
Proof.
  intros lw. unfold recover_outcome.
  destruct (node_budget_spent _ _ _ _); [done|]. destruct (classify_outcome _ _ _); [done| |done].
  assert (Hs : silent (recover_node logged (fun n ctx => quiet (handler n ctx)) prepared ctx signal)).
  { intros lw'. unfold recover_node. case_match; [done|].
    apply silent_bind; [apply silent_call|done]. }
  specialize (Hs lw). by destruct (recover_node _ _ _ _ _ lw) as [[r|e|] lw'].
Qed.

Lemma silent_validate node o : silent (validate_outcome logged node o).
Proof.
  unfold validate_outcome. case_decide; [|done]. apply silent_bind; [|done].
  intros lw. unfold lift_pure. cbn. unfold quiet. by destruct (h_validate h _ lw.1).
Qed.

(** The terminal call for a task whose node ended in [o]. *)
Definition terminal_event (node : PipelineNode) (task : string) (o : NodeOutcome) : task_event :=
  match no_status o with
  | Pass => MarkedCompleted task (no_files_modified o)
  | Fail | Error => MarkedFailed task ("node " +:+ pn_id node +:+ " failed")
  | Skipped => MarkedCompleted task []
  end.

Definition task_log {A} (task : option string) (f : string -> A) : list A :=
  match task with Some t => [f t] | None => [] end.

Lemma finish_node_log handler node prepared ctx task reservation started o lw r lw' :
  finish_node logged (fun n ctx => quiet (handler n ctx)) node prepared ctx task reservation started o lw
    = (r, lw') ->
  (exists out, r = Val (Ran out) /\
     lw'.2 = lw.2 ++ task_log task (fun t => terminal_event node t (dno_outcome out))) \/
  (r = Panic /\ lw'.2 = lw.2).
Proof.
  unfold finish_node, mbind, io_bind, dropping.
  pose proof (silent_recover handler node prepared ctx started o lw) as H1.
  destruct (recover_outcome _ _ _ _ _ _ _ lw) as [[o1|e|] lw1] eqn:Hrec; cbn in H1.
  - pose proof (silent_validate node o1 lw1) as H2.
    assert (Hv : exists o2, (validate_outcome logged node o1 lw1).1 = Val o2).
    { unfold validate_outcome. case_decide; [|by eexists]. unfold mbind, io_bind, lift_pure.
      destruct (h_validate logged _ lw1). by eexists. }
    destruct (validate_outcome logged node o1 lw1) as [f lw2]. destruct Hv as [o2 Hv].
    cbn in Hv, H2. subst f. cbn [lift_pure effect].
    intros Hr. left. destruct task as [t|]; cbn in Hr; injection Hr as <- <-; eexists; (split; [reflexivity|]).
    + cbn [dno_outcome task_log]. rewrite <- H1, <- H2. unfold mark_terminal, terminal_event.
      by destruct (no_status o2).
    + cbn. by rewrite app_nil_r, <- H1, <- H2.
  - unfold recover_outcome in Hrec. repeat case_match; simplify_eq.
  - intros [= <- <-]. right. done.
Qed.
End logged.

(**  The supervisor traffic of one node execution, for every host: a refused
    registration aborts the node with no further call; otherwise a node that ran has told
    the supervisor exactly [running] and then one terminal call that matches the status of
    its outcome ([completed] with the files of a passing node, [failed] after [Fail] or
    [Error], [completed] without files after a skip).  When the execution instead ends in an
    error (no budget, a dispatch error such as an expired deadline) nothing but [running]
    was sent: the task is left without a terminal call. *)
Theorem dag_task_lifecycle {W : Type} (h : Host W) `{RustFmt} (rc : DagRunCtx) (id : string)
    (node : PipelineNode) (fired : list string) (completed : gmap string NodeOutcome)
    (remaining : option Z) (feedback : option NodeOutcome) (w : W) (r : flow DagStep) (lw : LW) :
  pg_nodes (rc_graph rc) !! id = Some node -> is_Some (h_handler h (pn_handler node)) ->
  dag_execute_node (logged h) rc id fired completed remaining feedback (w, []) = (r, lw) ->
  match (h_register h (pn_id node) w).1 with
  | Err reason => r = Val (Aborted reason) /\ lw.2 = [Registered (pn_id node)]
  | Ok task =>
      match r with
      | Val (Ran out) =>
          lw.2 = Registered (pn_id node) :: task_log task Running ++
                 task_log task (fun t => terminal_event node t (dno_outcome out))
      | Val (Aborted _) => False
      | Bail _ | Panic => lw.2 = Registered (pn_id node) :: task_log task Running
      end
  end.
Proof.
  intros Hn [handler Hh]. unfold dag_execute_node. rewrite Hn. cbn [h_handler logged]. rewrite Hh.
  cbn [fmap option_fmap option_map]. unfold mbind at 1, io_bind at 1, lift_pure at 1.
  cbn [h_register logged fst snd].
  destruct (h_register h (pn_id node) w) as [[task|reason] w1]; cbn [fst app];
    [|by intros [= <- <-]].
  intros Hx.
  assert (Hrun : on_task task (h_mark_running (logged h)) (w1, [Registered (pn_id node)]) =
    (Val tt, (match task with Some t => h_mark_running h t w1 | None => w1 end,
              Registered (pn_id node) :: task_log task Running))) by (by destruct task).
  unfold mbind at 1, io_bind at 1 in Hx. rewrite Hrun in Hx. clear Hrun.
  revert Hx. generalize (match task with Some t => h_mark_running h t w1 | None => w1 end) as w2.
  intros w2. unfold mbind at 1, io_bind at 1.
  pose proof (silent_call (h_reserve h (pg_id (rc_graph rc)) (prepare_node rc remaining node))
    (w2, Registered (pn_id node) :: task_log task Running)) as Hs1.
  cbn [h_reserve logged]. destruct (call _ _) as [[rv|e|] lw1]; cbn in Hs1;
    [|by intros [= <- <-]..].
  unfold mbind at 1, io_bind at 1, lift_pure at 1. unfold mbind at 1, io_bind at 1.
  pose proof (silent_dispatch h handler (prepare_node rc remaining node)
    (handler_context rc fired completed feedback) (pn_max_retries node) lw1) as Hs2.
  unfold dropping. destruct (dispatch_node _ _ _ _ _ lw1) as [[d|e|] lw2]; cbn in Hs2;
    [|by intros [= <- <-]; cbn; rewrite Hs2..].
  intros Hx. apply finish_node_log in Hx as [(out & -> & ->)|[-> ->]]; by rewrite Hs2, Hs1.
Qed.

(** A host with a supervisor that names every task after its node. *)
Definition task_host : Host nat := {|
  h_handler := fun _ => Some (demo_handler 0);
  h_timeout := fun _ m w => let (r, w) := m w in (Some r, w);
  h_sleep := fun _ w => w; h_clock := fun w => Z.of_nat w; h_escalate := fun _ w => w;
  h_register := fun id w => (Ok (Some ("task-" +:+ id)), w); h_mark_running := fun _ w => w;
  h_mark_completed := fun _ _ w => w; h_mark_failed := fun _ _ w => w;
  h_reserve := fun _ _ w => (Ok None, w); h_release := fun _ w => w;
  h_validate := fun _ w => (Ok tt, w); h_project_cost := fun _ _ _ => None;
  h_shutdown := fun _ => false; h_json_input := fun _ input => quoted input |}.

Definition task_run : flow DagStep * LW :=
  @dag_execute_node (@LW nat) (logged task_host) no_fmt
    {| rc_graph := demo_graph; rc_user_input := "go"; rc_variables := [] |}
    "start" [] ∅ None None (0, []).

Lemma dag_task_lifecycle_witness :
  task_run.2.2 =
    [Registered "start"; Running "task-start"; MarkedCompleted "task-start" []].
Proof.
  refine (_ (@dag_task_lifecycle nat task_host no_fmt
    {| rc_graph := demo_graph; rc_user_input := "go"; rc_variables := [] |}
    "start" (demo_node "start" ["read_*"]) [] ∅ None None 0 task_run.1 task_run.2 _ _ _)).
  - intros Hlog. by vm_compute in Hlog |- *.
  - by vm_compute.
  - by eexists.
  - apply surjective_pairing.
Defined.
