(* ===== verification/Guard.v ===== *)
(** * Pipeline guards

    Model of [crates/octos-pipeline/src/guard.rs] (the guard interface and its two
    built-in guards) and of the two functions of [executor.rs] that consult the guards
    before a node is dispatched.  A guard is a hook behind a shared reference, so it may
    keep state of its own: it runs over the world [W]. *)

From S2P Require Import Prelude RustStr RustNum Fidelity Graph Condition Validate Host Dispatch Dag.

Record GuardContext := {
  gc_graph : PipelineGraph;
  gc_node : PipelineNode;
  gc_cumulative_tokens : Z;
  gc_elapsed : Duration;
  gc_completed_count : nat;
  gc_visit_counts : gmap string Z
}.

Inductive GuardDecision :=
| Allow
| Skip (reason : string)
| Abort (reason : string).

#[export] Instance GuardDecision_eq_dec : EqDecision GuardDecision.
Proof. solve_decision. Defined.

(** [PipelineGuard::before_node]. *)
Definition PipelineGuard (W : Type) : Type :=
  GuardContext -> W -> result report GuardDecision * W.

Record TokenBudgetGuard := { tbg_max_tokens : Z }.
Record TimeoutGuard := { tg_timeout : Duration }.

Section guards.
Context `{RustFmt} {W : Type}.

Definition token_budget_decision (gd : TokenBudgetGuard) (ctx : GuardContext) : GuardDecision :=
  if (tbg_max_tokens gd <=? gc_cumulative_tokens ctx)%Z then
    Abort ("token budget exhausted before node '" +:+ pn_id (gc_node ctx) +:+ "': spent "
           +:+ pretty (gc_cumulative_tokens ctx) +:+ "/" +:+ pretty (tbg_max_tokens gd)
           +:+ " tokens")
  else Allow.

Definition timeout_decision (gd : TimeoutGuard) (ctx : GuardContext) : GuardDecision :=
  if (tg_timeout gd <=? gc_elapsed ctx)%Z then
    Abort ("pipeline timeout before node '" +:+ pn_id (gc_node ctx) +:+ "': elapsed "
           +:+ duration_debug (gc_elapsed ctx) +:+ " >= " +:+ duration_debug (tg_timeout gd))
  else Allow.

Definition token_budget_guard (gd : TokenBudgetGuard) : PipelineGuard W :=
  fun ctx w => (Ok (token_budget_decision gd ctx), w).

Definition timeout_guard (gd : TimeoutGuard) : PipelineGuard W :=
  fun ctx w => (Ok (timeout_decision gd ctx), w).

(** The [for guard in &self.config.guards] loop. *)
Fixpoint guard_loop (guards : list (PipelineGuard W)) (ctx : GuardContext) (w : W)
  : result report GuardDecision * W :=
  match guards with
  | [] => (Ok Allow, w)
  | gd :: guards =>
      match gd ctx w with
      | (Ok Allow, w) => guard_loop guards ctx w
      | (r, w) => (r, w)
      end
  end.

(** The elapsed time is read off a clock that ticks in milliseconds. *)
Definition evaluate_before_node_guards (h : Host W) (guards : list (PipelineGuard W))
    (g : PipelineGraph) (node : PipelineNode) (total_tokens : TokenUsage) (pipeline_start : Z)
    (completed_count : nat) (visit_counts : gmap string Z) (w : W)
  : result report GuardDecision * W :=
  guard_loop guards
    {| gc_graph := g; gc_node := node;
       gc_cumulative_tokens := total_pipeline_tokens total_tokens;
       gc_elapsed := ((h_clock h w - pipeline_start) * 10 ^ 6)%Z;
       gc_completed_count := completed_count; gc_visit_counts := visit_counts |} w.

Definition guard_aborted_result `{HashIter} (node_id reason : string) (total_tokens : TokenUsage)
    (summaries : list NodeSummary) (completed : gmap string NodeOutcome)
    (node_costs : list NodeCost) : PipelineResult :=
  {| pr_output := "Pipeline aborted by guard before node '" +:+ node_id +:+ "': " +:+ reason;
     pr_success := false;
     pr_token_usage := total_tokens;
     pr_node_summaries := summaries;
     pr_files_modified := collect_completed_files completed;
     pr_node_costs := node_costs |}.

(** ** What the guards promise *)

(** Every guard of the list allowed the node, in order, the world going from [w] to [w']. *)
Inductive all_allow (ctx : GuardContext) : list (PipelineGuard W) -> W -> W -> Prop :=
| all_allow_nil w : all_allow ctx [] w w
| all_allow_cons gd guards w w1 w' :
    gd ctx w = (Ok Allow, w1) -> all_allow ctx guards w1 w' -> all_allow ctx (gd :: guards) w w'.

Lemma guard_loop_allow guards ctx w w' :
  guard_loop guards ctx w = (Ok Allow, w') <-> all_allow ctx guards w w'.
Proof.
  revert w; induction guards as [|gd guards IH]; intros w; cbn [guard_loop].
  - split; [intros [= <-]; constructor|inversion 1; by subst].
  - split.
    + destruct (gd ctx w) as [[[]|] w1] eqn:Hg; try done. intros Hr%IH. by econstructor.
    + inversion 1 as [|? ? ? w1 ? Hg Hr]; subst. rewrite Hg. by apply IH.
Qed.

Lemma guard_loop_stop guards ctx w r w' :
  guard_loop guards ctx w = (r, w') -> r <> Ok Allow ->
  exists pre gd post w1, guards = pre ++ gd :: post /\ all_allow ctx pre w w1 /\
    gd ctx w1 = (r, w').
Proof.
  revert w; induction guards as [|gd guards IH]; intros w; cbn [guard_loop].
  - by intros [= <- <-].
  - destruct (gd ctx w) as [r0 w1] eqn:Hg. intros Hr Hne.
    assert (Hcase : r0 = Ok Allow \/ (r0, w1) = (r, w')) by (destruct r0 as [[]|]; auto).
    destruct Hcase as [->|[= -> ->]].
    + apply IH in Hr as (pre & gd' & post & w2 & -> & Hpre & Hgd); [|done].
      exists (gd :: pre), gd', post, w2. split_and!; [done|by econstructor|done].
    + exists [], gd, guards, w. split_and!; [done|constructor|done].
Qed.

(** A built-in guard in the list gives its decision on every context it is asked about. *)
Lemma all_allow_elem ctx guards w w' gd :
  all_allow ctx guards w w' -> gd ∈ guards -> exists w1 w2, gd ctx w1 = (Ok Allow, w2).
Proof. induction 1 as [|gd0 guards w w1 w' Hg _ IH]; [set_solver|]. intros [->|?]%elem_of_cons; eauto. Qed.

Lemma token_budget_allows gd ctx :
  token_budget_decision gd ctx = Allow <-> (gc_cumulative_tokens ctx < tbg_max_tokens gd)%Z.
Proof. unfold token_budget_decision. destruct (Z.leb_spec (tbg_max_tokens gd) (gc_cumulative_tokens ctx)); split; try done; lia. Qed.

Lemma timeout_allows gd ctx :
  timeout_decision gd ctx = Allow <-> (gc_elapsed ctx < tg_timeout gd)%Z.
Proof. unfold timeout_decision. destruct (Z.leb_spec (tg_timeout gd) (gc_elapsed ctx)); split; try done; lia. Qed.
End guards.

(** The guards fail closed: a node is allowed exactly when every configured guard,
    asked in order, allowed it; otherwise the answer (a skip, an abort or an error) is that
    of the first guard that did not allow it, and no later guard is asked. *)
Theorem guards_fail_closed `{RustFmt} {W : Type} (h : Host W) (guards : list (PipelineGuard W))
    (g : PipelineGraph) (node : PipelineNode) (total : TokenUsage) (start : Z) (count : nat)
    (visits : gmap string Z) (w w' : W) (r : result report GuardDecision) :
  let ctx := {| gc_graph := g; gc_node := node;
                gc_cumulative_tokens := total_pipeline_tokens total;
                gc_elapsed := ((h_clock h w - start) * 10 ^ 6)%Z;
                gc_completed_count := count; gc_visit_counts := visits |} in
  evaluate_before_node_guards h guards g node total start count visits w = (r, w') ->
  match r with
  | Ok Allow =>
      all_allow ctx guards w w' /\
      (forall tb, token_budget_guard tb ∈ guards ->
         (total_pipeline_tokens total < tbg_max_tokens tb)%Z) /\
      (forall tg, timeout_guard tg ∈ guards -> (gc_elapsed ctx < tg_timeout tg)%Z)
  | _ =>
      exists pre gd post w1, guards = pre ++ gd :: post /\ all_allow ctx pre w w1 /\
        gd ctx w1 = (r, w')
  end.
Proof.
  intros ctx Hr. unfold evaluate_before_node_guards in Hr. fold ctx in Hr.
  destruct r as [[]|]; try (by apply guard_loop_stop in Hr).
  apply guard_loop_allow in Hr. split_and!; [done|..].
  - intros tb Htb. destruct (all_allow_elem _ _ _ _ _ Hr Htb) as (w1 & w2 & [= Hd _]).
    by apply token_budget_allows in Hd.
  - intros tg Htg. destruct (all_allow_elem _ _ _ _ _ Hr Htg) as (w1 & w2 & [= Hd _]).
    by apply timeout_allows in Hd.
Qed.

(** A run that has spent 8 tokens in its first second, under three guards. *)
Definition demo_guards `{RustFmt} : list (PipelineGuard nat) :=
  [timeout_guard {| tg_timeout := from_secs 5 |}; token_budget_guard {| tbg_max_tokens := 8 |};
   fun _ w => (Err ["unreachable"], S w)].
Definition demo_usage : TokenUsage :=
  {| input_tokens := 5; output_tokens := 3; reasoning_tokens := 0; cache_read_tokens := 0;
     cache_write_tokens := 0 |}.

Lemma guards_fail_closed_witness :
  exists pre gd post w1, @demo_guards no_fmt = pre ++ gd :: post /\
    exists ctx r, @all_allow nat ctx pre 1000 w1 /\ gd ctx w1 = (Ok (Abort r), 1000).
Proof.
  refine (_ (@guards_fail_closed no_fmt nat (demo_host 0) (@demo_guards no_fmt) demo_graph
    (PipelineNode_default "a") demo_usage 0 0 ∅ 1000 1000
    (Ok (token_budget_decision {| tbg_max_tokens := 8 |}
      {| gc_graph := demo_graph; gc_node := PipelineNode_default "a";
         gc_cumulative_tokens := 8; gc_elapsed := 0%Z; gc_completed_count := 0;
         gc_visit_counts := ∅ |})) _)).
  - intros (pre & gd & post & w1 & Hg & Hpre & Hgd). exists pre, gd, post, w1.
    split; [done|]. eexists _, _. split; [exact Hpre|exact Hgd].
  - by vm_compute.
Defined.
