(* ===== verification/Checkpoint.v ===== *)
(** * Checkpoints

    Model of [crates/octos-pipeline/src/checkpoint.rs] (the run-level checkpoint, the
    mission-checkpoint log and the file-system store with its write-then-rename
    protocol) and of [build_resume_skip_set] of [executor.rs].

    The interface [CheckpointStore] is a record of operations with a law class; the
    executor's use of it is stated against the law, the file-system store discharges it. *)

From S2P Require Import Prelude RustStr RustNum Fidelity Graph Condition Host.

(** ** The run-level checkpoint *)

Record Checkpoint := {
  cp_graph_id : string;
  cp_completed : gmap string NodeOutcome;
  cp_resume_from : option string
}.

Definition Checkpoint_new (graph_id : string) : Checkpoint :=
  {| cp_graph_id := graph_id; cp_completed := ∅; cp_resume_from := None |}.

Definition Checkpoint_record (cp : Checkpoint) (o : NodeOutcome) : Checkpoint :=
  {| cp_graph_id := cp_graph_id cp; cp_completed := <[no_node_id o := o]> (cp_completed cp);
     cp_resume_from := cp_resume_from cp |}.

Definition is_completed (cp : Checkpoint) (node_id : string) : bool :=
  bool_decide (is_Some (cp_completed cp !! node_id)).

Definition get_outcome (cp : Checkpoint) (node_id : string) : option NodeOutcome :=
  cp_completed cp !! node_id.

Definition set_resume_from (cp : Checkpoint) (node_id : string) : Checkpoint :=
  {| cp_graph_id := cp_graph_id cp; cp_completed := cp_completed cp;
     cp_resume_from := Some node_id |}.

Definition count_by_status `{HashIter} (cp : Checkpoint) (s : OutcomeStatus) : nat :=
  length (filter (fun o => no_status o = s) (hm_values (cp_completed cp))).

(** ** Mission checkpoints *)

Record PersistedCheckpoint := {
  pc_graph_id : string;
  pc_node_id : string;
  pc_name : string;
  pc_resumable : bool;
  pc_sequence : Z;
  pc_timestamp_ms : Z
}.

#[export] Instance PersistedCheckpoint_eq_dec : EqDecision PersistedCheckpoint.
Proof. solve_decision. Defined.

(** [now] is the time since the epoch in milliseconds. *)
Definition from_declaration (graph_id node_id : string) (decl : MissionCheckpoint) (sequence now : Z)
  : PersistedCheckpoint :=
  {| pc_graph_id := graph_id; pc_node_id := node_id; pc_name := mc_name decl;
     pc_resumable := mc_resumable decl; pc_sequence := sequence; pc_timestamp_ms := now |}.

(** [sort_by_key(|c| c.sequence)], a stable sort. *)
Definition sort_by_sequence : list PersistedCheckpoint -> list PersistedCheckpoint :=
  sort_by (fun c d => pc_sequence c <=? pc_sequence d)%Z.

(** ** The store interface *)

Record CheckpointStore (W : Type) := {
  cs_persist : PersistedCheckpoint -> W -> result string unit * W;
  cs_list : W -> result string (list PersistedCheckpoint) * W;
  cs_clear_all : W -> result string unit * W
}.
Arguments cs_persist {W} _ _ _.
Arguments cs_list {W} _ _.
Arguments cs_clear_all {W} _ _.

(** The default method [latest]. *)
Definition cs_latest {W} (cs : CheckpointStore W) (w : W)
  : result string (option PersistedCheckpoint) * W :=
  match cs_list cs w with
  | (Ok all, w) => (Ok (last all), w)
  | (Err e, w) => (Err e, w)
  end.

(** What the trait documents: the store holds a log; [persist] adds one record when it
    succeeds and changes nothing when it fails; [list] returns the log sorted by sequence
    number and changes nothing.  [valid] are the worlds in which the store can be trusted. *)
Class CheckpointStoreLaw {W} (cs : CheckpointStore W) (valid : W -> Prop)
    (view : W -> list PersistedCheckpoint) : Prop := {
  persist_law c w r w' : valid w -> cs_persist cs c w = (r, w') ->
    valid w' /\ view w' = match r with
                          | Ok _ => sort_by_sequence (view w ++ [c])
                          | Err _ => view w
                          end;
  list_law w r w' : valid w -> cs_list cs w = (r, w') ->
    valid w' /\ view w' = view w /\ match r with Ok l => l = view w | Err _ => True end;
  clear_law w r w' : valid w -> cs_clear_all cs w = (r, w') ->
    valid w' /\ view w' = match r with Ok _ => [] | Err _ => view w end
}.

(** [build_resume_skip_set]: a listing error starts afresh. *)
Definition build_resume_skip_set {W} (store : option (CheckpointStore W)) (w : W) : gset string * W :=
  match store with
  | None => (∅, w)
  | Some cs =>
      match cs_list cs w with
      | (Ok l, w) => (list_to_set (pc_node_id <$> l), w)
      | (Err _, w) => (∅, w)
      end
  end.

(** ** Files

    A path is its parent and its file name (none for a path such as the root, which is
    then the parent itself).  A file system holds the contents of files by path; the
    oracle [fw_faults] says for each primitive operation in turn whether it fails (a
    failed write may have truncated the file and written a prefix) and with which error;
    [fw_stat_faults] says the same for the look-ups of [Path::exists].
    After a failure the code returns at once and removes nothing, so the states left by
    failures are also those left by a crash between two operations. *)

Record Path := { p_parent : string; p_file_name : option string }.

#[export] Instance Path_eq_dec : EqDecision Path.
Proof. solve_decision. Defined.
#[export] Instance Path_countable : Countable Path.
Proof.
  apply (inj_countable' (fun p => (p_parent p, p_file_name p))
    (fun t => {| p_parent := t.1; p_file_name := t.2 |})). by intros [].
Defined.

Record fault := { f_error : string; f_written : option nat }.

Record FsWorld := {
  fw_files : gmap Path string;
  fw_faults : list (option fault);
  fw_stat_faults : list bool
}.

Definition set_files (w : FsWorld) (m : gmap Path string) : FsWorld :=
  {| fw_files := m; fw_faults := fw_faults w; fw_stat_faults := fw_stat_faults w |}.

Definition next_fault (w : FsWorld) : option fault * FsWorld :=
  (mjoin (head (fw_faults w)),
   {| fw_files := fw_files w; fw_faults := tail (fw_faults w);
      fw_stat_faults := fw_stat_faults w |}).

Definition fsm (A : Type) : Type := FsWorld -> result string A * FsWorld.
#[export] Instance fsm_ret : MRet fsm := fun A a w => (Ok a, w).
#[export] Instance fsm_bind : MBind fsm :=
  fun A B f m w => match m w with (Ok a, w) => f a w | (Err e, w) => (Err e, w) end.

(** An operation that fails with the next fault, or does [m]. *)
Definition guarded {A} (m : fsm A) : fsm A := fun w =>
  let (f, w) := next_fault w in
  match f with Some f => (Err (f_error f), w) | None => m w end.

Definition fsm_result {A} (r : result string A) : fsm A := fun w => (r, w).

(** [Path::exists]: an error of the lookup counts as absent. *)
Definition fs_exists (p : Path) : fsm bool := fun w =>
  (Ok (negb (default false (head (fw_stat_faults w))) && bool_decide (is_Some (fw_files w !! p))),
   {| fw_files := fw_files w; fw_faults := fw_faults w;
      fw_stat_faults := tail (fw_stat_faults w) |}).

Definition create_dir_all (dir : string) : fsm unit := guarded (mret tt).

(** [read_to_string]: an error when the file is absent or not UTF-8. *)
Definition read_to_string (p : Path) : fsm string := guarded (fun w =>
  (match fw_files w !! p with
   | Some s => if valid_utf8 s then Ok s else Err "stream did not contain valid UTF-8"
   | None => Err "No such file or directory"
   end, w)).

Definition fs_write (p : Path) (bytes : string) : fsm unit := fun w =>
  let (f, w) := next_fault w in
  match f with
  | Some f =>
      (Err (f_error f),
       match f_written f with
       | Some k => set_files w (<[p := str_take k bytes]> (fw_files w))
       | None => w
       end)
  | None => (Ok tt, set_files w (<[p := bytes]> (fw_files w)))
  end.

Definition fs_rename (from to : Path) : fsm unit := guarded (fun w =>
  match fw_files w !! from with
  | Some s => (Ok tt, set_files w (<[to := s]> (delete from (fw_files w))))
  | None => (Err "No such file or directory", w)
  end).

Definition remove_file (p : Path) : fsm unit := guarded (fun w =>
  match fw_files w !! p with
  | Some _ => (Ok tt, set_files w (delete p (fw_files w)))
  | None => (Err "No such file or directory", w)
  end).

Definition tmp_path (p : Path) : Path :=
  {| p_parent := p_parent p;
     p_file_name := Some (match p_file_name p with
                          | Some n => n +:+ ".tmp"
                          | None => "checkpoint.tmp"
                          end) |}.

Definition atomic_write (p : Path) (bytes : string) : fsm unit :=
  _ ← create_dir_all (p_parent p);
  _ ← fs_write (tmp_path p) bytes;
  fs_rename (tmp_path p) p.

(** ** The file-system store *)

(** [serde_json] on the two persisted types.  The laws: printing succeeds, its text is
    not blank and is UTF-8 (it is a [String]), and reading it back gives the value. *)
Class CheckpointJson := {
  to_json_run : Checkpoint -> string;
  from_json_run : string -> result string Checkpoint;
  to_json_log : list PersistedCheckpoint -> string;
  from_json_log : string -> result string (list PersistedCheckpoint);
  json_run_roundtrip cp : from_json_run (to_json_run cp) = Ok cp;
  json_run_utf8 cp : valid_utf8 (to_json_run cp) = true;
  json_log_roundtrip l : from_json_log (to_json_log l) = Ok l;
  json_log_utf8 l : valid_utf8 (to_json_log l) = true;
  json_log_text l : trim (to_json_log l) <> ""
}.

Record FileSystemCheckpointStore := { run_path : Path; mission_path : Path }.

Definition FileSystemCheckpointStore_new (run_dir : string) : FileSystemCheckpointStore :=
  {| run_path := {| p_parent := run_dir; p_file_name := Some "checkpoint.json" |};
     mission_path := {| p_parent := run_dir; p_file_name := Some "mission_checkpoints.json" |} |}.

Section store.
Context `{CheckpointJson} (s : FileSystemCheckpointStore).

Definition save (cp : Checkpoint) : fsm unit := atomic_write (run_path s) (to_json_run cp).

Definition load : fsm (option Checkpoint) :=
  present ← fs_exists (run_path s);
  if negb present then mret None
  else
    data ← read_to_string (run_path s);
    cp ← fsm_result (from_json_run data);
    mret (Some cp).

Definition clear : fsm unit :=
  present ← fs_exists (run_path s);
  if (present : bool) then remove_file (run_path s) else mret tt.

Definition store_exists : fsm bool := fs_exists (run_path s).

Definition list_log : fsm (list PersistedCheckpoint) :=
  present ← fs_exists (mission_path s);
  if negb present then mret []
  else
    data ← read_to_string (mission_path s);
    if decide (trim data = "") then mret []
    else
      l ← fsm_result (from_json_log data);
      mret (sort_by_sequence l).

Definition persist (c : PersistedCheckpoint) : fsm unit :=
  all ← list_log;
  atomic_write (mission_path s) (to_json_log (all ++ [c])).

Definition clear_all : fsm unit :=
  present ← fs_exists (mission_path s);
  if (present : bool) then remove_file (mission_path s) else mret tt.

Definition fs_store : CheckpointStore FsWorld :=
  {| cs_persist := persist; cs_list := list_log; cs_clear_all := clear_all |}.
End store.

(** ** Sorting by sequence number *)

Definition seq_le (c d : PersistedCheckpoint) : Prop := (pc_sequence c <=? pc_sequence d)%Z = true.

Lemma sort_by_sequence_perm l : sort_by_sequence l ≡ₚ l.
Proof. apply sort_by_perm. Qed.

Lemma sort_by_sequence_sorted l : StronglySorted seq_le (sort_by_sequence l).
Proof. apply sort_by_sorted; intros; rewrite ?Z.leb_le, ?Z.leb_gt in *; lia. Qed.

Lemma sort_by_sequence_id l : StronglySorted seq_le l -> sort_by_sequence l = l.
Proof. apply sort_by_id. Qed.

(** ** The file-system store implements the interface *)

Lemma tmp_path_ne p : tmp_path p <> p.
Proof.
  destruct p as [dir [n|]]; [|done]. cbn. intros [= Hn].
  apply (f_equal String.length) in Hn. rewrite length_str_app in Hn. cbn in Hn. lia.
Qed.

(** One round of a sequence of operations. *)
Lemma fsm_bind_run {A B} (m : fsm A) (f : A -> fsm B) w :
  (m ≫= f) w = match m w with (Ok a, w) => f a w | (Err e, w) => (Err e, w) end.
Proof. done. Qed.

Lemma guarded_run {A} (m : fsm A) w :
  guarded m w = match (next_fault w).1 with
                | Some f => (Err (f_error f), (next_fault w).2)
                | None => m (next_fault w).2
                end.
Proof. done. Qed.

(** The file at [p] after an atomic write: the new text when it succeeded, else what it
    was; no other file but the temporary one is touched. *)
Lemma atomic_write_spec p bytes w r w' :
  atomic_write p bytes w = (r, w') ->
  fw_stat_faults w' = fw_stat_faults w /\
  fw_files w' !! p = match r with Ok _ => Some bytes | Err _ => fw_files w !! p end /\
  forall q, q <> p -> q <> tmp_path p -> fw_files w' !! q = fw_files w !! q.
Proof.
  pose proof (tmp_path_ne p) as Hne.
  unfold atomic_write, create_dir_all. rewrite fsm_bind_run, guarded_run.
  destruct (next_fault w).1; [by intros [= <- <-]|]. cbn [mret fsm_ret].
  rewrite fsm_bind_run. unfold fs_write at 1.
  set (w1 := (next_fault w).2). destruct (next_fault w1) as [f2 w2] eqn:Hw2.
  injection Hw2 as _ <-. destruct f2 as [f2|].
  { intros [= <- <-]. split_and!; [by case_match|..].
    - case_match; cbn; [|done]. by rewrite lookup_insert_ne.
    - intros q _ Hq. case_match; cbn; [|done]. by rewrite lookup_insert_ne. }
  unfold fs_rename. rewrite guarded_run.
  destruct (next_fault (set_files _ _)) as [f3 w3] eqn:Hw3. injection Hw3 as _ <-.
  cbn [fst snd]. destruct f3 as [f3|].
  { intros [= <- <-]. split_and!; [done|by cbn; rewrite lookup_insert_ne|].
    intros q _ Hq. cbn. by rewrite lookup_insert_ne. }
  cbn [fw_files set_files]. rewrite lookup_insert. rewrite decide_True by done.
  intros [= <- <-]. cbn. split_and!; [done|by simplify_map_eq|].
  intros q Hp Hq. by simplify_map_eq.
Qed.

(** The log the file holds; a file that cannot be read back holds none. *)
Definition log_view `{CheckpointJson} (s : FileSystemCheckpointStore) (w : FsWorld)
  : list PersistedCheckpoint :=
  match fw_files w !! mission_path s with
  | Some data =>
      if valid_utf8 data && negb (bool_decide (trim data = "")) then
        match from_json_log data with Ok l => sort_by_sequence l | Err _ => [] end
      else []
  | None => []
  end.

(** No look-up of [Path::exists] fails. *)
Definition stats_work (w : FsWorld) : Prop := Forall (fun f => f = false) (fw_stat_faults w).

Section store_laws.
Context `{CheckpointJson} (s : FileSystemCheckpointStore).

Lemma fs_exists_works p w r w' : stats_work w -> fs_exists p w = (r, w') ->
  r = Ok (bool_decide (is_Some (fw_files w !! p))) /\ fw_files w' = fw_files w /\ stats_work w'.
Proof.
  unfold stats_work, fs_exists. intros Hs [= <- <-]. cbn.
  destruct Hs as [|f l -> Hl]; cbn; by split_and!.
Qed.

Lemma log_view_files w w' : fw_files w' = fw_files w -> log_view s w' = log_view s w.
Proof. unfold log_view. by intros ->. Qed.

Lemma log_view_written w l :
  fw_files w !! mission_path s = Some (to_json_log l) -> log_view s w = sort_by_sequence l.
Proof.
  unfold log_view. intros ->. rewrite json_log_utf8, json_log_roundtrip, bool_decide_eq_false_2;
    [done|apply json_log_text].
Qed.

Lemma list_log_spec w r w' : stats_work w -> list_log s w = (r, w') ->
  fw_files w' = fw_files w /\ stats_work w' /\ match r with Ok l => l = log_view s w | Err _ => True end.
Proof.
  intros Hs. unfold list_log. rewrite fsm_bind_run.
  destruct (fs_exists (mission_path s) w) as [r1 w1] eqn:He.
  apply fs_exists_works in He as (-> & Hf & Hs1); [|done]. unfold log_view.
  destruct (fw_files w !! mission_path s) as [data|] eqn:Hd; cbn; [|by intros [= <- <-]].
  rewrite fsm_bind_run. unfold read_to_string. rewrite guarded_run.
  destruct (next_fault w1) as [f w2] eqn:Hw2. injection Hw2 as _ <-. cbn.
  destruct f as [f|]; [by intros [= <- <-]|]. rewrite Hf, Hd.
  destruct (valid_utf8 data) eqn:Hv; [|by intros [= <- <-]]. cbn.
  destruct (decide (trim data = "")) as [Ht|Ht].
  - rewrite bool_decide_eq_true_2 by done. by intros [= <- <-].
  - rewrite bool_decide_eq_false_2 by done. cbn. rewrite fsm_bind_run. unfold fsm_result.
    destruct (from_json_log data); by intros [= <- <-].
Qed.

Lemma load_spec v v' x : stats_work v -> load s v = (Ok x, v') ->
  match fw_files v !! run_path s with
  | Some data => exists c, from_json_run data = Ok c /\ x = Some c
  | None => x = None
  end.
Proof.
  intros Hv. unfold load. rewrite fsm_bind_run.
  destruct (fs_exists (run_path s) v) as [r1 v1] eqn:He.
  apply fs_exists_works in He as (-> & Hf & _); [|done].
  destruct (fw_files v !! run_path s) as [data|] eqn:Hd; cbn -[read_to_string];
    [|by intros [= <- _]].
  rewrite fsm_bind_run. unfold read_to_string. rewrite guarded_run.
  destruct (next_fault v1) as [f v2] eqn:Hv2. injection Hv2 as _ <-. cbn. rewrite Hf, Hd.
  destruct f; [done|]. destruct (valid_utf8 data); [|done]. rewrite fsm_bind_run. unfold fsm_result.
  destruct (from_json_run data) as [c|] eqn:Hc; [|done]. intros [= <- _]. by exists c.
Qed.

#[export] Instance fs_store_law : CheckpointStoreLaw (fs_store s) stats_work (log_view s).
Proof.
  split; cbn [cs_persist cs_list cs_clear_all fs_store].
  - intros c w r w' Hw. unfold persist. rewrite fsm_bind_run.
    destruct (list_log s w) as [r1 w1] eqn:Hl.
    apply list_log_spec in Hl as (Hf & Hs1 & Hr1); [|done]. destruct r1 as [all|e].
    + intros Ha. apply atomic_write_spec in Ha as (Hst & Hp & _).
      split; [unfold stats_work; by rewrite Hst|]. destruct r as [[]|e].
      * apply log_view_written in Hp. by rewrite Hp, Hr1.
      * unfold log_view. by rewrite Hp, Hf.
    + intros [= <- <-]. split; [done|]. by apply log_view_files.
  - intros w r w' Hw Hl. apply list_log_spec in Hl as (Hf & Hs1 & Hr); [|done].
    split_and!; [done|by apply log_view_files|done].
  - intros w r w' Hw. unfold clear_all. rewrite fsm_bind_run.
    destruct (fs_exists (mission_path s) w) as [r1 w1] eqn:He.
    apply fs_exists_works in He as (-> & Hf & Hs1); [|done].
    case_bool_decide as Hd; cbn -[remove_file].
    + unfold remove_file. rewrite guarded_run. destruct (next_fault w1) as [f w2] eqn:Hw2.
      injection Hw2 as _ <-. cbn. rewrite Hf. destruct f as [f|].
      * intros [= <- <-]. split; [done|]. by apply log_view_files.
      * destruct Hd as [data ->]. intros [= <- <-]. split; [done|].
        unfold log_view. cbn. by rewrite lookup_delete, decide_True.
    + intros [= <- <-]. split; [done|]. unfold log_view. cbn. rewrite Hf.
      destruct (fw_files w !! mission_path s); [|done]. by destruct Hd.
Qed.
End store_laws.

(** ** Any store that keeps its promise *)

Section resume.
Context {W : Type} (cs : CheckpointStore W) (valid : W -> Prop) (view : W -> list PersistedCheckpoint).
Context `{!CheckpointStoreLaw cs valid view}.

(** Recording a list of checkpoints, those that fail being dropped. *)
Fixpoint persist_all (l : list PersistedCheckpoint) (w : W) : list PersistedCheckpoint * W :=
  match l with
  | [] => ([], w)
  | c :: l =>
      let (r, w) := cs_persist cs c w in
      let (kept, w) := persist_all l w in
      (match r with Ok _ => c :: kept | Err _ => kept end, w)
  end.

Lemma persist_all_view l w kept w' : valid w -> StronglySorted seq_le (view w) ->
  persist_all l w = (kept, w') -> valid w' /\ StronglySorted seq_le (view w') /\ view w' ≡ₚ view w ++ kept.
Proof.
  revert w kept; induction l as [|c l IH]; intros w kept Hv Hs; cbn [persist_all].
  - intros [= <- <-]. by rewrite app_nil_r.
  - destruct (cs_persist cs c w) as [r w1] eqn:Hp. apply persist_law in Hp as [Hv1 Hr]; [|done].
    destruct (persist_all l w1) as [kept1 w2] eqn:Hl. intros [= <- <-].
    assert (Hs1 : StronglySorted seq_le (view w1)).
    { rewrite Hr. destruct r; [apply sort_by_sequence_sorted|done]. }
    destruct (IH _ _ Hv1 Hs1 Hl) as (Hv2 & Hs2 & Hperm). split_and!; [done..|]. rewrite Hperm, Hr.
    destruct r; [|done]. rewrite sort_by_sequence_perm, <- app_assoc. done.
Qed.

Lemma resume_skip_view w skip w' :
  valid w -> build_resume_skip_set (Some cs) w = (skip, w') ->
  valid w' /\ view w' = view w /\
  ((exists e, (cs_list cs w).1 = Err e) /\ skip = ∅ \/
   forall n, n ∈ skip <-> exists c, c ∈ view w /\ pc_node_id c = n).
Proof.
  intros Hv. cbn. destruct (cs_list cs w) as [[l|e] w1] eqn:Hl; intros [= <- <-];
    apply list_law in Hl as (Hv1 & Hview & Hr); try done; (split_and!; [done|done|]).
  - right. intros n. rewrite elem_of_list_to_set, list_elem_of_fmap. subst l. split.
    + intros (c & -> & Hc). eauto.
    + intros (c & Hc & <-). eauto.
  - left. split; [by eexists|done].
Qed.
End resume.

(** ** A concrete codec

    The record encoded by its [Countable] number, written in binary. *)

#[export] Instance PersistedCheckpoint_countable : Countable PersistedCheckpoint.
Proof.
  apply (inj_countable' (fun c => (pc_graph_id c, pc_node_id c, pc_name c, pc_resumable c,
      pc_sequence c, pc_timestamp_ms c))
    (fun '(g, n, m, r, s, t) => {| pc_graph_id := g; pc_node_id := n; pc_name := m;
       pc_resumable := r; pc_sequence := s; pc_timestamp_ms := t |})). by intros [].
Defined.

#[export] Instance TokenUsage_eq_dec : EqDecision TokenUsage.
Proof. solve_decision. Defined.
#[export] Instance NodeOutcome_eq_dec : EqDecision NodeOutcome.
Proof. solve_decision. Defined.
#[export] Instance Checkpoint_eq_dec : EqDecision Checkpoint.
Proof. solve_decision. Defined.

Definition status_code (s : OutcomeStatus) : nat :=
  match s with Pass => 0 | Fail => 1 | Error => 2 | Skipped => 3 end.
Definition status_of_code (n : nat) : OutcomeStatus :=
  match n with 0 => Pass | 1 => Fail | 2 => Error | _ => Skipped end.

#[export] Instance NodeOutcome_countable : Countable NodeOutcome.
Proof.
  apply (inj_countable' (fun o => (no_node_id o, status_code (no_status o), no_content o,
      (input_tokens (no_token_usage o), output_tokens (no_token_usage o),
       reasoning_tokens (no_token_usage o), cache_read_tokens (no_token_usage o),
       cache_write_tokens (no_token_usage o)), no_files_modified o))
    (fun '(n, s, c, (a, b, d, e, f), files) => {| no_node_id := n; no_status := status_of_code s;
       no_content := c; no_token_usage := {| input_tokens := a; output_tokens := b;
         reasoning_tokens := d; cache_read_tokens := e; cache_write_tokens := f |};
       no_files_modified := files |})).
  intros [? [] ? [] ?]; done.
Defined.

#[export] Instance Checkpoint_countable : Countable Checkpoint.
Proof.
  apply (inj_countable' (fun c => (cp_graph_id c, cp_completed c, cp_resume_from c))
    (fun '(g, m, r) => {| cp_graph_id := g; cp_completed := m; cp_resume_from := r |})). by intros [].
Defined.

Fixpoint print_bits (p : positive) : string :=
  match p with
  | xH => "."
  | xO p => String "0" (print_bits p)
  | xI p => String "1" (print_bits p)
  end.

Fixpoint parse_bits (s : string) : option positive :=
  match s with
  | EmptyString => None
  | String b s =>
      if decide (b = "."%char) then Some xH
      else if decide (b = "0"%char) then xO <$> parse_bits s
      else xI <$> parse_bits s
  end.

Lemma parse_print_bits p : parse_bits (print_bits p) = Some p.
Proof. induction p as [p IH|p IH|]; cbn; rewrite ?IH; done. Qed.

Lemma print_bits_ascii p : is_ascii (print_bits p) = true.
Proof. by induction p. Qed.

Lemma print_bits_text p : trim (print_bits p) <> "".
Proof. destruct p; by apply trim_nonempty. Qed.

Definition read_bits {A} `{Countable A} (s : string) : result string A :=
  match p ← parse_bits s; decode p with Some a => Ok a | None => Err "bad text" end.

Lemma read_print_bits {A} `{Countable A} (a : A) : read_bits (print_bits (encode a)) = Ok a.
Proof. unfold read_bits. rewrite parse_print_bits. cbn. by rewrite decode_encode. Qed.

Definition bits_json : CheckpointJson := {|
  to_json_run cp := print_bits (encode cp);
  from_json_run := read_bits;
  to_json_log l := print_bits (encode l);
  from_json_log := read_bits;
  json_run_roundtrip cp := read_print_bits cp;
  json_run_utf8 cp := valid_utf8_ascii _ (print_bits_ascii _);
  json_log_roundtrip l := read_print_bits l;
  json_log_utf8 l := valid_utf8_ascii _ (print_bits_ascii _);
  json_log_text l := print_bits_text _
|}.

(** ** Properties *)


Definition demo_store : FileSystemCheckpointStore := FileSystemCheckpointStore_new "run".
Definition demo_record (n : string) (seq : Z) : PersistedCheckpoint :=
  from_declaration "g" n {| mc_name := "cp"; mc_resumable := true |} seq 0.

(** Three records; the rename of the second one fails after its text was written. *)
Definition demo_fs : FsWorld :=
  {| fw_files := ∅;
     fw_faults := [None; None; None;
                   None; None; None; Some {| f_error := "disk full"; f_written := Some 3 |};
                   None; None; None; None];
     fw_stat_faults := [] |}.
Definition demo_persisted : list PersistedCheckpoint * FsWorld :=
  persist_all (@fs_store bits_json demo_store)
    [demo_record "a" 0; demo_record "b" 1; demo_record "c" 1] demo_fs.


(** C28.  The run-level checkpoint survives failures: after [save], whatever operation of it
    failed or was interrupted, a [load] that reads the disk returns the saved checkpoint when
    [save] reported success, and otherwise exactly what it would have returned before. *)
Theorem save_load_atomic `{CheckpointJson} (s : FileSystemCheckpointStore) (cp : Checkpoint)
    (w w1 w2 w3 : FsWorld) (r : result string unit) (before after : option Checkpoint) :
  stats_work w ->
  load s w = (Ok before, w1) -> save s cp w = (r, w2) -> load s w2 = (Ok after, w3) ->
  after = match r with Ok _ => Some cp | Err _ => before end.
Proof.
  intros Hw Hb Hs Ha. unfold save in Hs. apply atomic_write_spec in Hs as (Hst & Hp & _).
  apply load_spec in Hb; [|done]. apply load_spec in Ha; [|unfold stats_work; by rewrite Hst].
  rewrite Hp in Ha. destruct r as [[]|e].
  - destruct Ha as (c & Hc & ->). rewrite json_run_roundtrip in Hc. by simplify_eq.
  - destruct (fw_files w !! run_path s); [|congruence]. destruct Ha as (c & Hc & ->), Hb as (c' & Hc' & ->).
    congruence.
Qed.

(** A save whose write stops after five bytes, over a good checkpoint. *)
Definition saved_fs : FsWorld :=
  {| fw_files := {[run_path demo_store := @to_json_run bits_json (Checkpoint_new "old")]};
     fw_faults := []; fw_stat_faults := [] |}.
Definition torn_fs : FsWorld :=
  {| fw_files := fw_files saved_fs;
     fw_faults := [None; Some {| f_error := "killed"; f_written := Some 5 |}]; fw_stat_faults := [] |}.

Lemma save_load_atomic_witness :
  (@load bits_json demo_store (@save bits_json demo_store (Checkpoint_new "new") torn_fs).2).1 =
  Ok (Some (Checkpoint_new "old")).
Proof.
  set (w2 := (@save bits_json demo_store (Checkpoint_new "new") torn_fs).2).
  destruct (@load bits_json demo_store w2) as [[after|e] w3] eqn:Ha; [|by vm_compute in Ha]. cbn.
  f_equal.
  apply (@save_load_atomic bits_json demo_store (Checkpoint_new "new") torn_fs
    (@load bits_json demo_store torn_fs).2 w2 w3
    (Err "killed") (Some (Checkpoint_new "old")) after).
  - constructor.
  - by vm_compute.
  - by vm_compute.
  - exact Ha.
Defined.

(** ** Where the store departs from its documentation *)

(** The skip set takes records of another graph, and records that are not resumable. *)
Lemma resume_ignores_scope :
  let c := from_declaration "other graph" "a" {| mc_name := "cp"; mc_resumable := false |} 0 0 in
  let w := (@persist bits_json demo_store c
              {| fw_files := ∅; fw_faults := []; fw_stat_faults := [] |}).2 in
  "a" ∈ (build_resume_skip_set (Some (@fs_store bits_json demo_store)) w).1.
Proof. apply (bool_decide_eq_true_1 _). by vm_compute. Qed.

(** A record written with the counter of a restarted process (which starts at 0 again)
    sorts before the records of the run it resumes: [latest] still gives the old one. *)
Lemma restart_hides_latest :
  let w := (persist_all (@fs_store bits_json demo_store)
              [demo_record "a" 0; demo_record "b" 1; demo_record "after restart" 0]
              {| fw_files := ∅; fw_faults := []; fw_stat_faults := [] |}).2 in
  (cs_latest (@fs_store bits_json demo_store) w).1 = Ok (Some (demo_record "b" 1)).
Proof. by vm_compute. Qed.

(** When the look-up of the log fails, the log counts as absent and the next [persist]
    replaces it. *)
Lemma failed_stat_loses_log :
  let w := (persist_all (@fs_store bits_json demo_store) [demo_record "a" 0; demo_record "b" 1]
              {| fw_files := ∅; fw_faults := []; fw_stat_faults := [false; true] |}).2 in
  @log_view bits_json demo_store w = [demo_record "b" 1].
Proof. by vm_compute. Qed.
