(* ===== verification/Fanout.v ===== *)
(** * Fan-out: planning and dispatching workers

    Model of the fan-out half of [crates/octos-pipeline/src/executor.rs]: worker labels,
    the planner of [dynamic_parallel] nodes with its reply parsing and fallback, the
    worker nodes it makes, the budget reservations held while workers are queued, the
    lifetime cap on workers and the status of a fan-out.  [WalkHost] extends [Host] with
    what the single-path walk needs beyond the scheduler: guards, the checkpoint store,
    providers and [join_all]. *)

From S2P Require Import Prelude RustStr RustNum Fidelity Graph Condition Validate Host Dispatch.
From S2P Require Import Dag Guard Checkpoint.

(** ** Worker labels *)

Section labels.
Context `{UnicodeTables}.

(** The loop over the characters of the trimmed label; [prev] is [prev_underscore]. *)
Fixpoint sanitize_go (cs : list (N * string)) (prev : bool) : string :=
  match cs with
  | [] => ""
  | (c, _) :: cs =>
      if is_alphanumeric c then char_lowercase c +:+ sanitize_go cs false
      else if prev then sanitize_go cs true
      else String "_" (sanitize_go cs true)
  end.

Definition sanitize_label_for_filename (label : string) : string :=
  let trimmed := trim_matches "_" (sanitize_go (chars (trim label)) false) in
  if decide (trimmed = "") then "task" else take_chars 48 trimmed.

(** What replaces [{label}] in the prompt of worker [i]. *)
Definition label_token (label : string) (i : nat) : string :=
  sanitize_label_for_filename label +:+ "-" +:+ pretty i.
End labels.

(** ** The fan-out cap *)

Definition MAX_PIPELINE_FANOUT_TOTAL : Z := 500.

Inductive PipelineError :=
| FanoutExceeded (count cap : Z).

Definition PipelineError_display (e : PipelineError) : string :=
  match e with
  | FanoutExceeded count cap =>
      "pipeline fan-out cap exceeded (" +:+ pretty count +:+ " of " +:+ pretty cap
      +:+ "); refusing further workers"
  end.

Definition usize_saturating_add (a b : Z) : Z := Z.min usize_max (a + b).

(** ** The planner *)

Record DynamicTask := { dt_task : string; dt_label : option string }.

Inductive MessageRole := System_role | User_role.
Record Message := { msg_role : MessageRole; msg_content : string }.
Record ChatResponse := {
  cr_content : option string;
  cr_reasoning_content : option string;
  cr_input_tokens : Z;
  cr_output_tokens : Z
}.

(** [LlmProvider::chat] with the messages and [max_tokens] of the request. *)
Definition Provider (W : Type) : Type := list Message -> Z -> W -> result report ChatResponse * W.

(** [serde_json::from_str] on the planner's reply: as tasks, and as an array of objects,
    of which only the string values are used ([None] for another value). *)
Class PlannerJson := {
  parse_tasks : string -> result string (list DynamicTask);
  parse_objects : string -> result string (list (list (option string)))
}.

(** An unknown key degrades to the default provider. *)
Definition resolve_provider {W} (dflt : Provider W) (router : option (string -> result report (Provider W)))
    (model_key : option string) : result report (Provider W) :=
  match model_key, router with
  | Some key, Some r => match r key with Ok p => Ok p | Err _ => Ok dflt end
  | Some _, None => Ok dflt
  | None, _ => Ok dflt
  end.

(** The slice [text[start..=end]] is on char boundaries: both ends are ASCII. *)
Definition extract_json_array (text : string) : option string :=
  let text := trim text in
  if starts_with "[" text then Some text
  else
    match find_str "[{" text, rfind_char "]" text with
    | Some start, Some stop =>
        if bool_decide (start < stop) then Some (str_take (S stop - start) (str_drop start text))
        else None
    | _, _ => None
    end.

Definition planner_prompt (planning_prompt user_input : string) (max_tasks : Z) : string :=
  planning_prompt +:+ nl (nl "User query: ") +:+ user_input +:+
  nl (nl "IMPORTANT: Respond with ONLY a JSON array of tasks. No explanation, no markdown, no code fences. Example format:")
  +:+ nl "[{" +:+ quoted "task" +:+ ": " +:+ quoted "search for X" +:+ ", " +:+ quoted "label"
  +:+ ": " +:+ quoted "Label" +:+ "}, {" +:+ quoted "task" +:+ ": " +:+ quoted "search for Y"
  +:+ ", " +:+ quoted "label" +:+ ": " +:+ quoted "Label" +:+ "}]"
  +:+ nl "Generate up to " +:+ pretty max_tasks +:+ " tasks.".

(** The flexible reading: the first string of an object is its task, the second its label. *)
Definition flexible_task (values : list (option string)) : option DynamicTask :=
  match omap id values with
  | [] => None
  | [task] => Some {| dt_task := task; dt_label := None |}
  | task :: label :: _ => Some {| dt_task := task; dt_label := Some label |}
  end.

Definition read_tasks `{PlannerJson} (json : string) : result report (list DynamicTask) :=
  match parse_tasks json with
  | Ok tasks => Ok tasks
  | Err _ =>
      match parse_objects json with
      | Ok arr => Ok (omap flexible_task arr)
      | Err e =>
          bail ("failed to parse planning JSON as array of objects: " +:+ e +:+
                nl "JSON: " +:+ take_chars 200 json)
      end
  end.

Definition plan_dynamic_tasks `{PlannerJson} {W} (provider : Provider W)
    (planning_prompt user_input : string) (max_tasks : Z)
  : io W (list DynamicTask * TokenUsage) :=
  let messages :=
    [{| msg_role := System_role;
        msg_content := "You are a research planner. Output ONLY a JSON array. No other text." |};
     {| msg_role := User_role; msg_content := planner_prompt planning_prompt user_input max_tasks |}] in
  response ← call (provider messages 4096%Z);
  let usage :=
    {| input_tokens := cr_input_tokens response; output_tokens := cr_output_tokens response;
       reasoning_tokens := 0; cache_read_tokens := 0; cache_write_tokens := 0 |} in
  let content := default "" (cr_content response) in
  let text := if decide (trim content = "") then default "" (cr_reasoning_content response)
              else content in
  match extract_json_array text with
  | None => throw ("no JSON array found in planning response: " +:+ take_chars 200 text)
  | Some json =>
      tasks ← try (read_tasks json);
      mret (take (Z.to_nat max_tasks) tasks, usage)
  end.

Definition fallback_tasks (user_input : string) : list DynamicTask :=
  [{| dt_task := "Search for: " +:+ user_input; dt_label := Some "Primary search" |};
   {| dt_task := "Search in English for: " +:+ user_input; dt_label := Some "English search" |};
   {| dt_task := "Search for recent trends and developments: " +:+ user_input;
      dt_label := Some "Trends" |}].

(** The [match] around the planner: too few tasks, or an error, use the fallback. *)
Definition plan_or_fallback `{PlannerJson} {W} (provider : Provider W)
    (planning_prompt dp_input : string) (max_tasks : Z) : io W (list DynamicTask * TokenUsage) :=
  fun w =>
    match plan_dynamic_tasks provider planning_prompt dp_input max_tasks w with
    | (Val (tasks, usage), w) =>
        (Val (if bool_decide (2 <= length tasks) then tasks else fallback_tasks dp_input, usage), w)
    | (Bail _, w) => (Val (fallback_tasks dp_input, TokenUsage_default), w)
    | (Panic, w) => (Panic, w)
    end.

(** ** The workers of a dynamic fan-out *)

Definition DEFAULT_PLANNING_PROMPT : string :=
  "Generate 4-6 research search angles for this query. Each angle should cover a different aspect."
  +:+ nl "Respond with ONLY a JSON array of objects with " +:+ quoted "task" +:+ " and "
  +:+ quoted "label" +:+ " fields.".

Definition planning_prompt (rc : DagRunCtx) (node : PipelineNode) : string :=
  foldl (fun s '(k, v) => replace s ("{" +:+ k +:+ "}") (default "" v))
    (default DEFAULT_PLANNING_PROMPT (pn_prompt node)) (rc_variables rc).

Definition DEFAULT_WORKER_PROMPT : string :=
  "You are a research specialist." +:+ nl (nl "{task}") +:+
  nl (nl "Use the available tools to find relevant information. Include ALL URLs and source references.").

(** A comma makes the model attribute a pool. *)
Definition worker_model_pool (model_str : string) : list string :=
  if contains model_str "," then filter (fun s => s <> "") (trim <$> split_on "," model_str)
  else [model_str].

Section synthetic.
Context `{UnicodeTables}.

(** [model_pool[i % model_pool.len()]] panics on an empty pool. *)
Definition synthetic_node (g : PipelineGraph) (node : PipelineNode) (i : nat) (task : DynamicTask)
  : flow PipelineNode :=
  let id := pn_id node +:+ "_task_" +:+ pretty i in
  let label := default ("Task " +:+ pretty (i + 1)) (dt_label task) in
  let template := default DEFAULT_WORKER_PROMPT (pn_worker_prompt node) in
  let prompt := replace (replace template "{task}" (dt_task task)) "{label}" (label_token label i) in
  let model_str := default "" (match pn_model node with
                               | Some m => Some m
                               | None => pg_default_model g
                               end) in
  let pool := worker_model_pool model_str in
  model ← of_option (pool !! (i mod length pool));
  mret {|
    pn_id := id; pn_handler := Codergen; pn_prompt := Some prompt; pn_label := Some label;
    pn_model := Some model; pn_context_window := None; pn_max_output_tokens := None;
    pn_reasoning_effort := None; pn_max_iterations := None; pn_tools := pn_tools node;
    pn_goal_gate := false; pn_max_retries := pn_max_retries node;
    pn_timeout_secs := pn_timeout_secs node; pn_suggested_next := None; pn_converge := None;
    pn_worker_prompt := None; pn_planner_model := None; pn_max_tasks := None;
    pn_human_gate := false; pn_resolver := None; pn_artifact_refs := []; pn_checkpoint_refs := [];
    pn_deadline_secs := pn_deadline_secs node; pn_deadline_action := pn_deadline_action node;
    pn_continue_on_error := false; pn_checkpoints := [] |}.

Fixpoint synthetic_nodes (g : PipelineGraph) (node : PipelineNode) (i : nat)
    (tasks : list DynamicTask) : flow (list PipelineNode) :=
  match tasks with
  | [] => mret []
  | task :: tasks =>
      n ← synthetic_node g node i task;
      rest ← synthetic_nodes g node (S i) tasks;
      mret (n :: rest)
  end.
End synthetic.

(** ** The status of a fan-out *)

Definition fan_status (wr : WorkerResults) : OutcomeStatus :=
  if wr_any_error wr && negb (wr_any_pass wr) then Error
  else if wr_any_pass wr && negb (wr_any_error wr) then Pass
  else Fail.

(** ** The host of the walk *)

(** A queued worker future: its id, its node and the computation it will run. *)
Record FanoutWorker (W : Type) := {
  fo_id : string;
  fo_node : PipelineNode;
  fo_run : io W NodeOutcome
}.
Arguments fo_id {W} _.
Arguments fo_node {W} _.
Arguments fo_run {W} _.

Record WalkHost (W : Type) := {
  wh_host : Host W;
  wh_guards : list (PipelineGuard W);
  wh_store : option (CheckpointStore W);
  (** [PIPELINE_CHECKPOINT_PERSISTED_TOTAL]: its value, and its increment. *)
  wh_persisted_total : W -> Z;
  wh_count_persisted : W -> W;
  (** Milliseconds since the epoch. *)
  wh_epoch_ms : W -> Z;
  wh_default_provider : Provider W;
  wh_router : option (string -> result report (Provider W));
  (** [join_all] on worker futures under the worker semaphore: the elapsed milliseconds
      and the result of each, in their order. *)
  wh_join_all : list (FanoutWorker W) -> W -> flow (list (Z * result report NodeOutcome)) * W;
  (** [resolve_search_result_files] on the files of the working directory. *)
  wh_resolve_files : W -> string -> string;
  (** [max_pipeline_fanout_total]. *)
  wh_max_fanout : option Z
}.
Arguments wh_host {W} _.
Arguments wh_guards {W} _.
Arguments wh_store {W} _.
Arguments wh_persisted_total {W} _ _.
Arguments wh_count_persisted {W} _ _.
Arguments wh_epoch_ms {W} _ _.
Arguments wh_default_provider {W} _.
Arguments wh_router {W} _.
Arguments wh_join_all {W} _ _ _.
Arguments wh_resolve_files {W} _ _ _.
Arguments wh_max_fanout {W} _.

(** What the executor relies on of [join_all]: one result per future, and no panic but
    that of a future. *)
Class JoinLaw {W} (wh : WalkHost W) : Prop := {
  join_length ws w rs w' : wh_join_all wh ws w = (Val rs, w') -> length rs = length ws;
  join_no_panic ws w :
    (forall fo, fo ∈ ws -> no_panic (fo_run fo)) -> (wh_join_all wh ws w).1 <> Panic
}.

(** Worker futures run one after the other: an instance of [join_all]. *)
Fixpoint join_sequential {W} (clock : W -> Z) (ws : list (FanoutWorker W)) (w : W)
  : flow (list (Z * result report NodeOutcome)) * W :=
  match ws with
  | [] => (Val [], w)
  | fo :: ws =>
      match fo_run fo w with
      | (Panic, w') => (Panic, w')
      | (r, w') =>
          let res := match r with Val o => Ok o | Bail e => Err e | Panic => Err [] end in
          match join_sequential clock ws w' with
          | (Val rs, w'') => (Val (((clock w' - clock w)%Z, res) :: rs), w'')
          | (f, w'') => (f, w'')
          end
      end
  end.

Lemma join_sequential_length {W} (clock : W -> Z) ws w rs w' :
  join_sequential clock ws w = (Val rs, w') -> length rs = length ws.
Proof.
  revert w rs; induction ws as [|fo ws IH]; intros w rs; cbn; [by intros [= <- _]|].
  destruct (fo_run fo w) as [r w1]. destruct (join_sequential clock ws w1) as [f w2] eqn:Hj.
  destruct r, f; try done; intros [= <- ->]; cbn; f_equal; by eapply IH.
Qed.

Lemma join_sequential_no_panic {W} (clock : W -> Z) ws w :
  (forall fo, fo ∈ ws -> no_panic (fo_run fo)) -> (join_sequential clock ws w).1 <> Panic.
Proof.
  revert w; induction ws as [|fo ws IH]; intros w Hws; [done|]. cbn.
  pose proof (Hws fo (list_elem_of_here _ _) w) as Hfo.
  assert (Htl : forall w, (join_sequential clock ws w).1 <> Panic).
  { intros w'. apply IH. intros fo' Hin. apply Hws. by right. }
  destruct (fo_run fo w) as [[o|e|] w1]; [|..|done]; specialize (Htl w1);
    destruct (join_sequential clock ws w1) as [[] w2]; done.
Qed.

(** ** Queueing and joining workers *)

Section run_workers.
Context {W : Type} (wh : WalkHost W).

Definition release_all (held : list f64) (w : W) : W :=
  foldl (fun w r => h_release (wh_host wh) (Some r) w) w held.

(** The [for] loop that prepares the workers: reservations are held until the fan-out
    ends; when preparing a worker fails, the ones held so far are dropped. *)
Fixpoint queue_workers {A} (prep : A -> io W (FanoutWorker W * option f64)) (items : list A)
    (held : list f64) : io W (list (FanoutWorker W) * list f64) :=
  match items with
  | [] => mret ([], held)
  | a :: items =>
      q ← dropping (release_all held) (prep a);
      let '(fo, reservation) := q in
      rest ← queue_workers prep items (held ++ option_list reservation);
      let '(ws, held) := rest in
      mret (fo :: ws, held)
  end.

Definition worker_results (ws : list (FanoutWorker W)) (rs : list (Z * result report NodeOutcome))
  : list WorkerResult :=
  zip_with (fun fo '(ms, r) =>
    {| w_task_id := fo_id fo; w_node := fo_node fo; w_elapsed_ms := ms; w_result := r |}) ws rs.

(** Queue, join, drop the reservations, merge. *)
Definition run_workers {A} (prep : A -> io W (FanoutWorker W * option f64)) (items : list A)
  : io W WorkerResults :=
  queued ← queue_workers prep items [];
  let '(ws, held) := queued in
  rs ← dropping (release_all held) (wh_join_all wh ws);
  _ ← effect (release_all held);
  lift_pure (fun w => (process_worker_results (wh_resolve_files wh w) (worker_results ws rs), w)).
End run_workers.

(** ** Worker labels are file names *)

(** A byte that may occur in a worker's file name. *)
Definition label_byte (b : ascii) : bool := name_byte b || bool_decide (b = "_"%char).

Lemma label_byte_of_name s : str_forall name_byte s = true -> str_forall label_byte s = true.
Proof.
  induction s as [|b s IH]; [done|]. cbn. intros [Hb Hs]%andb_true_iff.
  rewrite IH by done. unfold label_byte. by rewrite Hb.
Qed.

Lemma sanitize_go_bytes `{UnicodeTables} cs prev : str_forall label_byte (sanitize_go cs prev) = true.
Proof.
  revert prev; induction cs as [|[c bs] cs IH]; intros prev; [done|]. cbn.
  destruct (is_alphanumeric c) eqn:Hc.
  - rewrite str_forall_app, IH, andb_true_r. by apply label_byte_of_name, char_lowercase_bytes.
  - destruct prev; cbn; by rewrite IH.
Qed.

Lemma sanitized_ok `{UnicodeTables} label :
  let s := sanitize_label_for_filename label in
  s <> "" /\ str_forall label_byte s = true /\ String.length s <= 192 /\ forall t, s <> String "_" t.
Proof.
  intros s. unfold s, sanitize_label_for_filename.
  destruct (trim_matches_part "_" (sanitize_go (chars (trim label)) false)) as [(p & q & Hpq) Hhead].
  pose proof (sanitize_go_bytes (chars (trim label)) false) as Hb. rewrite Hpq, !str_forall_app in Hb.
  apply andb_true_iff in Hb as [_ [Hb _]%andb_true_iff].
  destruct (trim_matches "_" _) as [|b t] eqn:Ht.
  { rewrite decide_True by done. split_and!; [done|done|cbn; lia|done]. }
  rewrite decide_False by done. destruct (take_chars_head 47 b t) as [t' Ht']. split_and!.
  - by rewrite Ht'.
  - destruct (take_chars_prefix 48 (String b t)) as [r Hr]. rewrite Hr, str_forall_app in Hb.
    by apply andb_true_iff in Hb as [? _].
  - apply (take_chars_length 48).
  - intros t2 Heq. rewrite Ht' in Heq. injection Heq as -> _. by apply (Hhead t).
Qed.

Definition not_dash (b : ascii) : bool := negb (bool_decide (b = "-"%char)).

Lemma pretty_nat_no_dash (n : nat) : str_forall not_dash (pretty n) = true.
Proof.
  unfold pretty, pretty_nat, pretty, pretty_N. case_decide; [done|]. apply pretty_N_go_forall; [|done].
  intros y. unfold pretty_N_char. by repeat case_match.
Qed.

(** What follows the last dash is determined. *)
Lemma dash_suffix_inj (s1 s2 d1 d2 : string) :
  str_forall not_dash d1 = true -> str_forall not_dash d2 = true ->
  s1 +:+ "-" +:+ d1 = s2 +:+ "-" +:+ d2 -> d1 = d2.
Proof.
  intros H1 H2. revert s2. induction s1 as [|b s1 IH]; intros [|b2 s2]; rewrite ?str_cons_app, ?str_nil_app.
  - by intros [= ->].
  - intros [= _ ->]. rewrite !str_forall_app in H1. cbn in H1. by rewrite andb_false_r in H1.
  - intros [= -> <-]. rewrite !str_forall_app in H2. cbn in H2. by rewrite andb_false_r in H2.
  - intros [= -> Heq]. by apply (IH s2).
Qed.

(**  The token a worker writes its findings under is safe and its own: for every label,
    it is a non-empty name of at most 192 bytes made of digits, lower-case letters,
    multi-byte characters and underscores, not starting with an underscore (so never empty,
    a path separator, a dot or an option); and workers with different indices get different
    tokens, whatever their labels. *)
Theorem worker_labels_safe `{UnicodeTables} (label label' : string) (i j : nat) :
  let s := sanitize_label_for_filename label in
  (s <> "" /\ str_forall label_byte s = true /\ String.length s <= 192 /\ forall t, s <> String "_" t) /\
  (i <> j -> label_token label i <> label_token label' j).
Proof.
  intros s. split; [apply sanitized_ok|]. intros Hij Heq. apply Hij.
  apply dash_suffix_inj in Heq; [|apply pretty_nat_no_dash..]. by apply (inj pretty) in Heq.
Qed.

(** ** The planner always yields workers *)

(** Planning cannot fail or starve a fan-out: whatever the provider answers (an error,
    no JSON, malformed JSON, too few or too many tasks), [plan_or_fallback] returns at least
    two tasks and at most the larger of [max_tasks] and three. *)
Theorem plan_bounds `{PlannerJson} {W : Type} (provider : Provider W) (prompt input : string)
    (max_tasks : Z) (w : W) :
  exists tasks usage w', plan_or_fallback provider prompt input max_tasks w = (Val (tasks, usage), w') /\
    2 <= length tasks <= Nat.max (Z.to_nat max_tasks) 3.
Proof.
  unfold plan_or_fallback.
  assert (Hp : match plan_dynamic_tasks provider prompt input max_tasks w with
               | (Val (tasks, _), _) => length tasks <= Z.to_nat max_tasks
               | (Bail _, _) => True
               | (Panic, _) => False
               end).
  { unfold plan_dynamic_tasks, mbind, io_bind, call. destruct (provider _ _ w) as [[resp|e] w1]; cbn; [|done].
    destruct (extract_json_array _) as [json|]; [|done]. unfold try, lift_flow.
    destruct (read_tasks json) as [tasks|e]; cbn; [|done]. rewrite length_take. lia. }
  destruct (plan_dynamic_tasks _ _ _ _ w) as [[[tasks usage]|e|] w']; [| |done].
  - case_bool_decide; do 3 eexists; (split; [reflexivity|]); cbn; lia.
  - do 3 eexists. split; [reflexivity|]. cbn. lia.
Qed.
