(* ===== verification/Walk.v ===== *)
(** * The single-path walk

    Model of [execute_graph] of [crates/octos-pipeline/src/executor.rs]: the loop that
    runs one node after the other, follows the edge [select_next_edge] picks, jumps to the
    convergence node after a fan-out, skips the nodes of a checkpoint and consults the
    guards.  A round of the loop is [walk_step]; [walk_loop] iterates it with a fuel
    ([None] when it runs out: the source loop has no bound of its own). *)

From S2P Require Import Prelude RustStr RustNum Fidelity Graph Condition Validate Host Dispatch.
From S2P Require Import Dag Guard Checkpoint Fanout.

(** The mutable locals of the loop.  [resume_skip] and the start time are fixed. *)
Record WalkState := {
  ws_current : string;
  ws_completed : gmap string NodeOutcome;
  ws_summaries : list NodeSummary;
  ws_total_tokens : TokenUsage;
  ws_node_costs : list NodeCost;
  ws_node_task_ids : gmap string string;
  ws_parallel_executed : gset string;
  ws_visit_counts : gmap string Z;
  ws_fanout_dispatched : Z
}.

Definition WalkState_init (start_node : string) : WalkState :=
  {| ws_current := start_node; ws_completed := ∅; ws_summaries := [];
     ws_total_tokens := TokenUsage_default; ws_node_costs := []; ws_node_task_ids := ∅;
     ws_parallel_executed := ∅; ws_visit_counts := ∅; ws_fanout_dispatched := 0 |}.

Definition set_current (st : WalkState) (id : string) : WalkState :=
  {| ws_current := id; ws_completed := ws_completed st; ws_summaries := ws_summaries st;
     ws_total_tokens := ws_total_tokens st; ws_node_costs := ws_node_costs st;
     ws_node_task_ids := ws_node_task_ids st; ws_parallel_executed := ws_parallel_executed st;
     ws_visit_counts := ws_visit_counts st; ws_fanout_dispatched := ws_fanout_dispatched st |}.

(** [summaries.push(s); completed.insert(current, o)]. *)
Definition record_outcome (st : WalkState) (s : NodeSummary) (o : NodeOutcome) : WalkState :=
  {| ws_current := ws_current st; ws_completed := <[ws_current st := o]> (ws_completed st);
     ws_summaries := ws_summaries st ++ [s];
     ws_total_tokens := ws_total_tokens st; ws_node_costs := ws_node_costs st;
     ws_node_task_ids := ws_node_task_ids st; ws_parallel_executed := ws_parallel_executed st;
     ws_visit_counts := ws_visit_counts st; ws_fanout_dispatched := ws_fanout_dispatched st |}.

Definition count_visit (st : WalkState) : WalkState :=
  {| ws_current := ws_current st; ws_completed := ws_completed st; ws_summaries := ws_summaries st;
     ws_total_tokens := ws_total_tokens st; ws_node_costs := ws_node_costs st;
     ws_node_task_ids := ws_node_task_ids st; ws_parallel_executed := ws_parallel_executed st;
     ws_visit_counts :=
       <[ws_current st := usize_saturating_add (default 0%Z (ws_visit_counts st !! ws_current st)) 1]>
         (ws_visit_counts st);
     ws_fanout_dispatched := ws_fanout_dispatched st |}.

Definition spend (st : WalkState) (used : TokenUsage) : WalkState :=
  {| ws_current := ws_current st; ws_completed := ws_completed st; ws_summaries := ws_summaries st;
     ws_total_tokens := add_tokens (ws_total_tokens st) used; ws_node_costs := ws_node_costs st;
     ws_node_task_ids := ws_node_task_ids st; ws_parallel_executed := ws_parallel_executed st;
     ws_visit_counts := ws_visit_counts st; ws_fanout_dispatched := ws_fanout_dispatched st |}.

Definition push_cost (st : WalkState) (c : NodeCost) : WalkState :=
  {| ws_current := ws_current st; ws_completed := ws_completed st; ws_summaries := ws_summaries st;
     ws_total_tokens := ws_total_tokens st; ws_node_costs := ws_node_costs st ++ [c];
     ws_node_task_ids := ws_node_task_ids st; ws_parallel_executed := ws_parallel_executed st;
     ws_visit_counts := ws_visit_counts st; ws_fanout_dispatched := ws_fanout_dispatched st |}.

Definition remember_task (st : WalkState) (node_id : string) (task : option string) : WalkState :=
  {| ws_current := ws_current st; ws_completed := ws_completed st; ws_summaries := ws_summaries st;
     ws_total_tokens := ws_total_tokens st; ws_node_costs := ws_node_costs st;
     ws_node_task_ids := match task with
                         | Some id => <[node_id := id]> (ws_node_task_ids st)
                         | None => ws_node_task_ids st
                         end;
     ws_parallel_executed := ws_parallel_executed st;
     ws_visit_counts := ws_visit_counts st; ws_fanout_dispatched := ws_fanout_dispatched st |}.

(** The results of [n] dispatched workers; those of a static fan-out are also marked as
    executed. *)
Definition merge_fanout (st : WalkState) (static : bool) (n : nat) (wr : WorkerResults) : WalkState :=
  {| ws_current := ws_current st;
     ws_completed := foldl (fun m '(id, o) => <[id := o]> m) (ws_completed st) (wr_outcomes wr);
     ws_summaries := ws_summaries st ++ wr_summaries wr;
     ws_total_tokens := add_tokens (ws_total_tokens st) (wr_tokens wr);
     ws_node_costs := ws_node_costs st; ws_node_task_ids := ws_node_task_ids st;
     ws_parallel_executed :=
       if static then ws_parallel_executed st ∪ list_to_set (wr_outcomes wr).*1
       else ws_parallel_executed st;
     ws_visit_counts := ws_visit_counts st;
     ws_fanout_dispatched := usize_saturating_add (ws_fanout_dispatched st) (Z.of_nat n) |}.

Definition walk_result (st : WalkState) (success : bool) (output : string) (files : list string)
  : PipelineResult :=
  {| pr_output := output; pr_success := success; pr_token_usage := ws_total_tokens st;
     pr_node_summaries := ws_summaries st; pr_files_modified := files;
     pr_node_costs := ws_node_costs st |}.

(** ** Inputs of a node *)

Definition predecessors (g : PipelineGraph) (id : string) : list string :=
  pe_source <$> filter (fun e => pe_target e = id) (pg_edges g).

Definition walk_context (rc : DagRunCtx) (st : WalkState) : HandlerContext :=
  let preds := predecessors (rc_graph rc) (ws_current st) in
  let outcomes := omap (fun p => ws_completed st !! p) preds in
  {| hc_input := if decide (preds = []) then rc_user_input rc
                 else String.concat SEPARATOR (no_content <$> outcomes);
     hc_completed := ws_completed st;
     hc_predecessor_outcomes := outcomes |}.

Definition walk_summary (id label : string) (model : option string)
    (usage : TokenUsage) (ms : Z) (success : bool) : NodeSummary :=
  {| ns_node_id := id; ns_label := label; ns_model := model; ns_token_usage := usage;
     ns_duration_ms := ms; ns_success := success |}.

Definition plain_outcome (id : string) (s : OutcomeStatus) (content : string) : NodeOutcome :=
  {| no_node_id := id; no_status := s; no_content := content;
     no_token_usage := TokenUsage_default; no_files_modified := [] |}.

(** ** One round of the loop *)

Section walk.
Context `{HashIter} `{RustFmt} `{UnicodeTables} `{PlannerJson} {W : Type} (wh : WalkHost W).
Local Abbreviation h := (wh_host wh).

Definition outcome_io : Type := io W (WalkState + PipelineResult).

(** The edge out of the current node after outcome [o]; [stop] when it has none. *)
Definition follow_edge (g : PipelineGraph) (st : WalkState) (o : NodeOutcome) (stop : PipelineResult)
  : outcome_io :=
  next ← lift_flow (select_next_edge g (ws_current st) o);
  mret (match next with Some n => inl (set_current st n) | None => inr stop end).

(** A node that a fan-out already executed. *)
Definition skip_executed (g : PipelineGraph) (st : WalkState) : outcome_io :=
  o ← lift_flow (of_option (ws_completed st !! ws_current st));
  follow_edge g st o (walk_result st (bool_decide (no_status o = Pass)) (no_content o) []).

(** A node recorded in a checkpoint: a synthetic pass with no content. *)
Definition skip_resumed (g : PipelineGraph) (st : WalkState) (node : PipelineNode) : outcome_io :=
  let synth := plain_outcome (ws_current st) Pass "" in
  let st := record_outcome st (walk_summary (ws_current st) (node_label node) (pn_model node)
                                 TokenUsage_default 0 true) synth in
  follow_edge g st synth (walk_result st true "" []).

(** A node a guard skips: a synthetic failure. *)
Definition skip_guarded (g : PipelineGraph) (st : WalkState) (node : PipelineNode) (reason : string)
  : outcome_io :=
  let skipped := plain_outcome (pn_id node) Fail
    ("Node '" +:+ pn_id node +:+ "' skipped by pipeline guard: " +:+ reason) in
  let st := record_outcome st (walk_summary (pn_id node) (node_label node) (pn_model node)
                                 TokenUsage_default 0 false) skipped in
  follow_edge g st skipped
    (walk_result st false (no_content skipped) (collect_completed_files (ws_completed st))).

(** *** Fan-outs *)

Definition fanout_cap : Z := default MAX_PIPELINE_FANOUT_TOTAL (wh_max_fanout wh).

Definition fanout_refused (st : WalkState) (n : nat) : bool :=
  (fanout_cap <? usize_saturating_add (ws_fanout_dispatched st) (Z.of_nat n))%Z.

Definition refuse_fanout (st : WalkState) : outcome_io :=
  throw (PipelineError_display (FanoutExceeded (ws_fanout_dispatched st) fanout_cap)).

Definition budget_message (where_ : string) (node : PipelineNode) (st : WalkState) : string :=
  "Pipeline token budget exhausted " +:+ where_ +:+ " '" +:+ pn_id node +:+ "': spent "
  +:+ pretty (total_pipeline_tokens (ws_total_tokens st)) +:+ " tokens".

(** The fan-out node's own record, and the jump to the convergence node unless every
    worker failed. *)
Definition finish_fanout (st : WalkState) (node : PipelineNode) (converge_id kind : string)
    (usage : TokenUsage) (duration : Z) (n : nat) (wr : WorkerResults) : WalkState + PipelineResult :=
  let status := fan_status wr in
  let st := record_outcome st
    (walk_summary (pn_id node) (node_label node) None usage duration (bool_decide (status = Pass)))
    {| no_node_id := pn_id node; no_status := status; no_content := wr_merged_content wr;
       no_token_usage := usage; no_files_modified := [] |} in
  if bool_decide (status = Error) && negb (pn_continue_on_error node) then
    inr (walk_result st false
      ("Pipeline failed at " +:+ kind +:+ " node '" +:+ pn_id node +:+ "': all " +:+ pretty n
       +:+ " workers failed") [])
  else inl (set_current st converge_id).

Definition clock : io W Z := lift_pure (fun w => (h_clock h w, w)).

Definition is_codergen (g : PipelineGraph) (id : string) : bool :=
  match pg_nodes g !! id with Some n => bool_decide (pn_handler n = Codergen) | None => false end.

(** One round of the loop that queues the targets of a static fan-out. *)
Definition prepare_target (rc : DagRunCtx) (ctx : HandlerContext) (remaining : option Z)
    (llm_target_count : Z) (target_id : string) : io W (FanoutWorker W * option f64) :=
  match pg_nodes (rc_graph rc) !! target_id with
  | None => throw ("parallel target '" +:+ target_id +:+ "' not found")
  | Some target =>
      match h_handler h (pn_handler target) with
      | None => throw ("no handler for " +:+ HandlerKind_debug (pn_handler target))
      | Some handler =>
          let prepared := cap_remaining remaining llm_target_count (resolve_node rc target) in
          reservation ← call (h_reserve h (pg_id (rc_graph rc)) prepared);
          mret ({| fo_id := target_id; fo_node := prepared;
                   fo_run := run_fanout_worker h handler prepared ctx (pn_max_retries prepared) |},
                reservation)
      end
  end.

Definition walk_parallel (rc : DagRunCtx) (st : WalkState) (node : PipelineNode) : outcome_io :=
  let g := rc_graph rc in
  match pn_converge node with
  | None => throw ("parallel node '" +:+ pn_id node +:+ "' missing converge attribute")
  | Some converge_id =>
      let targets := targets_from (ws_current st) (pg_edges g) in
      if fanout_refused st (length targets) then refuse_fanout st
      else
        let llm_target_count := Z.max (Z.of_nat (length (filter (fun t => is_codergen g t = true) targets))) 1 in
        let remaining := remaining_pipeline_tokens (pg_max_total_tokens g) (ws_total_tokens st) in
        if decide (remaining = Some 0%Z) then
          mret (inr (walk_result st false (budget_message "before parallel node" node st) []))
        else
          fan_start ← clock;
          wr ← run_workers wh (prepare_target rc (walk_context rc st) remaining llm_target_count) targets;
          now ← clock;
          mret (finish_fanout (merge_fanout st true (length targets) wr) node converge_id "fan-out"
                  TokenUsage_default (now - fan_start) (length targets) wr)
  end.

(** One round of the loop that queues the workers of a dynamic fan-out. *)
Definition prepare_dynamic (rc : DagRunCtx) (ctx : HandlerContext) (handler : Handler W)
    (remaining : option Z) (total_workers : Z) (synth : PipelineNode)
  : io W (FanoutWorker W * option f64) :=
  let prepared := cap_remaining remaining total_workers
    (set_prompt synth (resolve_prompt (rc_variables rc) <$> pn_prompt synth)) in
  reservation ← call (h_reserve h (pg_id (rc_graph rc)) prepared);
  mret ({| fo_id := pn_id synth; fo_node := prepared;
           fo_run := run_fanout_worker h handler prepared ctx (pn_max_retries prepared) |},
        reservation).

(** The workers of the planned tasks: refused past the cap, else queued and joined. *)
Definition dispatch_dynamic (rc : DagRunCtx) (st : WalkState) (node : PipelineNode)
    (converge_id : string) (fan_start : Z) (tasks : list DynamicTask) (plan_usage : TokenUsage)
  : outcome_io :=
  let g := rc_graph rc in
  let remaining := remaining_pipeline_tokens (pg_max_total_tokens g) (ws_total_tokens st) in
  if decide (remaining = Some 0%Z) then
    mret (inr (walk_result st false (budget_message "after dynamic_parallel planner" node st) []))
  else
    nodes ← lift_flow (synthetic_nodes g node 0 tasks);
    if fanout_refused st (length nodes) then refuse_fanout st
    else
      match h_handler h Codergen with
      | None => throw "codergen handler not found for dynamic_parallel workers"
      | Some handler =>
          wr ← run_workers wh
                 (prepare_dynamic rc (walk_context rc st) handler remaining (Z.of_nat (length nodes)))
                 nodes;
          now ← clock;
          mret (finish_fanout (merge_fanout st false (length nodes) wr) node converge_id
                  "dynamic_parallel" plan_usage (now - fan_start) (length tasks) wr)
      end.

Definition first_some {A} (l : list (option A)) : option A :=
  foldr (fun o rest => match o with Some a => Some a | None => rest end) None l.

Definition walk_dynamic (rc : DagRunCtx) (st : WalkState) (node : PipelineNode) : outcome_io :=
  match pn_converge node with
  | None => throw ("dynamic_parallel node '" +:+ pn_id node +:+ "' missing converge attribute")
  | Some converge_id =>
      let ctx := walk_context rc st in
      provider ← try (resolve_provider (wh_default_provider wh) (wh_router wh)
        (first_some [pn_planner_model node; pn_model node; pg_default_model (rc_graph rc)]));
      fan_start ← clock;
      planned ← plan_or_fallback provider (planning_prompt rc node) (hc_input ctx)
                  (default 8%Z (pn_max_tasks node));
      let '(tasks, plan_usage) := planned in
      dispatch_dynamic rc (spend st plan_usage) node converge_id fan_start tasks plan_usage
  end.

(** *** Sequential nodes *)

(** The mission checkpoints of a node that passed; a record that cannot be written is
    only logged. *)
Fixpoint persist_declared (cs : CheckpointStore W) (g : PipelineGraph) (node : PipelineNode)
    (decls : list MissionCheckpoint) (w : W) : W :=
  match decls with
  | [] => w
  | decl :: decls =>
      let record := from_declaration (pg_id g) (pn_id node) decl (wh_persisted_total wh w)
                      (wh_epoch_ms wh w) in
      match cs_persist cs record w with
      | (Ok _, w) => persist_declared cs g node decls (wh_count_persisted wh w)
      | (Err _, w) => persist_declared cs g node decls w
      end
  end.

Definition persist_checkpoints (g : PipelineGraph) (node : PipelineNode) (o : NodeOutcome) : W -> W :=
  if decide (no_status o = Pass) then
    match wh_store wh with
    | Some cs => persist_declared cs g node (pn_checkpoints node)
    | None => id
    end
  else id.

(** All files written so far, those of the last outcome first. *)
Definition final_files (o : NodeOutcome) (completed : gmap string NodeOutcome) : list string :=
  dedup_paths (sort_paths (no_files_modified o ++ (o ← hm_values completed; no_files_modified o))).

(** A node whose deadline expired with action [skip]: no supervisor call, no cost row. *)
Definition walk_skipped (g : PipelineGraph) (st : WalkState) (node prepared : PipelineNode)
    (label : string) (reservation : option f64) (started : Z) : outcome_io :=
  now ← clock;
  let skipped := skipped_outcome node in
  let st := record_outcome st (walk_summary (pn_id node) label (pn_model prepared)
                                 TokenUsage_default (now - started) false) skipped in
  _ ← effect (h_release h reservation);
  follow_edge g st skipped
    (walk_result st false (no_content skipped) (collect_completed_files (ws_completed st))).

(** Goal gate, hard error, budget ceiling, or the next edge. *)
Definition after_node (g : PipelineGraph) (st : WalkState) (node : PipelineNode) (o : NodeOutcome)
  : outcome_io :=
  let spent := total_pipeline_tokens (ws_total_tokens st) in
  if decide (pn_goal_gate node = true /\ no_status o = Pass) then
    mret (inr (walk_result st true (no_content o) (final_files o (ws_completed st))))
  else if decide (no_status o = Error /\ pn_continue_on_error node = false) then
    mret (inr (walk_result st false
      ("Pipeline failed at node '" +:+ pn_id node +:+ "': " +:+ no_content o) []))
  else if is_some_and (pg_max_total_tokens g) (fun max_total => (max_total <=? spent)%Z) then
    mret (inr (walk_result st false
      ("Pipeline token budget exhausted after node '" +:+ pn_id node +:+ "': spent "
       +:+ pretty spent +:+ "/" +:+ pretty (default 0%Z (pg_max_total_tokens g)) +:+ " tokens") []))
  else
    follow_edge g st o (walk_result st (bool_decide (no_status o = Pass)) (no_content o)
                          (final_files o (ws_completed st))).

(** After the dispatch: recovery, validators, cost row, supervisor, tokens, summary,
    checkpoints.  The supervisor is told under the task id remembered for the node. *)
Definition walk_completed (g : PipelineGraph) (st : WalkState) (handler : Handler W)
    (node prepared : PipelineNode) (ctx : HandlerContext) (reservation : option f64) (started : Z)
    (outcome : NodeOutcome) : outcome_io :=
  outcome ← dropping (h_release h reservation)
              (recover_outcome h handler node prepared ctx started outcome);
  now ← clock;
  outcome ← validate_outcome h node outcome;
  _ ← effect (h_release h reservation);
  let st := push_cost st (node_cost h node prepared reservation outcome) in
  _ ← on_task (ws_node_task_ids st !! pn_id node) (fun id => mark_terminal h node id outcome);
  let st := spend st (no_token_usage outcome) in
  let st := record_outcome st
    (walk_summary (pn_id node) (node_label node) (pn_model prepared) (no_token_usage outcome)
       (now - started) (bool_decide (no_status outcome = Pass))) outcome in
  _ ← effect (persist_checkpoints g node outcome);
  after_node g st node outcome.

Definition walk_sequential (rc : DagRunCtx) (st : WalkState) (node : PipelineNode) : outcome_io :=
  let g := rc_graph rc in
  match h_handler h (pn_handler node) with
  | None => throw ("no handler for " +:+ HandlerKind_debug (pn_handler node))
  | Some handler =>
      let remaining := remaining_pipeline_tokens (pg_max_total_tokens g) (ws_total_tokens st) in
      if decide (remaining = Some 0%Z) then
        mret (inr (walk_result st false (budget_message "before node" node st) []))
      else
        let prepared := prepare_node rc remaining node in
        let ctx := walk_context rc st in
        started ← clock;
        registered ← lift_pure (h_register h (pn_id node));
        match registered with
        | Err reason =>
            mret (inr (walk_result st false
              ("Pipeline aborted before node '" +:+ pn_id node +:+ "': " +:+ reason) []))
        | Ok task =>
            let st := remember_task st (pn_id node) task in
            _ ← on_task task (h_mark_running h);
            reservation ← call (h_reserve h (pg_id g) prepared);
            dispatch ← dropping (h_release h reservation)
                         (dispatch_node h handler prepared ctx (pn_max_retries node));
            match dispatch with
            | DSkipped label => walk_skipped g st node prepared label reservation started
            | Completed o => walk_completed g st handler node prepared ctx reservation started o
            end
        end
  end.

(** The node's own handling, once the guards allowed it. *)
Definition walk_node (rc : DagRunCtx) (st : WalkState) (node : PipelineNode) : outcome_io :=
  match pn_handler node with
  | Parallel => walk_parallel rc st node
  | DynamicParallel => walk_dynamic rc st node
  | _ => walk_sequential rc st node
  end.

Definition walk_guards (g : PipelineGraph) (pipeline_start : Z) (st : WalkState) (node : PipelineNode)
  : io W (result report GuardDecision) :=
  lift_pure (evaluate_before_node_guards h (wh_guards wh) g node (ws_total_tokens st)
               pipeline_start (size (ws_completed st)) (ws_visit_counts st)).

Definition guard_abort (st : WalkState) (node : PipelineNode) (reason : string) : outcome_io :=
  mret (inr (guard_aborted_result (pn_id node) reason (ws_total_tokens st) (ws_summaries st)
               (ws_completed st) (ws_node_costs st))).

Definition walk_step (rc : DagRunCtx) (resume_skip : gset string) (pipeline_start : Z)
    (st : WalkState) : outcome_io :=
  let g := rc_graph rc in
  match pg_nodes g !! ws_current st with
  | None => throw ("node '" +:+ ws_current st +:+ "' not found")
  | Some node =>
      if decide (ws_current st ∈ ws_parallel_executed st) then skip_executed g st
      else if decide (ws_current st ∈ resume_skip) then skip_resumed g st node
      else
        let st := count_visit st in
        decision ← walk_guards g pipeline_start st node;
        match decision with
        | Ok Allow => walk_node rc st node
        | Ok (Skip reason) => skip_guarded g st node reason
        | Ok (Abort reason) => guard_abort st node reason
        | Err error => guard_abort st node ("guard error: " +:+ report_display error)
        end
  end.

Fixpoint walk_loop (fuel : nat) (rc : DagRunCtx) (resume_skip : gset string) (pipeline_start : Z)
    (st : WalkState) : io W (option PipelineResult) :=
  match fuel with
  | O => mret None
  | S fuel =>
      next ← walk_step rc resume_skip pipeline_start st;
      match next with
      | inl st => walk_loop fuel rc resume_skip pipeline_start st
      | inr result => mret (Some result)
      end
  end.

Definition execute_graph (fuel : nat) (rc : DagRunCtx) (start_node : string)
  : io W (option PipelineResult) :=
  pipeline_start ← clock;
  resume_skip ← lift_pure (build_resume_skip_set (wh_store wh));
  walk_loop fuel rc resume_skip pipeline_start (WalkState_init start_node).
End walk.

(** ** A concrete host

    Workers run one after the other, there are no guards and no store, and the planner
    has nothing to say. *)

Definition mute_planner : PlannerJson :=
  {| parse_tasks := fun _ => Err "no tasks"; parse_objects := fun _ => Err "no objects" |}.

Definition demo_walk_host (fails : nat) : WalkHost nat := {|
  wh_host := demo_host fails; wh_guards := []; wh_store := None;
  wh_persisted_total := fun _ => 0%Z; wh_count_persisted := fun w => w; wh_epoch_ms := fun _ => 0%Z;
  wh_default_provider := fun _ _ w => (Err ["no provider"], w); wh_router := None;
  wh_join_all := join_sequential (h_clock (demo_host fails));
  wh_resolve_files := fun _ s => s; wh_max_fanout := None |}.

#[export] Instance demo_join_law fails : JoinLaw (demo_walk_host fails).
Proof. split; [apply join_sequential_length|apply join_sequential_no_panic]. Qed.

Definition demo_walk (fails fuel : nat) (rc : DagRunCtx) (start : string)
  : flow (option PipelineResult) * nat :=
  @execute_graph tree_iter no_fmt ascii_tables mute_planner nat (demo_walk_host fails) fuel rc start 0.
