(* ===== verification/WalkSafety.v ===== *)
(** * What the single-path walk guarantees

    The rounds of [Walk.walk_step] refine an abstract transition system over the walk's
    state ([round_body], [walk_round], [walk_final]) that says nothing of handlers, clocks
    or budgets; the properties of the walk are proved by induction on its runs. *)

From S2P Require Import Prelude RustStr RustNum Fidelity Graph Condition ToolPolicy Validate Host.
From S2P Require Import Dispatch Dag DagSafety Guard Checkpoint Fanout Walk.

(** ** The abstract walk *)

(** [t'] is [t] charged with [u]; nothing is added for an empty usage. *)
Definition charged (t u t' : TokenUsage) : Prop :=
  t' = t /\ u = TokenUsage_default \/ t' = add_tokens t u.

(** Book-keeping before a node is recorded: visits, task ids, cost rows and tokens. *)
Definition books (st : WalkState) (u : TokenUsage) (st1 : WalkState) : Prop :=
  ws_current st1 = ws_current st /\ ws_completed st1 = ws_completed st /\
  ws_summaries st1 = ws_summaries st /\ ws_parallel_executed st1 = ws_parallel_executed st /\
  ws_fanout_dispatched st1 = ws_fanout_dispatched st /\
  charged (ws_total_tokens st) u (ws_total_tokens st1).

Lemma books_refl st : books st TokenUsage_default st.
Proof. unfold books, charged. naive_solver. Qed.

Lemma books_visit st : books st TokenUsage_default (count_visit st).
Proof. unfold books, charged. naive_solver. Qed.

Lemma books_task st u st1 id task : books st u st1 -> books st u (remember_task st1 id task).
Proof. done. Qed.

Lemma books_cost st u st1 c : books st u st1 -> books st u (push_cost st1 c).
Proof. done. Qed.

Lemma books_spend st st1 u :
  books st TokenUsage_default st1 -> ws_total_tokens st1 = ws_total_tokens st -> books st u (spend st1 u).
Proof. intros (? & ? & ? & ? & ? & _) Ht. unfold books, charged, spend. cbn. rewrite Ht. naive_solver. Qed.

Section abstract.
Context `{RustFmt} (g : PipelineGraph) (cap : Z).

Definition within_cap (st : WalkState) (n : nat) : Prop :=
  (usize_saturating_add (ws_fanout_dispatched st) (Z.of_nat n) <= cap)%Z.

(** One node handled: [o] is the outcome of the current node, [jump] where a fan-out
    goes next. *)
Inductive round_body (st : WalkState) : WalkState -> NodeOutcome -> option string -> Prop :=
| body_executed o :
    ws_current st ∈ ws_parallel_executed st ->
    ws_completed st !! ws_current st = Some o ->
    round_body st st o None
| body_single st1 s o :
    ws_current st ∉ ws_parallel_executed st ->
    books st (ns_token_usage s) st1 ->
    ns_success s = bool_decide (no_status o = Pass) ->
    round_body st (record_outcome st1 s o) o None
| body_fanout st1 s o node converge_id (static : bool) resolve results :
    ws_current st ∉ ws_parallel_executed st ->
    pg_nodes g !! ws_current st = Some node ->
    pn_handler node = (if static then Parallel else DynamicParallel) ->
    pn_converge node = Some converge_id ->
    books st (ns_token_usage s) st1 ->
    within_cap st (length results) ->
    let wr := process_worker_results resolve results in
    no_status o = fan_status wr ->
    ns_success s = bool_decide (no_status o = Pass) ->
    round_body st (record_outcome (merge_fanout st1 static (length results) wr) s o) o
      (Some converge_id).

(** The node that follows: the convergence node of a fan-out, else the selected edge. *)
Definition next_node (st : WalkState) (o : NodeOutcome) (jump : option string)
  : flow (option string) :=
  match jump with
  | Some converge_id => Val (Some converge_id)
  | None => select_next_edge g (ws_current st) o
  end.

Definition walk_round (st st' : WalkState) : Prop :=
  is_Some (pg_nodes g !! ws_current st) /\
  exists st2 o jump n, round_body st st2 o jump /\
    next_node st o jump = Val (Some n) /\ st' = set_current st2 n.

(** A success is claimed only for the passing outcome of a node that is a passed goal or
    that has no edge to follow. *)
Definition walk_final (st : WalkState) (r : PipelineResult) : Prop :=
  exists st2 success files, r = walk_result st2 success (pr_output r) files /\
    if (success : bool) then
      exists o node, round_body st st2 o None /\ no_status o = Pass /\ pr_output r = no_content o /\
        pg_nodes g !! ws_current st = Some node /\
        (pn_goal_gate node = true \/ next_node st o None = Val None)
    else (exists u, books st u st2) \/ exists o jump, round_body st st2 o jump.

Definition walk_reachable (start : string) (st : WalkState) : Prop :=
  rtc walk_round (WalkState_init start) st.
End abstract.

(** Invariants hold along runs. *)
Lemma walk_invariant `{RustFmt} g cap start (P : WalkState -> Prop) :
  P (WalkState_init start) -> (forall st st', P st -> walk_round g cap st st' -> P st') ->
  forall st, walk_reachable g cap start st -> P st.
Proof.
  intros Hi Hstep st Hst. revert Hi. unfold walk_reachable in Hst.
  induction Hst as [st|st1 st2 st3 H12 _ IH]; [done|]. intros H1. apply IH. by eapply Hstep.
Qed.

Lemma body_current `{RustFmt} g cap st st2 o jump :
  round_body g cap st st2 o jump -> ws_current st2 = ws_current st.
Proof. destruct 1 as [| st1 s o ? Hb ?| st1 s o node c static resolve results ? ? ? ? Hb]; [done|apply Hb..]. Qed.

(** ** Refinement *)

(** Decompose a computation that ended in a value. *)
Ltac inv_io_step :=
  match goal with
  | H : (_ ≫= _) _ = (Val _, _) |- _ => apply io_bind_Val in H as (? & ? & ? & H)
  | H : lift_flow _ _ = (Val _, _) |- _ => unfold lift_flow in H; injection H as H ?
  | H : lift_pure _ _ = (Val _, _) |- _ => unfold lift_pure in H
  | H : clock _ _ = (Val _, _) |- _ => unfold clock in H
  | H : effect _ _ = (Val _, _) |- _ => unfold effect in H
  | H : throw _ _ = (Val _, _) |- _ => discriminate H
  | H : mret _ _ = (Val _, _) |- _ => unfold mret, io_ret in H
  | H : (Val _, _) = (Val _, _) |- _ => injection H as H ?
  end.
Ltac inv_io := repeat (inv_io_step; subst).

Section refinement.
Context `{HashIter} `{RustFmt} `{UnicodeTables} `{PlannerJson} {W : Type} (wh : WalkHost W).
Context `{!JoinLaw wh} (rc : DagRunCtx).
Local Abbreviation g := (rc_graph rc).

Definition step_ok (st : WalkState) (r : WalkState + PipelineResult) : Prop :=
  match r with
  | inl st' => walk_round g (fanout_cap wh) st st'
  | inr res => walk_final g (fanout_cap wh) st res
  end.

Lemma follow_edge_ok st st2 o success files (w : W) r w' node :
  pg_nodes g !! ws_current st = Some node ->
  round_body g (fanout_cap wh) st st2 o None ->
  (success = true -> no_status o = Pass) ->
  follow_edge g st2 o (walk_result st2 success (no_content o) files) w = (Val r, w') ->
  step_ok st r.
Proof.
  intros Hn Hb Hs Hf. unfold follow_edge in Hf. inv_io. pose proof (body_current _ _ _ _ _ _ Hb) as Hc.
  rewrite Hc in *. match goal with H : select_next_edge _ _ _ = Val ?next |- _ =>
    rename H into Hsel; destruct next as [n|] end; cbn.
  - split; [by eexists|]. exists st2, o, None, n. by split_and!.
  - exists st2, success, files. split; [done|]. destruct success; [|eauto].
    exists o, node. split_and!; eauto.
Qed.

Lemma abort_ok st st2 u output files :
  books st u st2 -> step_ok st (inr (walk_result st2 false output files)).
Proof. intros Hb. exists st2, false, files. split; [done|]. eauto. Qed.

Lemma skip_executed_ok st node (w : W) r w' :
  pg_nodes g !! ws_current st = Some node -> ws_current st ∈ ws_parallel_executed st ->
  skip_executed g st w = (Val r, w') -> step_ok st r.
Proof.
  intros Hn Hp Hs. unfold skip_executed in Hs. inv_io.
  match goal with H : of_option ?x = Val ?y |- _ => rename y into o; destruct x as [o'|] eqn:Ho; [injection H as ->|done] end.
  eapply follow_edge_ok; [done|by apply body_executed| |done].
  by intros ?%bool_decide_eq_true.
Qed.

(** The current node recorded after mere book-keeping. *)
Lemma body_record st st1 s o u :
  ws_current st ∉ ws_parallel_executed st -> books st u st1 -> ns_token_usage s = u ->
  ns_success s = bool_decide (no_status o = Pass) ->
  round_body g (fanout_cap wh) st (record_outcome st1 s o) o None.
Proof. intros Hp Hb <- Hs. by apply body_single. Qed.

Lemma skip_resumed_ok st node (w : W) r w' :
  pg_nodes g !! ws_current st = Some node -> ws_current st ∉ ws_parallel_executed st ->
  skip_resumed g st node w = (Val r, w') -> step_ok st r.
Proof.
  intros Hn Hp Hs. unfold skip_resumed in Hs.
  refine (follow_edge_ok _ _ _ _ _ _ _ _ _ Hn _ _ Hs); [|done].
  eapply body_record; [done|apply books_refl|done..].
Qed.

Lemma skip_guarded_ok st node reason (w : W) r w' :
  pg_nodes g !! ws_current st = Some node -> ws_current st ∉ ws_parallel_executed st ->
  skip_guarded g (count_visit st) node reason w = (Val r, w') -> step_ok st r.
Proof.
  intros Hn Hp Hs. unfold skip_guarded in Hs.
  refine (follow_edge_ok _ _ _ _ _ _ _ _ _ Hn _ _ Hs); [|done].
  eapply body_record; [done|apply books_visit|done..].
Qed.

Lemma queue_workers_length {A} (prep : A -> io W (FanoutWorker W * option f64)) items held w ws held' w' :
  queue_workers wh prep items held w = (Val (ws, held'), w') -> length ws = length items.
Proof.
  revert held w ws; induction items as [|a items IH]; intros held w ws Hq; cbn in Hq; inv_io;
    [by simplify_eq|].
  match goal with H : dropping _ _ _ = (Val ?x, _) |- _ => destruct x as [fo rv] end.
  cbn beta iota in Hq. inv_io.
  match goal with H : queue_workers _ _ _ _ _ = (Val ?x, _) |- _ => destruct x as [ws1 held1] end.
  cbn beta iota in Hq. inv_io. simplify_eq/=. f_equal. by eapply IH.
Qed.

Lemma run_workers_results {A} (prep : A -> io W (FanoutWorker W * option f64)) items w wr w' :
  run_workers wh prep items w = (Val wr, w') ->
  exists resolve results, wr = process_worker_results resolve results /\ length results = length items.
Proof.
  intros Hr. unfold run_workers in Hr. inv_io.
  match goal with H : queue_workers _ _ _ _ _ = (Val ?q, _) |- _ => rename H into Hq; destruct q as [ws held] end.
  cbn beta iota in Hr. inv_io.
  match goal with H : dropping _ _ _ = (Val ?x, _) |- _ => rename H into Hj; rename x into rs end.
  eexists _, _. split; [done|]. unfold worker_results. rewrite length_zip_with.
  apply queue_workers_length in Hq.
  unfold dropping in Hj. destruct (wh_join_all wh ws _) as [f w0] eqn:Hjoin.
  destruct f; simplify_eq. apply join_length in Hjoin. lia.
Qed.

Lemma finish_fanout_ok st st1 node (static : bool) converge_id kind usage ms n wr resolve results :
  pg_nodes g !! ws_current st = Some node -> ws_current st ∉ ws_parallel_executed st ->
  pn_handler node = (if static then Parallel else DynamicParallel) ->
  pn_converge node = Some converge_id -> books st usage st1 ->
  within_cap (fanout_cap wh) st (length results) -> wr = process_worker_results resolve results ->
  step_ok st (finish_fanout (merge_fanout st1 static (length results) wr) node converge_id kind
                usage ms n wr).
Proof.
  intros Hn Hp Hh Hconv Hb Hcap ->. unfold finish_fanout.
  set (s := walk_summary _ _ _ _ _ _). set (o := Build_NodeOutcome _ _ _ _ _).
  assert (Hbody : round_body g (fanout_cap wh) st
    (record_outcome (merge_fanout st1 static (length results) (process_worker_results resolve results)) s o)
    o (Some converge_id)) by (by eapply body_fanout).
  destruct (bool_decide _ && _).
  - exists (record_outcome (merge_fanout st1 static (length results) (process_worker_results resolve results)) s o),
      false, []. split; [done|]. right. by exists o, (Some converge_id).
  - split; [by eexists|]. eexists _, o, (Some converge_id), converge_id. by split_and!.
Qed.

Lemma refused_within st st1 n :
  fanout_refused wh st1 n = false -> ws_fanout_dispatched st1 = ws_fanout_dispatched st ->
  within_cap (fanout_cap wh) st n.
Proof. unfold fanout_refused, within_cap. intros Hr%Z.ltb_ge <-. done. Qed.

Lemma walk_parallel_ok st node w r w' :
  pg_nodes g !! ws_current st = Some node -> ws_current st ∉ ws_parallel_executed st ->
  pn_handler node = Parallel ->
  walk_parallel wh rc (count_visit st) node w = (Val r, w') -> step_ok st r.
Proof.
  intros Hn Hp Hh Hw. unfold walk_parallel in Hw.
  destruct (pn_converge node) as [converge_id|] eqn:Hconv; [|done].
  destruct (fanout_refused _ _ _) eqn:Hcap; [done|]. case_decide.
  { inv_io. eapply abort_ok, books_visit. }
  inv_io. match goal with H : run_workers _ _ _ _ = _ |- _ => apply run_workers_results in H as (resolve & results & -> & Hlen) end.
  cbn in Hlen, Hcap. rewrite <- Hlen. eapply finish_fanout_ok; [done..|apply books_visit| |done].
  rewrite Hlen. by eapply refused_within.
Qed.

Lemma synthetic_nodes_length node i tasks nodes :
  synthetic_nodes g node i tasks = Val nodes -> length nodes = length tasks.
Proof.
  revert i nodes; induction tasks as [|t tasks IH]; intros i nodes; cbn; [by intros [= <-]|].
  unfold mbind, flow_bind. destruct (synthetic_node g node i t); [|done..].
  destruct (synthetic_nodes g node (S i) tasks) eqn:Hr; [|done..]. intros [= <-]. cbn.
  f_equal. by eapply IH.
Qed.

Lemma walk_dynamic_ok st node w r w' :
  pg_nodes g !! ws_current st = Some node -> ws_current st ∉ ws_parallel_executed st ->
  pn_handler node = DynamicParallel ->
  walk_dynamic wh rc (count_visit st) node w = (Val r, w') -> step_ok st r.
Proof.
  intros Hn Hp Hh Hw. unfold walk_dynamic in Hw.
  destruct (pn_converge node) as [converge_id|] eqn:Hconv; [|done]. inv_io.
  match goal with H : plan_or_fallback _ _ _ _ _ = (Val ?p, _) |- _ => destruct p as [tasks usage] end.
  cbn beta iota in Hw. unfold dispatch_dynamic in Hw.
  assert (Hb : books st usage (spend (count_visit st) usage)) by (by apply books_spend, eq_refl; apply books_visit).
  case_decide.
  { inv_io. by eapply abort_ok. }
  inv_io. destruct (fanout_refused _ _ _) eqn:Hcap; [done|].
  destruct (h_handler (wh_host wh) Codergen) as [handler|]; [|done]. inv_io.
  match goal with H : run_workers _ _ _ _ = _ |- _ => apply run_workers_results in H as (resolve & results & -> & Hlen) end.
  rewrite <- Hlen. eapply finish_fanout_ok; [done..| |done].
  rewrite Hlen. by eapply refused_within.
Qed.
Lemma after_node_ok st st2 node o (w : W) r w' :
  pg_nodes g !! ws_current st = Some node -> round_body g (fanout_cap wh) st st2 o None ->
  after_node g st2 node o w = (Val r, w') -> step_ok st r.
Proof.
  intros Hn Hb Ha. unfold after_node in Ha. destruct (decide (_ /\ _)) as [[Hg Ho]|_].
  { inv_io. eexists st2, true, _. split; [done|]. exists o, node. split_and!; eauto. }
  destruct (decide (_ /\ _)).
  { inv_io. eexists st2, false, _. split; [done|]. eauto. }
  destruct (is_some_and _ _).
  { inv_io. eexists st2, false, _. split; [done|]. eauto. }
  refine (follow_edge_ok _ _ _ _ _ _ _ _ _ Hn Hb _ Ha). by intros ?%bool_decide_eq_true.
Qed.

Lemma walk_sequential_ok st node w r w' :
  pg_nodes g !! ws_current st = Some node -> ws_current st ∉ ws_parallel_executed st ->
  walk_sequential wh rc (count_visit st) node w = (Val r, w') -> step_ok st r.
Proof.
  intros Hn Hp Hw. unfold walk_sequential in Hw.
  destruct (h_handler (wh_host wh) (pn_handler node)) as [handler|]; [|done]. case_decide.
  { inv_io. eapply abort_ok, books_visit. }
  inv_io. match goal with H : context [h_register ?h ?i ?w] |- _ => destruct (h_register h i w) as [[task|reason] w1] end;
    inv_io; [|eapply abort_ok, books_visit].
  match goal with H : dropping _ _ _ = (Val ?d, _) |- _ => destruct d as [o|label] end.
  - unfold walk_completed in Hw. inv_io. eapply after_node_ok; [done| |exact Hw].
    eapply body_record; [done| |done..]. apply books_spend; [|done].
    apply books_cost, books_task, books_visit.
  - unfold walk_skipped in Hw. inv_io. refine (follow_edge_ok _ _ _ _ _ _ _ _ _ Hn _ _ Hw); [|done].
    eapply body_record; [done|apply books_task, books_visit|done..].
Qed.

(** The rounds of the walk are rounds of the abstract system. *)
Lemma walk_step_ok resume_skip start st w r w' :
  walk_step wh rc resume_skip start st w = (Val r, w') -> step_ok st r.
Proof.
  unfold walk_step. destruct (pg_nodes g !! ws_current st) as [node|] eqn:Hn; [|done].
  case_decide as Hp; [by apply skip_executed_ok with node|].
  case_decide as Hr; [by apply skip_resumed_ok|]. intros Hw. inv_io.
  match goal with H : walk_guards _ _ _ _ _ _ = (Val ?d, _) |- _ => destruct d as [[|reason|reason]|error] end.
  - unfold walk_node in Hw. destruct (pn_handler node) eqn:Hh;
      first [by eapply walk_parallel_ok|by eapply walk_dynamic_ok|by eapply walk_sequential_ok].
  - by eapply skip_guarded_ok.
  - unfold guard_abort in Hw. inv_io. eapply (abort_ok st (count_visit st)), books_visit.
  - unfold guard_abort in Hw. inv_io. eapply (abort_ok st (count_visit st)), books_visit.
Qed.

(** A run that ends is a run of the abstract system. *)
Lemma walk_loop_ok fuel resume_skip start st w r w' :
  walk_loop wh fuel rc resume_skip start st w = (Val (Some r), w') ->
  exists st', rtc (walk_round g (fanout_cap wh)) st st' /\ walk_final g (fanout_cap wh) st' r.
Proof.
  revert st w; induction fuel as [|fuel IH]; intros st w Hw; cbn in Hw; inv_io; [done|].
  match goal with H : walk_step _ _ _ _ _ _ = (Val ?x, _) |- _ => apply walk_step_ok in H as Hok; destruct x as [st'|res] end.
  - apply IH in Hw as (st2 & Hst2 & Hf). exists st2. split; [by eapply rtc_l|done].
  - inv_io. exists st. split; [done|]. by simplify_eq.
Qed.

Lemma execute_graph_ok fuel start w r w' :
  execute_graph wh fuel rc start w = (Val (Some r), w') ->
  exists st, walk_reachable g (fanout_cap wh) start st /\ walk_final g (fanout_cap wh) st r.
Proof. intros Hw. unfold execute_graph in Hw. inv_io. by eapply walk_loop_ok. Qed.
End refinement.

(** ** The walk follows the graph *)

(** Where the walk can go from a node: along an edge, or from a fan-out to its
    convergence node. *)
Definition walk_edge (g : PipelineGraph) (x y : string) : Prop :=
  edge g x y \/
  exists node, pg_nodes g !! x = Some node /\
    (pn_handler node = Parallel \/ pn_handler node = DynamicParallel) /\ pn_converge node = Some y.

Lemma walk_round_edge `{RustFmt} g cap st st' :
  walk_round g cap st st' ->
  ws_current st ∈ dom (pg_nodes g) /\ walk_edge g (ws_current st) (ws_current st').
Proof.
  intros [Hn (st2 & o & jump & n & Hb & Hnext & ->)]. split; [by apply elem_of_dom|].
  destruct Hb as [| |? ? ? node ? static ? ? ? Hn' Hh Hc]; cbn in Hnext |- *.
  - left. by eapply select_next_edge_edge.
  - left. by eapply select_next_edge_edge.
  - injection Hnext as <-. right. exists node. split_and!; [done| |done]. destruct static; auto.
Qed.

Section termination.
Context `{HashIter} `{RustFmt} `{UnicodeTables} `{PlannerJson} {W : Type} (wh : WalkHost W).
Context `{!JoinLaw wh} (rc : DagRunCtx).
Local Abbreviation g := (rc_graph rc).
Hypothesis acyclic : forall n, ~ tc (walk_edge g) n n.

(** [V] are the nodes left behind. *)
Lemma walk_loop_ends fuel resume_skip start (V : gset string) st w :
  (forall v, v ∈ V -> tc (walk_edge g) v (ws_current st)) -> V ⊆ dom (pg_nodes g) ->
  size (dom (pg_nodes g)) < fuel + size V ->
  (walk_loop wh fuel rc resume_skip start st w).1 <> Val None.
Proof.
  revert V st w; induction fuel as [|fuel IH]; intros V st w HV Hsub Hsize.
  { apply subseteq_size in Hsub. lia. }
  cbn. unfold mbind, io_bind. destruct (walk_step _ _ _ _ _ w) as [[[st'|res]|e|] w'] eqn:Hs; [|done..].
  apply walk_step_ok in Hs; [|done]. apply walk_round_edge in Hs as [Hin He].
  apply (IH ({[ws_current st]} ∪ V)).
  - intros v [->%elem_of_singleton|Hv]%elem_of_union; [by apply tc_once|].
    eapply tc_r; [by apply HV|done].
  - set_solver.
  - rewrite size_union, size_singleton; [lia|].
    intros v ->%elem_of_singleton Hv%HV. by apply (acyclic (ws_current st)).
Qed.

Lemma execute_graph_ends fuel start w :
  size (pg_nodes g) < fuel -> (execute_graph wh fuel rc start w).1 <> Val None.
Proof.
  intros Hf. unfold execute_graph, mbind, io_bind, clock, lift_pure.
  destruct (build_resume_skip_set (wh_store wh) w) as [skip w1].
  apply (walk_loop_ends _ _ _ ∅); [set_solver..|]. rewrite size_dom. lia.
Qed.
End termination.

(** C24.  The walk ends when the graph leads nowhere twice: if no cycle can be made of the
    edges and the jumps from fan-outs to their convergence nodes, the loop of
    [execute_graph] is left after at most one round per node, for every host, every
    checkpoint and every outcome of the handlers. *)
Theorem walk_terminates `{HashIter} `{RustFmt} `{UnicodeTables} `{PlannerJson} {W : Type}
    (wh : WalkHost W) `{!JoinLaw wh} (rc : DagRunCtx) (start : string) (fuel : nat) (w : W) :
  (forall n, ~ tc (walk_edge (rc_graph rc)) n n) ->
  size (pg_nodes (rc_graph rc)) < fuel ->
  (execute_graph wh fuel rc start w).1 <> Val None.
Proof.
  intros Hac. by apply execute_graph_ends.
Qed.

(** A rank that grows along every edge and jump shows that there is no cycle. *)
Definition walk_ranked (rank : string -> nat) (g : PipelineGraph) : bool :=
  forallb (fun e => bool_decide (rank (pe_source e) < rank (pe_target e))) (pg_edges g)
  && forallb (fun '(id, n) =>
       negb (bool_decide (pn_handler n = Parallel) || bool_decide (pn_handler n = DynamicParallel))
       || match pn_converge n with Some c => bool_decide (rank id < rank c) | None => true end)
     (map_to_list (pg_nodes g)).

Lemma walk_ranked_acyclic rank g :
  walk_ranked rank g = true -> forall n, ~ tc (walk_edge g) n n.
Proof.
  intros [He Hn]%andb_true_iff.
  assert (Hstep : forall x y, walk_edge g x y -> rank x < rank y).
  { intros x y [(e & Hin & <- & <-)|(node & Hnode & Hh & Hc)].
    - rewrite forallb_forall in He. apply list_elem_of_In, He in Hin. by apply bool_decide_eq_true in Hin.
    - rewrite forallb_forall in Hn. apply elem_of_map_to_list, list_elem_of_In, Hn in Hnode.
      rewrite Hc in Hnode. apply orb_true_iff in Hnode as [Hf|Hr]; [|by apply bool_decide_eq_true in Hr].
      exfalso. apply negb_true_iff, orb_false_iff in Hf as [Hf1%bool_decide_eq_false Hf2%bool_decide_eq_false].
      naive_solver. }
  assert (Htc : forall x y, tc (walk_edge g) x y -> rank x < rank y).
  { intros x y Hxy. induction Hxy as [x y Hxy|x y z Hxy _ IH]; [auto|]. specialize (Hstep _ _ Hxy). lia. }
  intros n Hnn%Htc. lia.
Qed.

(** A fan-out of two branches. *)
Definition fan_dot : string :=
  "digraph fan { start -> split; split [handler=parallel, converge=merge]; split -> a; split -> b; a -> merge; b -> merge }".
Definition fan_rank (id : string) : nat :=
  if decide (id = "start") then 0 else if decide (id = "split") then 1
  else if decide (id = "merge") then 3 else 2.

Lemma walk_terminates_witness : (demo_walk 0 6 (run_ctx (graph_of fan_dot)) "start").1 <> Val None.
Proof.
  apply (@walk_terminates tree_iter no_fmt ascii_tables mute_planner nat (demo_walk_host 0) _
    (run_ctx (graph_of fan_dot)) "start" 6 0).
  - apply (walk_ranked_acyclic fan_rank). by vm_compute.
  - apply (bool_decide_eq_true (size (pg_nodes (graph_of fan_dot)) < 6)). by vm_compute.
Defined.


Definition fan_result : PipelineResult :=
  match (demo_walk 0 6 (run_ctx (graph_of fan_dot)) "start").1 with
  | Val (Some r) => r
  | _ => walk_result (WalkState_init "") false "" []
  end.


(** ** Token accounting *)

Definition usage_sum (f : TokenUsage -> Z) (l : list NodeSummary) : Z :=
  foldr (fun s acc => (f (ns_token_usage s) + acc)%Z) 0%Z l.

Lemma usage_sum_app f l1 l2 : usage_sum f (l1 ++ l2) = (usage_sum f l1 + usage_sum f l2)%Z.
Proof. unfold usage_sum. induction l1 as [|s l1 IH]; cbn; [done|]. rewrite IH. lia. Qed.

(** The counters are the sums over the summaries, modulo the width of the counters. *)
Definition accounted (t : TokenUsage) (l : list NodeSummary) : Prop :=
  input_tokens t = (usage_sum input_tokens l mod 2 ^ 32)%Z /\
  output_tokens t = (usage_sum output_tokens l mod 2 ^ 32)%Z.

(** One summary more, its usage charged. *)
Lemma accounted_push t l u t' s :
  accounted t l -> charged t u t' -> ns_token_usage s = u -> accounted t' (l ++ [s]).
Proof.
  unfold accounted. rewrite !usage_sum_app. cbn. intros [Hi Ho] Hc Hs. rewrite Hs.
  destruct Hc as [[-> ->]| ->]; cbn; rewrite ?Z.add_0_r; [done|].
  unfold u32_add. rewrite Hi, Ho, !Z.add_mod_idemp_l by done. done.
Qed.

Lemma accounted_append t1 l1 t2 l2 :
  accounted t1 l1 -> accounted t2 l2 -> accounted (add_tokens t1 t2) (l1 ++ l2).
Proof.
  unfold accounted, add_tokens, u32_add. rewrite !usage_sum_app. cbn.
  intros [-> ->] [-> ->]. by rewrite <- !Zplus_mod.
Qed.

Lemma merge_accounted results acc :
  accounted (wr_tokens acc.1) (wr_summaries acc.1) ->
  let r := foldl merge_worker acc results in accounted (wr_tokens r.1) (wr_summaries r.1).
Proof.
  revert acc; induction results as [|x results IH]; intros [wr parts] Hacc; [done|]. cbn [foldl].
  apply IH. cbn. eapply accounted_push; [done| |done]. unfold worker_outcome.
  destruct (w_result x); [by right|by left].
Qed.

Lemma worker_results_accounted resolve results :
  let wr := process_worker_results resolve results in accounted (wr_tokens wr) (wr_summaries wr).
Proof.
  unfold process_worker_results. set (init := (_, [])).
  pose proof (merge_accounted results init ltac:(done)) as Hm.
  by destruct (foldl merge_worker init results).
Qed.

Lemma books_accounted st u st1 s :
  accounted (ws_total_tokens st) (ws_summaries st) -> books st u st1 -> ns_token_usage s = u ->
  accounted (ws_total_tokens st1) (ws_summaries st1 ++ [s]).
Proof. intros Ha (_ & _ & -> & _ & _ & Hc). by eapply accounted_push. Qed.

Lemma accounted_perm t l1 l2 : l1 ≡ₚ l2 -> accounted t l1 -> accounted t l2.
Proof.
  intros Hp. unfold accounted. enough (Hs : forall f, usage_sum f l1 = usage_sum f l2) by (by rewrite !Hs).
  intros f. unfold usage_sum. induction Hp; cbn; lia.
Qed.

Lemma body_accounted `{RustFmt} g cap st st2 o jump :
  accounted (ws_total_tokens st) (ws_summaries st) -> round_body g cap st st2 o jump ->
  accounted (ws_total_tokens st2) (ws_summaries st2).
Proof.
  intros Ha Hb. destruct Hb as [|st1 s o ? Hb|st1 s o ? ? static resolve results ? ? ? ? Hb ? wr]; [done| |].
  - by apply (books_accounted st _ st1 s Ha Hb).
  - cbn. apply (accounted_perm _ ((ws_summaries st1 ++ [s]) ++ wr_summaries wr)).
    { rewrite <- !app_assoc. by rewrite (Permutation_app_comm [s]). }
    apply accounted_append; [by apply (books_accounted st _ st1 s Ha Hb)|apply worker_results_accounted].
Qed.

(**  No token is lost or counted twice: in every state the walk can reach, the input
    and output totals are the sums over the recorded node and worker summaries (modulo the
    32-bit width of the counters), and so they are in the result of a successful walk. *)
Theorem walk_tokens_accounted `{RustFmt} (g : PipelineGraph) (cap : Z) (start : string)
    (st : WalkState) :
  walk_reachable g cap start st ->
  accounted (ws_total_tokens st) (ws_summaries st) /\
  forall r, walk_final g cap st r -> pr_success r = true ->
    accounted (pr_token_usage r) (pr_node_summaries r).
Proof.
  intros Hst.
  assert (Ha : accounted (ws_total_tokens st) (ws_summaries st)).
  { revert st Hst. apply walk_invariant; [done|].
    intros st st' Ha [_ (st2 & o & jump & n & Hb & _ & ->)].
    exact (body_accounted _ _ _ _ _ _ Ha Hb). }
  split; [done|]. intros r (st2 & success & files & Hr & Hf) Hs.
  rewrite Hr in Hs |- *. cbn in Hs |- *. subst. destruct Hf as (o & node & Hb & _).
  by eapply body_accounted.
Qed.

Lemma walk_tokens_accounted_witness :
  accounted (ws_total_tokens (WalkState_init "start")) (ws_summaries (WalkState_init "start")) /\
  forall r, @walk_final no_fmt (graph_of fan_dot) 500 (WalkState_init "start") r -> pr_success r = true ->
    accounted (pr_token_usage r) (pr_node_summaries r).
Proof. apply (@walk_tokens_accounted no_fmt (graph_of fan_dot) 500 "start"). apply rtc_refl. Defined.

(** ** Where the walk does not end *)

(** A host over the trivial world whose handlers all pass. *)
Definition passing_host : Host unit := {|
  h_handler := fun _ => Some (fun n _ w => (Ok (demo_outcome (pn_id n) Pass), w));
  h_timeout := fun _ m w => let (r, w) := m w in (Some r, w);
  h_sleep := fun _ w => w; h_clock := fun _ => 0%Z; h_escalate := fun _ w => w;
  h_register := fun _ w => (Ok None, w); h_mark_running := fun _ w => w;
  h_mark_completed := fun _ _ w => w; h_mark_failed := fun _ _ w => w;
  h_reserve := fun _ _ w => (Ok None, w); h_release := fun _ w => w;
  h_validate := fun _ w => (Ok tt, w); h_project_cost := fun _ _ _ => None;
  h_shutdown := fun _ => false; h_json_input := fun _ input => quoted input |}.

Definition passing_walk : WalkHost unit := {|
  wh_host := passing_host; wh_guards := []; wh_store := None;
  wh_persisted_total := fun _ => 0%Z; wh_count_persisted := fun w => w; wh_epoch_ms := fun _ => 0%Z;
  wh_default_provider := fun _ _ w => (Err ["no provider"], w); wh_router := None;
  wh_join_all := join_sequential (h_clock passing_host);
  wh_resolve_files := fun _ s => s; wh_max_fanout := None |}.

(** Two nodes and an unconditional edge back, marked as a retry edge. *)
Definition spin_dot : string := "digraph spin { start -> work; work -> start [label=retry] }".

Definition spin_step (st : WalkState) : flow (WalkState + PipelineResult) * unit :=
  @walk_step tree_iter no_fmt ascii_tables mute_planner unit passing_walk
    (run_ctx (graph_of spin_dot)) ∅ 0 st tt.

Definition other (id : string) : string := if decide (id = "start") then "work" else "start".

(** A node the passing host runs without ado. *)
Definition plain_node (n : PipelineNode) : bool :=
  bool_decide (pn_handler n = Codergen) && bool_decide (pn_max_retries n = 0%Z)
  && bool_decide (pn_deadline_secs n = None) && bool_decide (pn_timeout_secs n = None)
  && negb (pn_goal_gate n).

Section passing.
Context `{HashIter} `{RustFmt} `{UnicodeTables} `{PlannerJson}.

Lemma passing_dispatch (prepared : PipelineNode) ctx :
  pn_deadline_secs prepared = None ->
  dispatch_node passing_host (fun n _ w => (Ok (demo_outcome (pn_id n) Pass), w)) prepared ctx 0 tt =
    (Val (Completed (demo_outcome (pn_id prepared) Pass)), tt).
Proof.
  intros Hd. unfold dispatch_node. rewrite Hd. unfold mbind, io_bind, execute_with_retries.
  by change (Z.to_nat (0 + 1)) with 1.
Qed.

Lemma passing_recover handler node prepared ctx t id :
  recover_outcome passing_host handler node prepared ctx t (demo_outcome id Pass) tt =
    (Val (demo_outcome id Pass), tt).
Proof.
  unfold recover_outcome. destruct (node_budget_spent _ _ _ _); [done|].
  unfold classify_outcome. by destruct (pn_handler prepared).
Qed.

Lemma passing_on_task t (f : string -> unit -> unit) : on_task t f tt = (Val tt, tt).
Proof. destruct t as [t|]; [|done]. cbn. unfold effect. by destruct (f t tt). Qed.

(** The end of a round: the node passed, is no goal, and there is no budget. *)
Lemma passing_after g st node id next :
  pn_goal_gate node = false -> pg_max_total_tokens g = None ->
  select_next_edge g (ws_current st) (demo_outcome id Pass) = Val (Some next) ->
  after_node (W := unit) g st node (demo_outcome id Pass) tt = (Val (inl (set_current st next)), tt).
Proof.
  intros Hg Hmax Hsel. unfold after_node. rewrite decide_False by (rewrite Hg; naive_solver).
  rewrite decide_False by naive_solver. rewrite Hmax. cbn [is_some_and].
  unfold follow_edge, lift_flow, mbind, io_bind. by rewrite Hsel.
Qed.

(** One round of the walk over the nodes of [g]: run [node] and follow its edge. *)
Lemma passing_step g (skip : gset string) start st node next :
  pg_nodes g !! ws_current st = Some node -> plain_node node = true -> pg_max_total_tokens g = None ->
  ws_current st ∉ skip -> ws_parallel_executed st = ∅ ->
  select_next_edge g (ws_current st) (demo_outcome (pn_id node) Pass) = Val (Some next) ->
  exists st', walk_step passing_walk (run_ctx g) skip start st tt = (Val (inl st'), tt) /\
    ws_current st' = next /\ ws_parallel_executed st' = ∅.
Proof.
  intros Hn Hplain Hmax Hskip Hpar Hsel. unfold plain_node in Hplain.
  rewrite !andb_true_iff, !bool_decide_eq_true, negb_true_iff in Hplain.
  destruct Hplain as [[[[Hh Hr] Hd] Ht] Hg].
  unfold walk_step. cbn [rc_graph run_ctx]. rewrite Hn.
  rewrite decide_False by (rewrite Hpar; set_solver). rewrite decide_False by done.
  unfold mbind at 1, io_bind at 1, walk_guards, lift_pure at 1, evaluate_before_node_guards.
  cbn [wh_guards passing_walk guard_loop]. unfold walk_node. rewrite Hh.
  unfold walk_sequential. cbn [wh_host passing_walk h_handler passing_host rc_graph run_ctx].
  rewrite Hmax. cbn [remaining_pipeline_tokens mbind option_bind]. rewrite decide_False by done.
  assert (Hp : prepare_node (run_ctx g) None node = resolve_node (run_ctx g) node) by done.
  set (prepared := prepare_node _ _ _).
  assert (Hpid : pn_id prepared = pn_id node /\ pn_deadline_secs prepared = None) .
  { unfold prepared. rewrite Hp. unfold resolve_node. by case_decide. }
  destruct Hpid as [Hpid Hpd]. clearbody prepared.
  unfold clock, lift_pure, call, dropping. unfold mbind at 1, io_bind at 1. cbn [h_clock passing_host].
  unfold mbind at 1, io_bind at 1. cbn [h_register passing_host on_task].
  unfold mbind at 1, io_bind at 1, mret at 1, io_ret at 1. unfold mbind at 1, io_bind at 1.
  cbn [h_reserve passing_host of_result]. unfold mbind at 1, io_bind at 1. rewrite Hr, passing_dispatch, Hpid by done.
  unfold walk_completed, dropping. unfold mbind at 1, io_bind at 1. cbn [wh_host passing_walk].
  rewrite passing_recover. unfold clock, lift_pure, effect. unfold mbind at 1, io_bind at 1.
  unfold mbind at 1, io_bind at 1. unfold validate_outcome. rewrite decide_True by done.
  unfold mbind at 1, io_bind at 1. cbn [h_validate passing_host lift_pure]. unfold mret at 1, io_ret at 1.
  unfold mbind at 1, io_bind at 1. unfold mbind at 1, io_bind at 1. cbn [h_release passing_host].
  rewrite passing_on_task. unfold mbind at 1, io_bind at 1.
  destruct (persist_checkpoints _ _ _ _ _). erewrite passing_after by done.
  eexists. split; [done|]. done.
Qed.
End passing.

Lemma spin_diverges fuel st :
  (ws_current st = "start" \/ ws_current st = "work") -> ws_parallel_executed st = ∅ ->
  (@walk_loop tree_iter no_fmt ascii_tables mute_planner unit passing_walk fuel
     (run_ctx (graph_of spin_dot)) ∅ 0 st tt).1 = Val None.
Proof.
  revert st; induction fuel as [|fuel IH]; intros st Hc Hp; [done|]. cbn [walk_loop].
  set (node := default (demo_node "" []) (pg_nodes (graph_of spin_dot) !! ws_current st)).
  set (next := if decide (ws_current st = "start") then "work" else "start").
  destruct (@passing_step tree_iter no_fmt ascii_tables mute_planner (graph_of spin_dot) ∅ 0 st node next)
    as (st' & Hs & Hc' & Hp').
  - unfold node. destruct Hc as [->| ->]; by vm_compute.
  - unfold node. destruct Hc as [->| ->]; by vm_compute.
  - by vm_compute.
  - apply not_elem_of_empty.
  - done.
  - unfold node, next. destruct Hc as [->| ->]; by vm_compute.
  - unfold mbind, io_bind. rewrite Hs. apply IH; [|done]. rewrite Hc'. unfold next. case_decide; auto.
Qed.

(**  The walk has no bound of its own: there is a graph that passes validation (its only
    cycle goes through an edge marked as a retry edge, with no condition), that the bounded
    scheduler does not take over, and that the walk never leaves when its nodes pass: no
    number of rounds is enough. *)
Theorem walk_can_diverge :
  @validate tree_iter no_fmt (graph_of spin_dot) = Ok tt /\
  @graph_is_dag_schedulable tree_iter (graph_of spin_dot) = false /\
  forall fuel, (@execute_graph tree_iter no_fmt ascii_tables mute_planner unit passing_walk fuel
                  (run_ctx (graph_of spin_dot)) "start" tt).1 = Val None.
Proof.
  split_and!; [by vm_compute..|]. intros fuel. unfold execute_graph, clock, lift_pure, mbind, io_bind.
  cbn. apply spin_diverges; [by left|done].
Qed.
