(* ===== verification/WalkTasks.v ===== *)
(** * What the walk starts and reports

    The host of the walk with a log of the supervisor calls and of the fan-outs it joins,
    for every host: the lifetime cap on fan-out workers bounds what is really started, and
    the supervisor is told about a sequential node exactly as documented. *)

From S2P Require Import Prelude RustStr RustNum Fidelity Graph Condition ToolPolicy Validate Host.
From S2P Require Import Dispatch Dag DagSafety DagTasks Guard Checkpoint Fanout Walk WalkSafety.

Section logged_walk.
Context {W : Type} (wh : WalkHost W).
Local Abbreviation LW := (@LW W).

Definition lower_worker (log : list task_event) (fo : FanoutWorker LW) : FanoutWorker W :=
  {| fo_id := fo_id fo; fo_node := fo_node fo;
     fo_run := fun w => let (r, lw) := fo_run fo (w, log) in (r, lw.1) |}.

Definition logged_store (cs : CheckpointStore W) : CheckpointStore LW :=
  {| cs_persist := fun c => quiet (cs_persist cs c); cs_list := quiet (cs_list cs);
     cs_clear_all := quiet (cs_clear_all cs) |}.

Definition logged_provider (p : Provider W) : Provider LW := fun ms k => quiet (p ms k).

Definition logged_walk : WalkHost LW := {|
  wh_host := logged (wh_host wh);
  wh_guards := (fun gd ctx => quiet (gd ctx)) <$> wh_guards wh;
  wh_store := logged_store <$> wh_store wh;
  wh_persisted_total := fun lw => wh_persisted_total wh lw.1;
  wh_count_persisted := fun lw => (wh_count_persisted wh lw.1, lw.2);
  wh_epoch_ms := fun lw => wh_epoch_ms wh lw.1;
  wh_default_provider := logged_provider (wh_default_provider wh);
  wh_router := (fun r key => match r key with Ok p => Ok (logged_provider p) | Err e => Err e end)
                 <$> wh_router wh;
  wh_join_all := fun ws lw =>
    let (r, w) := wh_join_all wh (lower_worker lw.2 <$> ws) lw.1 in
    (r, (w, lw.2 ++ [Joined (length ws)]));
  wh_resolve_files := fun lw => wh_resolve_files wh lw.1;
  wh_max_fanout := wh_max_fanout wh |}.

#[export] Instance logged_join `{!JoinLaw wh} : JoinLaw logged_walk.
Proof.
  split.
  - intros ws lw rs lw'. cbn. destruct (wh_join_all wh _ lw.1) as [r w] eqn:Hj.
    intros [= -> <-]. apply join_length in Hj. by rewrite length_fmap in Hj.
  - intros ws lw Hws. cbn.
    pose proof (join_no_panic (lower_worker lw.2 <$> ws) lw.1) as Hnp.
    destruct (wh_join_all wh _ lw.1) as [r w]. apply Hnp.
    intros fo (fo' & -> & Hfo)%list_elem_of_fmap w0. specialize (Hws fo' Hfo (w0, lw.2)).
    cbn. by destruct (fo_run fo' (w0, lw.2)).
Qed.

(** The number of workers joined so far. *)
Definition joined (log : list task_event) : Z :=
  foldr (fun ev n => match ev with Joined k => (Z.of_nat k + n)%Z | _ => n end) 0%Z log.

Lemma joined_app l1 l2 : joined (l1 ++ l2) = (joined l1 + joined l2)%Z.
Proof. unfold joined. induction l1 as [|[] l1 IH]; cbn; rewrite ?IH; lia. Qed.

(** A computation that joins no worker. *)
Definition unjoined {A} (m : io LW A) : Prop := forall lw, joined (m lw).2.2 = joined lw.2.

Lemma unjoined_silent {A} (m : io LW A) : silent m -> unjoined m.
Proof. intros Hm lw. by rewrite Hm. Qed.

Lemma unjoined_bind {A B} (m : io LW A) (f : A -> io LW B) :
  unjoined m -> (forall a, unjoined (f a)) -> unjoined (m ≫= f).
Proof.
  intros Hm Hf lw. unfold mbind, io_bind. specialize (Hm lw).
  destruct (m lw) as [[a|e|] lw']; cbn in *; [|done..]. by rewrite Hf.
Qed.

Lemma unjoined_ret {A} (a : A) : unjoined (mret a).
Proof. done. Qed.

Lemma unjoined_throw {A} msg : unjoined (throw (A := A) msg).
Proof. done. Qed.

Lemma unjoined_flow {A} (f : flow A) : unjoined (lift_flow f).
Proof. done. Qed.

Lemma unjoined_pure {A} (f : W -> A * W) : unjoined (lift_pure (quiet f)).
Proof. intros lw. unfold lift_pure, quiet. by destruct (f lw.1). Qed.

Lemma unjoined_clock : unjoined (clock logged_walk).
Proof. done. Qed.

Lemma unjoined_release r : unjoined (effect (h_release (wh_host logged_walk) r)).
Proof. done. Qed.

Lemma unjoined_dropping {A} r (m : io LW A) :
  unjoined m -> unjoined (dropping (h_release (wh_host logged_walk) r) m).
Proof. intros Hm lw. specialize (Hm lw). unfold dropping. by destruct (m lw) as [[] lw']. Qed.

Lemma unjoined_on_task task (f : string -> LW -> LW) :
  (forall t lw, joined (f t lw).2 = joined lw.2) -> unjoined (on_task task f).
Proof. intros Hf. destruct task; [|done]. intros lw. apply Hf. Qed.

Lemma unjoined_mark_running t (lw : LW) : joined (h_mark_running (wh_host logged_walk) t lw).2 = joined lw.2.
Proof. cbn. rewrite joined_app. cbn. lia. Qed.

Lemma unjoined_mark_terminal node t o (lw : LW) :
  joined (mark_terminal (wh_host logged_walk) node t o lw).2 = joined lw.2.
Proof. unfold mark_terminal. destruct (no_status o); cbn; rewrite joined_app; cbn; lia. Qed.

Lemma unjoined_register id : unjoined (lift_pure (h_register (wh_host logged_walk) id)).
Proof.
  intros lw. unfold lift_pure. cbn. destruct (h_register (wh_host wh) id lw.1).
  cbn. rewrite joined_app. cbn. lia.
Qed.
End logged_walk.

Create HintDb unjoined.
#[export] Hint Resolve unjoined_bind unjoined_ret unjoined_throw unjoined_flow unjoined_pure
  unjoined_clock unjoined_release unjoined_dropping unjoined_on_task unjoined_mark_running
  unjoined_mark_terminal unjoined_register : unjoined.

(** ** The pieces of a round that join nothing *)

Section pieces.
Context `{HashIter} `{RustFmt} `{UnicodeTables} `{PlannerJson} {W : Type} (wh : WalkHost W) (rc : DagRunCtx).
Local Abbreviation LW := (@LW W).
Local Abbreviation lwh := (logged_walk wh).
Local Abbreviation g := (rc_graph rc).

Lemma unjoined_follow st o stop : unjoined (follow_edge (W := LW) g st o stop).
Proof. unfold follow_edge. eauto with unjoined. Qed.

Lemma unjoined_skip_executed st : unjoined (skip_executed (W := LW) g st).
Proof. unfold skip_executed. eauto using unjoined_follow with unjoined. Qed.

Lemma silent_guards start st node : silent (walk_guards lwh g start st node).
Proof.
  intros lw. unfold walk_guards, lift_pure, evaluate_before_node_guards. cbn.
  set (ctx := Build_GuardContext _ _ _ _ _ _).
  assert (Hs : (guard_loop ((fun gd ctx => quiet (gd ctx)) <$> wh_guards wh) ctx lw).2.2 = lw.2).
  { clearbody ctx. revert lw. induction (wh_guards wh) as [|gd l IH]; intros lw; [done|].
    rewrite fmap_cons. cbn [guard_loop]. unfold quiet at 1.
    destruct (gd ctx lw.1) as [[[]|] w]; [|done..]. by rewrite IH. }
  by destruct (guard_loop _ _ lw).
Qed.

Lemma handler_logged k handler :
  h_handler (wh_host lwh) k = Some handler ->
  exists handler0, handler = (fun n ctx => quiet (handler0 n ctx)).
Proof. cbn. destruct (h_handler (wh_host wh) k); [|done]. intros [= <-]. eauto. Qed.

Lemma silent_persist node o : silent (effect (persist_checkpoints lwh g node o)).
Proof.
  intros lw. cbn. unfold persist_checkpoints. case_decide; [|done].
  cbn. destruct (wh_store wh) as [cs|]; [|done]. cbn.
  revert lw. induction (pn_checkpoints node) as [|d l IH]; intros lw; [done|].
  cbn -[quiet]. unfold quiet at 1. destruct (cs_persist cs _ lw.1) as [[]]; by rewrite IH.
Qed.

Lemma unjoined_completed st handler node prepared ctx reservation started o :
  unjoined (walk_completed lwh g st (fun n ctx => quiet (handler n ctx)) node prepared ctx
              reservation started o).
Proof.
  unfold walk_completed. apply unjoined_bind.
  { apply unjoined_dropping, unjoined_silent, silent_recover. }
  intros o1. apply unjoined_bind; [done|]. intros now. apply unjoined_bind.
  { apply unjoined_silent, silent_validate. }
  intros o2. apply unjoined_bind; [done|]. intros _. apply unjoined_bind.
  { apply unjoined_on_task. intros. apply unjoined_mark_terminal. }
  intros _. apply unjoined_bind; [apply unjoined_silent, silent_persist|]. intros _.
  unfold after_node. repeat case_decide; try case_match; first [apply unjoined_follow|done].
Qed.

Lemma unjoined_sequential st node : unjoined (walk_sequential lwh rc st node).
Proof.
  unfold walk_sequential. destruct (h_handler (wh_host lwh) _) as [handler|] eqn:Hh; [|done].
  apply handler_logged in Hh as [handler0 ->]. case_decide; [done|].
  apply unjoined_bind; [done|]. intros started.
  apply unjoined_bind; [apply unjoined_register|]. intros [task|reason]; [|done].
  apply unjoined_bind; [apply unjoined_on_task; intros; apply unjoined_mark_running|]. intros _.
  apply unjoined_bind; [apply unjoined_silent, silent_call|]. intros rv.
  apply unjoined_bind; [apply unjoined_dropping, unjoined_silent, silent_dispatch|].
  intros [o|label]; [apply unjoined_completed|]. unfold walk_skipped. eauto using unjoined_follow with unjoined.
Qed.

Lemma silent_plan (p : Provider W) prompt input max_tasks :
  silent (plan_or_fallback (logged_provider p) prompt input max_tasks).
Proof.
  intros lw. unfold plan_or_fallback.
  assert (Hs : silent (plan_dynamic_tasks (logged_provider p) prompt input max_tasks)).
  { unfold plan_dynamic_tasks. apply silent_bind; [apply silent_call|]. intros resp.
    case_match; [|done]. by apply silent_bind. }
  specialize (Hs lw). by destruct (plan_dynamic_tasks _ _ _ _ lw) as [[[]| |] lw'].
Qed.

Lemma provider_logged key p :
  resolve_provider (wh_default_provider lwh) (wh_router lwh) key = Ok p ->
  exists p0, p = logged_provider p0.
Proof.
  cbn. unfold resolve_provider. destruct key as [k|]; [|intros [= <-]; eauto].
  destruct (wh_router wh) as [r|]; cbn; [|intros [= <-]; eauto].
  destruct (r k); intros [= <-]; eauto.
Qed.

(** ** Fan-outs *)

Lemma release_log held (lw : LW) : (release_all lwh held lw).2 = lw.2.
Proof.
  unfold release_all. revert lw. induction held as [|r held IH]; intros lw; [done|].
  cbn -[h_release]. by rewrite IH.
Qed.

(** The reservations made while queueing leave no trace in the log. *)
Lemma silent_queue {A} (prep : A -> io LW (FanoutWorker LW * option f64)) items held :
  (forall a, silent (prep a)) -> silent (queue_workers lwh prep items held).
Proof.
  intros Hp. revert held. induction items as [|a items IH]; intros held; [done|]. cbn.
  apply silent_bind.
  - intros lw. specialize (Hp a lw). unfold dropping.
    destruct (prep a lw) as [[] lw']; cbn in Hp |- *; rewrite ?release_log; done.
  - intros [fo rv]. apply silent_bind; [apply IH|]. by intros [].
Qed.

(** A fan-out joins its workers at most once, and exactly once when it succeeds. *)
Lemma run_workers_joined {A} (prep : A -> io LW (FanoutWorker LW * option f64)) items lw r lw' :
  (forall a, silent (prep a)) -> run_workers lwh prep items lw = (r, lw') ->
  joined lw'.2 = (joined lw.2 + Z.of_nat (length items))%Z \/
  joined lw'.2 = joined lw.2 /\ forall wr, r <> Val wr.
Proof.
  intros Hp. unfold run_workers, mbind, io_bind.
  pose proof (silent_queue prep items [] Hp lw) as Hq.
  destruct (queue_workers _ _ _ _ lw) as [[[ws held]|e|] lw1] eqn:Hqw; cbn in Hq; cycle 1.
  { intros [= <- <-]. right. by rewrite Hq. }
  { intros [= <- <-]. right. by rewrite Hq. }
  apply queue_workers_length in Hqw. rewrite <- Hqw. unfold dropping. cbn [wh_join_all logged_walk].
  destruct (wh_join_all wh _ lw1.1) as [f w].
  intros Heq. left. revert Heq. destruct f; intros [= <- <-]; unfold effect; cbn; rewrite ?release_log;
    cbn; rewrite joined_app, Hq; cbn; lia.
Qed.

(** What a round joins: nothing past the cap, and exactly what the next state records. *)
Definition joins_ok (r : flow (WalkState + PipelineResult)) (lw' : LW) : Prop :=
  (joined lw'.2 <= fanout_cap wh)%Z /\
  forall st', r = Val (inl st') -> joined lw'.2 = ws_fanout_dispatched st'.

Hypothesis cap_small : (0 <= fanout_cap wh < usize_max)%Z.

Lemma follow_edge_keeps st o stop (lw : LW) st' lw' :
  follow_edge g st o stop lw = (Val (inl st'), lw') -> ws_fanout_dispatched st' = ws_fanout_dispatched st.
Proof. intros Hf. unfold follow_edge in Hf. inv_io. case_match; by simplify_eq. Qed.

Lemma after_node_keeps st node o (lw : LW) st' lw' :
  after_node g st node o lw = (Val (inl st'), lw') -> ws_fanout_dispatched st' = ws_fanout_dispatched st.
Proof.
  intros Ha. unfold after_node in Ha. repeat case_decide; try destruct (is_some_and _ _); inv_io; try done.
  all: by eapply follow_edge_keeps.
Qed.

Lemma sequential_keeps st node (lw : LW) st' lw' :
  walk_sequential lwh rc st node lw = (Val (inl st'), lw') ->
  ws_fanout_dispatched st' = ws_fanout_dispatched st.
Proof.
  intros Hw. unfold walk_sequential in Hw.
  destruct (h_handler _ _) as [handler|]; [|done]. case_decide; [inv_io; done|]. inv_io.
  match goal with H : context [match ?x with Ok _ => _ | Err _ => _ end] |- _ => destruct x end; inv_io; [|done].
  match goal with H : dropping _ _ _ = (Val ?d, _) |- _ => destruct d as [o|label] end.
  - unfold walk_completed in Hw. inv_io. by apply after_node_keeps in Hw.
  - unfold walk_skipped in Hw. inv_io. by apply follow_edge_keeps in Hw.
Qed.

(** A round that joins nothing and keeps the count. *)
Lemma joins_unjoined (m : outcome_io (W := LW)) st lw r lw' :
  unjoined m -> (forall lw st' lw', m lw = (Val (inl st'), lw') -> ws_fanout_dispatched st' = ws_fanout_dispatched st) ->
  joined lw.2 = ws_fanout_dispatched st -> (ws_fanout_dispatched st <= fanout_cap wh)%Z ->
  m lw = (r, lw') -> joins_ok r lw'.
Proof.
  intros Hu Hk Hj Hc Hm. specialize (Hu lw). rewrite Hm in Hu. cbn in Hu. split; [lia|].
  intros st' ->. rewrite (Hk _ _ _ Hm). lia.
Qed.

(** A round that joins the workers of one fan-out that was not refused. *)
Lemma joins_fanout {A} (prep : A -> io LW (FanoutWorker LW * option f64)) items st st1 lw r lw' static node conv kind usage start n :
  (forall a, silent (prep a)) -> fanout_refused lwh st (length items) = false ->
  ws_fanout_dispatched st1 = ws_fanout_dispatched st -> joined lw.2 = ws_fanout_dispatched st ->
  (ws_fanout_dispatched st <= fanout_cap wh)%Z ->
  (wr ← run_workers lwh prep items; now ← clock lwh;
   mret (finish_fanout (merge_fanout st1 static (length items) wr) node conv kind usage
           (now - start) n wr)) lw = (r, lw') ->
  joins_ok r lw'.
Proof.
  intros Hp Href Hst1 Hj Hc. unfold mbind at 1, io_bind at 1.
  destruct (run_workers lwh prep items lw) as [f lw1] eqn:Hrun.
  apply run_workers_joined in Hrun; [|done]. unfold fanout_refused in Href.
  apply Z.ltb_ge in Href. change (fanout_cap lwh) with (fanout_cap wh) in Href.
  unfold usize_saturating_add in Href.
  assert (Hle : (joined lw1.2 <= fanout_cap wh)%Z) by (destruct Hrun as [->|[-> _]]; lia).
  destruct f as [wr|e|]; [|intros [= <- <-]; by split..].
  destruct Hrun as [Hrun|[_ Hrun]]; [|by destruct (Hrun wr)].
  unfold clock, lift_pure, mbind, io_bind. intros [= <- <-]. split; [done|].
  intros st' Hst'. injection Hst' as Hst'. unfold finish_fanout in Hst'.
  destruct (bool_decide _ && _); simplify_eq. cbn. rewrite Hst1. unfold usize_saturating_add. lia.
Qed.

(** A round that ends the run without joining. *)
Lemma joins_stop st r lw :
  (ws_fanout_dispatched st <= fanout_cap wh)%Z -> joined lw.2 = ws_fanout_dispatched st ->
  (forall st', r <> Val (inl st')) -> joins_ok r lw.
Proof. intros Hc Hj Hr. split; [lia|]. intros st' ->. by destruct (Hr st'). Qed.

Lemma parallel_joins st node lw r lw' :
  joined lw.2 = ws_fanout_dispatched st -> (ws_fanout_dispatched st <= fanout_cap wh)%Z ->
  walk_parallel lwh rc st node lw = (r, lw') -> joins_ok r lw'.
Proof.
  intros Hj Hc. unfold walk_parallel.
  assert (Hstop : forall r lw', joined lw'.2 = ws_fanout_dispatched st ->
    (forall st', r <> Val (inl st')) -> joins_ok r lw') by eauto using joins_stop.
  destruct (pn_converge node) as [conv|]; [|intros [= <- <-]; by apply Hstop].
  destruct (fanout_refused lwh st _) eqn:Href; [intros [= <- <-]; by apply Hstop|].
  case_decide; [intros [= <- <-]; by apply Hstop|].
  unfold mbind at 1, io_bind at 1, clock at 1, lift_pure at 1. intros Hw.
  eapply joins_fanout; [|done..|exact Hw].
  intros t. unfold prepare_target. case_match; [|done]. case_match; [|done].
  apply silent_bind; [apply silent_call|done].
Qed.

Lemma dynamic_joins st node lw r lw' :
  joined lw.2 = ws_fanout_dispatched st -> (ws_fanout_dispatched st <= fanout_cap wh)%Z ->
  walk_dynamic lwh rc st node lw = (r, lw') -> joins_ok r lw'.
Proof.
  intros Hj Hc. unfold walk_dynamic.
  assert (Hstop : forall r lw', joined lw'.2 = ws_fanout_dispatched st ->
    (forall st', r <> Val (inl st')) -> joins_ok r lw') by eauto using joins_stop.
  destruct (pn_converge node) as [conv|]; [|intros [= <- <-]; by apply Hstop].
  unfold mbind at 1, io_bind at 1, try, lift_flow.
  destruct (resolve_provider _ _ _) as [p|e] eqn:Hprov; [|intros [= <- <-]; by apply Hstop].
  apply provider_logged in Hprov as [p0 ->]. cbn [of_result].
  unfold mbind at 1, io_bind at 1, clock at 1, lift_pure at 1. unfold mbind at 1, io_bind at 1.
  match goal with |- context [plan_or_fallback ?p ?a ?b ?c lw] =>
    pose proof (silent_plan p0 a b c lw) as Hs;
    destruct (plan_or_fallback p a b c lw) as [[[tasks usage]|e|] lw1] end; cbn in Hs;
    [|intros [= <- <-]; apply Hstop; [by rewrite Hs|done]..].
  unfold dispatch_dynamic. case_decide; [intros [= <- <-]; apply Hstop; [by rewrite Hs|done]|].
  unfold mbind at 1, io_bind at 1, lift_flow at 1.
  destruct (synthetic_nodes _ _ _ _) as [nodes|e|]; [|intros [= <- <-]; apply Hstop; [by rewrite Hs|done]..].
  destruct (fanout_refused lwh _ _) eqn:Href; [intros [= <- <-]; apply Hstop; [by rewrite Hs|done]|].
  destruct (h_handler _ _) as [handler|]; [|intros [= <- <-]; apply Hstop; [by rewrite Hs|done]].
  intros Hw. eapply joins_fanout; [|exact Href|done| | |exact Hw]; [|by rewrite Hs|done].
  intros n. unfold prepare_dynamic. apply silent_bind; [apply silent_call|done].
Qed.

Lemma step_joins resume_skip start st lw r lw' :
  joined lw.2 = ws_fanout_dispatched st -> (ws_fanout_dispatched st <= fanout_cap wh)%Z ->
  walk_step lwh rc resume_skip start st lw = (r, lw') -> joins_ok r lw'.
Proof.
  intros Hj Hc. unfold walk_step.
  destruct (pg_nodes g !! ws_current st) as [node|]; [|intros [= <- <-]; by eapply joins_stop].
  case_decide.
  { apply joins_unjoined with st; [apply unjoined_skip_executed| |done..].
    intros lw0 st' lw1 Hs. unfold skip_executed in Hs. inv_io. by eapply follow_edge_keeps. }
  case_decide.
  { apply joins_unjoined with st; [apply unjoined_follow| |done..]. intros lw0 st' lw1 Hs.
    by apply follow_edge_keeps in Hs. }
  unfold mbind at 1, io_bind at 1. pose proof (silent_guards start (count_visit st) node lw) as Hg.
  destruct (walk_guards lwh g start (count_visit st) node lw) as [[d|e|] lw1] eqn:Hgs; cbn in Hg;
    [|intros [= <- <-]; eapply (joins_stop st); [done|by rewrite Hg|done]..].
  assert (Hj1 : joined lw1.2 = ws_fanout_dispatched (count_visit st)) by (by rewrite Hg).
  destruct d as [[|reason|reason]|error].
  - unfold walk_node. destruct (pn_handler node);
      first [by apply parallel_joins|by apply dynamic_joins
            |apply joins_unjoined with (count_visit st);
               [apply unjoined_sequential|intros ? ? ?; apply sequential_keeps|done..]].
  - apply joins_unjoined with (count_visit st); [apply unjoined_follow| |done..].
    intros lw0 st' lw2 Hs. by apply follow_edge_keeps in Hs.
  - intros [= <- <-]. by eapply (joins_stop st).
  - intros [= <- <-]. by eapply (joins_stop st).
Qed.

Lemma loop_joins fuel resume_skip start st lw r lw' :
  joined lw.2 = ws_fanout_dispatched st -> (ws_fanout_dispatched st <= fanout_cap wh)%Z ->
  walk_loop lwh fuel rc resume_skip start st lw = (r, lw') -> (joined lw'.2 <= fanout_cap wh)%Z.
Proof.
  revert st lw; induction fuel as [|fuel IH]; intros st lw Hj Hc; cbn [walk_loop].
  { intros [= <- <-]. lia. }
  unfold mbind, io_bind. destruct (walk_step lwh rc resume_skip start st lw) as [f lw1] eqn:Hs.
  apply step_joins in Hs as [Hle Hst]; [|done..].
  destruct f as [[st'|res]|e|]; [|intros [= <- <-]; done..].
  specialize (Hst st' eq_refl). apply IH; [done|]. lia.
Qed.
End pieces.

(**  The lifetime cap on fan-out workers bounds what is really started: for every host
    and every run of the walk (finished, failed, panicking or cut off after any number of
    rounds), the workers handed to [join_all] over all its fan-outs, static and dynamic, are
    at most [max_pipeline_fanout_total] (500 by default). *)
Theorem walk_fanout_capped `{HashIter} `{RustFmt} `{UnicodeTables} `{PlannerJson} {W : Type}
    (wh : WalkHost W) (rc : DagRunCtx) (start : string) (fuel : nat) (w : W)
    (r : flow (option PipelineResult)) (lw : LW) :
  (0 <= fanout_cap wh < usize_max)%Z ->
  execute_graph (logged_walk wh) fuel rc start (w, []) = (r, lw) ->
  (joined lw.2 <= fanout_cap wh)%Z.
Proof.
  intros Hc. unfold execute_graph, clock, lift_pure. unfold mbind at 1, io_bind at 1.
  unfold mbind at 1, io_bind at 1.
  assert (Hs : forall lw : LW, (build_resume_skip_set (wh_store (logged_walk wh)) lw).2.2 = lw.2).
  { intros lw0. cbn. destruct (wh_store wh) as [cs|]; [|done]. cbn. unfold quiet.
    by destruct (cs_list cs lw0.1) as [[]]. }
  specialize (Hs (w, [])). destruct (build_resume_skip_set _ _) as [skip lw1].
  cbn in Hs. apply loop_joins; [done|by rewrite Hs|]. cbn. lia.
Qed.

Definition fan_logged : flow (option PipelineResult) * @LW nat :=
  @execute_graph tree_iter no_fmt ascii_tables mute_planner (@LW nat) (logged_walk (demo_walk_host 0)) 6
    (run_ctx (graph_of fan_dot)) "start" (0, []).

Lemma walk_fanout_capped_witness : joined fan_logged.2.2 = 2%Z /\ (joined fan_logged.2.2 <= 500)%Z.
Proof.
  split; [by vm_compute|].
  apply (@walk_fanout_capped tree_iter no_fmt ascii_tables mute_planner nat (demo_walk_host 0)
    (run_ctx (graph_of fan_dot)) "start" 6 0 fan_logged.1 fan_logged.2); [done|].
  by vm_compute.
Defined.

(** ** Supervisor traffic of a sequential node *)

Section lifecycle.
Context `{HashIter} `{RustFmt} `{UnicodeTables} `{PlannerJson} {W : Type} (wh : WalkHost W) (rc : DagRunCtx).
Local Abbreviation LW := (@LW W).
Local Abbreviation lwh := (logged_walk wh).
Local Abbreviation g := (rc_graph rc).

(** What a round leaves in the log and records for the current node [id]. *)
Definition reported (id : string) (node : PipelineNode) (known : option string)
    (r : flow (WalkState + PipelineResult)) (lw lw' : LW) : Prop :=
  (exists o, lw'.2 = lw.2 ++ task_log known (fun t => terminal_event node t o) /\
     forall st', r = Val (inl st') -> ws_completed st' !! id = Some o) \/
  (lw'.2 = lw.2 /\ forall st', r = Val (inl st') -> ws_completed st' !! id = Some (skipped_outcome node)).

Lemma follow_edge_records st o stop (lw : LW) r lw' :
  follow_edge g st o stop lw = (r, lw') ->
  lw' = lw /\ forall st', r = Val (inl st') -> ws_completed st' = ws_completed st.
Proof.
  unfold follow_edge, mbind, io_bind, lift_flow.
  destruct (select_next_edge _ _ _) as [[n|]|e|]; intros [= <- <-]; (split; [done|]); by intros st' [= <-].
Qed.

Lemma after_node_records st node o (lw : LW) r lw' :
  after_node g st node o lw = (r, lw') ->
  lw' = lw /\ forall st', r = Val (inl st') -> ws_completed st' = ws_completed st.
Proof.
  unfold after_node. do 2 (destruct (decide (_ /\ _)); [by intros [= <- <-]|]).
  destruct (is_some_and _ _); [by intros [= <- <-]|]. apply follow_edge_records.
Qed.

Lemma completed_reported st handler node prepared ctx reservation started o lw r lw' :
  walk_completed lwh g st (fun n ctx => quiet (handler n ctx)) node prepared ctx reservation started o lw
    = (r, lw') ->
  reported (ws_current st) node (ws_node_task_ids st !! pn_id node) r lw lw'.
Proof.
  unfold walk_completed, mbind, io_bind, dropping.
  pose proof (silent_recover (wh_host wh) handler node prepared ctx started o lw) as Hs1.
  destruct (recover_outcome _ _ _ _ _ _ _ lw) as [[o1|e|] lw1] eqn:Hrec; cbn in Hs1;
    [|intros [= <- <-]; right; by split..].
  unfold clock, lift_pure, effect.
  pose proof (silent_validate (wh_host wh) node o1 lw1) as Hs2.
  destruct (validate_outcome _ node o1 lw1) as [[o2|e|] lw2]; cbn in Hs2;
    [|intros [= <- <-]; right; split; [by rewrite Hs2|done]..].
  change (ws_node_task_ids (push_cost st _)) with (ws_node_task_ids st).
  generalize (ws_node_task_ids st !! pn_id node) as known. intros known.
  assert (Hm : exists w3, on_task known (fun id => mark_terminal (wh_host lwh) node id o2)
      (h_release (wh_host lwh) reservation lw2) =
    (Val tt, (w3, lw.2 ++ task_log known (fun t => terminal_event node t o2)))).
  { destruct known as [t|]; cbn; rewrite <- Hs1, <- Hs2; [|rewrite app_nil_r; eauto].
    unfold effect, mark_terminal, terminal_event. destruct (no_status o2); cbn; eauto. }
  destruct Hm as [w3 Hm]. rewrite Hm.
  match goal with |- context [persist_checkpoints ?a ?b ?c ?d ?e] =>
    pose proof (silent_persist wh rc node o2 e) as Hs3; cbn in Hs3;
    destruct (persist_checkpoints a b c d e) as [w4 log4] end.
  cbn in Hs3. subst log4. intros [-> Hc]%after_node_records. left. exists o2. split; [done|].
  intros st' ->. rewrite (Hc st' eq_refl). cbn. by rewrite lookup_insert, decide_True.
Qed.
End lifecycle.

(** The supervisor traffic of one sequential node of the walk, for every host: a
    refused registration ends the run unsuccessfully with no further call; otherwise the
    node is registered and marked running, and then either exactly one terminal call is made
    that matches the outcome recorded for the node (under the id just registered, or the one
    remembered from an earlier visit), or none, which in a run that goes on happens only to a
    node skipped at its deadline. *)
Theorem walk_task_lifecycle `{HashIter} `{RustFmt} `{UnicodeTables} `{PlannerJson} {W : Type}
    (wh : WalkHost W) (rc : DagRunCtx) (st : WalkState) (node : PipelineNode) (w : W)
    (r : flow (WalkState + PipelineResult)) (lw : LW) :
  is_Some (h_handler (wh_host wh) (pn_handler node)) ->
  remaining_pipeline_tokens (pg_max_total_tokens (rc_graph rc)) (ws_total_tokens st) <> Some 0%Z ->
  walk_sequential (logged_walk wh) rc st node (w, []) = (r, lw) ->
  match (h_register (wh_host wh) (pn_id node) w).1 with
  | Err _ =>
      lw.2 = [Registered (pn_id node)] /\ exists res, r = Val (inr res) /\ pr_success res = false
  | Ok task =>
      exists w1, reported (ws_current st) node
        (match task with Some t => Some t | None => ws_node_task_ids st !! pn_id node end) r
        (w1, Registered (pn_id node) :: task_log task Running) lw
  end.
Proof.
  intros [handler Hh] Hrem. unfold walk_sequential. cbn [wh_host logged_walk h_handler logged].
  rewrite Hh. cbn [fmap option_fmap option_map]. rewrite decide_False by done.
  unfold clock, lift_pure. unfold mbind at 1, io_bind at 1. unfold mbind at 1, io_bind at 1.
  cbn [h_register logged fst snd]. destruct (h_register (wh_host wh) (pn_id node) w) as [[task|reason] w1];
    cbn [fst app]; [|intros [= <- <-]; split; [done|]; by eexists].
  assert (Hrun : exists w2, on_task task (h_mark_running (logged (wh_host wh))) (w1, [Registered (pn_id node)]) =
    (Val tt, (w2, Registered (pn_id node) :: task_log task Running))) by (destruct task; cbn; eauto).
  destruct Hrun as [w2 Hrun]. unfold mbind at 1, io_bind at 1. rewrite Hrun. clear Hrun.
  unfold mbind at 1, io_bind at 1. set (log := Registered _ :: _).
  pose proof (silent_call (h_reserve (wh_host wh) (pg_id (rc_graph rc))
    (prepare_node rc (remaining_pipeline_tokens (pg_max_total_tokens (rc_graph rc)) (ws_total_tokens st)) node))
    (w2, log)) as Hs1.
  cbn [h_reserve logged]. destruct (call _ _) as [[rv|e|] [w3 log3]]; cbn in Hs1; subst log3;
    [|intros [= <- <-]; exists w3; right; by split..].
  unfold mbind at 1, io_bind at 1, dropping.
  match goal with |- context [dispatch_node ?h ?hd ?n ?c ?k ?lw] =>
    pose proof (silent_dispatch (wh_host wh) handler n c k lw) as Hs2;
    destruct (dispatch_node h hd n c k lw) as [[d|e|] [w4 log4]] end; cbn in Hs2; subst log4;
    [|intros [= <- <-]; eexists; right; by split..].
  intros Hw. exists w4. revert Hw. destruct d as [o|label].
  - intros Hc%completed_reported. cbn in Hc. destruct task as [t|]; cbn in Hc; [|done].
    by rewrite lookup_insert, decide_True in Hc.
  - unfold walk_skipped, clock, lift_pure, effect. do 2 (unfold mbind at 1, io_bind at 1).
    intros [-> Hf]%follow_edge_records. right. split; [done|]. intros st' ->. rewrite (Hf st' eq_refl).
    cbn. by rewrite lookup_insert, decide_True.
Qed.

(** A host with a supervisor, on which every timeout expires or none does. *)
Definition supervised (expire : bool) : WalkHost nat := {|
  wh_host := {|
    h_handler := fun _ => Some (demo_handler 0);
    h_timeout := fun _ m w => if expire then (None, w) else let (r, w) := m w in (Some r, w);
    h_sleep := fun _ w => w; h_clock := fun w => Z.of_nat w; h_escalate := fun _ w => w;
    h_register := fun id w => (Ok (Some ("task-" +:+ id)), w); h_mark_running := fun _ w => w;
    h_mark_completed := fun _ _ w => w; h_mark_failed := fun _ _ w => w;
    h_reserve := fun _ _ w => (Ok None, w); h_release := fun _ w => w;
    h_validate := fun _ w => (Ok tt, w); h_project_cost := fun _ _ _ => None;
    h_shutdown := fun _ => false; h_json_input := fun _ input => quoted input |};
  wh_guards := []; wh_store := None;
  wh_persisted_total := fun _ => 0%Z; wh_count_persisted := fun w => w; wh_epoch_ms := fun _ => 0%Z;
  wh_default_provider := fun _ _ w => (Err ["no provider"], w); wh_router := None;
  wh_join_all := join_sequential Z.of_nat; wh_resolve_files := fun _ s => s; wh_max_fanout := None |}.

(** [start] may be skipped at its deadline. *)
Definition slow_dot : string :=
  "digraph slow { start [deadline_secs=5, deadline_action=skip]; start -> work }".

Definition slow_run (expire : bool) : flow (WalkState + PipelineResult) * @LW nat :=
  @walk_sequential tree_iter no_fmt (@LW nat) (logged_walk (supervised expire))
    (run_ctx (graph_of slow_dot)) (WalkState_init "start")
    (default (demo_node "" []) (pg_nodes (graph_of slow_dot) !! "start")) (0, []).

Definition slow_node : PipelineNode := default (demo_node "" []) (pg_nodes (graph_of slow_dot) !! "start").

Lemma walk_task_lifecycle_witness :
  (slow_run false).2.2 = [Registered "start"; Running "task-start"; MarkedCompleted "task-start" []] /\
  exists w1, reported "start" slow_node (Some ("task-" +:+ pn_id slow_node)) (slow_run false).1
    (w1, [Registered (pn_id slow_node); Running ("task-" +:+ pn_id slow_node)]) (slow_run false).2.
Proof.
  split; [by vm_compute|].
  refine (@walk_task_lifecycle tree_iter no_fmt ascii_tables mute_planner nat (supervised false)
    (run_ctx (graph_of slow_dot)) (WalkState_init "start") slow_node 0
    (slow_run false).1 (slow_run false).2 _ _ _); [by eexists|by vm_compute..].
Defined.

(** The skip leaves the supervisor with a running task: no terminal call is made, although
    the run goes on to the next node. *)
Lemma skipped_task_left_running :
  (slow_run true).2.2 = [Registered "start"; Running "task-start"] /\
  match (slow_run true).1 with Val (inl st) => ws_current st = "work" | _ => False end.
Proof. split; by vm_compute. Qed.
