(* ===== verification/WalkTotal.v ===== *)
(** * The walk does not panic

    On a validated graph whose numbers are usable (finite weights, deadlines that fit a
    [Duration], model pools that are not empty) no run of the walk reaches one of the
    panics of the code: [unwrap] on an empty tie, on a missing outcome or node,
    [Duration::from_secs_f64], [unreachable!()] and the remainder by an empty pool. *)

From S2P Require Import Prelude RustStr RustNum Fidelity Graph Condition ToolPolicy Validate Host.
From S2P Require Import Dispatch Dag DagSafety Guard Checkpoint Fanout Walk WalkSafety.
From Stdlib Require Import SpecFloat.

(** ** Graphs with usable numbers *)

Record node_usable (g : PipelineGraph) (n : PipelineNode) : Prop := {
  nu_retries : (0 <= pn_max_retries n)%Z;
  nu_deadline : forall secs, pn_deadline_secs n = Some secs -> is_Some (from_secs_f64 secs);
  nu_mantissa : forall s m e, pn_deadline_secs n = Some (S754_finite s m e) -> (Zpos m < 2 ^ 53)%Z;
  nu_pool : pn_handler n = DynamicParallel ->
    worker_model_pool (default "" (match pn_model n with
                                   | Some m => Some m
                                   | None => pg_default_model g
                                   end)) <> []
}.

Record graph_usable `{HashIter} `{RustFmt} (g : PipelineGraph) : Prop := {
  gu_valid : exists ctx, validate_with_context g ctx = Ok tt;
  gu_weights : forall e, e ∈ pg_edges g -> f64_is_finite (pe_weight e) = true;
  gu_nodes : forall id n, pg_nodes g !! id = Some n -> node_usable g n
}.

(** Nodes executed by a static fan-out have their outcome recorded. *)
Definition executed_recorded (st : WalkState) : Prop :=
  forall id, id ∈ ws_parallel_executed st -> is_Some (ws_completed st !! id).

Lemma foldl_insert_is_Some (l : list (string * NodeOutcome)) (m : gmap string NodeOutcome) id :
  is_Some (m !! id) \/ id ∈ l.*1 -> is_Some (foldl (fun m '(id, o) => <[id := o]> m) m l !! id).
Proof.
  revert m; induction l as [|[k o] l IH]; intros m; cbn [foldl fmap list_fmap fst].
  - intros [?|?%not_elem_of_nil]; done.
  - intros Hid. apply IH. rewrite elem_of_cons in Hid.
    destruct (decide (id = k)) as [->|Hne]; [left; rewrite lookup_insert, decide_True; by eauto|].
    rewrite lookup_insert_ne by done. naive_solver.
Qed.

Lemma body_recorded `{RustFmt} g cap st st2 o jump :
  executed_recorded st -> round_body g cap st st2 o jump -> executed_recorded st2.
Proof.
  intros Hst Hb id. destruct Hb as [|st1 s o ? Hb|st1 s o ? ? static resolve results ? ? ? ? Hb ? wr]; [apply Hst| |];
    destruct Hb as (Hc & Hm & _ & Hp & _); cbn; rewrite Hc, ?Hm, ?Hp; intros Hid;
    (destruct (decide (id = ws_current st)) as [->|Hne]; [rewrite lookup_insert, decide_True; by eauto|]);
    rewrite lookup_insert_ne by done; [by apply Hst|].
  apply foldl_insert_is_Some. destruct static; [|left; by apply Hst].
  rewrite elem_of_union, elem_of_list_to_set in Hid. destruct Hid; [left; by apply Hst|by right].
Qed.

(** ** The pieces of a round *)

Section no_panic.
Context `{HashIter} `{RustFmt} `{UnicodeTables} `{PlannerJson} {W : Type} (wh : WalkHost W).
Context `{!JoinLaw wh} `{!TimeoutLaw (wh_host wh)} (rc : DagRunCtx).
Local Abbreviation g := (rc_graph rc).
Hypothesis usable : graph_usable g.

Lemma no_panic_clock : no_panic (clock wh).
Proof. done. Qed.

Lemma no_panic_on_task task (f : string -> W -> W) : no_panic (on_task task f).
Proof. by destruct task. Qed.

Lemma no_panic_follow st o stop node :
  pg_nodes g !! ws_current st = Some node -> no_panic (follow_edge (W := W) g st o stop).
Proof.
  intros Hn. unfold follow_edge. apply no_panic_bind; [|done].
  apply no_panic_lift_flow. destruct (gu_valid _ usable) as [ctx Hv].
  destruct (select_next_edge_valid g ctx (ws_current st) o Hv (gu_weights _ usable)) as [[_ ->]|(n & -> & _)];
    [by apply elem_of_dom|done..].
Qed.

(** The fields that matter are left alone when a node is prepared. *)
Lemma usable_prepared n rem peers :
  node_usable g n -> pn_handler n <> DynamicParallel -> node_usable g (cap_remaining rem peers (resolve_node rc n)).
Proof.
  intros [Hr Hdl Hm _] Hd. unfold cap_remaining, resolve_node, cap_node_output_tokens_for_remaining_budget.
  destruct rem; cbn; repeat case_match; by split.
Qed.

Lemma cap_fields n rem peers :
  pn_max_retries (cap_remaining rem peers n) = pn_max_retries n /\
  pn_deadline_secs (cap_remaining rem peers n) = pn_deadline_secs n.
Proof. unfold cap_remaining, cap_node_output_tokens_for_remaining_budget. destruct rem; [case_match|]; done. Qed.

Lemma resolve_fields n :
  pn_max_retries (resolve_node rc n) = pn_max_retries n /\
  pn_deadline_secs (resolve_node rc n) = pn_deadline_secs n.
Proof. unfold resolve_node. by case_decide. Qed.

Lemma no_panic_dispatch handler n ctx k :
  node_usable g n -> (0 <= k)%Z -> no_panic (dispatch_node (wh_host wh) handler n ctx k).
Proof.
  intros Hu Hk w Hp. destruct (dispatch_node (wh_host wh) handler n ctx k w) as [r w'] eqn:Hd.
  cbn in Hp. subst r. eapply dispatch_node_ok in Hd as (secs & Hs & Hf); [|done..].
  apply (nu_deadline _ _ Hu) in Hs as [d Hd]. congruence.
Qed.

Lemma no_panic_worker handler n ctx :
  (0 <= pn_max_retries n)%Z ->
  (forall s m e, pn_deadline_secs n = Some (S754_finite s m e) -> (Zpos m < 2 ^ 53)%Z) ->
  no_panic (run_fanout_worker (wh_host wh) handler n ctx (pn_max_retries n)).
Proof.
  intros Hk Hm. unfold run_fanout_worker. apply no_panic_bind.
  - apply no_panic_lift_flow. destruct (fanout_worker_deadline_ok n Hm) as (d & -> & _). done.
  - intros d. generalize (Z.to_nat (deadline_attempts (default Abort_action (pn_deadline_action n)))) as iters.
    generalize (default Abort_action (pn_deadline_action n)) as action. generalize 0%Z as attempt.
    generalize (@None report) as last. intros last attempt action iters. revert last attempt.
    induction iters as [|iters IH]; intros last attempt w; cbn [worker_loop]; [done|].
    destruct (h_timeout (wh_host wh) d _ w) as [[r|] w1] eqn:Ht.
    + apply timeout_completes in Ht.
      pose proof (execute_with_retries_no_panic (wh_host wh) handler n ctx _ Hk w) as Hnp.
      by rewrite Ht in Hnp.
    + destruct action; try done. case_match; [done|apply IH].
Qed.

(** A worker node with the retries and the deadline of a usable node. *)
Lemma no_panic_worker_of handler n n0 ctx rem peers :
  node_usable g n -> pn_max_retries n0 = pn_max_retries n -> pn_deadline_secs n0 = pn_deadline_secs n ->
  let prepared := cap_remaining rem peers n0 in
  no_panic (run_fanout_worker (wh_host wh) handler prepared ctx (pn_max_retries prepared)).
Proof.
  intros Hu Hr Hd prepared. destruct (cap_fields n0 rem peers) as [Hr' Hd'].
  apply no_panic_worker; subst prepared; [rewrite Hr', Hr; apply Hu|rewrite Hd', Hd; apply Hu].
Qed.

Lemma no_panic_recover handler node prepared ctx started o :
  no_panic (recover_outcome (wh_host wh) handler node prepared ctx started o).
Proof.
  intros w. unfold recover_outcome. destruct (node_budget_spent _ _ _ _); [done|].
  destruct (classify_outcome _ _ _); [done| |done].
  assert (Hr : no_panic (recover_node (wh_host wh) handler prepared ctx signal)).
  { unfold recover_node. intros w1. case_match; [done|].
    apply no_panic_bind; [apply no_panic_call|done]. }
  specialize (Hr w). by destruct (recover_node _ _ _ _ _ w) as [[] w'].
Qed.

Lemma no_panic_validate node o : no_panic (validate_outcome (wh_host wh) node o).
Proof. unfold validate_outcome. case_decide; [|done]. apply no_panic_bind; [apply no_panic_lift|done]. Qed.

Lemma no_panic_after st node node' o :
  pg_nodes g !! ws_current st = Some node' -> no_panic (after_node (W := W) g st node o).
Proof.
  intros Hn. unfold after_node. do 2 (destruct (decide (_ /\ _)); [done|]).
  destruct (is_some_and _ _); [done|]. by eapply no_panic_follow.
Qed.

Lemma no_panic_sequential st node :
  pg_nodes g !! ws_current st = Some node -> pn_handler node <> DynamicParallel ->
  no_panic (walk_sequential wh rc st node).
Proof.
  intros Hn Hd. pose proof (gu_nodes _ usable _ _ Hn) as Hu. unfold walk_sequential.
  destruct (h_handler _ _) as [handler|]; [|done]. case_decide; [done|].
  apply no_panic_bind; [done|]. intros started. apply no_panic_bind; [apply no_panic_lift|].
  intros [task|reason]; [|done]. apply no_panic_bind; [apply no_panic_on_task|]. intros _.
  apply no_panic_bind; [apply no_panic_call|]. intros rv. apply no_panic_bind.
  { apply no_panic_dropping, no_panic_dispatch; [by apply usable_prepared|apply Hu]. }
  intros [o|label].
  - unfold walk_completed. apply no_panic_bind; [apply no_panic_dropping, no_panic_recover|]. intros o1.
    apply no_panic_bind; [done|]. intros now. apply no_panic_bind; [apply no_panic_validate|]. intros o2.
    apply no_panic_bind; [done|]. intros _. apply no_panic_bind; [apply no_panic_on_task|]. intros _.
    apply no_panic_bind; [done|]. intros _. by eapply no_panic_after.
  - unfold walk_skipped. apply no_panic_bind; [done|]. intros now. apply no_panic_bind; [done|]. intros _.
    by eapply no_panic_follow.
Qed.

(** ** Fan-outs *)

(** Queueing yields only workers that cannot panic. *)
Lemma queue_no_panic {A} (prep : A -> io W (FanoutWorker W * option f64)) items held :
  (forall a, a ∈ items -> no_panic (prep a)) -> no_panic (queue_workers wh prep items held).
Proof.
  revert held; induction items as [|a items IH]; intros held Hp; [done|]. cbn.
  apply no_panic_bind; [apply no_panic_dropping, Hp; by left|]. intros [fo rv].
  apply no_panic_bind; [apply IH; intros; apply Hp; by right|]. by intros [].
Qed.

Lemma queue_workers_run {A} (prep : A -> io W (FanoutWorker W * option f64)) items held w ws held' w' fo :
  queue_workers wh prep items held w = (Val (ws, held'), w') -> fo ∈ ws ->
  exists a w1 rv w2, a ∈ items /\ prep a w1 = (Val (fo, rv), w2).
Proof.
  revert held w ws; induction items as [|a items IH]; intros held w ws Hq Hfo; cbn in Hq; inv_io.
  { simplify_eq. by apply not_elem_of_nil in Hfo. }
  match goal with Hd : dropping _ _ _ = (Val ?x, _) |- _ => destruct x as [fo1 rv]; rename Hd into Hprep end.
  cbn beta iota in Hq. inv_io.
  match goal with Hr : queue_workers _ _ _ _ _ = (Val ?x, _) |- _ => destruct x as [ws1 held1]; rename Hr into Hrest end.
  cbn beta iota in Hq. inv_io. simplify_eq.
  apply elem_of_cons in Hfo as [->|Hfo].
  - unfold dropping in Hprep. destruct (prep a w) as [[] w1] eqn:Ha; simplify_eq.
    exists a, w, rv. eexists. split; [by left|exact Ha].
  - apply IH in Hrest as (a' & w1 & rv' & w2 & Ha' & Hp'); [|done].
    exists a', w1, rv', w2. split; [by right|done].
Qed.

Lemma no_panic_run_workers {A} (prep : A -> io W (FanoutWorker W * option f64)) items :
  (forall a, a ∈ items -> no_panic (prep a)) ->
  (forall a w fo rv w', a ∈ items -> prep a w = (Val (fo, rv), w') -> no_panic (fo_run fo)) ->
  no_panic (run_workers wh prep items).
Proof.
  intros Hp Hrun w. unfold run_workers. unfold mbind at 1, io_bind at 1.
  pose proof (queue_no_panic prep items [] Hp w) as Hq.
  destruct (queue_workers wh prep items [] w) as [[[ws held]|e|] w1] eqn:Hqw; [|done..].
  apply no_panic_bind; [|done].
  apply no_panic_dropping. intros w2. apply join_no_panic. intros fo Hfo.
  eapply queue_workers_run in Hqw as (a & w3 & rv & w4 & Ha & Hprep); [|done]. by eapply Hrun.
Qed.

Lemma no_panic_finish_fanout {A} (prep : A -> io W (FanoutWorker W * option f64)) items
    (f : WorkerResults -> Z -> WalkState + PipelineResult) :
  no_panic (run_workers wh prep items) ->
  no_panic (wr ← run_workers wh prep items; now ← clock wh; mret (f wr now)).
Proof. intros Hr. by apply no_panic_bind. Qed.

Lemma no_panic_parallel st node :
  pg_nodes g !! ws_current st = Some node -> no_panic (walk_parallel wh rc st node).
Proof.
  intros Hn. unfold walk_parallel. destruct (pn_converge node); [|done].
  destruct (fanout_refused _ _ _); [done|]. case_decide; [done|].
  apply no_panic_bind; [done|]. intros start. apply no_panic_finish_fanout, no_panic_run_workers.
  - intros t _. unfold prepare_target. case_match; [|done]. case_match; [|done].
    apply no_panic_bind; [apply no_panic_call|done].
  - intros t w fo rv w' _ Hp. unfold prepare_target in Hp.
    destruct (pg_nodes g !! t) as [target|] eqn:Ht; [|done].
    destruct (h_handler _ _); [|done]. inv_io. simplify_eq. cbn [fo_run].
    pose proof (gu_nodes _ usable _ _ Ht) as Hu.
    destruct (resolve_fields target). by eapply no_panic_worker_of.
Qed.

Lemma synthetic_nodes_ok node i tasks :
  node_usable g node -> pn_handler node = DynamicParallel ->
  exists nodes, synthetic_nodes g node i tasks = Val nodes /\
    Forall (fun n => pn_max_retries n = pn_max_retries node /\ pn_deadline_secs n = pn_deadline_secs node) nodes.
Proof.
  intros Hu Hh. revert i; induction tasks as [|t tasks IH]; intros i; [by exists []|]. cbn.
  unfold synthetic_node. set (pool := worker_model_pool _).
  assert (Hne : length pool <> 0) by (intros Hz%nil_length_inv; by apply (nu_pool _ _ Hu Hh)).
  destruct (lookup_lt_is_Some_2 pool (i mod length pool)) as [m Hm]; [by apply Nat.mod_upper_bound|].
  rewrite Hm. cbn. destruct (IH (S i)) as (rest & -> & Hrest). cbn. eexists. split; [done|].
  by constructor.
Qed.

Lemma no_panic_dynamic st node :
  pg_nodes g !! ws_current st = Some node -> pn_handler node = DynamicParallel ->
  no_panic (walk_dynamic wh rc st node).
Proof.
  intros Hn Hh. pose proof (gu_nodes _ usable _ _ Hn) as Hu. unfold walk_dynamic.
  destruct (pn_converge node); [|done]. apply no_panic_bind; [apply no_panic_try|]. intros provider.
  apply no_panic_bind; [done|]. intros start. apply no_panic_bind.
  { intros w. unfold plan_or_fallback.
    assert (Hp : no_panic (plan_dynamic_tasks provider (planning_prompt rc node)
      (hc_input (walk_context rc st)) (default 8%Z (pn_max_tasks node)))).
    { unfold plan_dynamic_tasks. apply no_panic_bind; [apply no_panic_call|]. intros resp.
      case_match; [|done]. apply no_panic_bind; [apply no_panic_try|done]. }
    specialize (Hp w). by destruct (plan_dynamic_tasks _ _ _ _ w) as [[[]| |] w']. }
  intros [tasks usage]. unfold dispatch_dynamic. case_decide; [done|].
  destruct (synthetic_nodes_ok node 0 tasks Hu Hh) as (nodes & -> & Hnodes).
  intros w. unfold mbind at 1, io_bind at 1, lift_flow at 1.
  destruct (fanout_refused _ _ _); [done|]. destruct (h_handler _ _) as [handler|]; [|done].
  revert w. apply no_panic_finish_fanout, no_panic_run_workers.
  - intros n _. unfold prepare_dynamic. apply no_panic_bind; [apply no_panic_call|done].
  - intros n w fo rv w' Hin Hp. unfold prepare_dynamic in Hp. inv_io. simplify_eq. cbn [fo_run].
    rewrite Forall_forall in Hnodes. destruct (Hnodes n Hin). by eapply no_panic_worker_of.
Qed.

(** ** Rounds and runs *)

Lemma no_panic_step resume_skip start st :
  executed_recorded st -> no_panic (walk_step wh rc resume_skip start st).
Proof.
  intros Hrec. unfold walk_step.
  destruct (pg_nodes g !! ws_current st) as [node|] eqn:Hn; [|done].
  case_decide as Hp.
  { unfold skip_executed. destruct (Hrec _ Hp) as [o ->]. apply no_panic_bind; [done|].
    intros o'. by eapply no_panic_follow. }
  case_decide; [by eapply no_panic_follow|].
  apply no_panic_bind; [apply no_panic_lift|]. intros [[|reason|reason]|error]; [|by eapply no_panic_follow|done..].
  unfold walk_node. destruct (pn_handler node) eqn:Hh;
    first [by apply no_panic_parallel|by apply no_panic_dynamic|by apply no_panic_sequential; rewrite ?Hh].
Qed.

Lemma no_panic_loop fuel resume_skip start st :
  executed_recorded st -> no_panic (walk_loop wh fuel rc resume_skip start st).
Proof.
  revert st; induction fuel as [|fuel IH]; intros st Hrec w; [done|]. cbn.
  unfold mbind, io_bind. pose proof (no_panic_step resume_skip start st Hrec w) as Hs.
  destruct (walk_step wh rc resume_skip start st w) as [[[st'|res]|e|] w'] eqn:Hst; [|done..].
  apply IH. apply walk_step_ok in Hst; [|done].
  destruct Hst as [_ (st2 & o & jump & n & Hb & _ & ->)]. exact (body_recorded _ _ _ _ _ _ Hrec Hb).
Qed.
End no_panic.

(** C25.  No panic: on a validated graph with finite weights, deadlines that fit a
    [Duration] and non-empty model pools, for every host whose timeouts and joins behave as
    documented, no run of the walk panics, however long it is followed: every [unwrap],
    index and [unreachable!()] it meets is justified. *)
Theorem walk_never_panics `{HashIter} `{RustFmt} `{UnicodeTables} `{PlannerJson} {W : Type}
    (wh : WalkHost W) `{!JoinLaw wh} `{!TimeoutLaw (wh_host wh)} (rc : DagRunCtx) (start : string)
    (fuel : nat) (w : W) :
  graph_usable (rc_graph rc) -> (execute_graph wh fuel rc start w).1 <> Panic.
Proof.
  intros Hu. revert w. unfold execute_graph. apply no_panic_bind; [done|]. intros t.
  apply no_panic_bind; [apply no_panic_lift|]. intros skip. apply no_panic_loop; [done..|].
  intros id Hid. cbn in Hid. set_solver.
Qed.

(** An executable check for usable nodes. *)
Definition node_usable_b (g : PipelineGraph) (n : PipelineNode) : bool :=
  (0 <=? pn_max_retries n)%Z
  && match pn_deadline_secs n with
     | Some secs =>
         bool_decide (is_Some (from_secs_f64 secs))
         && match secs with S754_finite _ m _ => (Zpos m <? 2 ^ 53)%Z | _ => true end
     | None => true
     end
  && (negb (bool_decide (pn_handler n = DynamicParallel))
      || negb (bool_decide (worker_model_pool (default "" (match pn_model n with
                                                           | Some m => Some m
                                                           | None => pg_default_model g
                                                           end)) = []))).

Lemma node_usable_b_ok g n : node_usable_b g n = true -> node_usable g n.
Proof.
  intros [[Hr Hd]%andb_true_iff Hp]%andb_true_iff. split.
  - lia.
  - intros secs Hs. rewrite Hs in Hd. apply andb_true_iff in Hd as [Hd _]. by apply bool_decide_eq_true in Hd.
  - intros s m e Hs. rewrite Hs in Hd. apply andb_true_iff in Hd as [_ Hd]. lia.
  - intros Hh. rewrite bool_decide_eq_true_2 in Hp by done. apply negb_true_iff in Hp.
    by apply bool_decide_eq_false in Hp.
Qed.

Lemma graph_usable_check `{HashIter} `{RustFmt} g :
  validate_with_context g ValidationContext_default = Ok tt ->
  forallb (fun e => f64_is_finite (pe_weight e)) (pg_edges g) = true ->
  forallb (fun '(_, n) => node_usable_b g n) (map_to_list (pg_nodes g)) = true -> graph_usable g.
Proof.
  rewrite !forallb_forall. intros Hv He Hn. split.
  - by eexists.
  - intros e Hin%list_elem_of_In. by apply He.
  - intros id n Hin%elem_of_map_to_list%list_elem_of_In. apply node_usable_b_ok. by apply (Hn (id, n)).
Qed.

Lemma walk_never_panics_witness : (demo_walk 0 6 (run_ctx (graph_of fan_dot)) "start").1 <> Panic.
Proof.
  apply (@walk_never_panics tree_iter no_fmt ascii_tables mute_planner nat (demo_walk_host 0) _ _
    (run_ctx (graph_of fan_dot)) "start" 6 0).
  apply graph_usable_check; by vm_compute.
Defined.

(** The hypothesis on model pools is needed: a [dynamic_parallel] node with
    [model=","] passes validation, its pool of worker models is empty, and the walk panics
    on the remainder by zero when it makes the first worker, whatever the planner says. *)
Theorem empty_model_pool_panics :
  let g := graph_of ("digraph comma { start -> plan; plan [handler=dynamic_parallel, converge=merge, model="
                     +:+ quoted "," +:+ "]; plan -> merge }") in
  @validate tree_iter no_fmt g = Ok tt /\ (demo_walk 0 9 (run_ctx g) "start").1 = Panic /\
  forall `{UnicodeTables} node task i,
    pg_nodes g !! "plan" = Some node -> synthetic_node g node i task = Panic.
Proof.
  intros g. split_and!; [by vm_compute..|]. intros UT node task i Hn. unfold synthetic_node.
  assert (Hp : bool_decide (worker_model_pool <$> (pg_nodes g !! "plan" ≫= pn_model) = Some []) = true)
    by by vm_compute.
  apply bool_decide_eq_true in Hp. rewrite Hn in Hp. cbn in Hp.
  destruct (pn_model node) as [m|]; [|done]. cbn in Hp. injection Hp as Hp. cbn. by rewrite Hp.
Qed.
