(* ===== verification/Models.v ===== *)
(** * Model assignment

    Model of [crates/octos-pipeline/src/model_assignment.rs]: the model catalog, the
    strong and fast pools built from its healthy entries, the default models given to the
    nodes of a graph, and the model keys the validator accepts. *)

From S2P Require Import Prelude RustStr RustNum Fidelity Graph Condition Validate Dag.
From Stdlib Require Import SpecFloat.

(** [str::to_lowercase] reads Unicode tables (a final sigma depends on its context); on
    ASCII text it is [to_ascii_lowercase]. *)
Class StrLower := {
  str_lowercase : string -> string;
  str_lowercase_ascii s : is_ascii s = true -> str_lowercase s = to_ascii_lowercase s
}.

Definition ascii_lowercase : StrLower :=
  {| str_lowercase := to_ascii_lowercase; str_lowercase_ascii := fun _ _ => eq_refl |}.

(** ** The catalog *)

Record CatalogEntry := {
  ce_provider : string;
  ce_model_type : string;
  ce_stability : f64;
  ce_score : f64;
  ce_cost_out : f64
}.

Definition model_key (e : CatalogEntry) : string :=
  match split_once "/" (ce_provider e) with
  | Some (_, rest) => rest
  | None => ce_provider e
  end.

(** [read] is [read_to_string] in the data directory, [parse] is [serde_json] on a
    catalog; an unreadable, malformed or empty file is passed over. *)
Definition load_catalog (read : string -> option string) (parse : string -> option (list CatalogEntry))
  : option (list CatalogEntry) :=
  let load name :=
    content ← read name; models ← parse content;
    if decide (models = []) then None else Some models in
  match load "pipeline_models.json" with
  | Some models => Some models
  | None => load "model_catalog.json"
  end.

Definition entry_keys (e : CatalogEntry) : list string :=
  [ce_provider e; model_key e] ++
  match split_once "/" (ce_provider e) with Some (provider, _) => [provider] | None => [] end.

Definition known_model_keys_from_catalog (catalog : option (list CatalogEntry)) : gset string :=
  match catalog with
  | None => ∅
  | Some models => list_to_set (e ← models; entry_keys e)
  end.

(** ** The pools *)

Record ModelPools := {
  mp_strong : list string;
  mp_fast : list string;
  mp_strong_start : nat;
  mp_fast_start : nat
}.

Definition nth_pool (pool : list string) (start offset : nat) : option string :=
  pool !! ((start + offset) mod length pool).
Definition nth_strong (p : ModelPools) (offset : nat) : option string :=
  nth_pool (mp_strong p) (mp_strong_start p) offset.
Definition nth_fast (p : ModelPools) (offset : nat) : option string :=
  nth_pool (mp_fast p) (mp_fast_start p) offset.

(** [partial_cmp(..).unwrap_or(Equal)]. *)
Definition f64_cmp (x y : f64) : comparison :=
  match SFcompare x y with Some c => c | None => Eq end.

(** Lower score first, then lower price. *)
Definition entry_order (a b : CatalogEntry) : comparison :=
  match f64_cmp (ce_score a) (ce_score b) with
  | Eq => f64_cmp (ce_cost_out a) (ce_cost_out b)
  | c => c
  end.

Definition entry_le (a b : CatalogEntry) : bool :=
  match entry_order a b with Gt => false | _ => true end.

Definition half : f64 := S754_finite false 4503599627370496 (-53).

(** The keys of the healthy entries of one type, best first. *)
Definition lane_keys (catalog : list CatalogEntry) (type : string) : list string :=
  model_key <$> sort_by entry_le (filter (fun e => ce_model_type e = type)
    (filter (fun e => f64_lt half (ce_stability e) = true) catalog)).

(** [seed] is [pid * 7 ^ nanos] in 64 bits. *)
Definition build_pools (catalog : list CatalogEntry) (pid nanos : Z) : option ModelPools :=
  let strong := lane_keys catalog "strong" in
  let fast := lane_keys catalog "fast" in
  if decide (strong = [] /\ fast = []) then None
  else
    let strong := if decide (strong = []) then fast else strong in
    let fast := if decide (fast = []) then strong else fast in
    let seed := Z.lxor ((pid * 7) mod 2 ^ 64) nanos in
    Some {| mp_strong := strong; mp_fast := fast;
            mp_strong_start := Z.to_nat (seed mod Z.of_nat (length strong));
            mp_fast_start := Z.to_nat (((seed * 13) mod 2 ^ 64) mod Z.of_nat (length fast)) |}.

(** ** The assignment *)

Definition FAST_HEURISTIC_SUBSTRINGS : list string :=
  ["search"; "retrieve"; "gather"; "collect"; "crawl"; "fetch"; "survey"; "investigate"; "scan";
   "lookup"; "browse"].

Definition set_planner_model (n : PipelineNode) (m : option string) : PipelineNode := {|
  pn_id := pn_id n; pn_handler := pn_handler n; pn_prompt := pn_prompt n; pn_label := pn_label n;
  pn_model := pn_model n; pn_context_window := pn_context_window n;
  pn_max_output_tokens := pn_max_output_tokens n;
  pn_reasoning_effort := pn_reasoning_effort n; pn_max_iterations := pn_max_iterations n;
  pn_tools := pn_tools n; pn_goal_gate := pn_goal_gate n; pn_max_retries := pn_max_retries n;
  pn_timeout_secs := pn_timeout_secs n; pn_suggested_next := pn_suggested_next n;
  pn_converge := pn_converge n; pn_worker_prompt := pn_worker_prompt n;
  pn_planner_model := m; pn_max_tasks := pn_max_tasks n;
  pn_human_gate := pn_human_gate n; pn_resolver := pn_resolver n;
  pn_artifact_refs := pn_artifact_refs n; pn_checkpoint_refs := pn_checkpoint_refs n;
  pn_deadline_secs := pn_deadline_secs n; pn_deadline_action := pn_deadline_action n;
  pn_continue_on_error := pn_continue_on_error n; pn_checkpoints := pn_checkpoints n |}.

(** The running offsets into the strong and the fast pool. *)
Definition offsets : Type := nat * nat.

(** The planner model of a [dynamic_parallel] node that has none. *)
Definition assign_planner (p : ModelPools) (off : offsets) (n : PipelineNode) : PipelineNode * offsets :=
  if decide (pn_planner_model n = None) then
    match nth_strong p off.1 with
    | Some m => (set_planner_model n (Some m), (S off.1, off.2))
    | None => (n, off)
    end
  else (n, off).

Section assign.
Context `{StrLower}.

Definition is_retrieval (id : string) : bool :=
  existsb (contains (str_lowercase id)) FAST_HEURISTIC_SUBSTRINGS.

(** One round of the loop over the sorted node ids. *)
Definition assign_node (p : ModelPools) (off : offsets) (id : string) (n : PipelineNode)
  : PipelineNode * offsets :=
  if decide (pn_handler n = Shell \/ pn_handler n = Gate \/ pn_handler n = Noop) then (n, off)
  else if decide (is_Some (pn_model n)) then
    if decide (pn_handler n = DynamicParallel) then assign_planner p off n else (n, off)
  else if decide (pn_handler n = DynamicParallel) then
    assign_planner p off
      (if decide (mp_fast p = []) then n else set_model n (Some (String.concat "," (mp_fast p))))
  else if is_retrieval id then
    match nth_fast p off.2 with
    | Some m => (set_model n (Some m), (off.1, S off.2))
    | None => (n, off)
    end
  else
    match nth_strong p off.1 with
    | Some m => (set_model n (Some m), (S off.1, off.2))
    | None => (n, off)
    end.

Fixpoint assign_loop (p : ModelPools) (ids : list string) (off : offsets)
    (nodes : gmap string PipelineNode) : gmap string PipelineNode :=
  match ids with
  | [] => nodes
  | id :: ids =>
      match nodes !! id with
      | None => assign_loop p ids off nodes
      | Some n =>
          let (n', off) := assign_node p off id n in
          assign_loop p ids off (<[id := n']> nodes)
      end
  end.

Definition set_nodes (g : PipelineGraph) (nodes : gmap string PipelineNode) : PipelineGraph :=
  {| pg_id := pg_id g; pg_label := pg_label g; pg_default_model := pg_default_model g;
     pg_max_total_tokens := pg_max_total_tokens g;
     pg_default_timeout_secs := pg_default_timeout_secs g;
     pg_result_fidelity := pg_result_fidelity g; pg_nodes := nodes; pg_edges := pg_edges g;
     pg_subgraphs := pg_subgraphs g |}.

Definition assign_to_graph `{HashIter} (p : ModelPools) (g : PipelineGraph) : PipelineGraph :=
  set_nodes g (assign_loop p (sort_strings (hm_keys (pg_nodes g))) (0, 0) (pg_nodes g)).

Definition assign_from_catalog `{HashIter} (catalog : option (list CatalogEntry)) (pid nanos : Z)
    (g : PipelineGraph) : PipelineGraph :=
  match catalog with
  | None => g
  | Some models => match build_pools models pid nanos with
                   | None => g
                   | Some p => assign_to_graph p g
                   end
  end.
End assign.

(** ** What the assignment promises *)

Definition healthy_key (catalog : list CatalogEntry) (k : string) : Prop :=
  exists e, e ∈ catalog /\ f64_lt half (ce_stability e) = true /\ model_key e = k.

Lemma lane_keys_healthy catalog type k : k ∈ lane_keys catalog type -> healthy_key catalog k.
Proof.
  unfold lane_keys. intros (e & -> & He)%list_elem_of_fmap.
  rewrite elem_of_sort_by, !list_elem_of_filter in He. exists e. naive_solver.
Qed.

(** The pools are never empty and hold healthy models only. *)
Record pools_ok (catalog : list CatalogEntry) (p : ModelPools) : Prop := {
  po_strong : mp_strong p <> [];
  po_fast : mp_fast p <> [];
  po_healthy : forall k, k ∈ mp_strong p \/ k ∈ mp_fast p -> healthy_key catalog k
}.

Lemma build_pools_ok catalog pid nanos p : build_pools catalog pid nanos = Some p -> pools_ok catalog p.
Proof.
  unfold build_pools. case_decide as Hne; [done|]. intros [= <-].
  assert (Hs : forall t k, k ∈ lane_keys catalog t -> healthy_key catalog k) by eauto using lane_keys_healthy.
  split; cbn; repeat case_decide; try naive_solver.
Qed.

Lemma nth_pool_Some pool start off : pool <> [] -> exists k, nth_pool pool start off = Some k /\ k ∈ pool.
Proof.
  intros Hne. unfold nth_pool.
  destruct (lookup_lt_is_Some_2 pool ((start + off) mod length pool)) as [k Hk].
  - apply Nat.mod_upper_bound. by intros ?%nil_length_inv.
  - exists k. split; [done|]. by eapply list_elem_of_lookup_2.
Qed.

(** What became of node [n]. *)
Record assigned (p : ModelPools) (n n' : PipelineNode) : Prop := {
  as_rest : set_planner_model (set_model n' (pn_model n)) (pn_planner_model n) = n;
  as_model : is_Some (pn_model n) -> pn_model n' = pn_model n;
  as_planner : is_Some (pn_planner_model n) -> pn_planner_model n' = pn_planner_model n;
  as_untouched : pn_handler n = Shell \/ pn_handler n = Gate \/ pn_handler n = Noop -> n' = n;
  as_dynamic : pn_handler n = DynamicParallel ->
    is_Some (pn_planner_model n') /\
    (pn_model n = None -> pn_model n' = Some (String.concat "," (mp_fast p)));
  as_single : pn_model n = None -> pn_handler n <> Shell -> pn_handler n <> Gate -> pn_handler n <> Noop ->
    pn_handler n <> DynamicParallel ->
    exists k, pn_model n' = Some k /\ (k ∈ mp_strong p \/ k ∈ mp_fast p)
}.

Lemma assign_planner_spec catalog p off n :
  pools_ok catalog p ->
  exists m off', assign_planner p off n = (set_planner_model n (Some m), off') /\
    (is_Some (pn_planner_model n) -> pn_planner_model n = Some m).
Proof.
  intros [Hs _ _]. unfold assign_planner. case_decide as Hp.
  - destruct (nth_pool_Some (mp_strong p) (mp_strong_start p) off.1 Hs) as (k & Hk & _).
    unfold nth_strong. rewrite Hk. eexists _, _. split; [done|]. rewrite Hp. by intros [? ?].
  - destruct (pn_planner_model n) as [m|] eqn:Hm; [|done]. exists m, off. split; [|done].
    f_equal. destruct n; cbn in *. by subst.
Qed.

Ltac solve_assigned n :=
  split; cbn; first [by destruct n; cbn in *; simplify_eq|intuition congruence|naive_solver].

Lemma assign_node_spec `{StrLower} catalog p off id n :
  pools_ok catalog p -> assigned p n (assign_node p off id n).1.
Proof.
  intros Hp. pose proof Hp as [Hs Hf _]. unfold assign_node.
  destruct (decide (_ \/ _)) as [Hn|Hn].
  { solve_assigned n. }
  destruct (decide (is_Some (pn_model n))) as [[m Hm]|Hm].
  - destruct (decide (pn_handler n = DynamicParallel)) as [Hd|Hd].
    + destruct (assign_planner_spec catalog p off n Hp) as (k & off' & -> & Hk).
      solve_assigned n.
    + solve_assigned n.
  - destruct (decide (pn_handler n = DynamicParallel)) as [Hd|Hd].
    + rewrite decide_False by done.
      destruct (assign_planner_spec catalog p off (set_model n (Some (String.concat "," (mp_fast p)))) Hp)
        as (k & off' & -> & Hk).
      solve_assigned n.
    + destruct (is_retrieval id).
      * destruct (nth_pool_Some (mp_fast p) (mp_fast_start p) off.2 Hf) as (k & Hk & Hin).
        unfold nth_fast. rewrite Hk. solve_assigned n.
      * destruct (nth_pool_Some (mp_strong p) (mp_strong_start p) off.1 Hs) as (k & Hk & Hin).
        unfold nth_strong. rewrite Hk. solve_assigned n.
Qed.

Lemma assign_loop_spec `{StrLower} catalog p ids off nodes :
  pools_ok catalog p -> NoDup ids ->
  (forall id, id ∉ ids -> assign_loop p ids off nodes !! id = nodes !! id) /\
  (forall id n, id ∈ ids -> nodes !! id = Some n ->
     exists n', assign_loop p ids off nodes !! id = Some n' /\ assigned p n n').
Proof.
  intros Hp. revert off nodes; induction ids as [|i ids IH]; intros off nodes Hnd; cbn.
  { split; [done|]. by intros id n ?%not_elem_of_nil. }
  apply NoDup_cons in Hnd as [Hi Hnd]. destruct (nodes !! i) as [ni|] eqn:Hni.
  - pose proof (assign_node_spec catalog p off i ni Hp) as Ha.
    destruct (assign_node p off i ni) as [n' off'] eqn:Hass. cbn in Ha.
    destruct (IH off' (<[i := n']> nodes) Hnd) as [Hout Hin]. split.
    + intros id [Hne Hid]%not_elem_of_cons. by rewrite Hout, lookup_insert_ne.
    + intros id n [->|Hid]%elem_of_cons Hn.
      * exists n'. rewrite Hout, lookup_insert, decide_True by done. simplify_eq. done.
      * apply Hin; [done|]. rewrite lookup_insert_ne; [done|]. by intros ->.
  - destruct (IH off nodes Hnd) as [Hout Hin]. split.
    + intros id [Hne Hid]%not_elem_of_cons. by apply Hout.
    + intros id n [->|Hid]%elem_of_cons Hn; [congruence|]. by apply Hin.
Qed.

Lemma healthy_key_known catalog k :
  healthy_key catalog k -> k ∈ known_model_keys_from_catalog (Some catalog).
Proof.
  intros (e & He & _ & <-). cbn. apply elem_of_list_to_set, list_elem_of_bind. exists e. split; [|done].
  unfold entry_keys. right. left.
Qed.

(** Model assignment only fills gaps, and fills them all with usable models: when the
    catalog yields pools, every node keeps its id and all its attributes but the two models;
    a model or planner model that was given is never changed; [Shell], [Gate] and [Noop] nodes
    are untouched; every other node ends up with a model, a [dynamic_parallel] node with the
    whole fast pool and a planner model.  Every key of the pools is that of a catalog entry
    with stability above one half, and is a key the validator knows. *)
Theorem assign_models_spec `{HashIter} `{StrLower} (catalog : list CatalogEntry) (pid nanos : Z)
    (p : ModelPools) (g : PipelineGraph) :
  build_pools catalog pid nanos = Some p ->
  let g' := assign_from_catalog (Some catalog) pid nanos g in
  set_nodes g' (pg_nodes g) = g /\ dom (pg_nodes g') = dom (pg_nodes g) /\
  (forall id n, pg_nodes g !! id = Some n -> exists n', pg_nodes g' !! id = Some n' /\ assigned p n n') /\
  (forall k, k ∈ mp_strong p \/ k ∈ mp_fast p ->
     healthy_key catalog k /\ k ∈ known_model_keys_from_catalog (Some catalog)).
Proof.
  intros Hb g'. pose proof (build_pools_ok _ _ _ _ Hb) as Hp. subst g'. cbn. rewrite Hb.
  unfold assign_to_graph. set (ids := sort_strings _).
  assert (Hperm : ids ≡ₚ hm_keys (pg_nodes g)) by (apply merge_sort_Permutation).
  destruct (assign_loop_spec catalog p ids (0, 0) (pg_nodes g) Hp) as [Hout Hin].
  { rewrite Hperm. apply NoDup_hm_keys. }
  assert (Hall : forall id n, pg_nodes g !! id = Some n ->
    exists n', assign_loop p ids (0, 0) (pg_nodes g) !! id = Some n' /\ assigned p n n').
  { intros id n Hn. apply Hin; [|done]. rewrite Hperm. apply elem_of_hm_keys. by eexists. }
  split_and!; [by destruct g| |done|].
  - apply set_eq. intros id. rewrite !elem_of_dom. cbn. split; [|intros [n Hn]; destruct (Hall _ _ Hn) as (n' & ? & _); by eexists].
    destruct (decide (id ∈ ids)) as [Hid|Hid]; [|by rewrite Hout].
    intros _. rewrite Hperm in Hid. by apply elem_of_hm_keys in Hid.
  - intros k Hk. pose proof (po_healthy _ _ Hp k Hk). split; [done|]. by apply healthy_key_known.
Qed.

(** A catalog with one strong, one fast and one unhealthy entry. *)
Definition demo_catalog : list CatalogEntry :=
  [{| ce_provider := "a/big"; ce_model_type := "strong"; ce_stability := f64_one;
      ce_score := f64_one; ce_cost_out := f64_one |};
   {| ce_provider := "b/small"; ce_model_type := "fast"; ce_stability := f64_one;
      ce_score := f64_zero; ce_cost_out := f64_zero |};
   {| ce_provider := "c/broken"; ce_model_type := "fast"; ce_stability := f64_zero;
      ce_score := f64_zero; ce_cost_out := f64_zero |}].
Definition demo_pools : ModelPools :=
  {| mp_strong := ["big"]; mp_fast := ["small"]; mp_strong_start := 0; mp_fast_start := 0 |}.

Lemma assign_models_spec_witness :
  let g' := @assign_from_catalog ascii_lowercase tree_iter (Some demo_catalog) 7 9 demo_graph in
  dom (pg_nodes g') = dom (pg_nodes demo_graph).
Proof.
  intros g'.
  apply (@assign_models_spec tree_iter ascii_lowercase demo_catalog 7 9 demo_pools demo_graph). by vm_compute.
Defined.
