(* ===== verification/Run.v ===== *)
(** * A pipeline run

    Model of the entry points of [PipelineExecutor] in
    [crates/octos-pipeline/src/executor.rs]: from DOT text, a graph or a typed program,
    through model assignment and the validation gate, the cost reservation, the choice
    between the scheduler and the walk, the terminal validators and the settlement of the
    reservation. *)

From S2P Require Import Prelude RustStr RustNum Fidelity Graph Condition Parser ToolPolicy Validate.
From S2P Require Import Ir Profile Compose Host Dispatch Dag DagSafety Guard Checkpoint Fanout Walk.
From S2P Require Import WalkSafety Models.
From Stdlib Require Import SpecFloat.

(** ** Cost reservations *)

Definition f64_add (x y : f64) : f64 := SFadd f64_prec f64_emax x y.

(** [0.001] and [0.01], the nearest doubles. *)
Definition MIN_PER_NODE_PROJECTED_USD : f64 := f64_of_ratio false 1 1000.
Definition DEFAULT_PIPELINE_PROJECTED_USD : f64 := f64_of_ratio false 1 100.
Definition DEFAULT_PIPELINE_CONTRACT_ID : string := "pipeline".

Definition handler_kind_reserves (k : HandlerKind) : bool :=
  match k with Codergen | DynamicParallel => true | _ => false end.

(** [project] is [cost_ledger::project_cost_usd]. *)
Definition project_node_usd (project : string -> Z -> Z -> option f64) (model : option string) : f64 :=
  match model with
  | None => MIN_PER_NODE_PROJECTED_USD
  | Some m =>
      match project m 2000%Z 2000%Z with
      | Some cost => if f64_lt f64_zero cost then cost else MIN_PER_NODE_PROJECTED_USD
      | None => MIN_PER_NODE_PROJECTED_USD
      end
  end.

Record CostAttributionEvent := {
  ca_session_id : string;
  ca_contract_id : string;
  ca_task_id : string;
  ca_model : string;
  ca_tokens_in : Z;
  ca_tokens_out : Z;
  ca_cost_usd : f64
}.

(** [CostAccountant]: a reservation handle is the amount it holds; dropping a handle that
    was not committed refunds it. *)
Record CostAccountant (W : Type) := {
  ac_reserve : string -> f64 -> W -> result string f64 * W;
  ac_commit : f64 -> CostAttributionEvent -> W -> result string unit * W;
  ac_drop : f64 -> W -> W
}.
Arguments ac_reserve {W} _ _ _ _.
Arguments ac_commit {W} _ _ _ _.
Arguments ac_drop {W} _ _ _.

(** ** Configuration *)

(** [ValidationPolicy]: the legacy [on_completion] actions and whether typed validators
    are declared. *)
Record CompletionPolicy := { cp_on_completion : list string; cp_has_validators : bool }.

Record RunConfig (W : Type) := {
  (** Handlers, supervisor, clock and the rest of the host; its reservation operations
      are replaced by those of the accountant. *)
  rn_host : WalkHost W;
  rn_accountant : option (CostAccountant W);
  rn_contract_id : string;
  rn_projected_usd : f64;
  rn_policy : option CompletionPolicy;
  (** [run_declared_validators] on the declared completion validators. *)
  rn_run_validators : W -> result string unit * W;
  rn_working_dir : string;
  (** Whether [glob] yields an existing path for a pattern. *)
  rn_glob : W -> string -> bool;
  rn_dag_override : option bool;
  (** The environment variable [OCTOS_PIPELINE_DAG]. *)
  rn_dag_env : option string;
  rn_catalog : option (list CatalogEntry);
  rn_pid : Z;
  rn_nanos : Z;
  rn_builtin_tools : list string;
  rn_loaded_tools : list string;
  rn_plugin_dirs : list string
}.
Arguments rn_host {W} _.
Arguments rn_accountant {W} _.
Arguments rn_contract_id {W} _.
Arguments rn_projected_usd {W} _.
Arguments rn_policy {W} _.
Arguments rn_run_validators {W} _ _.
Arguments rn_working_dir {W} _.
Arguments rn_glob {W} _ _ _.
Arguments rn_dag_override {W} _.
Arguments rn_dag_env {W} _.
Arguments rn_catalog {W} _.
Arguments rn_pid {W} _.
Arguments rn_nanos {W} _.
Arguments rn_builtin_tools {W} _.
Arguments rn_loaded_tools {W} _.
Arguments rn_plugin_dirs {W} _.

Section run.
Context `{HashIter} `{RustFmt} `{UnicodeTables} `{PlannerJson} `{StrLower} {W : Type} (cfg : RunConfig W).

Definition pipeline_contract_id (graph_id : string) : string :=
  let explicit := trim (rn_contract_id cfg) in
  if decide (explicit <> "") then explicit
  else if decide (graph_id <> "") then graph_id
  else DEFAULT_PIPELINE_CONTRACT_ID.

Definition pipeline_projected_usd : f64 :=
  if f64_lt f64_zero (rn_projected_usd cfg) then rn_projected_usd cfg
  else DEFAULT_PIPELINE_PROJECTED_USD.

Definition reserve_node_budget (graph_id : string) (node : PipelineNode) (w : W)
  : result report (option f64) * W :=
  match rn_accountant cfg with
  | None => (Ok None, w)
  | Some ac =>
      if negb (handler_kind_reserves (pn_handler node)) then (Ok None, w)
      else
        match ac_reserve ac (pipeline_contract_id graph_id)
                (project_node_usd (h_project_cost (wh_host (rn_host cfg))) (pn_model node)) w with
        | (Ok handle, w) => (Ok (Some handle), w)
        | (Err breach, w) =>
            (bail ("cost budget breach reserving node '" +:+ pn_id node +:+ "': " +:+ breach), w)
        end
  end.

Definition drop_handle (r : option f64) (w : W) : W :=
  match rn_accountant cfg, r with Some ac, Some handle => ac_drop ac handle w | _, _ => w end.

(** The host with the reservations of the accountant. *)
Definition run_host : Host W :=
  let h := wh_host (rn_host cfg) in {|
  h_handler := h_handler h; h_timeout := h_timeout h; h_sleep := h_sleep h; h_clock := h_clock h;
  h_escalate := h_escalate h; h_register := h_register h; h_mark_running := h_mark_running h;
  h_mark_completed := h_mark_completed h; h_mark_failed := h_mark_failed h;
  h_reserve := reserve_node_budget; h_release := drop_handle;
  h_validate := h_validate h; h_project_cost := h_project_cost h; h_shutdown := h_shutdown h;
  h_json_input := h_json_input h |}.

Definition run_walk_host : WalkHost W :=
  let wh := rn_host cfg in {|
  wh_host := run_host; wh_guards := wh_guards wh; wh_store := wh_store wh;
  wh_persisted_total := wh_persisted_total wh; wh_count_persisted := wh_count_persisted wh;
  wh_epoch_ms := wh_epoch_ms wh; wh_default_provider := wh_default_provider wh;
  wh_router := wh_router wh; wh_join_all := wh_join_all wh;
  wh_resolve_files := wh_resolve_files wh; wh_max_fanout := wh_max_fanout wh |}.

Definition reserve_pipeline_budget (graph_id : string) (w : W) : result report (option f64) * W :=
  match rn_accountant cfg with
  | None => (Ok None, w)
  | Some ac =>
      match ac_reserve ac (pipeline_contract_id graph_id) pipeline_projected_usd w with
      | (Ok handle, w) => (Ok (Some handle), w)
      | (Err breach, w) => (bail ("cost budget breach: " +:+ breach), w)
      end
  end.

(** [commit_pipeline_reservation]: the real cost is the sum of the positive finite costs of
    the nodes, else the projection of the total tokens. *)
Definition commit_event (graph_id : string) (r : PipelineResult) : CostAttributionEvent :=
  let usage := pr_token_usage r in
  let node_cost_total := foldl f64_add (S754_zero true)
    (filter (fun c => f64_is_finite c && f64_lt f64_zero c = true) (nc_actual_usd <$> pr_node_costs r)) in
  {| ca_session_id := pipeline_contract_id graph_id; ca_contract_id := pipeline_contract_id graph_id;
     ca_task_id := "pipeline-" +:+ graph_id; ca_model := "pipeline-aggregate";
     ca_tokens_in := input_tokens usage; ca_tokens_out := output_tokens usage;
     ca_cost_usd :=
       if f64_lt f64_zero node_cost_total then node_cost_total
       else default f64_zero (h_project_cost (wh_host (rn_host cfg)) "pipeline-aggregate"
              (input_tokens usage) (output_tokens usage)) |}.

(** A failed commit leaves the handle uncommitted, so it is refunded when it is dropped. *)
Definition settle (graph_id : string) (reservation : option f64) (r : PipelineResult) (w : W) : W :=
  match rn_accountant cfg, reservation with
  | Some ac, Some handle =>
      if pr_success r then
        match ac_commit ac handle (commit_event graph_id r) w with
        | (Ok _, w) => w
        | (Err _, w) => ac_drop ac handle w
        end
      else ac_drop ac handle w
  | _, _ => w
  end.

(** ** Terminal validators *)

(** A [file_exists:] action whose pattern matches nothing; other forms are accepted. *)
Definition action_fails (w : W) (action : string) : bool :=
  match strip_prefix "file_exists:" action with
  | Some spec => negb (rn_glob cfg w (path_join (rn_working_dir cfg) spec))
  | None => false
  end.

Definition failed_actions (actions : list string) (w : W) : list string :=
  filter (fun action => action_fails w action = true) actions.

Definition evaluate_on_completion_actions (actions : list string) (w : W) : option string :=
  let failures := failed_actions actions w in
  if decide (failures = []) then None
  else Some ("pipeline completion validator failed: " +:+ String.concat ", " failures).

Definition run_terminal_validators (w : W) : result string unit * W :=
  match rn_policy cfg with
  | None => (Ok tt, w)
  | Some policy =>
      match evaluate_on_completion_actions (cp_on_completion policy) w with
      | Some reason => (Err reason, w)
      | None => if cp_has_validators policy then rn_run_validators cfg w else (Ok tt, w)
      end
  end.

Definition demote (reason : string) (r : PipelineResult) : PipelineResult :=
  {| pr_output := "Pipeline validator rejected completion: " +:+ reason +:+ nl (nl (pr_output r));
     pr_success := false; pr_token_usage := pr_token_usage r;
     pr_node_summaries := pr_node_summaries r; pr_files_modified := pr_files_modified r;
     pr_node_costs := pr_node_costs r |}.

Definition gate_result (r : PipelineResult) : io W PipelineResult :=
  if pr_success r then
    verdict ← lift_pure run_terminal_validators;
    mret (match verdict with Ok _ => r | Err reason => demote reason r end)
  else mret r.

(** ** The run *)

Definition GraphLocation_debug (l : GraphLocation) : string :=
  match l with
  | GraphLoc => "Graph"
  | NodeLoc id => "Node(" +:+ str_debug id +:+ ")"
  | EdgeLoc s t => "Edge { source: " +:+ str_debug s +:+ ", target: " +:+ str_debug t +:+ " }"
  end.

Definition validation_message (diags : list LintDiagnostic) : string :=
  "pipeline validation failed:" +:+ nl (String.concat (nl "")
    ((fun d => RuleId_code (ld_rule_id d) +:+ " (rule " +:+ pretty (ld_rule d) +:+ ", "
               +:+ GraphLocation_debug (ld_location d) +:+ "): " +:+ ld_message d)
     <$> filter (fun d => ld_severity d = Error_sev) diags)).

Definition validation_context (g : PipelineGraph) (variables : list (string * option string))
  : ValidationContext :=
  with_known_tools
    (with_known_models (with_runtime_variables ValidationContext_default variables.*1)
       (elements (known_model_keys_from_catalog (rn_catalog cfg))))
    (known_tool_names_with_plugins (rn_builtin_tools cfg) (rn_loaded_tools cfg) (rn_plugin_dirs cfg)
       (referenced_tool_entries g)).

Definition dag_scheduler_enabled : bool :=
  bool_decide (rn_dag_env cfg = Some "1") || bool_decide (rn_dag_env cfg = Some "true")
  || bool_decide (rn_dag_env cfg = Some "TRUE").

Definition use_dag (g : PipelineGraph) : bool :=
  default dag_scheduler_enabled (rn_dag_override cfg) && graph_is_dag_schedulable g
  && bool_decide (wh_store (rn_host cfg) = None).

(** The graph that is run: default models filled in. *)
Definition run_graph_of (g : PipelineGraph) : PipelineGraph :=
  assign_from_catalog (rn_catalog cfg) (rn_pid cfg) (rn_nanos cfg) g.

(** [fuel] bounds the walk; the scheduler needs none. *)
Definition execute (fuel : nat) (rc : DagRunCtx) (start : string) : io W (option PipelineResult) :=
  if use_dag (rc_graph rc) then execute_graph_dag run_host rc
  else execute_graph run_walk_host fuel rc start.

(** The run of a graph that passed the gate: reserve, execute, validate, settle. *)
Definition run_admitted (fuel : nat) (rc : DagRunCtx) (start : string) : io W (option PipelineResult) :=
  let id := pg_id (rc_graph rc) in
  reservation ← call (fun w => let (r, w) := reserve_pipeline_budget id w in
                               (wrap_err "pipeline cost reservation failed" r, w));
  result ← dropping (drop_handle reservation) (execute fuel rc start);
  match result with
  | None => mret None
  | Some r =>
      r ← gate_result r;
      _ ← effect (settle id reservation r);
      mret (Some r)
  end.

Definition run_graph (fuel : nat) (g : PipelineGraph) (user_input : string)
    (variables : list (string * option string)) : io W (option PipelineResult) :=
  let g := run_graph_of g in
  let diags := diagnostics_with_context g (validation_context g variables) in
  if has_errors diags then throw (validation_message diags)
  else
    match find_start_node g with
    | None => throw "no start node found in pipeline"
    | Some start =>
        run_admitted fuel {| rc_graph := g; rc_user_input := user_input; rc_variables := variables |}
          start
    end.

(** [run]: from DOT text. *)
Definition run (fuel : nat) (dot : string) (user_input : string)
    (variables : list (string * option string)) : io W (option PipelineResult) :=
  g ← try (wrap_err "failed to parse pipeline DOT" (parse_dot dot));
  run_graph fuel g user_input variables.

(** [run_ir]: from a typed program. *)
Definition run_ir (fuel : nat) (from_str : string -> result string PipelineIr) (ir_json : string)
    (p : ValidationProfile) (user_input : string) (variables : list (string * option string))
  : io W (option PipelineResult) :=
  match compose from_str ir_json p variables.*1 with
  | Err e => throw ("IR compose failed: " +:+ ComposeError_fmt e)
  | Ok g => run_graph fuel g user_input variables
  end.
End run.

(** ** What is reserved *)

Lemma default_usd_positive : f64_lt f64_zero DEFAULT_PIPELINE_PROJECTED_USD = true.
Proof. by vm_compute. Qed.
Lemma min_usd_positive : f64_lt f64_zero MIN_PER_NODE_PROJECTED_USD = true.
Proof. by vm_compute. Qed.

Lemma contract_id_nonempty {W} (cfg : RunConfig W) `{UnicodeTables} graph_id :
  pipeline_contract_id cfg graph_id <> "".
Proof. unfold pipeline_contract_id. by repeat case_decide. Qed.

(** What a run reserves is meaningful whatever the configuration holds: the contract is
    never the empty string, and every projected amount, of the run and of each node, is a
    number greater than zero, even when the declared projection or the cost model yields
    zero, a negative number, NaN or nothing. *)
Theorem reservations_positive {W : Type} `{UnicodeTables} (cfg : RunConfig W)
    (project : string -> Z -> Z -> option f64) (graph_id : string) (model : option string) :
  pipeline_contract_id cfg graph_id <> "" /\
  f64_lt f64_zero (pipeline_projected_usd cfg) = true /\
  f64_lt f64_zero (project_node_usd project model) = true.
Proof.
  split_and!; [exact (contract_id_nonempty cfg graph_id)| |].
  - unfold pipeline_projected_usd. destruct (f64_lt f64_zero (rn_projected_usd cfg)) eqn:Hd; [done|apply default_usd_positive].
  - unfold project_node_usd. repeat case_match; auto using min_usd_positive.
Qed.

(** ** The gate *)

Section run_lemmas.
Context `{HashIter} `{RustFmt} `{UnicodeTables} `{PlannerJson} `{StrLower} {W : Type} (cfg : RunConfig W).

Lemma validated_has_start g ctx :
  has_errors (diagnostics_with_context g ctx) = false -> is_Some (find_start_node g).
Proof.
  unfold diagnostics_with_context. intros [[s Hs]%rule_01_ok _]%has_errors_app.
  apply find_start_node_spec in Hs. eauto.
Qed.

(** The graph, its diagnostics and the run context behind a run. *)
Definition gate_diags (g : PipelineGraph) (variables : list (string * option string))
  : list LintDiagnostic :=
  diagnostics_with_context (run_graph_of cfg g) (validation_context cfg (run_graph_of cfg g) variables).

Definition rc_of (g : PipelineGraph) (user_input : string) (variables : list (string * option string))
  : DagRunCtx :=
  {| rc_graph := run_graph_of cfg g; rc_user_input := user_input; rc_variables := variables |}.

Lemma run_graph_rejected fuel g user_input variables w :
  has_errors (gate_diags g variables) = true ->
  run_graph cfg fuel g user_input variables w = (Bail [validation_message (gate_diags g variables)], w).
Proof. intros Hd. unfold run_graph. unfold gate_diags in *. by rewrite Hd. Qed.

Lemma run_graph_admitted fuel g user_input variables :
  has_errors (gate_diags g variables) = false ->
  exists start, find_start_node (run_graph_of cfg g) = Some start /\
    forall w, run_graph cfg fuel g user_input variables w
              = run_admitted cfg fuel (rc_of g user_input variables) start w.
Proof.
  intros Hd. destruct (validated_has_start _ _ Hd) as [start Hs]. exists start. split; [done|].
  intros w. unfold run_graph, gate_diags in *. by rewrite Hd, Hs.
Qed.

Lemma terminal_validators_ok w w' :
  run_terminal_validators cfg w = (Ok tt, w') ->
  forall policy action spec, rn_policy cfg = Some policy -> action ∈ cp_on_completion policy ->
    strip_prefix "file_exists:" action = Some spec ->
    rn_glob cfg w (path_join (rn_working_dir cfg) spec) = true.
Proof.
  unfold run_terminal_validators, evaluate_on_completion_actions. intros Hv policy action spec Hp Hin Hs.
  rewrite Hp in Hv. destruct (decide _) as [Hnone|]; [|done].
  destruct (rn_glob _ _ _) eqn:Hg; [done|]. exfalso.
  assert (Hf : action ∈ failed_actions cfg (cp_on_completion policy) w).
  { apply list_elem_of_filter. split; [|done]. unfold action_fails. by rewrite Hs, Hg. }
  rewrite Hnone in Hf. by apply not_elem_of_nil in Hf.
Qed.

Lemma dropping_Val {A} (c : W -> W) (m : io W A) w a w' :
  dropping c m w = (Val a, w') <-> m w = (Val a, w').
Proof. unfold dropping. by destruct (m w) as [[] ?]. Qed.

(** The stages of a run that returns a result. *)
Lemma run_admitted_value fuel rc start w r w' :
  run_admitted cfg fuel rc start w = (Val (Some r), w') ->
  exists reservation w1 r0 w2 w3,
    reserve_pipeline_budget cfg (pg_id (rc_graph rc)) w = (Ok reservation, w1) /\
    execute cfg fuel rc start w1 = (Val (Some r0), w2) /\
    gate_result cfg r0 w2 = (Val r, w3) /\
    w' = settle cfg (pg_id (rc_graph rc)) reservation r w3.
Proof.
  intros Hr. unfold run_admitted in Hr. apply io_bind_Val in Hr as (res & w1 & Hres & Hr).
  unfold call in Hres. destruct (reserve_pipeline_budget _ _ w) as [[res'|e] w1'] eqn:Hb; [|done].
  cbn in Hres. injection Hres as -> ->. apply io_bind_Val in Hr as (o & w2 & He & Hr).
  apply dropping_Val in He. destruct o as [r0|]; [|done].
  apply io_bind_Val in Hr as (r1 & w3 & Hg & Hr). unfold effect, mbind, io_bind, mret, io_ret in Hr.
  injection Hr as -> <-. by exists res, w1, r0, w2, w3.
Qed.

Lemma gate_result_success r0 r w w' :
  gate_result cfg r0 w = (Val r, w') -> pr_success r = true ->
  r = r0 /\ run_terminal_validators cfg w = (Ok tt, w').
Proof.
  unfold gate_result. destruct (pr_success r0) eqn:Hs; [|intros [= <- <-]; congruence].
  intros (v & w1 & Hv & Hr)%io_bind_Val. unfold lift_pure in Hv.
  destruct (run_terminal_validators cfg w) as [[[]|reason] w2]; injection Hv as <- <-;
    injection Hr as <- <-; done.
Qed.

Lemma run_admitted_ends fuel rc start w :
  (forall w1, (execute cfg fuel rc start w1).1 <> Val None) ->
  (run_admitted cfg fuel rc start w).1 <> Val None.
Proof.
  intros He Hr. destruct (run_admitted cfg fuel rc start w) as [f w'] eqn:Hrun. cbn in Hr. subst f.
  apply io_bind_Val in Hrun as (res & w1 & _ & Hr). apply io_bind_Val in Hr as (o & w2 & Ho & Hr).
  apply dropping_Val in Ho. destruct o as [r|]; [|specialize (He w1); by rewrite Ho in He].
  apply io_bind_Val in Hr as (? & ? & _ & Hr). by apply io_bind_Val in Hr as (? & ? & _ & Hr).
Qed.
End run_lemmas.

(** ** A concrete configuration

    The world counts the handler calls; the accountant accepts everything, and one
    completion file must exist once a handler ran. *)

Definition demo_cfg (host : WalkHost nat) (dag : bool) : RunConfig nat := {|
  rn_host := host; rn_accountant := None; rn_contract_id := ""; rn_projected_usd := f64_zero;
  rn_policy := Some {| cp_on_completion := ["file_exists:report.md"; "notify"]; cp_has_validators := false |};
  rn_run_validators := fun w => (Ok tt, w); rn_working_dir := "/work";
  rn_glob := fun w p => bool_decide (p = "/work/report.md" /\ 0 < w);
  rn_dag_override := Some dag; rn_dag_env := None; rn_catalog := None; rn_pid := 7; rn_nanos := 9;
  rn_builtin_tools := ["read_file"]; rn_loaded_tools := []; rn_plugin_dirs := [] |}.

Definition chain_dot : string := "digraph chain { start -> work; work -> done }".
Definition cyclic_dot : string := "digraph bad { start -> a; a -> b; b -> a }".

Definition demo_run_graph (dag : bool) (fuel : nat) (g : PipelineGraph) : flow (option PipelineResult) * nat :=
  @run_graph tree_iter no_fmt ascii_tables mute_planner ascii_lowercase nat (demo_cfg (demo_walk_host 0) dag)
    fuel g "go" [] 0.

(** ** The theorems *)

(** C14.  Nothing runs past a closed gate.  A graph with a validation error is rejected with
    the list of its errors and the world is untouched: no reservation, no handler, no
    supervisor call.  A graph without one always has a start node, so the message "no start
    node" is never produced; and when the accountant refuses the budget the run fails
    with the breach and the only effect is the refused call. *)
Theorem run_gate `{HashIter} `{RustFmt} `{UnicodeTables} `{PlannerJson} `{StrLower} {W : Type}
    (cfg : RunConfig W) (fuel : nat) (g : PipelineGraph) (user_input : string)
    (variables : list (string * option string)) (w : W) :
  let diags := gate_diags cfg g variables in
  (has_errors diags = true ->
   run_graph cfg fuel g user_input variables w = (Bail [validation_message diags], w)) /\
  (has_errors diags = false -> is_Some (find_start_node (run_graph_of cfg g))) /\
  (forall ac breach w1, has_errors diags = false -> rn_accountant cfg = Some ac ->
     ac_reserve ac (pipeline_contract_id cfg (pg_id (run_graph_of cfg g))) (pipeline_projected_usd cfg) w
       = (Err breach, w1) ->
     run_graph cfg fuel g user_input variables w
       = (Bail ["pipeline cost reservation failed"; "cost budget breach: " +:+ breach], w1)).
Proof.
  intros diags. split_and!.
  - apply run_graph_rejected.
  - apply validated_has_start.
  - intros ac breach w1 Hd Hac Hb.
    destruct (run_graph_admitted cfg fuel g user_input variables Hd) as (start & _ & ->).
    unfold run_admitted, reserve_pipeline_budget, call, mbind, io_bind. by rewrite Hac; cbn; rewrite Hb.
Qed.

(** C3.  A run that reports success was verified at every stage: the graph passed the
    validation gate, the budget was reserved before execution, the executor itself (scheduler
    or walk) returned this very result as a success, the terminal validators accepted the
    state it left, every [file_exists:] completion action matched a file, and only then was
    the reservation settled. *)
Theorem run_success_verified `{HashIter} `{RustFmt} `{UnicodeTables} `{PlannerJson} `{StrLower}
    {W : Type} (cfg : RunConfig W) (fuel : nat) (g : PipelineGraph) (user_input : string)
    (variables : list (string * option string)) (w w' : W) (r : PipelineResult) :
  run_graph cfg fuel g user_input variables w = (Val (Some r), w') -> pr_success r = true ->
  has_errors (gate_diags cfg g variables) = false /\
  exists start reservation w1 w2 w3,
    find_start_node (run_graph_of cfg g) = Some start /\
    reserve_pipeline_budget cfg (pg_id (run_graph_of cfg g)) w = (Ok reservation, w1) /\
    execute cfg fuel (rc_of cfg g user_input variables) start w1 = (Val (Some r), w2) /\
    run_terminal_validators cfg w2 = (Ok tt, w3) /\
    (forall policy action spec, rn_policy cfg = Some policy -> action ∈ cp_on_completion policy ->
       strip_prefix "file_exists:" action = Some spec ->
       rn_glob cfg w2 (path_join (rn_working_dir cfg) spec) = true) /\
    w' = settle cfg (pg_id (run_graph_of cfg g)) reservation r w3.
Proof.
  intros Hr Hs. destruct (has_errors (gate_diags cfg g variables)) eqn:Hd.
  { by rewrite run_graph_rejected in Hr. }
  split; [done|]. destruct (run_graph_admitted cfg fuel g user_input variables Hd) as (start & Hst & Heq).
  rewrite Heq in Hr. apply run_admitted_value in Hr as (res & w1 & r0 & w2 & w3 & Hres & He & Hg & ->).
  apply gate_result_success in Hg as [-> Hv]; [|done].
  exists start, res, w1, w2, w3. split_and!; eauto using terminal_validators_ok.
Qed.

Definition chain_result : PipelineResult :=
  match (demo_run_graph true 0 (graph_of chain_dot)).1 with
  | Val (Some r) => r
  | _ => walk_result (WalkState_init "") false "" []
  end.

Lemma run_success_verified_witness :
  let cfg := demo_cfg (demo_walk_host 0) true in
  let g := graph_of chain_dot in
  pr_output chain_result = "text of done" /\
  has_errors (@gate_diags tree_iter no_fmt ascii_lowercase nat cfg g []) = false.
Proof.
  intros cfg g. split; [by vm_compute|].
  apply (@run_success_verified tree_iter no_fmt ascii_tables mute_planner ascii_lowercase nat cfg 0 g "go" [] 0
           (demo_run_graph true 0 g).2 chain_result); by vm_compute.
Defined.

Lemma run_gate_witness :
  @run_graph tree_iter no_fmt ascii_tables mute_planner ascii_lowercase nat
    (demo_cfg (demo_walk_host 0) false) 9 (graph_of cyclic_dot) "go" [] 0
  = (Bail [@validation_message no_fmt (@gate_diags tree_iter no_fmt ascii_lowercase nat
             (demo_cfg (demo_walk_host 0) false) (graph_of cyclic_dot) [])], 0).
Proof.
  apply (@run_gate tree_iter no_fmt ascii_tables mute_planner ascii_lowercase nat
    (demo_cfg (demo_walk_host 0) false) 9 (graph_of cyclic_dot) "go" [] 0). by vm_compute.
Defined.

#[export] Instance run_join_law {W} `{UnicodeTables} (cfg : RunConfig W) `{!JoinLaw (rn_host cfg)} :
  JoinLaw (run_walk_host cfg).
Proof. split; [apply (join_length (wh := rn_host cfg))|apply (join_no_panic (wh := rn_host cfg))]. Qed.

(**  A run ends: on the scheduler always, for every graph, host and fuel; on the walk
    when no cycle can be made of edges and convergence jumps, given one round per node.  So
    a run returns a result, an error or a panic, and never runs out of fuel. *)
Theorem run_terminates `{HashIter} `{RustFmt} `{UnicodeTables} `{PlannerJson} `{StrLower} {W : Type}
    (cfg : RunConfig W) `{!JoinLaw (rn_host cfg)} (fuel : nat) (g : PipelineGraph) (user_input : string)
    (variables : list (string * option string)) (w : W) :
  use_dag cfg (run_graph_of cfg g) = true \/
  ((forall n, ~ tc (walk_edge (run_graph_of cfg g)) n n) /\ size (pg_nodes (run_graph_of cfg g)) < fuel) ->
  (run_graph cfg fuel g user_input variables w).1 <> Val None.
Proof.
  intros Hends. destruct (has_errors (gate_diags cfg g variables)) eqn:Hd.
  { by rewrite run_graph_rejected. }
  destruct (run_graph_admitted cfg fuel g user_input variables Hd) as (start & _ & ->).
  apply run_admitted_ends. intros w1. unfold execute. cbn [rc_graph rc_of].
  destruct (use_dag cfg (run_graph_of cfg g)); [apply execute_graph_dag_ends|].
  destruct Hends as [|[Hac Hf]]; [done|]. exact (execute_graph_ends (run_walk_host cfg) (rc_of cfg g user_input variables) Hac fuel start w1 Hf).
Qed.

Lemma run_terminates_witness : (demo_run_graph false 4 (graph_of chain_dot)).1 <> Val None.
Proof.
  apply (@run_terminates tree_iter no_fmt ascii_tables mute_planner ascii_lowercase nat
    (demo_cfg (demo_walk_host 0) false) _ 4 (graph_of chain_dot) "go" [] 0). right. split.
  - apply (walk_ranked_acyclic (fun id => if decide (id = "start") then 0 else if decide (id = "work") then 1 else 2)).
    by vm_compute.
  - apply (bool_decide_eq_true (size (pg_nodes _) < 4)). by vm_compute.
Defined.
