(* ===== verification/Budget.v ===== *)
(** * The budget of a run is balanced

    Every cost reservation that a run opens, for the pipeline, for a node or for the worker
    of a fan-out, is closed exactly once on every path: success, failure, [bail!] and panic.

    The open reservations of a world are a multiset ([held], a list up to permutation); a
    computation is described by what it consumes and what it hands on ([moves], a triple
    with the frame built in), and the rules follow the shape of the code.  The run is proved
    against an interface ([HostFrame], [WalkFrame], [ReserveLaw]); the accountant of a
    configuration discharges it. *)

From S2P Require Import Prelude RustStr RustNum Fidelity Graph Condition Parser ToolPolicy Validate.
From S2P Require Import Ir Profile Compose Host Dispatch Dag DagSafety Guard Checkpoint Fanout Walk.
From S2P Require Import WalkSafety WalkTotal Models Run.
From Stdlib Require Import SpecFloat.

(** ** Triples *)

Section frame.
Context {W : Type} (held : W -> list f64).

(** From a world that holds [P] among others, [m] ends in a world that holds [Q a] instead
    when it returns [a], and nothing of [P] when it fails. *)
Definition moves {A} (P : list f64) (m : io W A) (Q : A -> list f64) : Prop :=
  forall w l, held w ≡ₚ P ++ l ->
    match m w with
    | (Val a, w') => held w' ≡ₚ Q a ++ l
    | (_, w') => held w' ≡ₚ l
    end.

(** An operation that leaves the reservations alone. *)
Definition calm {A} (f : W -> A * W) : Prop := forall w, held (f w).2 ≡ₚ held w.
Definition calm_step (f : W -> W) : Prop := forall w, held (f w) ≡ₚ held w.

Definition keeps {A} (m : io W A) : Prop := moves [] m (fun _ => []).

Lemma keeps_calm {A} (m : io W A) : keeps m <-> calm m.
Proof.
  split.
  - intros Hm w. specialize (Hm w (held w) (reflexivity _)). destruct (m w) as [[] w']; exact Hm.
  - intros Hm w l Hl. specialize (Hm w). destruct (m w) as [[] w']; cbn in *; by rewrite Hm.
Qed.

Lemma moves_bind {A B} P (m : io W A) Q (f : A -> io W B) R :
  moves P m Q -> (forall a, (exists w w', m w = (Val a, w')) -> moves (Q a) (f a) R) ->
  moves P (m ≫= f) R.
Proof.
  intros Hm Hf w l Hl. specialize (Hm w l Hl). unfold mbind, io_bind.
  destruct (m w) as [[a|e|] w1] eqn:He; [|exact Hm..]. apply Hf; eauto.
Qed.

Lemma keeps_bind {A B} (m : io W A) (f : A -> io W B) :
  keeps m -> (forall a, keeps (f a)) -> keeps (m ≫= f).
Proof. intros Hm Hf. eapply moves_bind; [exact Hm|]. intros a _. apply Hf. Qed.

Lemma moves_ret {A} (a : A) Q : moves (Q a) (mret a) Q.
Proof. by intros w l Hl. Qed.

Lemma moves_keep_ret {A} P (a : A) : moves P (mret a) (fun _ => P).
Proof. by intros w l Hl. Qed.

Lemma keeps_ret {A} (a : A) : keeps (mret a).
Proof. apply moves_keep_ret. Qed.

Lemma moves_throw {A} msg (Q : A -> list f64) : moves [] (throw msg) Q.
Proof. by intros w l Hl. Qed.

Lemma keeps_flow {A} (f : flow A) : keeps (lift_flow f).
Proof. intros w l Hl. by destruct f. Qed.

Lemma keeps_try {A} (r : result report A) : keeps (try r).
Proof. apply keeps_flow. Qed.

Lemma keeps_call {A} (f : W -> result report A * W) : calm f -> keeps (call f).
Proof. intros Hf w l Hl. specialize (Hf w). unfold call. destruct (f w) as [[a|e] w']; cbn in *; by rewrite Hf. Qed.

(** Operations that cannot fail can be framed. *)
Lemma moves_lift {A} P (f : W -> A * W) : calm f -> moves P (lift_pure f) (fun _ => P).
Proof. intros Hf w l Hl. specialize (Hf w). unfold lift_pure. destruct (f w) as [a w']; cbn in *. by rewrite Hf. Qed.

Lemma moves_effect P (f : W -> W) : calm_step f -> moves P (effect f) (fun _ => P).
Proof. intros Hf w l Hl. cbn. by rewrite (Hf w). Qed.

Lemma moves_dropping {A} P c (m : io W A) :
  keeps m -> moves P (effect c) (fun _ => []) -> moves P (dropping c m) (fun _ => P).
Proof.
  intros Hm%keeps_calm Hc w l Hl. specialize (Hm w). unfold dropping.
  destruct (m w) as [[a|e|] w1]; cbn in Hm; [by rewrite Hm|apply (Hc w1 l)..]; by rewrite Hm.
Qed.

(** ** What is relied on of the host *)

(** Handlers, timers, supervisor and validators open and close no reservation. *)
Class HostFrame (h : Host W) : Prop := {
  hf_handler k hd n ctx : h_handler h k = Some hd -> calm (hd n ctx);
  hf_timeout d m : calm m -> calm (h_timeout h d m);
  hf_sleep ms : calm_step (h_sleep h ms);
  hf_escalate n : calm_step (h_escalate h n);
  hf_register id : calm (h_register h id);
  hf_running id : calm_step (h_mark_running h id);
  hf_completed id files : calm_step (h_mark_completed h id files);
  hf_failed id msg : calm_step (h_mark_failed h id msg);
  hf_validate id : calm (h_validate h id)
}.

(** Neither do guards, the checkpoint store, providers, and [join_all] of futures that do
    not. *)
Class WalkFrame (wh : WalkHost W) : Prop := {
  wf_guard gd ctx : gd ∈ wh_guards wh -> calm (gd ctx);
  wf_persist cs r : wh_store wh = Some cs -> calm (cs_persist cs r);
  wf_list cs : wh_store wh = Some cs -> calm (cs_list cs);
  wf_count : calm_step (wh_count_persisted wh);
  wf_provider ms n : calm (wh_default_provider wh ms n);
  wf_router f model p ms n : wh_router wh = Some f -> f model = Ok p -> calm (p ms n);
  wf_join ws : (forall fo, fo ∈ ws -> calm (fo_run fo)) -> calm (wh_join_all wh ws)
}.

(** A reservation that is granted is held until it is dropped. *)
Class ReserveLaw (h : Host W) : Prop := {
  rl_reserve graph_id n : moves [] (call (h_reserve h graph_id n)) option_list;
  rl_release r : moves (option_list r) (effect (h_release h r)) (fun _ => [])
}.
End frame.

(** ** Dispatch *)

Section host.
Context {W : Type} (held : W -> list f64) (h : Host W) `{RustFmt} `{!HostFrame held h} `{!ReserveLaw held h}.
Local Abbreviation keeps := (keeps held).
Local Abbreviation moves := (moves held).
Local Abbreviation calm := (calm held).

Lemma keeps_retries handler n ctx k :
  (forall n ctx, calm (handler n ctx)) -> keeps (execute_with_retries h handler n ctx k).
Proof.
  intros Hh. unfold execute_with_retries. generalize (Z.to_nat (k + 1)) as iters. generalize 0%Z as attempt.
  intros attempt iters; revert attempt; induction iters as [|iters IH]; intros attempt; cbn [retry_loop].
  - apply keeps_flow.
  - apply keeps_bind; [apply keeps_call, Hh|]. intros o. case_match; [apply keeps_ret|].
    apply keeps_bind; [apply moves_effect, (hf_sleep held)|auto].
Qed.

Lemma calm_attempt d handler n ctx k :
  (forall n ctx, calm (handler n ctx)) -> calm (h_timeout h d (execute_with_retries h handler n ctx k)).
Proof. intros Hh. apply (hf_timeout held), keeps_calm, keeps_retries, Hh. Qed.

(** The tactic for a loop of attempts: take the attempt, then each way it can end. *)
Ltac attempts IH :=
  match goal with
  | Ht : calm (h_timeout h ?d ?m) |- context [h_timeout h ?d ?m ?w] =>
      specialize (Ht w); destruct (h_timeout h d m w) as [[[]|] ?]; cbn in Ht |- *
  end;
  repeat case_match; cbn; try done; rewrite ?(hf_escalate held), ?IH; done.

Lemma keeps_dispatch handler n ctx k :
  (forall n ctx, calm (handler n ctx)) -> keeps (dispatch_node h handler n ctx k).
Proof.
  intros Hh. unfold dispatch_node. destruct (pn_deadline_secs n) as [secs|].
  - apply keeps_bind; [apply keeps_flow|]. intros d. apply keeps_calm.
    pose proof (calm_attempt d handler n ctx k Hh) as Ht. generalize (@None report) as last.
    generalize 0%Z as attempt. generalize (default Abort_action (pn_deadline_action n)) as action.
    intros action. generalize (Z.to_nat (deadline_attempts action)) as iters.
    induction iters as [|iters IH]; intros attempt last w; cbn [deadline_loop]; [done|]. attempts IH.
  - apply keeps_bind; [by apply keeps_retries|]. intros o. apply keeps_ret.
Qed.

Lemma calm_worker handler n ctx k :
  (forall n ctx, calm (handler n ctx)) -> calm (run_fanout_worker h handler n ctx k).
Proof.
  intros Hh. apply keeps_calm. unfold run_fanout_worker. apply keeps_bind; [apply keeps_flow|]. intros d.
  apply keeps_calm. pose proof (calm_attempt d handler n ctx k Hh) as Ht.
  generalize (@None report) as last. generalize 0%Z as attempt.
  generalize (default Abort_action (pn_deadline_action n)) as action.
  intros action. generalize (Z.to_nat (deadline_attempts action)) as iters.
  induction iters as [|iters IH]; intros attempt last w; cbn [worker_loop]; [done|]. attempts IH.
Qed.

Lemma keeps_recover handler node prepared ctx started o :
  (forall n ctx, calm (handler n ctx)) -> keeps (recover_outcome h handler node prepared ctx started o).
Proof.
  intros Hh. apply keeps_calm. intros w. unfold recover_outcome.
  destruct (node_budget_spent _ _ _ _); [done|]. destruct (classify_outcome _ _ _) as [|signal|]; [done| |done].
  assert (Hs : keeps (recover_node h handler prepared ctx signal)).
  { apply keeps_calm. intros w'. unfold recover_node. case_match; [done|].
    pose proof (Hh (set_prompt prepared (Some (recovery_prompt prepared signal))) ctx w') as Hc.
    unfold mbind, io_bind, call. by destruct (handler _ _ w') as [[] w1]. }
  apply keeps_calm in Hs. specialize (Hs w). by destruct (recover_node _ _ _ _ _ w) as [[r|e|] w'].
Qed.

Lemma moves_validate P node o : moves P (validate_outcome h node o) (fun _ => P).
Proof.
  unfold validate_outcome. case_decide; [|apply moves_keep_ret].
  eapply moves_bind; [apply moves_lift, (hf_validate held)|]. intros r _. apply moves_keep_ret.
Qed.

Lemma keeps_on_task task f : (forall id, calm_step held (f id)) -> keeps (on_task task f).
Proof. intros Hf. destruct task as [id|]; [apply moves_effect, Hf|apply keeps_ret]. Qed.

Lemma calm_terminal node id o : calm_step held (mark_terminal h node id o).
Proof. unfold mark_terminal. destruct (no_status o); first [apply (hf_completed held)|apply (hf_failed held)]. Qed.

Lemma keeps_dag_node rc id fired completed remaining feedback :
  keeps (dag_execute_node h rc id fired completed remaining feedback).
Proof.
  unfold dag_execute_node. destruct (pg_nodes _ !! id) as [node|]; [|apply moves_throw].
  destruct (h_handler h _) as [handler|] eqn:Hhd; [|apply moves_throw].
  assert (Hh : forall n ctx, calm (handler n ctx)) by (intros; by eapply (hf_handler held)).
  apply keeps_bind; [apply moves_lift, (hf_register held)|]. intros [task|reason]; [|apply keeps_ret].
  apply keeps_bind; [apply keeps_on_task, (hf_running held)|]. intros _.
  eapply moves_bind; [apply (rl_reserve held)|]. intros rv _. eapply moves_bind.
  { apply moves_lift. by intros w. }
  intros started _. eapply moves_bind; [apply moves_dropping; [by apply keeps_dispatch|apply (rl_release held)]|].
  intros d _. unfold finish_node. eapply moves_bind.
  { apply moves_dropping; [by apply keeps_recover|apply (rl_release held)]. }
  intros o1 _. eapply moves_bind; [apply moves_validate|]. intros o2 _.
  eapply moves_bind; [apply moves_lift; by intros w|]. intros ms _.
  eapply moves_bind; [apply (rl_release held)|]. intros u _.
  apply keeps_bind; [apply keeps_on_task; intros; apply calm_terminal|]. intros _. apply keeps_ret.
Qed.
End host.

(** ** The scheduler and the walk *)

Section executors.
Context `{HashIter} `{RustFmt} `{UnicodeTables} `{PlannerJson} {W : Type} (held : W -> list f64).
Context (wh : WalkHost W) `{!HostFrame held (wh_host wh)} `{!ReserveLaw held (wh_host wh)} `{!WalkFrame held wh}.
Local Abbreviation h := (wh_host wh).
Local Abbreviation keeps := (keeps held).
Local Abbreviation moves := (moves held).
Local Abbreviation calm := (calm held).

Lemma keeps_dag_loop fuel rc st : keeps (dag_loop h fuel rc st).
Proof.
  revert st; induction fuel as [|fuel IH]; intros st; cbn [dag_loop]; [apply keeps_ret|].
  apply keeps_bind; [|intros [st'|r]; [apply IH|apply keeps_ret]].
  unfold dag_step. destruct (runnable _ st) as [id|].
  - unfold run_node. case_decide; [apply keeps_ret|]. apply keeps_bind; [apply keeps_try|]. intros fired.
    apply keeps_bind; [apply (keeps_dag_node held h)|]. intros []; apply keeps_ret.
  - destruct (prunable _ st) as [[p reason]|]; apply keeps_ret.
Qed.

Lemma moves_clock P : moves P (clock wh) (fun _ => P).
Proof. apply moves_lift. by intros w. Qed.

Lemma keeps_follow g st o stop : keeps (follow_edge g st o stop : io W _).
Proof. unfold follow_edge. apply keeps_bind; [apply keeps_flow|]. intros []; apply keeps_ret. Qed.

(** *** Fan-outs *)

Lemma moves_release_all l : moves l (effect (release_all wh l)) (fun _ => []).
Proof.
  induction l as [|r l IH].
  - by intros w l0 Hl.
  - intros w l0 Hl. specialize (rl_release held (h := h) (Some r) w (l ++ l0) Hl) as Hr. cbn in Hr.
    exact (IH _ _ Hr).
Qed.

Lemma moves_queue {A} (prep : A -> io W (FanoutWorker W * option f64)) items l :
  (forall a, moves [] (prep a) (fun p => option_list p.2)) ->
  moves l (queue_workers wh prep items l) (fun p => p.2).
Proof.
  intros Hp. revert l; induction items as [|a items IH]; intros l; cbn [queue_workers].
  { intros w l0 Hl. exact Hl. }
  eapply (moves_bind _ _ _ (fun p => l ++ option_list p.2)).
  - intros w l0 Hl. specialize (Hp a w (l ++ l0) Hl). unfold dropping.
    destruct (prep a w) as [[p|e|] w1]; [|exact (moves_release_all l w1 l0 Hp)..].
    rewrite Hp, !(assoc (++)). apply Permutation_app; [apply Permutation_app_comm|done].
  - intros [fo rv] _. eapply moves_bind; [apply IH|]. intros [ws l'] _.
    intros w l0 Hl. exact Hl.
Qed.

Lemma keeps_workers {A} (prep : A -> io W (FanoutWorker W * option f64)) items :
  (forall a, moves [] (prep a) (fun p => option_list p.2)) ->
  (forall a w fo rv w', prep a w = (Val (fo, rv), w') -> calm (fo_run fo)) ->
  keeps (run_workers wh prep items).
Proof.
  intros Hp Hrun. unfold run_workers. eapply moves_bind; [by apply moves_queue|].
  intros [ws l] (w & w' & Hq). cbn. eapply moves_bind.
  - apply moves_dropping; [|apply moves_release_all]. apply keeps_calm, (wf_join held). intros fo Hfo.
    eapply queue_workers_run in Hq as (a & w1 & rv & w2 & _ & Ha); [|done]. by eapply Hrun.
  - intros rs _. eapply moves_bind; [apply moves_release_all|]. intros u _.
    apply moves_lift. by intros w1.
Qed.

Lemma moves_reserve_worker graph_id prepared (fo : FanoutWorker W) :
  moves [] (rv ← call (h_reserve h graph_id prepared); mret (fo, rv)) (fun p => option_list p.2).
Proof. eapply moves_bind; [apply (rl_reserve held)|]. intros rv _ w l Hl. exact Hl. Qed.

Lemma reserve_worker_run graph_id prepared (fo fo' : FanoutWorker W) rv w w' :
  (rv ← call (h_reserve h graph_id prepared); mret (fo, rv)) w = (Val (fo', rv), w') -> fo' = fo.
Proof. intros (? & ? & _ & [= <- _ _])%io_bind_Val. done. Qed.

Lemma keeps_parallel rc st node : keeps (walk_parallel wh rc st node).
Proof.
  unfold walk_parallel. destruct (pn_converge node); [|apply moves_throw].
  case_match; [apply moves_throw|]. case_decide; [apply keeps_ret|].
  apply keeps_bind; [apply moves_clock|]. intros t. apply keeps_bind; [apply keeps_workers|].
  - intros a. unfold prepare_target. destruct (pg_nodes _ !! a); [|apply moves_throw].
    destruct (h_handler _ _); [|apply moves_throw]. apply moves_reserve_worker.
  - intros a w fo rv w'. unfold prepare_target. destruct (pg_nodes _ !! a); [|done].
    destruct (h_handler h _) as [handler|] eqn:Hh; [|done]. intros ->%reserve_worker_run.
    apply (calm_worker held h). intros. by eapply (hf_handler held).
  - intros wr. apply keeps_bind; [apply moves_clock|]. intros now. apply keeps_ret.
Qed.

Lemma calm_provider model p ms n :
  resolve_provider (wh_default_provider wh) (wh_router wh) model = Ok p -> calm (p ms n).
Proof.
  pose proof (wf_provider held (wh := wh) ms n) as Hd. unfold resolve_provider.
  repeat case_match; intros [= <-]; eauto using wf_router.
Qed.

Lemma keeps_plan provider prompt input k :
  (forall ms n, calm (provider ms n)) -> keeps (plan_or_fallback provider prompt input k).
Proof.
  intros Hp. apply keeps_calm. intros w. unfold plan_or_fallback.
  assert (Hk : keeps (plan_dynamic_tasks provider prompt input k)).
  { unfold plan_dynamic_tasks. apply keeps_bind; [apply keeps_call, Hp|]. intros r.
    case_match; [|apply moves_throw]. apply keeps_bind; [apply keeps_try|]. intros. apply keeps_ret. }
  apply keeps_calm in Hk. specialize (Hk w). by destruct (plan_dynamic_tasks _ _ _ _ w) as [[[]|e|] w'].
Qed.

Lemma keeps_dynamic rc st node : keeps (walk_dynamic wh rc st node).
Proof.
  unfold walk_dynamic. destruct (pn_converge node); [|apply moves_throw].
  eapply moves_bind; [apply keeps_try|]. intros provider (w & w' & [= Hp _]).
  destruct (resolve_provider _ _ _) as [p|e] eqn:Hr; [|done]. injection Hp as ->.
  apply keeps_bind; [apply moves_clock|]. intros t. apply keeps_bind.
  { apply keeps_plan. intros. by eapply calm_provider. }
  intros [tasks usage]. unfold dispatch_dynamic. case_decide; [apply keeps_ret|].
  apply keeps_bind; [apply keeps_flow|]. intros nodes.
  destruct (fanout_refused _ _ _); [apply moves_throw|].
  destruct (h_handler h Codergen) as [handler|] eqn:Hh; [|apply moves_throw].
  apply keeps_bind; [apply keeps_workers|].
  - intros a. apply moves_reserve_worker.
  - intros a w1 fo rv w2 ->%reserve_worker_run. apply (calm_worker held h). intros. by eapply (hf_handler held).
  - intros wr. apply keeps_bind; [apply moves_clock|]. intros now. apply keeps_ret.
Qed.

(** *** Sequential nodes *)

Lemma calm_persist_declared cs g node decls : wh_store wh = Some cs ->
  calm_step held (persist_declared wh cs g node decls).
Proof.
  intros Hcs. induction decls as [|d decls IH]; intros w; [done|]. cbn [persist_declared].
  pose proof (wf_persist held cs (from_declaration (pg_id g) (pn_id node) d
    (wh_persisted_total wh w) (wh_epoch_ms wh w)) Hcs w) as Hp.
  destruct (cs_persist cs _ w) as [[]  w1]; rewrite IH; [|exact Hp]. by rewrite (wf_count held).
Qed.

Lemma calm_checkpoints g node o : calm_step held (persist_checkpoints wh g node o).
Proof.
  unfold persist_checkpoints. case_decide; [|by intros w].
  destruct (wh_store wh) eqn:Hs; [by apply calm_persist_declared|by intros w].
Qed.

Lemma keeps_after g st node o : keeps (after_node g st node o : io W _).
Proof. unfold after_node. repeat case_match; first [apply keeps_ret|apply keeps_follow]. Qed.

Lemma keeps_sequential rc st node : keeps (walk_sequential wh rc st node).
Proof.
  unfold walk_sequential. destruct (h_handler h _) as [handler|] eqn:Hhd; [|apply moves_throw].
  assert (Hh : forall n ctx, calm (handler n ctx)) by (intros; by eapply (hf_handler held)).
  case_decide; [apply keeps_ret|]. apply keeps_bind; [apply moves_clock|]. intros t.
  apply keeps_bind; [apply moves_lift, (hf_register held)|]. intros [task|reason]; [|apply keeps_ret].
  apply keeps_bind; [apply keeps_on_task, (hf_running held)|]. intros _.
  eapply moves_bind; [apply (rl_reserve held)|]. intros rv _.
  eapply moves_bind; [apply moves_dropping; [by apply (keeps_dispatch held h)|apply (rl_release held)]|].
  intros [o|label] _.
  - unfold walk_completed. eapply moves_bind.
    { apply moves_dropping; [by apply (keeps_recover held h)|apply (rl_release held)]. }
    intros o1 _. eapply moves_bind; [apply moves_clock|]. intros now _.
    eapply moves_bind; [apply (moves_validate held h)|]. intros o2 _.
    eapply moves_bind; [apply (rl_release held)|]. intros u _.
    apply keeps_bind; [apply keeps_on_task; intros; apply (calm_terminal held h)|]. intros _.
    apply keeps_bind; [apply moves_effect, calm_checkpoints|]. intros _. apply keeps_after.
  - unfold walk_skipped. eapply moves_bind; [apply moves_clock|]. intros now _.
    eapply moves_bind; [apply (rl_release held)|]. intros u _. apply keeps_follow.
Qed.

Lemma calm_guards guards ctx : (forall gd, gd ∈ guards -> calm (gd ctx)) -> calm (guard_loop guards ctx).
Proof.
  induction guards as [|gd guards IH]; intros Hg w; [done|]. cbn [guard_loop].
  specialize (Hg gd (list_elem_of_here _ _) w) as Hw.
  destruct (gd ctx w) as [[[]|] w1]; cbn in Hw |- *; [|done..].
  rewrite IH; [done|]. intros gd' Hin. apply Hg. by right.
Qed.

Lemma keeps_walk_step rc skip t st : keeps (walk_step wh rc skip t st).
Proof.
  unfold walk_step. destruct (pg_nodes _ !! _) as [node|]; [|apply moves_throw].
  case_decide; [unfold skip_executed; apply keeps_bind; [apply keeps_flow|]; intros; apply keeps_follow|].
  case_decide; [apply keeps_follow|]. apply keeps_bind.
  { apply moves_lift. intros w. apply calm_guards. intros. by apply (wf_guard held). }
  intros [[|reason|reason]|error]; [|apply keeps_follow|apply keeps_ret..]. unfold walk_node.
  destruct (pn_handler node); first [apply keeps_parallel|apply keeps_dynamic|apply keeps_sequential].
Qed.

Lemma keeps_execute_graph fuel rc start : keeps (execute_graph wh fuel rc start).
Proof.
  unfold execute_graph. apply keeps_bind; [apply moves_clock|]. intros t. apply keeps_bind.
  { apply moves_lift. intros w. unfold build_resume_skip_set. destruct (wh_store wh) as [cs|] eqn:Hs; [|done].
    pose proof (wf_list held cs Hs w) as Hl. by destruct (cs_list cs w) as [[] w1]. }
  intros skip. generalize (WalkState_init start) as st.
  induction fuel as [|fuel IH]; intros st; cbn [walk_loop]; [apply keeps_ret|].
  apply keeps_bind; [apply keeps_walk_step|]. intros [st'|r]; [apply IH|apply keeps_ret].
Qed.
End executors.

(** ** The run *)

(** What the executor relies on of a [CostAccountant]: a granted reservation is open until it
    is committed or dropped; a refused one, and a commit that fails, change nothing. *)
Class AccountantLaw {W} (held : W -> list f64) (ac : CostAccountant W) : Prop := {
  al_reserve c usd w hd w' : ac_reserve ac c usd w = (Ok hd, w') -> held w' ≡ₚ hd :: held w;
  al_refuse c usd w e w' : ac_reserve ac c usd w = (Err e, w') -> held w' ≡ₚ held w;
  al_commit hd ev w w' l : ac_commit ac hd ev w = (Ok tt, w') -> held w ≡ₚ hd :: l -> held w' ≡ₚ l;
  al_commit_err hd ev w e w' : ac_commit ac hd ev w = (Err e, w') -> held w' ≡ₚ held w;
  al_drop hd w l : held w ≡ₚ hd :: l -> held (ac_drop ac hd w) ≡ₚ l
}.

Class RunFrame {W} (held : W -> list f64) (cfg : RunConfig W) : Prop := {
  rf_host :: HostFrame held (wh_host (rn_host cfg));
  rf_walk :: WalkFrame held (rn_host cfg);
  rf_validators : calm held (rn_run_validators cfg)
}.

Section run.
Context `{HashIter} `{RustFmt} `{UnicodeTables} `{PlannerJson} `{StrLower} {W : Type}.
Context (held : W -> list f64) (cfg : RunConfig W) `{RF : !RunFrame held cfg}.
Context (ac : CostAccountant W) (Hac : rn_accountant cfg = Some ac) `{!AccountantLaw held ac}.
Local Abbreviation keeps := (keeps held).
Local Abbreviation moves := (moves held).

Lemma run_host_frame : HostFrame held (run_host cfg).
Proof. destruct RF as [[] _ _]. by split. Qed.

Lemma run_walk_frame : WalkFrame held (run_walk_host cfg).
Proof. destruct RF as [_ [] _]. by split. Qed.

Lemma moves_drop r : moves (option_list r) (effect (drop_handle cfg r)) (fun _ => []).
Proof.
  intros w l Hl. cbn. unfold drop_handle. rewrite Hac. destruct r as [hd|]; [|done]. by apply (al_drop hd).
Qed.

(** A call to [reserve], whatever is done with the breach. *)
Lemma moves_ac_reserve c usd (breach : string -> report) :
  moves [] (call (fun w => match ac_reserve ac c usd w with
                           | (Ok hd, w) => (Ok (Some hd), w)
                           | (Err e, w) => (Err (breach e), w)
                           end)) option_list.
Proof.
  intros w l Hl. unfold call. destruct (ac_reserve ac c usd w) as [[hd|e] w1] eqn:Hr; cbn.
  - by rewrite (al_reserve _ _ _ _ _ Hr), Hl.
  - by rewrite (al_refuse _ _ _ _ _ Hr).
Qed.

Lemma run_reserve_law : ReserveLaw held (run_host cfg).
Proof.
  split; [|apply moves_drop]. intros graph_id n w l Hl. cbn [h_reserve run_host]. unfold call, reserve_node_budget.
  rewrite Hac. destruct (negb _); [done|].
  pose proof (moves_ac_reserve (pipeline_contract_id cfg graph_id)
    (project_node_usd (h_project_cost (wh_host (rn_host cfg))) (pn_model n))
    (fun e => ["cost budget breach reserving node '" +:+ pn_id n +:+ "': " +:+ e]) w l Hl) as Hm.
  unfold call in Hm. by destruct (ac_reserve ac _ _ w) as [[hd|e] w1].
Qed.

Lemma moves_pipeline_reserve graph_id :
  moves [] (call (fun w => let (r, w) := reserve_pipeline_budget cfg graph_id w in
                           (wrap_err "pipeline cost reservation failed" r, w))) option_list.
Proof.
  intros w l Hl. unfold call, reserve_pipeline_budget. rewrite Hac.
  pose proof (moves_ac_reserve (pipeline_contract_id cfg graph_id) (pipeline_projected_usd cfg)
    (fun e => ["cost budget breach: " +:+ e]) w l Hl) as Hm.
  unfold call in Hm. by destruct (ac_reserve ac _ _ w) as [[hd|e] w1].
Qed.

Lemma keeps_execute fuel rc start : keeps (execute cfg fuel rc start).
Proof.
  pose proof run_host_frame. pose proof run_walk_frame. pose proof run_reserve_law.
  unfold execute. destruct (use_dag cfg _); [|by apply (keeps_execute_graph held (run_walk_host cfg))].
  by apply (keeps_dag_loop held (run_walk_host cfg)).
Qed.

Lemma moves_gate P r : moves P (gate_result cfg r) (fun _ => P).
Proof.
  unfold gate_result. case_match; [|apply moves_keep_ret].
  eapply moves_bind; [apply moves_lift|intros; apply moves_keep_ret].
  intros w. unfold run_terminal_validators. repeat case_match; try done. apply rf_validators.
Qed.

Lemma moves_settle graph_id rv r : moves (option_list rv) (effect (settle cfg graph_id rv r)) (fun _ => []).
Proof.
  intros w l Hl. cbn. unfold settle. rewrite Hac. destruct rv as [hd|]; [|done].
  destruct (pr_success r); [|by apply (al_drop hd)].
  destruct (ac_commit ac hd _ w) as [[[]|e] w1] eqn:Hc; [by eapply al_commit|].
  apply (al_drop hd). by rewrite (al_commit_err _ _ _ _ _ Hc).
Qed.

Lemma io_bind_eq {A B} (m : io W A) (f : A -> io W B) w :
  (m ≫= f) w = match m w with
               | (Val a, w) => f a w
               | (Bail e, w) => (Bail e, w)
               | (Panic, w) => (Panic, w)
               end.
Proof. done. Qed.

Lemma run_admitted_balanced fuel rc start w :
  (run_admitted cfg fuel rc start w).1 <> Val None ->
  held (run_admitted cfg fuel rc start w).2 ≡ₚ held w.
Proof.
  unfold run_admitted. rewrite io_bind_eq.
  pose proof (moves_pipeline_reserve (pg_id (rc_graph rc)) w (held w) (reflexivity _)) as Hr.
  destruct (call _ w) as [[rv|e|] w1]; [|done..].
  rewrite io_bind_eq.
  pose proof (moves_dropping held _ _ _ (keeps_execute fuel rc start) (moves_drop rv) w1 _ Hr) as He.
  destruct (dropping _ _ w1) as [[[r|]|e|] w2]; [|done..]. intros _.
  assert (Hm : moves (option_list rv) (r ← gate_result cfg r;
    _ ← effect (settle cfg (pg_id (rc_graph rc)) rv r); mret (Some r)) (fun _ => [])).
  { eapply moves_bind; [apply moves_gate|]. intros r1 _. eapply moves_bind; [apply moves_settle|].
    intros u _. apply keeps_ret. }
  specialize (Hm w2 (held w) He). revert Hm.
  match goal with |- _ -> held (?p).2 ≡ₚ _ => generalize p end. intros [[] w3] Hm; exact Hm.
Qed.
End run.

(** C5.  No reservation leaks and none is returned twice: whatever the graph, the handlers,
    the guards, the fan-outs and the validators do, a run that ends (in a result, an error
    or a panic) leaves open exactly the reservations that were open before it.  This
    relies on the accountant as documented (a granted reservation stays open until it is
    committed or dropped) and on the other services not touching the ledger. *)
Theorem run_budget_balanced `{HashIter} `{RustFmt} `{UnicodeTables} `{PlannerJson} `{StrLower} {W : Type}
    (held : W -> list f64) (cfg : RunConfig W) (ac : CostAccountant W) (fuel : nat) (g : PipelineGraph)
    (user_input : string) (variables : list (string * option string)) (w : W) :
  RunFrame held cfg -> AccountantLaw held ac -> rn_accountant cfg = Some ac ->
  (run_graph cfg fuel g user_input variables w).1 <> Val None ->
  held (run_graph cfg fuel g user_input variables w).2 ≡ₚ held w.
Proof.
  intros RF AL Hac Hend. destruct (has_errors (gate_diags cfg g variables)) eqn:Hd.
  { by rewrite run_graph_rejected. }
  destruct (run_graph_admitted cfg fuel g user_input variables Hd) as (start & _ & Heq).
  rewrite Heq in *. by apply run_admitted_balanced with ac.
Qed.

(** ** A ledger

    The world is the list of open reservations; at most four may be open at a time. *)

#[export] Instance f64_eq_dec : EqDecision f64.
Proof. unfold f64. solve_decision. Defined.

Fixpoint remove_one (x : f64) (l : list f64) : list f64 :=
  match l with
  | [] => []
  | y :: l => if decide (x = y) then l else y :: remove_one x l
  end.

Lemma remove_one_perm x l k : l ≡ₚ x :: k -> remove_one x l ≡ₚ k.
Proof.
  intros Hl. assert (Hin : x ∈ l) by (rewrite Hl; by left).
  apply (inj (cons x)). rewrite <- Hl. clear Hl k.
  induction l as [|y l IH]; [by apply not_elem_of_nil in Hin|]. cbn. case_decide; [by subst|].
  apply elem_of_cons in Hin as [|Hin]; [done|]. by rewrite Permutation_swap, IH.
Qed.

Definition ledger_accountant : CostAccountant (list f64) := {|
  ac_reserve := fun _ usd w => if decide (length w < 4) then (Ok usd, usd :: w) else (Err "over budget", w);
  ac_commit := fun hd _ w => (Ok tt, remove_one hd w);
  ac_drop := remove_one |}.

#[export] Instance ledger_law : AccountantLaw id ledger_accountant.
Proof.
  split; cbn.
  - intros c usd w hd w'. case_decide; by intros [= <- <-].
  - intros c usd w e w'. case_decide; by intros [= <- <-].
  - intros hd _ w w' l [= <-]. apply remove_one_perm.
  - done.
  - apply remove_one_perm.
Qed.

Definition ledger_walk : WalkHost (list f64) := {|
  wh_host := {|
    h_handler := fun _ => Some (fun n _ w => (Ok (demo_outcome (pn_id n) Pass), w));
    h_timeout := fun _ m w => let (r, w) := m w in (Some r, w);
    h_sleep := fun _ w => w; h_clock := fun _ => 0%Z; h_escalate := fun _ w => w;
    h_register := fun _ w => (Ok None, w); h_mark_running := fun _ w => w;
    h_mark_completed := fun _ _ w => w; h_mark_failed := fun _ _ w => w;
    h_reserve := fun _ _ w => (Ok None, w); h_release := fun _ w => w;
    h_validate := fun _ w => (Ok tt, w); h_project_cost := fun _ _ _ => None;
    h_shutdown := fun _ => false; h_json_input := fun _ input => quoted input |};
  wh_guards := []; wh_store := None; wh_persisted_total := fun _ => 0%Z; wh_count_persisted := fun w => w;
  wh_epoch_ms := fun _ => 0%Z; wh_default_provider := fun _ _ w => (Err ["no provider"], w);
  wh_router := None; wh_join_all := join_sequential (fun _ => 0%Z);
  wh_resolve_files := fun _ s => s; wh_max_fanout := None |}.

Definition ledger_cfg : RunConfig (list f64) := {|
  rn_host := ledger_walk; rn_accountant := Some ledger_accountant; rn_contract_id := "";
  rn_projected_usd := f64_zero; rn_policy := None; rn_run_validators := fun w => (Ok tt, w);
  rn_working_dir := "/work"; rn_glob := fun _ _ => true; rn_dag_override := None; rn_dag_env := None;
  rn_catalog := None; rn_pid := 7; rn_nanos := 9; rn_builtin_tools := []; rn_loaded_tools := [];
  rn_plugin_dirs := [] |}.

Lemma calm_join_sequential {W} held (clock : W -> Z) ws :
  (forall fo, fo ∈ ws -> calm held (fo_run fo)) -> calm held (join_sequential clock ws).
Proof.
  induction ws as [|fo ws IH]; intros Hws w; [done|]. cbn.
  pose proof (Hws fo (list_elem_of_here _ _) w) as Hfo. destruct (fo_run fo w) as [r w1]. cbn in Hfo.
  assert (Htl : calm held (join_sequential clock ws)) by (apply IH; intros; apply Hws; by right).
  specialize (Htl w1). destruct (join_sequential clock ws w1) as [f w2]. cbn in Htl.
  destruct r, f; cbn; by rewrite ?Htl.
Qed.

#[export] Instance ledger_frame : RunFrame id ledger_cfg.
Proof.
  split.
  - split; cbn; try by (intros; intros ?).
    + intros _ hd n ctx [= <-] w. done.
    + intros d m Hm w. specialize (Hm w). cbn. by destruct (m w).
  - split; cbn; try by (intros; intros ?).
    + intros gd ctx Hin. by apply not_elem_of_nil in Hin.
    + apply calm_join_sequential.
  - by intros w.
Qed.

Definition ledger_run (w : list f64) : flow (option PipelineResult) * list f64 :=
  @run_graph tree_iter no_fmt ascii_tables mute_planner ascii_lowercase (list f64) ledger_cfg 9
    (graph_of fan_dot) "go" [] w.

(** The fan-out reserves for the run and both workers; an outstanding reservation of someone
    else survives, and with two of them the second worker is refused. *)
Lemma run_budget_balanced_witness :
  (exists r, (ledger_run [f64_one]).1 = Val (Some r) /\ pr_success r = true) /\
  (exists e, (ledger_run [f64_one; f64_one]).1 = Bail e) /\
  id (ledger_run [f64_one]).2 ≡ₚ id [f64_one] /\
  id (ledger_run [f64_one; f64_one]).2 ≡ₚ id [f64_one; f64_one].
Proof.
  split_and!.
  - eexists. split; [vm_compute; reflexivity|done].
  - eexists. vm_compute; reflexivity.
  - unfold ledger_run. apply (@run_budget_balanced tree_iter no_fmt ascii_tables mute_planner ascii_lowercase (list f64) id
      ledger_cfg ledger_accountant 9 (graph_of fan_dot) "go" [] [f64_one]); [apply _..|done|by vm_compute].
  - unfold ledger_run. apply (@run_budget_balanced tree_iter no_fmt ascii_tables mute_planner ascii_lowercase (list f64) id
      ledger_cfg ledger_accountant 9 (graph_of fan_dot) "go" [] [f64_one; f64_one]); [apply _..|done|by vm_compute].
Defined.
