(* ===== verification/Handlers.v ===== *)
(** * Handlers without a language model

    Model of the handlers of [crates/octos-pipeline/src/handler.rs] that the executor
    registers besides [CodergenHandler] ([GateHandler], [NoopHandler],
    [ShellCheckHandler], [NotifyHandler], [WaitHandler]), of the unregistered
    [ShellHandler], and of the small functions that prepare a codergen call
    ([compact_pipeline_instruction] with the token estimate of
    [crates/octos-llm/src/context.rs], [parse_reasoning_effort]). *)

From S2P Require Import Prelude RustStr RustNum Fidelity Graph Condition Parser ToolPolicy Validate Ir.
From S2P Require Import Profile Compose Host Dispatch Dag DagSafety.
From Stdlib Require Import SpecFloat.

(** ** Services *)

Record ProcessOutput := { po_stdout : string; po_stderr : string; po_success : bool }.

(** What the handlers use of the system, over a world [W]. *)
Record LocalHost (W : Type) := {
  (** [sh -c command] in a directory under [tokio::time::timeout]: [None] on expiry,
      an error when the process cannot be started. *)
  lh_shell : Duration -> string -> string -> W -> option (result string ProcessOutput) * W;
  lh_sleep : Duration -> W -> W;
  (** [tokio::time::Instant::now], in nanoseconds, and [Instant + Duration], which panics
      when the sum is not representable. *)
  lh_now : W -> Z;
  lh_instant_add : Z -> Duration -> option Z;
  (** [Path::exists]. *)
  lh_exists : W -> string -> bool;
  (** The subagent output router: [append] and then [mark_terminal], errors ignored. *)
  lh_router : option (string -> string -> string -> W -> W);
  lh_session_key : option string;
  lh_working_dir : string
}.
Arguments lh_shell {W} _ _ _ _ _.
Arguments lh_sleep {W} _ _ _.
Arguments lh_now {W} _ _.
Arguments lh_instant_add {W} _ _ _.
Arguments lh_exists {W} _ _ _.
Arguments lh_router {W} _.
Arguments lh_session_key {W} _.
Arguments lh_working_dir {W} _.

Definition local_outcome (id : string) (s : OutcomeStatus) (content : string) : NodeOutcome :=
  {| no_node_id := id; no_status := s; no_content := content;
     no_token_usage := TokenUsage_default; no_files_modified := [] |}.

(** ** Gate *)

(** Severity ladder: Error, Fail, Skipped, Pass. *)
Definition aggregate_status (os : list NodeOutcome) : OutcomeStatus :=
  if existsb (fun o => bool_decide (no_status o = Error)) os then Error
  else if existsb (fun o => bool_decide (no_status o = Fail)) os then Fail
  else if existsb (fun o => bool_decide (no_status o = Skipped)) os then Skipped
  else Pass.

Definition synthesize_predecessor_outcome (gate_id : string) (ctx : HandlerContext) : NodeOutcome :=
  match hc_predecessor_outcomes ctx with
  | [] => local_outcome (gate_id +:+ "__no_predecessor") Pass (hc_input ctx)
  | [o] => o
  | os => local_outcome (gate_id +:+ "__fan_in") (aggregate_status os) (hc_input ctx)
  end.

Definition gate_execute `{RustFmt} (node : PipelineNode) (ctx : HandlerContext) : result report NodeOutcome :=
  let cond_str := default "true" (pn_prompt node) in
  let pred := synthesize_predecessor_outcome (pn_id node) ctx in
  if decide (cond_str = "true") then Ok (local_outcome (pn_id node) Pass (no_content pred))
  else
    expr ← parse_condition cond_str;
    Ok (local_outcome (pn_id node) (if evaluate expr pred then Pass else Fail) (no_content pred)).

(** ** Wait *)

Inductive WaitSpec :=
| WaitSeconds (secs : Z)
| WaitFile (path : string)
| WaitUnknown.

Definition wait_seconds (prompt : string) : option Z :=
  s ← strip_prefix "wait " prompt;
  d ← strip_suffix "s" s;
  parse_u64 d.

Definition wait_spec (prompt : string) : WaitSpec :=
  match wait_seconds prompt with
  | Some secs => WaitSeconds secs
  | None =>
      match cond ← strip_prefix "wait until " prompt; strip_prefix "file_exists:" cond with
      | Some path => WaitFile (trim path)
      | None => WaitUnknown
      end
  end.

Section handlers.
Context `{RustFmt} {W : Type} (lh : LocalHost W).

Definition gate_handler : Handler W := fun node ctx w => (gate_execute node ctx, w).

Definition noop_handler : Handler W := fun node ctx w =>
  (Ok (local_outcome (pn_id node) Pass (hc_input ctx)), w).

Definition with_stderr (stdout stderr : string) : string :=
  if decide (stderr = "") then stdout else stdout +:+ nl ("--- stderr ---" +:+ nl stderr).

Definition shell_check_handler : Handler W := fun node ctx w =>
  match pn_prompt node with
  | None => (bail ("shell_check node '" +:+ pn_id node +:+ "' has no command"), w)
  | Some command =>
      let secs := default 60%Z (pn_timeout_secs node) in
      match lh_shell lh (from_secs secs) command (lh_working_dir lh) w with
      | (None, w) =>
          (bail ("shell_check '" +:+ pn_id node +:+ "' timed out after " +:+ pretty secs +:+ "s"), w)
      | (Some (Err e), w) => (bail ("shell_check '" +:+ pn_id node +:+ "' failed to spawn: " +:+ e), w)
      | (Some (Ok out), w) =>
          (Ok (local_outcome (pn_id node) (if po_success out then Pass else Fail)
                 ("$ " +:+ command +:+ nl (with_stderr (from_utf8_lossy (po_stdout out))
                                             (from_utf8_lossy (po_stderr out))))), w)
      end
  end.

Definition shell_handler : Handler W := fun node ctx w =>
  let command := default (hc_input ctx) (pn_prompt node) in
  let secs := default 300%Z (pn_timeout_secs node) in
  match lh_shell lh (from_secs secs) command (lh_working_dir lh) w with
  | (Some (Ok out), w) =>
      (Ok (local_outcome (pn_id node) (if po_success out then Pass else Fail)
             (with_stderr (from_utf8_lossy (po_stdout out)) (from_utf8_lossy (po_stderr out)))), w)
  | (Some (Err e), w) => (Ok (local_outcome (pn_id node) Error ("Shell error: " +:+ e)), w)
  | (None, w) =>
      (Ok (local_outcome (pn_id node) Error ("Shell timed out after " +:+ pretty secs +:+ "s")), w)
  end.

Definition notify_handler : Handler W := fun node _ w =>
  let message := default "pipeline notification" (pn_prompt node) in
  let w := match lh_router lh with
           | Some send => send (default "pipeline" (lh_session_key lh)) ("notify-" +:+ pn_id node) message w
           | None => w
           end in
  (Ok (local_outcome (pn_id node) Pass message), w).

(** The polling loop: [None] when the fuel runs out. *)
Fixpoint wait_poll (fuel : nat) (node : PipelineNode) (secs : Z) (path : string) (deadline : Z)
  : io W (option NodeOutcome) :=
  match fuel with
  | O => mret None
  | S fuel => fun w =>
      if lh_exists lh w path then
        (Val (Some (local_outcome (pn_id node) Pass ("condition met: " +:+ path +:+ " exists"))), w)
      else if (deadline <=? lh_now lh w)%Z then
        (Val (Some (local_outcome (pn_id node) Fail
           ("timed out after " +:+ pretty secs +:+ "s waiting for " +:+ path))), w)
      else wait_poll fuel node secs path deadline (lh_sleep lh (from_secs 1) w)
  end.

Definition wait_execute (fuel : nat) (node : PipelineNode) : io W (option NodeOutcome) :=
  let secs := default 300%Z (pn_timeout_secs node) in
  let prompt := default "" (pn_prompt node) in
  match wait_spec prompt with
  | WaitSeconds n =>
      _ ← effect (lh_sleep lh (from_secs n));
      mret (Some (local_outcome (pn_id node) Pass ("waited " +:+ pretty n +:+ "s")))
  | WaitFile path => fun w =>
      match lh_instant_add lh (lh_now lh w) (from_secs secs) with
      | None => (Panic, w)
      | Some deadline => wait_poll fuel node secs (path_join (lh_working_dir lh) path) deadline w
      end
  | WaitUnknown =>
      mret (Some (local_outcome (pn_id node) Pass ("unrecognized wait spec: " +:+ prompt)))
  end.
End handlers.

(** ** Preparing a codergen call *)

Inductive ReasoningEffort := Disabled | Low | Medium | High | Max.

Definition parse_reasoning_effort (raw : string) : option ReasoningEffort :=
  let s := to_ascii_lowercase (trim raw) in
  if decide (s = "none" \/ s = "off" \/ s = "disabled") then Some Disabled
  else if decide (s = "low") then Some Low
  else if decide (s = "medium") then Some Medium
  else if decide (s = "high") then Some High
  else if decide (s = "max") then Some Max
  else None.

Local Open Scope Z_scope.

Definition DEFAULT_PIPELINE_MAX_OUTPUT_TOKENS : Z := 4096.
Definition PIPELINE_INPUT_COMPACTION_RESERVE_TOKENS : Z := 1024.

(** [f32] arithmetic: [n as f32], division, and the saturating cast to [u32]. *)
Definition f32_of_Z (n : Z) : spec_float := binary_normalize 24 128 n 0 false.
Definition f32_div (x y : spec_float) : spec_float := SFdiv 24 128 x y.
Definition f32_to_u32 (x : spec_float) : Z :=
  match x with
  | S754_finite false m e => Z.min u32_max (if (0 <=? e)%Z then Zpos m * 2 ^ e else Zpos m / 2 ^ (- e))%Z
  | S754_infinity false => u32_max
  | _ => 0%Z
  end.
(** [1.5f32]. *)
Definition f32_1_5 : spec_float := S754_finite false 12582912 (-23).

Fixpoint ascii_count (s : string) : Z :=
  match s with
  | EmptyString => 0
  | String b s => (if (byte_val b <? 128)%N then 1 else 0) + ascii_count s
  end.

Definition estimate_tokens (text : string) : Z :=
  let ascii_chars := ascii_count text mod 2 ^ 32 in
  let non_ascii_chars := (Z.of_nat (length (chars text)) - ascii_chars) mod 2 ^ 32 in
  let tokens := u32_add (ascii_chars / 4) (f32_to_u32 (f32_div (f32_of_Z non_ascii_chars) f32_1_5)) in
  Z.max tokens 1.

Definition input_budget (context_window : Z) (max_output_tokens : option Z) : Z :=
  let reserved := u32_saturating_add (default DEFAULT_PIPELINE_MAX_OUTPUT_TOKENS max_output_tokens)
                    PIPELINE_INPUT_COMPACTION_RESERVE_TOKENS in
  Z.max (Z.min (context_window / 2) (u32_saturating_sub context_window reserved)) 512.

Definition compaction_marker (n : Z) : string :=
  nl (nl ("[... pipeline input compacted: omitted approximately " +:+ pretty n +:+ " tokens ...]"
          +:+ nl (nl ""))).

(** The saturations of [usize] arithmetic are not reached: [budget] is a [u32]. *)
Definition compact_pipeline_instruction (input : string) (context_window max_output_tokens : option Z)
  : string :=
  match context_window with
  | None => input
  | Some window =>
      let budget := input_budget window max_output_tokens in
      if (estimate_tokens input <=? budget)%Z then input
      else
        let max_chars := Z.max (budget * 4) 256 in
        let cs := chars input in
        let char_count := Z.of_nat (length cs) in
        if (char_count <=? max_chars)%Z then input
        else
          let head_chars := max_chars * 7 / 10 in
          let tail_chars := max_chars - head_chars in
          of_chars (take (Z.to_nat head_chars) cs)
          +:+ compaction_marker (u32_saturating_sub (estimate_tokens input) budget)
          +:+ of_chars (drop (Z.to_nat (char_count - tail_chars)) cs)
  end.

Local Close Scope Z_scope.

(** ** Gates *)

Lemma existsb_status s os :
  existsb (fun o => bool_decide (no_status o = s)) os = false <-> forall o, o ∈ os -> no_status o <> s.
Proof.
  rewrite <- not_true_iff_false, existsb_exists. split.
  - intros Hn o Ho Hs. apply Hn. exists o. split; [by apply list_elem_of_In|]. by apply bool_decide_eq_true.
  - intros Hn (o & Ho & Hs%bool_decide_eq_true). by apply (Hn o); [apply list_elem_of_In|].
Qed.

(** The status a gate sees passes only when every direct predecessor passed. *)
Lemma aggregate_pass os : aggregate_status os = Pass <-> forall o, o ∈ os -> no_status o = Pass.
Proof.
  unfold aggregate_status. split.
  - intros Ha o Ho. destruct (existsb _ os) eqn:He; [done|]. destruct (existsb _ os) eqn:Hf in Ha; [done|].
    destruct (existsb _ os) eqn:Hs in Ha; [done|]. rewrite existsb_status in He, Hf, Hs.
    specialize (He o Ho). specialize (Hf o Ho). specialize (Hs o Ho). by destruct (no_status o).
  - intros Hall. by rewrite !(proj2 (existsb_status _ _)) by (intros o Ho; by rewrite Hall).
Qed.

Definition PASS_CONDITION : string := "outcome.status == " +:+ quoted "pass".

Lemma pass_condition_parses `{RustFmt} :
  exists e, parse_condition PASS_CONDITION = Ok e /\
    forall o, evaluate e o = true <-> no_status o = Pass.
Proof.
  eexists. split; [vm_compute; reflexivity|]. intros [id st c u f].
  by destruct st; vm_compute; split.
Qed.

(**  A gate on [outcome.status == pass] is fail-closed: with at least one direct
    predecessor it passes exactly when all of them passed (one that failed, erred or was
    skipped is enough to close it), it never errs, and it hands on the text of its only
    predecessor or the joined input.  A gate without a prompt, as every gate of the typed
    palette is, passes whatever its predecessors did. *)
Theorem gate_fail_closed `{RustFmt} (node : PipelineNode) (ctx : HandlerContext) :
  (pn_prompt node = Some PASS_CONDITION -> hc_predecessor_outcomes ctx <> [] ->
   exists o, gate_execute node ctx = Ok o /\
     (no_status o = Pass <-> forall p, p ∈ hc_predecessor_outcomes ctx -> no_status p = Pass)) /\
  (pn_prompt node = None -> exists o, gate_execute node ctx = Ok o /\ no_status o = Pass).
Proof.
  split; intros Hp; [intros Hne|]; unfold gate_execute; rewrite Hp; cbn zeta.
  - change (default "true" (Some PASS_CONDITION)) with PASS_CONDITION. destruct pass_condition_parses as (e & He & Hev). rewrite decide_False by done. rewrite He. cbn.
    eexists. split; [reflexivity|]. cbn [no_status local_outcome].
    specialize (Hev (synthesize_predecessor_outcome (pn_id node) ctx)).
    rewrite <- (aggregate_pass (hc_predecessor_outcomes ctx)).
    transitivity (evaluate e (synthesize_predecessor_outcome (pn_id node) ctx) = true); [by destruct (evaluate _ _)|].
    rewrite Hev. unfold synthesize_predecessor_outcome.
    destruct (hc_predecessor_outcomes ctx) as [|o [|o' os]]; [done| |done].
    rewrite aggregate_pass. set_solver.
  - rewrite decide_True by done. by eexists.
Qed.

Definition mixed_ctx : HandlerContext := {|
  hc_input := "both"; hc_completed := ∅;
  hc_predecessor_outcomes := [local_outcome "a" Pass "one"; local_outcome "b" Skipped "two"] |}.

Definition gate_node : PipelineNode := set_prompt (PipelineNode_default "g") (Some PASS_CONDITION).

Lemma gate_fail_closed_witness :
  exists o, @gate_execute no_fmt gate_node mixed_ctx = Ok o /\
    (no_status o = Pass <-> forall p, p ∈ hc_predecessor_outcomes mixed_ctx -> no_status p = Pass).
Proof. by apply (@gate_fail_closed no_fmt gate_node mixed_ctx). Defined.

(** ** Waiting *)

(** What is relied on of the clock: time does not run backwards over a sleep and at least
    the time slept passes; the deadline of [Instant + Duration] is the sum. *)
Class ClockLaw {W} (lh : LocalHost W) : Prop := {
  sleep_advances d w : (0 <= d)%Z -> (lh_now lh w + d <= lh_now lh (lh_sleep lh d w))%Z;
  instant_add_sum t d t' : lh_instant_add lh t d = Some t' -> t' = (t + d)%Z
}.

Lemma wait_poll_spec {W} (lh : LocalHost W) `{!ClockLaw lh} fuel node secs path deadline w :
  (deadline - lh_now lh w <= Z.of_nat fuel * 10 ^ 9)%Z ->
  exists o w', wait_poll lh (S fuel) node secs path deadline w = (Val (Some o), w') /\
    ((no_status o = Pass /\ lh_exists lh w' path = true) \/
     (no_status o = Fail /\ lh_exists lh w' path = false /\ (deadline <= lh_now lh w')%Z)).
Proof.
  revert w; induction fuel as [|fuel IH]; intros w Hf; cbn [wait_poll];
    (destruct (lh_exists lh w path) eqn:He; [do 2 eexists; split; [reflexivity|by left]|]);
    (destruct (Z.leb_spec deadline (lh_now lh w)); [do 2 eexists; split; [reflexivity|by right]|]).
  - lia.
  - apply IH. pose proof (sleep_advances (from_secs 1) w ltac:(done)) as Hs.
    unfold from_secs in *. lia.
Qed.

(**  Waiting ends and tells the truth: for every wait node and every clock that advances
    by the time slept, [execute] returns after at most one poll per second of the timeout;
    a wait for a file passes only if the file is there, and fails only when it is absent
    and the timeout is over.  (The handler panics only if the deadline is not a
    representable instant.) *)
Theorem wait_ends {W : Type} (lh : LocalHost W) `{!ClockLaw lh} (node : PipelineNode) (fuel : nat) (w : W) :
  let secs := default 300%Z (pn_timeout_secs node) in
  (0 <= secs < Z.of_nat fuel)%Z ->
  match wait_execute lh fuel node w with
  | (Val r, w') =>
      exists o, r = Some o /\
        forall path, wait_spec (default "" (pn_prompt node)) = WaitFile path ->
          let p := path_join (lh_working_dir lh) path in
          (no_status o = Pass /\ lh_exists lh w' p = true) \/
          (no_status o = Fail /\ lh_exists lh w' p = false /\
           (lh_now lh w + from_secs secs <= lh_now lh w')%Z)
  | (Bail _, _) => False
  | (Panic, _) => lh_instant_add lh (lh_now lh w) (from_secs secs) = None
  end.
Proof.
  intros secs Hf. unfold wait_execute. fold secs. destruct (wait_spec _) as [n|path|] eqn:Hspec.
  - eexists. split; [reflexivity|]. done.
  - destruct (lh_instant_add _ _ _) as [deadline|] eqn:Hadd; [|done].
    apply instant_add_sum in Hadd as ->. destruct fuel as [|fuel]; [lia|].
    destruct (wait_poll_spec lh fuel node secs (path_join (lh_working_dir lh) path)
      (lh_now lh w + from_secs secs)%Z w) as (o & w' & -> & Ho); [unfold from_secs; lia|].
    exists o. split; [done|]. by intros p [= <-].
  - eexists. split; [reflexivity|]. done.
Qed.

(** A clock that only moves when someone sleeps; the file appears after three seconds. *)
Definition sleepy_host : LocalHost Z := {|
  lh_shell := fun _ cmd _ w => (Some (Ok {| po_stdout := cmd; po_stderr := ""; po_success := true |}), w);
  lh_sleep := fun d w => (w + d)%Z; lh_now := fun w => w;
  lh_instant_add := fun t d => if (t + d <? 2 ^ 63 * 10 ^ 9)%Z then Some (t + d)%Z else None;
  lh_exists := fun w p => bool_decide (p = "/work/done.txt") && (from_secs 3 <=? w)%Z;
  lh_router := None; lh_session_key := None; lh_working_dir := "/work" |}.

#[export] Instance sleepy_clock : ClockLaw sleepy_host.
Proof. split; cbn; intros; [lia|]. case_match; by simplify_eq. Qed.

Definition wait_node (prompt : string) (secs : Z) : PipelineNode :=
  compile_node {| in_id := "w"; in_kind := Ir.Wait None (Some prompt) (Some secs) |}.

Lemma wait_ends_witness :
  (exists o, wait_execute sleepy_host 11 (wait_node "file_exists:done.txt" 10) 0%Z
             = (Val (Some o), from_secs 3) /\ no_status o = Pass) /\
  exists o, wait_execute sleepy_host 3 (wait_node "file_exists:done.txt" 2) 0%Z
            = (Val (Some o), from_secs 2) /\
    forall path, wait_spec "wait until file_exists:done.txt" = WaitFile path ->
      let p := path_join "/work" path in
      (no_status o = Pass /\ lh_exists sleepy_host (from_secs 2) p = true) \/
      (no_status o = Fail /\ lh_exists sleepy_host (from_secs 2) p = false /\
       (0 + from_secs 2 <= from_secs 2)%Z).
Proof.
  split; [eexists; split; [vm_compute; reflexivity|done]|].
  pose proof (wait_ends sleepy_host (wait_node "file_exists:done.txt" 2) 3 0%Z) as Hw.
  replace (wait_execute sleepy_host 3 (wait_node "file_exists:done.txt" 2) 0%Z)
    with (Val (Some (local_outcome "w" Fail "timed out after 2s waiting for /work/done.txt")), from_secs 2) in *
    by (by vm_compute).
  destruct Hw as (o & [= <-] & Ho); [by vm_compute|]. eexists. split; [reflexivity|exact Ho].
Defined.

(** *** Wait nodes of typed programs *)

Lemma resolve_plain variables (s : string) b :
  is_ascii s = true -> str_forall (fun c => negb (bool_decide (c = "{"%char))) (s +:+ String b "") = true ->
  (byte_val b <? 128)%N = true -> is_whitespace (byte_val b) = false ->
  resolve_prompt variables (s +:+ String b "") = s +:+ String b "".
Proof.
  intros Hs Hn Hb Hw. unfold resolve_prompt. rewrite replace_absent by done.
  replace (foldl _ _ variables) with (s +:+ String b ""); [by apply trim_end_visible|].
  induction variables as [|[k v] variables IH]; [done|]. cbn [foldl].
  change ("{" +:+ k +:+ "}") with (String "{" (k +:+ "}")). by rewrite replace_absent.
Qed.

(** A wait of a typed program for a number of seconds reaches the handler as such: the
    compiled prompt, after the substitution of variables, reads back as the number. *)
Lemma compiled_wait_seconds variables id secs cond timeout :
  (0 <= secs <= u64_max)%Z ->
  let node := compile_node {| in_id := id; in_kind := Ir.Wait (Some secs) cond timeout |} in
  wait_spec (resolve_prompt variables (default "" (pn_prompt node))) = WaitSeconds secs.
Proof.
  intros Hs node. change (default "" (pn_prompt node)) with ("wait " +:+ pretty secs +:+ "s").
  rewrite <- str_app_assoc. rewrite resolve_plain; [| | |done|done].
  - unfold wait_spec, wait_seconds. rewrite str_app_assoc, strip_prefix_app. cbn.
    rewrite strip_suffix_app. cbn. unfold parse_u64. by rewrite parse_uint_pretty.
  - rewrite is_ascii_app. cbn. rewrite is_ascii_forall. apply pretty_Z_forall; [|lia].
    intros y. unfold pretty_N_char. by repeat case_match.
  - rewrite !str_forall_app. cbn. rewrite andb_true_r. apply pretty_Z_forall; [|lia].
    intros y. unfold pretty_N_char. by repeat case_match.
Qed.

(** A condition the handler does not know (anything but [file_exists:]) is not waited for:
    the node passes at once, although the palette documents [until_condition] as an
    expression that is polled until it is true or the timeout elapses. *)
Lemma unknown_condition_passes :
  exists o, wait_execute sleepy_host 1 (wait_node "ci_green" 600) 0%Z = (Val (Some o), 0%Z) /\
    no_status o = Pass.
Proof. eexists. split; [vm_compute; reflexivity|done]. Qed.

(** ** The shell behind [shell_check] *)

Definition wipe_ir : PipelineIr := {|
  ir_id := "p"; ir_label := None;
  ir_nodes := [{| in_id := "start"; in_kind := Ir.ShellCheck "rm -rf ." None |}]; ir_edges := [] |}.

Definition recording_host : LocalHost (list string) := {|
  lh_shell := fun _ cmd _ w => (Some (Ok {| po_stdout := ""; po_stderr := ""; po_success := true |}), w ++ [cmd]);
  lh_sleep := fun _ w => w; lh_now := fun _ => 0%Z; lh_instant_add := fun t d => Some (t + d)%Z;
  lh_exists := fun _ _ => false; lh_router := None; lh_session_key := None; lh_working_dir := "/work" |}.

(** Validation bans the shell handler, and the L2 profile bans it again, but a [shell_check]
    node hands its prompt to [sh -c] all the same: a typed program with an arbitrary command
    composes under the L2 profile, its graph passes validation, and executing its node runs
    the command. *)
Lemma shell_check_runs_shell :
  exists g node,
    @compose_l2 tree_iter no_fmt (demo_reader wipe_ir) "program" = Ok g /\
    @validate tree_iter no_fmt g = Ok tt /\ pg_nodes g !! "start" = Some node /\
    pn_handler node = Graph.ShellCheck /\
    forall ctx, (shell_check_handler recording_host node ctx []).2 = ["rm -rf ."].
Proof.
  do 2 eexists. split; [vm_compute; reflexivity|]. split; [by vm_compute|].
  split; [vm_compute; reflexivity|]. done.
Qed.

(** ** Compaction of the instruction *)

(** What is sent is the input, or a head and a tail of it around the marker, together
    [max_chars] characters, under a budget between 512 tokens and half of the window. *)
Lemma compact_instruction_spec input window max_output :
  let out := compact_pipeline_instruction input (Some window) max_output in
  let budget := input_budget window max_output in
  (512 <= budget <= Z.max 512 (window / 2))%Z /\
  (out = input \/
   exists head mid tail n, chars input = head ++ mid ++ tail /\
     out = of_chars head +:+ compaction_marker n +:+ of_chars tail /\
     Z.of_nat (length head + length tail) = (budget * 4)%Z).
Proof.
  intros out budget. split; [unfold budget, input_budget; lia|].
  unfold out, compact_pipeline_instruction. fold budget.
  assert (Hb : (512 <= budget)%Z) by (unfold budget, input_budget; lia).
  destruct (Z.leb_spec (estimate_tokens input) budget); [by left|].
  replace (Z.max (budget * 4) 256) with (budget * 4)%Z by lia.
  destruct (Z.leb_spec (Z.of_nat (length (chars input))) (budget * 4)%Z); [by left|].
  right. set (cs := chars input) in *. set (hc := (budget * 4 * 7 / 10)%Z).
  set (tc := (budget * 4 - hc)%Z). assert (Hhc : (0 <= hc <= budget * 4)%Z).
  { unfold hc. split; [apply Z.div_pos; lia|]. apply Z.div_le_upper_bound; lia. }
  exists (take (Z.to_nat hc) cs), (take (length cs - Z.to_nat tc - Z.to_nat hc) (drop (Z.to_nat hc) cs)),
    (drop (length cs - Z.to_nat tc) cs). eexists. split_and!.
  - replace (drop (length cs - Z.to_nat tc) cs)
      with (drop (length cs - Z.to_nat tc - Z.to_nat hc) (drop (Z.to_nat hc) cs)).
    { by rewrite take_drop, take_drop. }
    rewrite drop_drop. f_equal. lia.
  - replace (length cs - Z.to_nat tc) with (Z.to_nat (Z.of_nat (length cs) - tc)) by lia. reflexivity.
  - rewrite length_take, length_drop. lia.
Qed.
