(* ===== verification/Tool.v ===== *)
(** * The [run_pipeline] tool: policies and bookkeeping

    Model of the decision and bookkeeping functions of
    [crates/octos-pipeline/src/tool.rs]: the wall-clock timeout of a run, the operator's
    allow-list and the one-run-at-a-time guard, what counts as a pipeline name, run ids, the
    retention of run directories, timestamps, and the bounded message of a failed
    preflight.  Environment variables, the clock, the process id and the directory listing
    are arguments. *)

From S2P Require Import Prelude RustStr RustNum Fidelity Graph Condition Validate Host Dispatch.
From S2P Require Import Dag Guard Checkpoint Fanout Run.

(** ** Timeouts *)

Definition PIPELINE_TIMEOUT_MIN_SECS : Z := 60.
Definition PIPELINE_TIMEOUT_MAX_SECS : Z := 3600.
Definition PIPELINE_TIMEOUT_DEFAULT_SECS : Z := 1800.

(** [Ord::clamp] panics when the bounds are crossed. *)
Definition clamp (x lo hi : Z) : option Z :=
  if (lo <=? hi)%Z then Some (Z.min (Z.max x lo) hi) else None.

(** [OCTOS_PIPELINE_TIMEOUT_SECS]. *)
Definition operator_pipeline_timeout (env : option string) : option Z :=
  v ← env; n ← parse_u64 (trim v); if (0 <? n)%Z then Some n else None.

Definition resolve_pipeline_timeout_with_ceiling (llm_value dot_default : option Z) (ceiling : Z)
  : option Z :=
  clamp (default PIPELINE_TIMEOUT_DEFAULT_SECS
           (match llm_value with Some v => Some v | None => dot_default end))
    PIPELINE_TIMEOUT_MIN_SECS ceiling.

(** [OCTOS_PIPELINE_TIMEOUT_MAX_SECS]. *)
Definition pipeline_timeout_ceiling (env : option string) : Z :=
  match v ← env; parse_u64 (trim v) with
  | Some v => Z.max v PIPELINE_TIMEOUT_MAX_SECS
  | None => PIPELINE_TIMEOUT_MAX_SECS
  end.

Definition resolve_pipeline_timeout (env_secs env_max : option string) (llm_value dot_default : option Z)
  : option Z :=
  let llm_value := match operator_pipeline_timeout env_secs with Some v => Some v | None => llm_value end in
  resolve_pipeline_timeout_with_ceiling llm_value dot_default (pipeline_timeout_ceiling env_max).

(** The registry's backstop for the tool; [+] wraps in release builds. *)
Definition execution_timeout_secs (env_max : option string) : Z :=
  u64_wrap (pipeline_timeout_ceiling env_max + 300).

(** ** Names and the allow-list *)

(** [OCTOS_PIPELINE_IR]. *)
Definition ir_authoring_default (env : option string) : bool :=
  match env with
  | Some v => negb (bool_decide (v = "0")) && negb (eq_ignore_ascii_case v "false")
  | None => true
  end.

(** [OCTOS_PIPELINE_ALLOW]. *)
Definition pipeline_allowlist (env : option string) : option (list string) :=
  raw ← env;
  let names := filter (fun n => n <> "") (trim <$> split_on "," raw) in
  if decide (names = []) then None else Some names.

Definition allowlist_rejection (allow : list string) (name : string) (using_ir : bool) : option string :=
  if using_ir then
    Some ("typed-IR programs are disabled on this host; run one of: " +:+ String.concat ", " allow)
  else if decide (trim name ∈ allow) then None
  else Some ("pipeline '" +:+ trim name +:+ "' is not allowed on this host; run one of: "
             +:+ String.concat ", " allow).

(** The names that are running: [claim] and the guard's [Drop]. *)
Definition claim (name : string) (running : gset string) : bool * gset string :=
  if decide (name ∈ running) then (false, running) else (true, {[name]} ∪ running).
Definition release (name : string) (running : gset string) : gset string := running ∖ {[name]}.

Definition bare_byte (b : ascii) : bool :=
  is_ascii_alphanumeric (byte_val b) || bool_decide (b = "_"%char) || bool_decide (b = "-"%char).

(** [is_ascii_alphanumeric] of a [char]: one byte. *)
Definition bare_char (c : N * string) : bool :=
  (c.1 <? 128)%N && match c.2 with String b "" => bare_byte b | _ => false end.

Definition is_bare_pipeline_name (s : string) : bool :=
  negb (bool_decide (s = "")) && forallb bare_char (chars s).

Definition looks_like_inline_dot (s : string) : bool :=
  let t := trim_start s in
  starts_with "digraph " t || starts_with "digraph{" t || starts_with ("digraph" +:+ String "009" "") t
  || starts_with ("digraph" +:+ String NL "") t || starts_with ("digraph" +:+ String CR "") t.

(** ** Run ids *)

Fixpoint take_while {A} (f : A -> bool) (l : list A) : list A :=
  match l with [] => [] | x :: l => if f x then x :: take_while f l else [] end.

Definition graph_id_from_dot (dot_content : string) : string :=
  let header := match strip_prefix "digraph" (trim_start dot_content) with
                | Some rest => trim_start rest
                | None => ""
                end in
  let candidate := of_chars (take_while bare_char (chars header)) in
  if decide (candidate = "") then "pipeline" else candidate.

(** [{:09}]. *)
Fixpoint zeros (n : nat) : string := match n with O => "" | S n => String "0" (zeros n) end.
Definition pad (width : nat) (n : Z) : string :=
  let s := pretty n in zeros (width - String.length s) +:+ s.

Definition safe_char (c : N * string) : N * string := if bare_char c then c else (95%N, "_").

Definition run_id_tail (secs nanos pid counter : Z) : string :=
  pretty secs +:+ "-" +:+ pad 9 nanos +:+ "-" +:+ pretty pid +:+ "-" +:+ pretty counter.

Definition generate_run_id (graph_id : string) (secs nanos pid counter : Z) : string :=
  let safe_graph := of_chars (take 64 (safe_char <$> chars graph_id)) in
  let candidate := safe_graph +:+ "-" +:+ run_id_tail secs nanos pid counter in
  if decide (candidate = "" \/ 128 < String.length candidate) then
    "pipeline-" +:+ run_id_tail secs nanos pid counter
  else candidate.

(** ** Retention of run directories *)

Definition MAX_RETAINED_RUN_DIRS : nat := 20.

(** An entry of the runs directory; [de_mtime] is [None] when its metadata is unreadable. *)
Record DirEntry := { de_name : string; de_is_dir : bool; de_mtime : option Z }.

Definition is_run_dir (e : DirEntry) : bool := de_is_dir e && negb (bool_decide (de_name e = "latest")).
Definition entry_age (e : DirEntry) : Z := default 0%Z (de_mtime e).

(** The entries to remove, oldest first; a removal may fail and is then skipped. *)
Definition dirs_to_prune (entries : list DirEntry) (keep : nat) : list DirEntry :=
  let run_dirs := filter (fun e => is_run_dir e = true) entries in
  if decide (length run_dirs <= keep) then []
  else take (length run_dirs - keep) (sort_by (fun a b => entry_age a <=? entry_age b)%Z run_dirs).

(** ** Timestamps *)

Definition is_leap (year : Z) : bool :=
  ((year mod 4 =? 0)%Z && negb (year mod 100 =? 0)%Z) || (year mod 400 =? 0)%Z.
Definition year_days (year : Z) : Z := if is_leap year then 366 else 365.

(** [year += 1] on an [i32] wraps in release builds. *)
Definition i32_wrap (n : Z) : Z := (n + 2 ^ 31) mod 2 ^ 32 - 2 ^ 31.

(** The loop over years: [None] when the fuel runs out. *)
Fixpoint year_loop (fuel : nat) (year days : Z) : option (Z * Z) :=
  match fuel with
  | O => None
  | S fuel => if (days <? year_days year)%Z then Some (year, days)
              else year_loop fuel (i32_wrap (year + 1)) (days - year_days year)
  end.

Definition month_lens (year : Z) : list Z :=
  [31; if is_leap year then 29 else 28; 31; 30; 31; 30; 31; 31; 30; 31; 30; 31]%Z.

Fixpoint month_loop (lens : list Z) (month days : Z) : Z * Z :=
  match lens with
  | [] => (month, days)
  | m :: lens => if (days <? m)%Z then (month, days) else month_loop lens (month + 1) (days - m)
  end.

(** Every year has at least 365 days. *)
Definition year_fuel (days : Z) : nat := Z.to_nat (days / 365) + 1.

Definition unix_secs_to_ymdhms (secs : Z) : option (Z * Z * Z * Z * Z * Z) :=
  if (secs <? 0)%Z then Some (1970, 1, 1, 0, 0, 0)%Z
  else
    let sec := (secs mod 60)%Z in
    let total_mins := (secs / 60)%Z in
    let min := (total_mins mod 60)%Z in
    let total_hours := (total_mins / 60)%Z in
    let hour := (total_hours mod 24)%Z in
    let days := (total_hours / 24)%Z in
    '(year, days) ← year_loop (year_fuel days) 1970 days;
    let '(month, days) := month_loop (month_lens year) 1 days in
    Some (year, month, days + 1, hour, min, sec)%Z.

Definition systemtime_to_rfc3339 (secs : Z) : option string :=
  '(year, month, day, hour, min, sec) ← unix_secs_to_ymdhms secs;
  Some (pad 4 year +:+ "-" +:+ pad 2 month +:+ "-" +:+ pad 2 day +:+ "T" +:+ pad 2 hour +:+ ":"
        +:+ pad 2 min +:+ ":" +:+ pad 2 sec +:+ "Z").

(** ** Preflight errors *)

Definition MAX_PREFLIGHT_ERRORS : nat := 50.
Definition MAX_PREFLIGHT_ERR_LINE_BYTES : nat := 512.

Section preflight.
Context `{RustFmt}.

Definition diagnostic_line (d : LintDiagnostic) : string :=
  RuleId_code (ld_rule_id d) +:+ " (rule " +:+ pretty (ld_rule d) +:+ ", "
  +:+ GraphLocation_debug (ld_location d) +:+ "): " +:+ ld_message d.

Definition preflight_line (d : LintDiagnostic) : string :=
  let line := diagnostic_line d in
  if decide (String.length line <= MAX_PREFLIGHT_ERR_LINE_BYTES) then line
  else
    let end_ := floor_boundary line MAX_PREFLIGHT_ERR_LINE_BYTES in
    str_take end_ line +:+ "...(+" +:+ pretty (Z.of_nat (String.length line - end_)) +:+ " bytes)".

Definition format_bounded_preflight_errors (diags : list LintDiagnostic) : string :=
  let errors := filter (fun d => ld_severity d = Error_sev) diags in
  let total := length errors in
  let shown := preflight_line <$> take MAX_PREFLIGHT_ERRORS errors in
  let msg := "pipeline validation failed:" +:+ nl (String.concat (nl "") shown) in
  if decide (MAX_PREFLIGHT_ERRORS < total) then
    msg +:+ nl ("...and " +:+ pretty (Z.of_nat (total - MAX_PREFLIGHT_ERRORS)) +:+ " more error(s) (truncated)")
  else msg.
End preflight.

(** ** Timeouts stay in their range *)

(** Whatever the environment, the model and the graph ask for, the timeout of a run is at
    least a minute and at most the ceiling, and the clamp cannot panic because the ceiling
    is never lowered below the built-in hour. *)
Theorem resolve_pipeline_timeout_range (env_secs env_max : option string) (llm dot : option Z) :
  exists t, resolve_pipeline_timeout env_secs env_max llm dot = Some t /\
    (PIPELINE_TIMEOUT_MIN_SECS <= t <= pipeline_timeout_ceiling env_max)%Z /\
    (PIPELINE_TIMEOUT_MAX_SECS <= pipeline_timeout_ceiling env_max <= u64_max)%Z /\
    (forall v, operator_pipeline_timeout env_secs = Some v ->
       (PIPELINE_TIMEOUT_MIN_SECS <= v <= pipeline_timeout_ceiling env_max)%Z -> t = v).
Proof.
  assert (Hc : (PIPELINE_TIMEOUT_MAX_SECS <= pipeline_timeout_ceiling env_max <= u64_max)%Z).
  { unfold pipeline_timeout_ceiling, PIPELINE_TIMEOUT_MAX_SECS. destruct env_max as [s|]; cbn.
    - destruct (parse_u64 (trim s)) eqn:Hp; [apply parse_uint_bounds in Hp|]; unfold u64_max in *; lia.
    - unfold u64_max; lia. }
  unfold resolve_pipeline_timeout, resolve_pipeline_timeout_with_ceiling, clamp.
  unfold PIPELINE_TIMEOUT_MAX_SECS, PIPELINE_TIMEOUT_MIN_SECS in *.
  rewrite (proj2 (Z.leb_le _ _)) by lia. eexists. split; [done|]. split_and!; [lia..|].
  intros v -> Hv. cbn. lia.
Qed.

(** With the ceiling raised to within five minutes of [u64::MAX], the registry's backstop
    wraps around below the timeout it should outlast. *)
Lemma execution_timeout_wraps :
  (execution_timeout_secs (Some "18446744073709551615") < PIPELINE_TIMEOUT_MAX_SECS)%Z.
Proof. by vm_compute. Qed.

(** ** One run of a name at a time *)

(** The running names after a sequence of claims and releases. *)
Inductive RunEvent := EvClaim (name : string) | EvRelease (name : string).

(** A release is the drop of a guard, so only the holder of a name releases it. *)
Definition run_event (st : list string * gset string) (e : RunEvent) : list string * gset string :=
  let '(guards, running) := st in
  match e with
  | EvClaim name => let '(ok, running) := claim name running in
                    (if ok then name :: guards else guards, running)
  | EvRelease name => if decide (name ∈ guards)
                      then (filter (fun g => g <> name) guards, release name running)
                      else st
  end.

Lemma run_event_inv st e :
  NoDup st.1 -> (forall n, n ∈ st.1 <-> n ∈ st.2) ->
  NoDup (run_event st e).1 /\ (forall n, n ∈ (run_event st e).1 <-> n ∈ (run_event st e).2).
Proof.
  destruct st as [guards running]. cbn. intros Hnd Hag. destruct e as [name|name]; cbn.
  - unfold claim. case_decide as Hin; cbn; [done|]. rewrite <- Hag in Hin.
    split; [by constructor|]. intros n. rewrite elem_of_cons, Hag. set_solver.
  - case_decide; cbn; [|done]. split; [by apply NoDup_filter|]. intros n. unfold release.
    rewrite list_elem_of_filter, Hag. set_solver.
Qed.

(** Whatever the interleaving of claims and releases, at most one guard per name is alive,
    and the set of running names is exactly the names of the live guards. *)
Theorem claims_exclusive (es : list RunEvent) :
  NoDup (foldl run_event ([], ∅) es).1 /\
  forall n, n ∈ (foldl run_event ([], ∅) es).1 <-> n ∈ (foldl run_event ([], ∅) es).2.
Proof.
  induction es as [|e es IH] using rev_ind; [cbn; split; [constructor|set_solver]|].
  rewrite foldl_app. cbn [foldl]. apply run_event_inv; apply IH.
Qed.

(** ** Pruning keeps the newest directories *)

Lemma entry_age_total x y : (entry_age x <=? entry_age y)%Z = false -> (entry_age y <=? entry_age x)%Z = true.
Proof. lia. Qed.
Lemma entry_age_trans x y z :
  (entry_age x <=? entry_age y)%Z = true -> (entry_age y <=? entry_age z)%Z = true ->
  (entry_age x <=? entry_age z)%Z = true.
Proof. lia. Qed.

(** Pruning splits the run directories into those it removes and those it keeps: only run
    directories are removed (never [latest] or a file), [keep] of them remain when there are
    that many, and none that is removed is newer than one that stays. *)
Theorem prune_keeps_newest (entries : list DirEntry) (keep : nat) :
  exists kept, filter (fun e => is_run_dir e = true) entries ≡ₚ dirs_to_prune entries keep ++ kept /\
    length kept = Nat.min keep (length (filter (fun e => is_run_dir e = true) entries)) /\
    (forall old, old ∈ dirs_to_prune entries keep -> is_run_dir old = true /\ old ∈ entries) /\
    (forall old new, old ∈ dirs_to_prune entries keep -> new ∈ kept -> (entry_age old <= entry_age new)%Z).
Proof.
  unfold dirs_to_prune. set (ds := filter _ entries).
  case_decide as Hk; [exists ds; split_and!; [done|lia|set_solver..]|].
  set (le := fun a b => (entry_age a <=? entry_age b)%Z). set (n := length ds - keep).
  exists (drop n (sort_by le ds)). pose proof (sort_by_perm le ds) as Hp. split_and!.
  - by rewrite take_drop, Hp.
  - rewrite length_drop, Hp. lia.
  - intros old Hin. apply (subseteq_take n (sort_by le ds)) in Hin.
    apply elem_of_sort_by, list_elem_of_filter in Hin. tauto.
  - intros old new Ho Hn. pose proof (sort_by_sorted le entry_age_total entry_age_trans ds) as Hs.
    rewrite <- (take_drop n (sort_by le ds)) in Hs. apply StronglySorted_app in Hs as (Hs & _ & _).
    specialize (Hs _ _ Ho Hn). unfold le in Hs. lia.
Qed.

(** ** The calendar *)

(** Days from 1970-01-01 to the first day of [year]. *)
Definition days_before_year (year : Z) : Z :=
  (365 * (year - 1970) + ((year - 1969) / 4 - (year - 1901) / 100 + (year - 1601) / 400))%Z.

Definition days_before_month (year month : Z) : Z :=
  foldr Z.add 0%Z (take (Z.to_nat (month - 1)) (month_lens year)).

Lemma days_before_year_step year :
  days_before_year (year + 1) = (days_before_year year + year_days year)%Z.
Proof.
  unfold days_before_year, year_days, is_leap.
  destruct (year mod 4 =? 0)%Z eqn:H4, (year mod 100 =? 0)%Z eqn:H100, (year mod 400 =? 0)%Z eqn:H400;
    cbn; Z.div_mod_to_equations; lia.
Qed.

Lemma year_days_bounds year : (365 <= year_days year <= 366)%Z.
Proof. unfold year_days. case_match; lia. Qed.

Lemma i32_wrap_small n : (- 2 ^ 31 <= n < 2 ^ 31)%Z -> i32_wrap n = n.
Proof. intros Hn. unfold i32_wrap. rewrite Z.mod_small; lia. Qed.

(** The loop finds the year the day falls in, within its fuel. *)
Lemma year_loop_spec (fuel : nat) (year days : Z) :
  (0 <= days < 365 * Z.of_nat fuel)%Z -> (- 2 ^ 31 <= year /\ year + Z.of_nat fuel < 2 ^ 31)%Z ->
  exists y d, year_loop fuel year days = Some (y, d) /\ (year <= y)%Z /\
    (0 <= d < year_days y)%Z /\ (days_before_year year + days = days_before_year y + d)%Z.
Proof.
  revert year days. induction fuel as [|fuel IH]; intros year days Hd Hy; [lia|]. cbn.
  pose proof (year_days_bounds year). destruct (days <? year_days year)%Z eqn:Hlt.
  - exists year, days. split_and!; [done|lia..].
  - apply Z.ltb_ge in Hlt. rewrite i32_wrap_small by lia.
    destruct (IH (year + 1) (days - year_days year))%Z as (y & d & -> & ? & ? & Heq); [lia..|].
    exists y, d. rewrite days_before_year_step in Heq. split_and!; [done|lia..].
Qed.

Lemma month_loop_spec (lens : list Z) (month days : Z) :
  (0 <= days < foldr Z.add 0 lens)%Z ->
  exists (k : nat) len d, month_loop lens month days = ((month + Z.of_nat k)%Z, d) /\ lens !! k = Some len /\
    (0 <= d < len)%Z /\ (days = foldr Z.add 0 (take k lens) + d)%Z.
Proof.
  revert month days. induction lens as [|m lens IH]; intros month days Hd; cbn in *; [lia|].
  destruct (days <? m)%Z eqn:Hlt.
  - exists 0, m, days. rewrite Z.add_0_r. split_and!; [done|done|cbn; lia..].
  - destruct (IH (month + 1) (days - m))%Z as (k & len & d & -> & ? & ? & ?); [lia|].
    exists (S k), len, d. split_and!; [f_equal; lia|done|cbn; lia..].
Qed.

Lemma month_lens_total year : foldr Z.add 0%Z (month_lens year) = year_days year.
Proof. unfold month_lens, year_days. by destruct (is_leap year). Qed.

Lemma days_before_year_mono y y' : (y <= y')%Z -> (days_before_year y <= days_before_year y')%Z.
Proof.
  intros Hy. replace y' with (y + Z.of_nat (Z.to_nat (y' - y)))%Z by lia.
  induction (Z.to_nat (y' - y)) as [|n IH]; [by rewrite Z.add_0_r|].
  rewrite Nat2Z.inj_succ, <- Z.add_1_r, Z.add_assoc, days_before_year_step.
  pose proof (year_days_bounds (y + Z.of_nat n)). lia.
Qed.

(** The first second of the year 10000. *)
Definition year_10000 : Z := 253402300800.

(** In the documented range (1970 to 9999) [unix_secs_to_ymdhms] is the proleptic
    Gregorian calendar: it returns (its loop ends within the fuel), month, day, hour, minute
    and second are in range, the day exists in that month, and the instant that the six fields name
    is exactly [secs]. *)
Theorem unix_secs_to_ymdhms_correct (secs : Z) :
  (0 <= secs < year_10000)%Z ->
  exists y mo d h mi s len, unix_secs_to_ymdhms secs = Some (y, mo, d, h, mi, s) /\
    (1970 <= y <= 9999 /\ 1 <= mo <= 12 /\ 0 <= h < 24 /\ 0 <= mi < 60 /\ 0 <= s < 60)%Z /\
    month_lens y !! Z.to_nat (mo - 1) = Some len /\ (1 <= d <= len)%Z /\
    secs = (86400 * (days_before_year y + days_before_month y mo + (d - 1)) + 3600 * h + 60 * mi + s)%Z.
Proof.
  intros Hs. unfold unix_secs_to_ymdhms. rewrite (proj2 (Z.ltb_ge _ _)) by lia. cbv zeta.
  set (days := (secs / 60 / 60 / 24)%Z).
  assert (Hd : (0 <= days < 2932897)%Z) by (unfold days, year_10000 in *; Z.div_mod_to_equations; lia).
  assert (Hf : (days < 365 * Z.of_nat (year_fuel days) <= 365 + days)%Z).
  { unfold year_fuel. rewrite Nat2Z.inj_add, Z2Nat.id by (apply Z.div_pos; lia). Z.div_mod_to_equations. lia. }
  destruct (year_loop_spec (year_fuel days) 1970 days) as (y & d & -> & Hy & Hr & Heq); [lia..|].
  change (days_before_year 1970) with 0%Z in Heq. cbn [mbind option_bind].
  destruct (month_loop_spec (month_lens y) 1 d) as (k & len & d' & -> & Hk & Hd' & Hsum);
    [by rewrite month_lens_total|].
  assert (Hk12 : k < 12) by by apply lookup_lt_Some in Hk.
  assert (H : (y <= 9999)%Z).
  { destruct (decide (y <= 9999)%Z); [done|]. pose proof (days_before_year_mono 10000 y ltac:(lia)) as Hm.
    change (days_before_year 10000) with 2932897%Z in Hm. lia. }
  exists y, (1 + Z.of_nat k)%Z, (d' + 1)%Z. do 3 eexists. exists len. split; [done|].
  unfold days_before_month. replace (Z.to_nat (1 + Z.of_nat k - 1)) with k by lia.
  split; [|split; [exact Hk|split; [lia|]]].
  - clear - Hs Hy Hk12 H. Z.div_mod_to_equations. lia.
  - clear - Hs Heq Hsum. unfold days in *. Z.div_mod_to_equations. lia.
Qed.

Lemma unix_secs_to_ymdhms_correct_witness :
  exists y mo d h mi s len, unix_secs_to_ymdhms 951782400 = Some (y, mo, d, h, mi, s) /\
    (1970 <= y <= 9999 /\ 1 <= mo <= 12 /\ 0 <= h < 24 /\ 0 <= mi < 60 /\ 0 <= s < 60)%Z /\
    month_lens y !! Z.to_nat (mo - 1) = Some len /\ (1 <= d <= len)%Z /\
    951782400%Z = (86400 * (days_before_year y + days_before_month y mo + (d - 1)) + 3600 * h + 60 * mi + s)%Z.
Proof. apply (unix_secs_to_ymdhms_correct 951782400). unfold year_10000. lia. Defined.

(** The leap day of the year 2000. *)
Example leap_day_2000 : systemtime_to_rfc3339 951782400 = Some "2000-02-29T00:00:00Z".
Proof. by vm_compute. Qed.

(** ** Run ids *)

Lemma bare_digit y : bare_byte (pretty_N_char y) = true.
Proof. unfold pretty_N_char. by repeat case_match. Qed.
Lemma digit_not_dash y : not_dash (pretty_N_char y) = true.
Proof. unfold pretty_N_char. by repeat case_match. Qed.

Lemma zeros_forall P n : P "0"%char = true -> str_forall P (zeros n) = true.
Proof. intros HP. induction n as [|n IH]; [done|]. cbn. by rewrite HP, IH. Qed.

Lemma pad_forall P width n :
  (forall y, P (pretty_N_char y) = true) -> (0 <= n)%Z -> str_forall P (pad width n) = true.
Proof.
  intros HP Hn. unfold pad. rewrite str_forall_app, pretty_Z_forall by done.
  rewrite zeros_forall; [done|exact (HP 0%N)].
Qed.

Lemma digits_val_pretty n : (0 <= n)%Z -> digits_val 0 (pretty n) = Some n.
Proof. intros Hn. destruct n as [|p|p]; [done|exact (digits_val_pretty_go (Npos p) "" eq_refl)|lia]. Qed.

Lemma digits_val_zeros n s : digits_val 0 (zeros n +:+ s) = digits_val 0 s.
Proof. induction n as [|n IH]; [done|]. cbn [zeros]. by rewrite str_cons_app. Qed.

Lemma pad_inj width n m : (0 <= n)%Z -> (0 <= m)%Z -> pad width n = pad width m -> n = m.
Proof.
  intros Hn Hm Heq. apply (f_equal (digits_val 0)) in Heq. unfold pad in Heq.
  rewrite !digits_val_zeros, !digits_val_pretty in Heq by done. congruence.
Qed.

Lemma pretty_Z_length (k : nat) z :
  0 < k -> (0 <= z < 10 ^ Z.of_nat k)%Z -> String.length (pretty z) <= k.
Proof.
  intros Hk Hz. pose proof (pretty_Z_json k z Hk Hz) as Hj.
  assert (Hlen : forall s, (Z.of_nat (String.length s) <= json_escaped_len s)%Z).
  { intros s. unfold json_escaped_len. induction s as [|b s IH]; [done|].
    pose proof (json_byte_len_bounds b). cbn in *. lia. }
  specialize (Hlen (pretty z)). lia.
Qed.

Lemma zeros_length n : String.length (zeros n) = n.
Proof. induction n as [|n IH]; [done|]. cbn. by rewrite IH. Qed.

Lemma pad_length (width : nat) n :
  0 < width -> (0 <= n < 10 ^ Z.of_nat width)%Z -> String.length (pad width n) = width.
Proof.
  intros Hw Hn. pose proof (pretty_Z_length width n Hw Hn).
  unfold pad. rewrite length_str_app, zeros_length. lia.
Qed.

(** A text that ends in a dash and a part without one splits there. *)
Lemma str_app_inj_l (s s' t : string) : s +:+ t = s' +:+ t -> s = s'.
Proof.
  intros Heq. assert (Hl : String.length s = String.length s').
  { apply (f_equal String.length) in Heq. rewrite !length_str_app in Heq. lia. }
  by rewrite <- (str_take_app s t), Heq, Hl, str_take_app.
Qed.

Lemma dash_split (s s' d d' : string) :
  str_forall not_dash d = true -> str_forall not_dash d' = true ->
  s +:+ "-" +:+ d = s' +:+ "-" +:+ d' -> s = s' /\ d = d'.
Proof.
  intros Hd Hd' Heq. pose proof (dash_suffix_inj _ _ _ _ Hd Hd' Heq) as <-.
  by apply str_app_inj_l in Heq.
Qed.

(** Text of letters, digits, [_] and [-] only is a valid identifier when it fits. *)
Lemma chars_ascii_cons b s : (byte_val b <? 128)%N = true -> chars (String b s) = (byte_val b, String b "") :: chars s.
Proof. intros Hb%N.ltb_lt. unfold chars. cbn [String.length chars_go]. by rewrite next_char_ascii. Qed.

Lemma bare_byte_ascii b : bare_byte b = true -> (byte_val b <? 128)%N = true /\ is_control (byte_val b) = false.
Proof. by destruct b as [[] [] [] [] [] [] [] []]; vm_compute. Qed.

Lemma bare_no_control s : str_forall bare_byte s = true -> existsb (fun c => is_control c.1) (chars s) = false.
Proof.
  induction s as [|b s IH]; [done|]. cbn [str_forall]. intros [[Ha Hc]%bare_byte_ascii Hs]%andb_true_iff.
  rewrite chars_ascii_cons by done. cbn. by rewrite Hc, IH.
Qed.

Lemma bare_not_contains s b p :
  str_forall bare_byte s = true -> bare_byte b = false -> contains s (String b p) = false.
Proof.
  intros Hs Hb. apply not_true_iff_false. intros (l & r & ->)%contains_spec.
  rewrite !str_forall_app in Hs. cbn in Hs. rewrite Hb, andb_false_r in Hs. done.
Qed.

Lemma bare_id_valid s :
  str_forall bare_byte s = true -> s <> "" -> String.length s <= 128 -> validate_pipeline_id s = Ok tt.
Proof.
  intros Hb Hne Hlen. unfold validate_pipeline_id. rewrite decide_False by done.
  rewrite (proj2 (Z.ltb_ge _ _)) by lia. rewrite !bare_not_contains, bare_no_control by done. done.
Qed.

Lemma safe_graph_bare cs : str_forall bare_byte (of_chars (safe_char <$> cs)) = true.
Proof.
  induction cs as [|[c bs] cs IH]; [done|]. cbn [fmap list_fmap].
  unfold safe_char at 1. destruct (bare_char (c, bs)) eqn:Hc.
  - rewrite of_chars_cons, str_forall_app, IH, andb_true_r. unfold bare_char in Hc. cbn in Hc.
    apply andb_true_iff in Hc as [_ Hc]. destruct bs as [|b []]; [done| |done]. cbn. by rewrite Hc.
  - by rewrite of_chars_cons, str_forall_app, IH.
Qed.

Section run_ids.
Context (secs nanos pid counter : Z).
Context (Hsecs : (0 <= secs <= u64_max)%Z) (Hnanos : (0 <= nanos < 10 ^ 9)%Z).
Context (Hpid : (0 <= pid <= u32_max)%Z) (Hcounter : (0 <= counter <= u64_max)%Z).

Lemma run_id_tail_bare : str_forall bare_byte (run_id_tail secs nanos pid counter) = true.
Proof.
  unfold run_id_tail. rewrite !str_forall_app, !pretty_Z_forall, pad_forall by (apply bare_digit || lia). done.
Qed.

Lemma run_id_tail_length : String.length (run_id_tail secs nanos pid counter) <= 62.
Proof.
  unfold run_id_tail. rewrite !length_str_app, pad_length by (done || lia). cbn [String.length].
  pose proof (pretty_Z_length 20 secs ltac:(lia) ltac:(unfold u64_max in *; lia)).
  pose proof (pretty_Z_length 10 pid ltac:(lia) ltac:(unfold u32_max in *; lia)).
  pose proof (pretty_Z_length 20 counter ltac:(lia) ltac:(unfold u64_max in *; lia)). lia.
Qed.

Lemma generate_run_id_shape graph_id :
  exists g, generate_run_id graph_id secs nanos pid counter = g +:+ "-" +:+ run_id_tail secs nanos pid counter
    /\ str_forall bare_byte g = true
    /\ String.length (g +:+ "-" +:+ run_id_tail secs nanos pid counter) <= 128.
Proof.
  unfold generate_run_id. case_decide as Hc.
  - exists "pipeline". split_and!; [done..|]. rewrite !length_str_app. pose proof run_id_tail_length. cbn. lia.
  - eexists. split; [done|]. split; [|apply Nat.nlt_ge; tauto].
    rewrite <- fmap_take. apply safe_graph_bare.
Qed.
End run_ids.

Lemma run_id_dashes g secs nanos pid counter :
  g +:+ "-" +:+ run_id_tail secs nanos pid counter =
  (((g +:+ "-" +:+ pretty secs) +:+ "-" +:+ pad 9 nanos) +:+ "-" +:+ pretty pid) +:+ "-" +:+ pretty counter.
Proof. unfold run_id_tail. by rewrite !str_app_assoc. Qed.

(** Every run id is a safe identifier: whatever the graph is called, for a clock in
    range and any process id and counter, [validate_pipeline_id] accepts what [generate_run_id] makes (so it
    can be used as one path component); and two ids are equal only if the second, the
    nanosecond, the process and the counter are equal, so the runs of a process, whose counter
    never repeats, never share a directory. *)
Theorem run_id_valid_unique (graph_id : string) (secs nanos pid counter : Z) :
  (0 <= secs <= u64_max)%Z -> (0 <= nanos < 10 ^ 9)%Z -> (0 <= pid <= u32_max)%Z ->
  (0 <= counter <= u64_max)%Z ->
  validate_pipeline_id (generate_run_id graph_id secs nanos pid counter) = Ok tt /\
  forall graph_id' secs' nanos' pid' counter',
    (0 <= secs' <= u64_max)%Z -> (0 <= nanos' < 10 ^ 9)%Z -> (0 <= pid' <= u32_max)%Z ->
    (0 <= counter' <= u64_max)%Z ->
    generate_run_id graph_id secs nanos pid counter = generate_run_id graph_id' secs' nanos' pid' counter' ->
    secs = secs' /\ nanos = nanos' /\ pid = pid' /\ counter = counter'.
Proof.
  intros Hs Hn Hp Hc.
  destruct (generate_run_id_shape secs nanos pid counter Hs Hn Hp Hc graph_id) as (g & -> & Hg & Hlen). split.
  - apply bare_id_valid; [|by destruct g|done].
    rewrite !str_forall_app, Hg, run_id_tail_bare by done. done.
  - intros graph_id' secs' nanos' pid' counter' Hs' Hn' Hp' Hc'.
    destruct (generate_run_id_shape secs' nanos' pid' counter' Hs' Hn' Hp' Hc' graph_id') as (g' & -> & Hg' & _).
    intros Heq. rewrite !run_id_dashes in Heq.
    apply dash_split in Heq as [Heq ->%(inj pretty)]; [|apply pretty_Z_forall; [apply digit_not_dash|lia]..].
    apply dash_split in Heq as [Heq ->%(inj pretty)]; [|apply pretty_Z_forall; [apply digit_not_dash|lia]..].
    apply dash_split in Heq as [Heq ->%pad_inj]; [|lia|lia|apply pad_forall; [apply digit_not_dash|lia]..].
    by apply dash_split in Heq as [_ ->%(inj pretty)]; [|apply pretty_Z_forall; [apply digit_not_dash|lia]..].
Qed.

Lemma run_id_valid_unique_witness :
  validate_pipeline_id (generate_run_id "deep research" 1700000000 42 4711 3) = Ok tt /\
  generate_run_id "deep research" 1700000000 42 4711 3 <> generate_run_id "deep research" 1700000000 42 4711 4.
Proof.
  destruct (run_id_valid_unique "deep research" 1700000000 42 4711 3) as [Hv Hu]; [vm_compute; by split..|].
  split; [exact Hv|]. intros Heq.
  apply Hu in Heq as (_ & _ & _ & Hc); [discriminate Hc|vm_compute; by split..].
Defined.

Example run_id_example :
  generate_run_id "deep research" 1700000000 42 4711 3 = "deep_research-1700000000-000000042-4711-3".
Proof. by vm_compute. Qed.

(** ** The preflight message is bounded *)

Section preflight_bound.
Context `{RustFmt}.

Lemma preflight_line_length d :
  (Z.of_nat (String.length (diagnostic_line d)) <= usize_max)%Z -> String.length (preflight_line d) <= 544.
Proof.
  intros Hd. unfold preflight_line. case_decide as Hl; [unfold MAX_PREFLIGHT_ERR_LINE_BYTES in Hl; lia|].
  set (line := diagnostic_line d) in *. pose proof (floor_boundary_le line MAX_PREFLIGHT_ERR_LINE_BYTES) as Hf.
  rewrite !length_str_app, length_str_take. cbn [String.length].
  pose proof (pretty_Z_length 20 (Z.of_nat (String.length line - floor_boundary line MAX_PREFLIGHT_ERR_LINE_BYTES))
    ltac:(lia) ltac:(unfold usize_max, u64_max in *; lia)).
  unfold MAX_PREFLIGHT_ERR_LINE_BYTES in *. lia.
Qed.

Lemma concat_length_le sep (l : list string) k :
  Forall (fun s => String.length s <= k) l ->
  String.length (String.concat sep l) <= length l * (k + String.length sep).
Proof.
  induction 1 as [|x l Hx Hl IH]; [done|]. destruct l as [|y l]; [cbn in *; lia|].
  change (String.concat sep (x :: y :: l)) with (x +:+ sep +:+ String.concat sep (y :: l)).
  rewrite !length_str_app. cbn [length] in *. lia.
Qed.

(** The message of a failed preflight is bounded, however many errors a graph has and
    however long its names are: at most 27,332 bytes (the preflight return bypasses the other
    ceilings).  When at most fifty errors of at most 512 bytes are found, nothing is cut: the message is the one the executor
    itself fails with. *)
Theorem preflight_message_bounded (diags : list LintDiagnostic) :
  (forall d, d ∈ diags -> (Z.of_nat (String.length (diagnostic_line d)) <= usize_max)%Z) ->
  (Z.of_nat (length diags) <= usize_max)%Z ->
  (Z.of_nat (String.length (format_bounded_preflight_errors diags)) <= 27332)%Z /\
  (length (filter (fun d => ld_severity d = Error_sev) diags) <= MAX_PREFLIGHT_ERRORS ->
   (forall d, d ∈ diags -> String.length (diagnostic_line d) <= MAX_PREFLIGHT_ERR_LINE_BYTES) ->
   format_bounded_preflight_errors diags = validation_message diags).
Proof.
  intros Hline Hlen. unfold format_bounded_preflight_errors, validation_message.
  set (errors := filter _ diags).
  assert (Hsub : forall d, d ∈ errors -> d ∈ diags) by (intros d Hd; apply list_elem_of_filter in Hd; tauto).
  pose proof (length_filter (fun d => ld_severity d = Error_sev) diags) as Hfl. fold errors in Hfl. split.
  - pose proof (concat_length_le (nl "") (preflight_line <$> take MAX_PREFLIGHT_ERRORS errors) 544) as Hc.
    rewrite length_fmap, length_take in Hc. change (String.length (nl "")) with 1 in Hc.
    assert (Hf : Forall (fun s => String.length s <= 544) (preflight_line <$> take MAX_PREFLIGHT_ERRORS errors)).
    { apply Forall_fmap, Forall_forall. intros d Hd. apply preflight_line_length, Hline, Hsub.
      by apply (subseteq_take MAX_PREFLIGHT_ERRORS errors) in Hd. }
    specialize (Hc Hf). unfold MAX_PREFLIGHT_ERRORS in *. clear Hf Hline Hsub. case_decide; unfold nl in *;
      rewrite ?length_str_app; cbn [String.length]; rewrite ?length_str_app; cbn [String.length]; [|lia].
    pose proof (pretty_Z_length 20 (Z.of_nat (length errors - 50)) ltac:(lia)
      ltac:(unfold usize_max, u64_max in *; lia)). lia.
  - intros Hn Hshort. rewrite decide_False by (unfold MAX_PREFLIGHT_ERRORS in *; lia).
    rewrite take_ge by done. do 3 f_equal. apply list_fmap_ext. intros i d Hd.
    unfold preflight_line. rewrite decide_True; [done|]. apply Hshort, Hsub, list_elem_of_lookup. eauto.
Qed.
End preflight_bound.

Definition demo_diagnostic : LintDiagnostic :=
  {| ld_rule := 4; ld_rule_id := Connectivity; ld_severity := Error_sev; ld_location := NodeLoc "a";
     ld_message := "unreachable"; ld_fix_hint := None |}.

Lemma preflight_message_bounded_witness :
  @format_bounded_preflight_errors no_fmt [demo_diagnostic; demo_diagnostic] =
  @validation_message no_fmt [demo_diagnostic; demo_diagnostic].
Proof.
  apply (@preflight_message_bounded no_fmt [demo_diagnostic; demo_diagnostic]).
  - intros d Hd. assert (d = demo_diagnostic) as -> by set_solver. by vm_compute.
  - by vm_compute.
  - vm_compute. lia.
  - intros d Hd. assert (d = demo_diagnostic) as -> by set_solver. apply Nat.leb_le. by vm_compute.
Defined.
