(* ===== verification/Stylesheet.v ===== *)
(** * Model stylesheets

    Model of [crates/octos-pipeline/src/stylesheet.rs]: rules that give a model, a token
    limit and a temperature to the nodes a selector matches, and their resolution for one
    node. *)

From S2P Require Import Prelude RustStr RustNum Graph.

Record StyleRule := {
  sr_selector : string;
  sr_model : option string;
  sr_max_tokens : option Z;
  sr_temperature : option spec_float
}.

Record ModelStylesheet := { ss_rules : list StyleRule }.

Record ResolvedStyle := {
  rs_model : option string;
  rs_max_tokens : option Z;
  rs_temperature : option spec_float
}.

Definition ResolvedStyle_default : ResolvedStyle :=
  {| rs_model := None; rs_max_tokens := None; rs_temperature := None |}.

Definition ModelStylesheet_new : ModelStylesheet := {| ss_rules := [] |}.
Definition add_rule (s : ModelStylesheet) (r : StyleRule) : ModelStylesheet :=
  {| ss_rules := ss_rules s ++ [r] |}.

Inductive SelectorKind :=
| SelWildcard
| SelHandler (kind : string)
| SelNode (id : string)
| SelOther.

#[export] Instance SelectorKind_eq_dec : EqDecision SelectorKind.
Proof. solve_decision. Defined.

Definition classify_selector (s : string) : SelectorKind :=
  if decide (s = "*") then SelWildcard
  else match strip_prefix "handler:" s with
       | Some h => SelHandler h
       | None => match strip_prefix "node:" s with
                 | Some n => SelNode n
                 | None => SelOther
                 end
       end.

Definition handler_kind_str (kind : HandlerKind) : string :=
  match kind with
  | Codergen => "codergen" | Shell => "shell" | Gate => "gate" | Noop => "noop"
  | Parallel => "parallel" | DynamicParallel => "dynamic_parallel" | ShellCheck => "shell_check"
  | Notify => "notify" | Wait => "wait"
  end.

Definition rules_of (s : ModelStylesheet) (k : SelectorKind) : list StyleRule :=
  filter (fun r => classify_selector (sr_selector r) = k) (ss_rules s).

Definition apply_rule (result : ResolvedStyle) (rule : StyleRule) : ResolvedStyle :=
  let over {A} (new old : option A) := match new with Some x => Some x | None => old end in
  {| rs_model := over (sr_model rule) (rs_model result);
     rs_max_tokens := over (sr_max_tokens rule) (rs_max_tokens result);
     rs_temperature := over (sr_temperature rule) (rs_temperature result) |}.

(** The wildcard rules, the rules of the handler, the rules of the node, each group in the
    order of the sheet. *)
Definition matching_rules (s : ModelStylesheet) (node_id : string) (handler : HandlerKind) : list StyleRule :=
  rules_of s SelWildcard ++ rules_of s (SelHandler (handler_kind_str handler)) ++ rules_of s (SelNode node_id).

Definition style_resolve (s : ModelStylesheet) (node_id : string) (handler : HandlerKind) : ResolvedStyle :=
  foldl apply_rule ResolvedStyle_default (matching_rules s node_id handler).

(** A [BTreeMap] is iterated in the order of its keys. *)
Definition from_map (m : list (string * gmap string string)) : ModelStylesheet :=
  foldl (fun s '(selector, props) =>
    add_rule s {| sr_selector := selector; sr_model := props !! "model";
                  sr_max_tokens := props !! "max_tokens" ≫= parse_u32;
                  sr_temperature := props !! "temperature" ≫= parse_f32 |})
    ModelStylesheet_new m.

(** ** Resolution *)

(** The last rule of a list that sets a field. *)
Definition last_set {A} (f : StyleRule -> option A) (rules : list StyleRule) : option A :=
  last (omap f rules).

(** Most specific first. *)
Definition cascade {A} (f : StyleRule -> option A) (s : ModelStylesheet) (node_id : string) (h : HandlerKind)
  : option A :=
  match last_set f (rules_of s (SelNode node_id)) with
  | Some x => Some x
  | None => match last_set f (rules_of s (SelHandler (handler_kind_str h))) with
            | Some x => Some x
            | None => last_set f (rules_of s SelWildcard)
            end
  end.

Lemma last_set_app {A} (f : StyleRule -> option A) l1 l2 :
  last_set f (l1 ++ l2) = match last_set f l2 with Some x => Some x | None => last_set f l1 end.
Proof.
  unfold last_set. rewrite omap_app, last_app. by destruct (last (omap f l2)).
Qed.

Lemma foldl_apply_rule rules acc :
  let over {A} (new old : option A) := match new with Some x => Some x | None => old end in
  let r := foldl apply_rule acc rules in
  rs_model r = over (last_set sr_model rules) (rs_model acc) /\
  rs_max_tokens r = over (last_set sr_max_tokens rules) (rs_max_tokens acc) /\
  rs_temperature r = over (last_set sr_temperature rules) (rs_temperature acc).
Proof.
  induction rules as [|rule rules IH] using rev_ind; [done|]. cbn zeta in *.
  rewrite foldl_app, !last_set_app. cbn [foldl]. destruct IH as (H1 & H2 & H3).
  set (r := foldl apply_rule acc rules) in *. clearbody r. unfold last_set at 1 3 5. cbn.
  rewrite H1, H2, H3. split_and!; repeat case_match; simplify_eq/=; done.
Qed.

(** Every field of a resolved style is the one the cascade gives: the last rule of the sheet
    that sets it for the node itself, else for its handler, else for all nodes; a less
    specific rule never overrides a more specific one, wherever they stand in the sheet. *)
Theorem style_resolve_cascades (s : ModelStylesheet) (node_id : string) (h : HandlerKind) :
  let r := style_resolve s node_id h in
  rs_model r = cascade sr_model s node_id h /\
  rs_max_tokens r = cascade sr_max_tokens s node_id h /\
  rs_temperature r = cascade sr_temperature s node_id h.
Proof.
  unfold style_resolve, matching_rules, cascade. cbn zeta.
  destruct (foldl_apply_rule (rules_of s SelWildcard ++ rules_of s (SelHandler (handler_kind_str h))
    ++ rules_of s (SelNode node_id)) ResolvedStyle_default) as (-> & -> & ->).
  rewrite !last_set_app. cbn. split_and!; repeat case_match; congruence.
Qed.

Example style_example :
  let s := from_map [("*", {["model" := "cheap"; "max_tokens" := "4096"]}); ("handler:gate", {["model" := "none"]});
                     ("node:a", {["model" := "strong"; "temperature" := "0.5"]})] in
  style_resolve s "a" Codergen =
  {| rs_model := Some "strong"; rs_max_tokens := Some 4096%Z;
     rs_temperature := Some (S754_finite false 8388608 (-24)) |}.
Proof. by vm_compute. Qed.
