(* ===== verification/Supervision.v ===== *)
(** * Threads, child pipelines and human input

    Model of three components of [crates/octos-pipeline/src] that stand beside the
    executor: the registry of conversation threads ([thread.rs]), the manager that
    supervises child pipelines ([manager.rs]) and the channel that asks a person
    ([human_gate.rs]). *)

From S2P Require Import Prelude RustStr RustNum Fidelity Graph Host.
From Stdlib Require Import Relations.

(** ** Threads *)

Module Threads.

Definition MAX_THREADS : nat := 1000.
Definition MAX_MESSAGES_PER_THREAD : Z := 10000.

Section registry.
(** [octos_core::Message]. *)
Context {Message : Type}.

Record Thread := { th_id : string; th_messages : list Message }.

Definition Thread_new (id : string) : Thread := {| th_id := id; th_messages := [] |}.
Definition thread_push (t : Thread) (m : Message) : Thread :=
  {| th_id := th_id t; th_messages := th_messages t ++ [m] |}.
Definition thread_len (t : Thread) : Z := Z.of_nat (length (th_messages t)).

(** The lock is held for the whole of an operation, so concurrent callers take turns. *)
Local Abbreviation ThreadRegistry := (gmap string Thread).

Definition get_messages (threads : ThreadRegistry) (thread_id : string) : list Message :=
  match threads !! thread_id with Some t => th_messages t | None => [] end.

Definition thread_append (thread_id : string) (messages : list Message) (threads : ThreadRegistry)
  : result report unit * ThreadRegistry :=
  if decide (threads !! thread_id = None /\ MAX_THREADS <= size threads) then
    (bail "thread limit exceeded (1000)", threads)
  else
    let thread := default (Thread_new thread_id) (threads !! thread_id) in
    let threads := <[thread_id := thread]> threads in
    let remaining := Z.max 0 (MAX_MESSAGES_PER_THREAD - thread_len thread) in
    if (remaining <? Z.of_nat (length messages))%Z then
      (bail ("message limit exceeded for thread '" +:+ thread_id +:+ "' (10000)"), threads)
    else (Ok tt, <[thread_id := foldl thread_push thread messages]> threads).

Definition thread_contains (threads : ThreadRegistry) (thread_id : string) : bool :=
  bool_decide (is_Some (threads !! thread_id)).

Definition thread_ids (threads : ThreadRegistry) : gset string := dom threads.

(** *** Laws *)

Definition registry_wf (threads : ThreadRegistry) : Prop :=
  size threads <= MAX_THREADS /\
  map_Forall (fun id t => th_id t = id /\ (thread_len t <= MAX_MESSAGES_PER_THREAD)%Z) threads.

Lemma foldl_push t ms :
  foldl thread_push t ms = {| th_id := th_id t; th_messages := th_messages t ++ ms |}.
Proof.
  revert t. induction ms as [|m ms IH]; intros t; cbn; [by rewrite app_nil_r; destruct t|].
  rewrite IH. cbn. by rewrite <- app_assoc.
Qed.

Lemma get_append_ne id id' t (threads : ThreadRegistry) :
  id' <> id -> get_messages (<[id := t]> threads) id' = get_messages threads id'.
Proof. intros Hne. unfold get_messages. by rewrite lookup_insert_ne. Qed.

(** [thread_append] keeps the two limits (at most 1000 threads, at most 10,000 messages in each), and
    is all or nothing for the messages: when it succeeds the thread has the new messages at its
    end, when it fails no message is added, and other threads never change. *)
Theorem append_spec (id : string) (ms : list Message) (threads threads' : ThreadRegistry) r :
  registry_wf threads -> thread_append id ms threads = (r, threads') ->
  registry_wf threads' /\
  get_messages threads' id = get_messages threads id ++ (if is_ok r then ms else []) /\
  forall id', id' <> id -> get_messages threads' id' = get_messages threads id'.
Proof.
  intros [Hsize Hwf]. unfold thread_append. case_decide as Hlim; [intros [= <- <-]; by rewrite app_nil_r|].
  set (t := default (Thread_new id) (threads !! id)).
  assert (Ht : th_id t = id /\ (thread_len t <= MAX_MESSAGES_PER_THREAD)%Z /\ get_messages threads id = th_messages t).
  { unfold t, get_messages. destruct (threads !! id) as [t'|] eqn:Hid; cbn; [|by unfold thread_len].
    by destruct (Hwf id t' Hid). }
  destruct Ht as (Hid & Hlen & Hget).
  assert (Hs : forall t', size (<[id := t']> threads) <= MAX_THREADS).
  { intros t'. destruct (threads !! id) eqn:Hl.
    - rewrite map_size_insert_Some by eauto. done.
    - rewrite map_size_insert_None by done. unfold not in Hlim. destruct (decide (MAX_THREADS <= size threads));
        [exfalso; by apply Hlim|lia]. }
  case_match eqn:Hrem; intros [= <- <-]; cbn.
  - split; [split; [done|by apply map_Forall_insert_2]|]. rewrite app_nil_r. split; [|intros; by apply get_append_ne].
    unfold get_messages at 1. by rewrite lookup_insert_eq.
  - rewrite insert_insert_eq. split; [split; [done|]|split; [|intros; by apply get_append_ne]].
    + apply map_Forall_insert_2; [|done]. rewrite foldl_push. unfold thread_len in *. cbn. rewrite length_app.
      split; [done|]. apply Z.ltb_ge in Hrem. lia.
    + unfold get_messages at 1. by rewrite lookup_insert_eq, foldl_push, Hget.
Qed.

(** A refused thread_append of too many messages still registers the new, empty thread. *)
Lemma refused_append_creates_thread id (ms : list Message) :
  (MAX_MESSAGES_PER_THREAD < Z.of_nat (length ms))%Z ->
  is_ok (thread_append id ms ∅).1 = false /\ thread_contains (thread_append id ms ∅).2 id = true.
Proof.
  intros Hlen. unfold thread_append. rewrite decide_False by (intros [_ Hs]; rewrite map_size_empty in Hs; unfold MAX_THREADS in Hs; lia).
  rewrite lookup_empty. cbn [default]. rewrite (proj2 (Z.ltb_lt _ _)) by (unfold thread_len, MAX_MESSAGES_PER_THREAD in *; cbn; lia).
  split; [done|]. unfold thread_contains. cbn. apply bool_decide_eq_true. rewrite lookup_insert_eq. eauto.
Qed.
End registry.

Definition resolve_thread_attr (attr : string) : option string :=
  let attr := trim attr in
  if decide (attr = "" \/ attr = "new") then None else Some attr.
End Threads.

(** ** Child pipelines *)

Module Manager.

Record ChildSpec := {
  cs_name : string; cs_pipeline : string; cs_input : string; cs_working_dir : option string
}.
Record ChildResult := { cr_name : string; cr_success : bool; cr_output : string }.

Inductive SupervisionStrategy :=
| AllOrNothing
| BestEffort
| RetryFailed (max_retries : Z).

#[export] Instance SupervisionStrategy_eq_dec : EqDecision SupervisionStrategy.
Proof. solve_decision. Defined.

Record ManagerOutcome := {
  mo_success : bool; mo_results : list ChildResult; mo_failures : list string
}.

Definition MAX_RETRY_CAP : Z := 10.

(** [(100 * (1 << attempts.min(6))).min(5000)] milliseconds. *)
Definition retry_delay (attempts : Z) : Z := Z.min (100 * 2 ^ Z.min attempts 6) 5000.

Section manager.
Context {W : Type} (execute_child : ChildSpec -> W -> result report ChildResult * W).
(** [tokio::time::sleep], in milliseconds. *)
Context (sleep_ms : Z -> W -> W).

(** [budget] retries remain after [attempts] of them. *)
Fixpoint retry_child (budget : nat) (attempts : Z) (spec : ChildSpec) (last_result : ChildResult) (w : W)
  : result report ChildResult * W :=
  match budget with
  | O => (Ok last_result, w)
  | S budget =>
      if cr_success last_result then (Ok last_result, w)
      else
        let w := sleep_ms (retry_delay (attempts + 1)) w in
        match execute_child spec w with
        | (Ok r, w) => retry_child budget (attempts + 1) spec r w
        | (Err e, w) => (Err e, w)
        end
  end.

Definition execute_with_strategy (strategy : SupervisionStrategy) (spec : ChildSpec) (w : W)
  : result report ChildResult * W :=
  match strategy with
  | RetryFailed max_retries =>
      match execute_child spec w with
      | (Ok r, w) => retry_child (Z.to_nat (Z.min max_retries MAX_RETRY_CAP)) 0 spec r w
      | (Err e, w) => (Err e, w)
      end
  | _ => execute_child spec w
  end.

(** An error of a child counts as a failed result. *)
Definition child_result (spec : ChildSpec) (r : result report ChildResult) : ChildResult * option string :=
  match r with
  | Ok r => (r, if cr_success r then None else Some (cr_name r))
  | Err e => ({| cr_name := cs_name spec; cr_success := false;
                 cr_output := "Error: " +:+ default "" (head e) |}, Some (cs_name spec))
  end.

Fixpoint run_children (strategy : SupervisionStrategy) (children : list ChildSpec)
    (results : list ChildResult) (failures : list string) (w : W) : list ChildResult * list string * W :=
  match children with
  | [] => (results, failures, w)
  | spec :: children =>
      let '(r, w) := execute_with_strategy strategy spec w in
      match child_result spec r with
      | (r, Some name) =>
          if decide (strategy = AllOrNothing) then (results ++ [r], failures ++ [name], w)
          else run_children strategy children (results ++ [r]) (failures ++ [name]) w
      | (r, None) => run_children strategy children (results ++ [r]) failures w
      end
  end.

Definition manager_run (strategy : SupervisionStrategy) (children : list ChildSpec) (w : W)
  : ManagerOutcome * W :=
  let '(results, failures, w) := run_children strategy children [] [] w in
  ({| mo_success := match strategy with BestEffort => true | _ => bool_decide (failures = []) end;
      mo_results := results; mo_failures := failures |}, w).
End manager.

Definition result_line (r : ChildResult) : string :=
  "[" +:+ (if cr_success r then "pass" else "fail") +:+ "] " +:+ cr_name r +:+ ": " +:+ cr_output r.

Definition to_node_outcome (o : ManagerOutcome) (node_id : string) : NodeOutcome :=
  {| no_node_id := node_id; no_status := if mo_success o then Pass else Fail;
     no_content := String.concat (String NL "") (result_line <$> mo_results o);
     no_token_usage := TokenUsage_default; no_files_modified := [] |}.

(** *** Laws *)

(** The attempts at one child: each a failed result, the last one what is returned. *)
Section laws.
Context {W : Type} (execute_child : ChildSpec -> W -> result report ChildResult * W).
Context (sleep_ms : Z -> W -> W).

(** [child_runs spec n w r w']: [n] executions from [w], each after the one before it failed
    and after a pause of 200 ms to 5 s, ending in [r]. *)
Inductive child_runs (spec : ChildSpec) : nat -> W -> result report ChildResult -> W -> Prop :=
| runs_last w r w' : execute_child spec w = (r, w') -> child_runs spec 1 w r w'
| runs_again w r w1 ms n r' w' :
    execute_child spec w = (Ok r, w1) -> cr_success r = false -> (200 <= ms <= 5000)%Z ->
    child_runs spec n (sleep_ms ms w1) r' w' -> child_runs spec (S n) w r' w'.

Lemma retry_delay_range a : (1 <= a)%Z -> (200 <= retry_delay a <= 5000)%Z.
Proof.
  intros Ha. unfold retry_delay. assert (2 ^ 1 <= 2 ^ Z.min a 6)%Z by (apply Z.pow_le_mono_r; lia). lia.
Qed.

Lemma retry_child_runs spec budget : forall a w0 r w,
  (0 <= a)%Z -> execute_child spec w0 = (Ok r, w) ->
  exists n, n <= S budget /\
    child_runs spec n w0 (retry_child execute_child sleep_ms budget a spec r w).1
      (retry_child execute_child sleep_ms budget a spec r w).2 /\
    forall r', (retry_child execute_child sleep_ms budget a spec r w).1 = Ok r' ->
      cr_success r' = false -> n = S budget.
Proof.
  induction budget as [|budget IH]; intros a w0 r w Ha He; cbn.
  - exists 1. split; [lia|]. split; [by constructor|done].
  - destruct (cr_success r) eqn:Hs.
    + exists 1. split; [lia|]. split; [by constructor|]. cbn. intros r' [= <-]. congruence.
    + destruct (execute_child spec (sleep_ms (retry_delay (a + 1)) w)) as [[r2|e] w2] eqn:He2.
      * destruct (IH (a + 1)%Z _ _ _ ltac:(lia) He2) as (n & Hn & Hr & Hm). exists (S n).
        split; [lia|]. split; [|intros r' H1 H2; by rewrite (Hm r' H1 H2)].
        eapply (runs_again _ _ _ _ (retry_delay (a + 1))); [done|done|apply retry_delay_range; lia|done].
      * exists 2. split; [lia|]. split; [|done].
        eapply (runs_again _ _ _ _ (retry_delay (a + 1))); [done|done|apply retry_delay_range; lia|by constructor].
Qed.

(** A child is executed at most eleven times under [RetryFailed], whatever [max_retries] says,
    and gives up on a failed result only when the retries are used up; it is executed
    once under the other strategies. *)
Theorem strategy_runs (strategy : SupervisionStrategy) (spec : ChildSpec) (w w' : W) r :
  execute_with_strategy execute_child sleep_ms strategy spec w = (r, w') ->
  exists n, child_runs spec n w r w' /\
    match strategy with
    | RetryFailed m => n <= S (Z.to_nat (Z.min m MAX_RETRY_CAP)) /\
        forall r', r = Ok r' -> cr_success r' = false -> n = S (Z.to_nat (Z.min m MAX_RETRY_CAP))
    | _ => n = 1
    end.
Proof.
  unfold execute_with_strategy. destruct strategy as [| |m].
  - intros He. exists 1. by repeat constructor.
  - intros He. exists 1. by repeat constructor.
  - destruct (execute_child spec w) as [[r0|e] w0] eqn:He.
    + intros Hr. destruct (retry_child_runs spec (Z.to_nat (Z.min m MAX_RETRY_CAP)) 0 w r0 w0 ltac:(lia) He)
        as (n & Hn & Hc & Hm). rewrite Hr in Hc, Hm. eauto.
    + intros [= <- <-]. exists 1. split; [by constructor|]. split; [lia|done].
Qed.

Lemma run_children_spec strategy children : forall results failures w,
  let '(rs, fs, _) := run_children execute_child sleep_ms strategy children results failures w in
  exists new, rs = results ++ new /\ length new <= length children /\
    fs = failures ++ (cr_name <$> filter (fun r => cr_success r = false) new) /\
    (Forall (fun r => cr_success r = true) new -> length new = length children) /\
    (strategy = AllOrNothing ->
     Forall (fun r => cr_success r = true) new \/
     exists done last, new = done ++ [last] /\ Forall (fun r => cr_success r = true) done /\ cr_success last = false) /\
    (strategy <> AllOrNothing -> length new = length children).
Proof.
  induction children as [|spec children IH]; intros results failures w; cbn.
  { exists []. rewrite !app_nil_r. repeat split; auto. }
  destruct (execute_with_strategy _ _ _ _ _) as [r w1].
  assert (Hc : match (child_result spec r).2 with
               | Some n => cr_success (child_result spec r).1 = false /\ n = cr_name (child_result spec r).1
               | None => cr_success (child_result spec r).1 = true
               end) by (destruct r as [r|e]; cbn; [destruct (cr_success r) eqn:Hs; cbn|]; auto).
  destruct (child_result spec r) as [cr [name|]]; cbn in Hc.
  - destruct Hc as [Hs ->]. case_decide as Hst.
    + exists [cr]. rewrite filter_cons_True, filter_nil by done. split_and!; [done|cbn; lia|done|..].
      * intros Hall. inversion Hall; congruence.
      * intros _. right. exists [], cr. by repeat split.
      * done.
    + specialize (IH (results ++ [cr]) (failures ++ [cr_name cr]) w1).
      destruct (run_children _ _ _ _ _ _ _) as [[rs fs] w2]. destruct IH as (new & -> & Hl & -> & Hall & _ & Hlen).
      exists (cr :: new). rewrite <- !app_assoc, filter_cons_True by done.
      split_and!; [done|cbn; lia|done|intros Hf; inversion Hf; congruence|done|intros _; cbn; by rewrite Hlen].
  - specialize (IH (results ++ [cr]) failures w1).
    destruct (run_children _ _ _ _ _ _ _) as [[rs fs] w2]. destruct IH as (new & -> & Hl & -> & Hall & Han & Hlen).
    exists (cr :: new). rewrite <- !app_assoc, filter_cons_False by congruence.
    split_and!; [done|cbn; lia|done|..].
    + intros Hf. inversion Hf; subst. cbn. by rewrite Hall.
    + intros Hst. destruct (Han Hst) as [Hf|(dn & last & -> & Hd & Hlast)]; [left; by constructor|].
      right. exists (cr :: dn), last. split_and!; [done|by constructor|done].
    + intros Hst. cbn. by rewrite Hlen.
Qed.

Lemma no_failures (rs : list ChildResult) :
  cr_name <$> filter (fun r => cr_success r = false) rs = [] <-> Forall (fun r => cr_success r = true) rs.
Proof.
  induction rs as [|r rs IH]; [done|]. rewrite Forall_cons. destruct (cr_success r) eqn:Hr.
  - rewrite filter_cons_False by congruence. tauto.
  - rewrite filter_cons_True by done. split; [done|]. by intros [? _].
Qed.

(** What the manager reports is what happened: the failures are the names of the failed
    results; without [AllOrNothing] every child is executed; with it the run stops after the first failure, so
    only the last result can be a failure; and (except under [BestEffort], which always succeeds)
    it reports success exactly when every child was executed and succeeded. *)
Theorem manager_run_spec (strategy : SupervisionStrategy) (children : list ChildSpec) (w : W) :
  let out := (manager_run execute_child sleep_ms strategy children w).1 in
  mo_failures out = cr_name <$> filter (fun r => cr_success r = false) (mo_results out) /\
  (strategy <> AllOrNothing -> length (mo_results out) = length children) /\
  (strategy = AllOrNothing ->
     Forall (fun r => cr_success r = true) (mo_results out) \/
     exists done last, mo_results out = done ++ [last] /\ Forall (fun r => cr_success r = true) done /\ cr_success last = false) /\
  (strategy <> BestEffort ->
     mo_success out = true <->
     length (mo_results out) = length children /\ Forall (fun r => cr_success r = true) (mo_results out)).
Proof.
  unfold manager_run. pose proof (run_children_spec strategy children [] [] w) as Hs.
  destruct (run_children _ _ _ _ _ _ _) as [[rs fs] w']. destruct Hs as (new & -> & Hl & -> & Hall & Han & Hlen).
  cbn. split_and!; [done|done|done|]. intros Hbe.
  destruct strategy; [|done|]; rewrite bool_decide_eq_true, no_failures; intuition.
Qed.
End laws.
End Manager.

(** ** Human input *)

Module HumanGate.

Inductive HumanInputType :=
| Approval
| FreeText
| Choice (options : list string).

Record HumanRequest := {
  hr_id : string; hr_node_id : string; hr_prompt : string;
  hr_input_type : HumanInputType; hr_context : option string
}.

Record HumanResponse := { rp_request_id : string; rp_approved : option bool; rp_input : option string }.

Definition approve (request_id : string) : HumanResponse :=
  {| rp_request_id := request_id; rp_approved := Some true; rp_input := None |}.
Definition reject (request_id : string) : HumanResponse :=
  {| rp_request_id := request_id; rp_approved := Some false; rp_input := None |}.
Definition text_response (request_id input : string) : HumanResponse :=
  {| rp_request_id := request_id; rp_approved := None; rp_input := Some input |}.

Definition is_positive (r : HumanResponse) : bool :=
  default false (rp_approved r) || match rp_input r with Some s => negb (bool_decide (s = "")) | None => false end.

Definition auto_approve (r : HumanRequest) : HumanResponse := approve (hr_id r).

Definition DEFAULT_INPUT_TIMEOUT : Duration := from_secs 300.
Definition CHANNEL_CAPACITY : nat := 8.

(** One call of [request_input], from the outside: waiting for room in the channel, waiting
    for the answer until a deadline, or ended. *)
Inductive Phase :=
| Sending (request : HumanRequest)
| Waiting (deadline : Z)
| Answered (response : HumanResponse)
| Failed (error : string).

(** The channel of one provider with its callers (numbered), the requests the receiver has
    taken and not answered, and the clock in nanoseconds. *)
Record Sys := {
  sy_calls : gmap nat Phase;
  sy_queue : list (nat * HumanRequest);
  sy_taken : gset nat;
  sy_open : bool;
  sy_now : Z
}.

Definition set_call (s : Sys) (c : nat) (p : Phase) : Sys :=
  {| sy_calls := <[c := p]> (sy_calls s); sy_queue := sy_queue s; sy_taken := sy_taken s;
     sy_open := sy_open s; sy_now := sy_now s |}.

(** Calls whose response sender is dropped when the receiver goes away. *)
Definition drop_waiting (calls : gmap nat Phase) (dropped : gset nat) : gmap nat Phase :=
  map_imap (fun c p => Some (match p with
                             | Waiting _ => if decide (c ∈ dropped) then Failed "human response channel dropped" else p
                             | _ => p
                             end)) calls.

Section steps.
Context (timeout : Duration) (debug : Duration -> string).

Inductive gate_step : Sys -> Sys -> Prop :=
(** A new call. *)
| st_call s c r : sy_calls s !! c = None -> gate_step s (set_call s c (Sending r))
(** [send] has room; the timer of the answer starts. *)
| st_send s c r : sy_calls s !! c = Some (Sending r) -> sy_open s = true ->
    length (sy_queue s) < CHANNEL_CAPACITY ->
    gate_step s {| sy_calls := <[c := Waiting (sy_now s + timeout)]> (sy_calls s);
              sy_queue := sy_queue s ++ [(c, r)]; sy_taken := sy_taken s; sy_open := true; sy_now := sy_now s |}
| st_send_closed s c r : sy_calls s !! c = Some (Sending r) -> sy_open s = false ->
    gate_step s (set_call s c (Failed "human input channel closed"))
(** The receiver takes the oldest request. *)
| st_take s c r q : sy_open s = true -> sy_queue s = (c, r) :: q ->
    gate_step s {| sy_calls := sy_calls s; sy_queue := q; sy_taken := {[c]} ∪ sy_taken s; sy_open := true;
              sy_now := sy_now s |}
(** It answers, or drops the sender of the answer; a caller that has left is not there to hear. *)
| st_answer s c d resp : c ∈ sy_taken s -> sy_calls s !! c = Some (Waiting d) ->
    gate_step s {| sy_calls := <[c := Answered resp]> (sy_calls s); sy_queue := sy_queue s;
              sy_taken := sy_taken s ∖ {[c]}; sy_open := sy_open s; sy_now := sy_now s |}
| st_discard s c : c ∈ sy_taken s ->
    gate_step s {| sy_calls := drop_waiting (sy_calls s) {[c]}; sy_queue := sy_queue s;
              sy_taken := sy_taken s ∖ {[c]}; sy_open := sy_open s; sy_now := sy_now s |}
(** The receiver goes away; what is queued is dropped. *)
| st_close s : sy_open s = true ->
    gate_step s {| sy_calls := drop_waiting (sy_calls s) (list_to_set (sy_queue s).*1); sy_queue := [];
              sy_taken := sy_taken s; sy_open := false; sy_now := sy_now s |}
(** The timer. *)
| st_timeout s c d : sy_calls s !! c = Some (Waiting d) -> (d <= sy_now s)%Z ->
    gate_step s (set_call s c (Failed ("human input timed out after " +:+ debug timeout)))
(** Time passes, up to the next timer. *)
| st_tick s : (forall c d, sy_calls s !! c = Some (Waiting d) -> (sy_now s < d)%Z) ->
    gate_step s {| sy_calls := sy_calls s; sy_queue := sy_queue s; sy_taken := sy_taken s; sy_open := sy_open s;
              sy_now := sy_now s + 1 |}.

Definition steps := clos_refl_trans_1n Sys gate_step.

Definition gate_initial : Sys :=
  {| sy_calls := ∅; sy_queue := []; sy_taken := ∅; sy_open := true; sy_now := 0 |}.

(** *** Invariants *)

(** The channel never holds more than eight requests, and no caller waits for an answer past its
    deadline, which is at most one timeout away. *)
Definition inv (s : Sys) : Prop :=
  length (sy_queue s) <= CHANNEL_CAPACITY /\
  map_Forall (fun _ p => match p with Waiting d => (sy_now s <= d <= sy_now s + timeout)%Z | _ => True end)
    (sy_calls s).

Lemma drop_waiting_lookup calls dropped c :
  drop_waiting calls dropped !! c =
  (fun p => match p with
            | Waiting _ => if decide (c ∈ dropped) then Failed "human response channel dropped" else p
            | _ => p
            end) <$> calls !! c.
Proof. unfold drop_waiting. rewrite map_lookup_imap. by destruct (calls !! c). Qed.

Lemma drop_waiting_inv P calls dropped :
  (forall e, P (Failed e)) -> map_Forall (fun _ p => P p) calls ->
  map_Forall (fun _ p => P p) (drop_waiting calls dropped).
Proof.
  intros HP Hall c p. rewrite drop_waiting_lookup. destruct (calls !! c) as [p'|] eqn:Hc; [|done].
  cbn. intros [= <-]. specialize (Hall c p' Hc). repeat case_match; auto.
Qed.

Lemma step_inv s s' : (0 <= timeout)%Z -> gate_step s s' -> inv s -> inv s'.
Proof.
  intros Ht Hst [Hq Hw]. destruct Hst as [| | | s c r q Ho Heq| | | | |s Hlt]; unfold inv, set_call; cbn in *.
  - split; [done|]. by apply map_Forall_insert_2.
  - split; [rewrite length_app; cbn; unfold CHANNEL_CAPACITY in *; lia|].
    apply map_Forall_insert_2; [lia|done].
  - split; [done|]. by apply map_Forall_insert_2.
  - rewrite Heq in Hq. cbn in Hq. split; [lia|done].
  - split; [done|]. by apply map_Forall_insert_2.
  - split; [done|]. by apply (drop_waiting_inv (fun p => match p with Waiting d => _ | _ => True end)).
  - split; [lia|]. by apply (drop_waiting_inv (fun p => match p with Waiting d => _ | _ => True end)).
  - split; [done|]. by apply map_Forall_insert_2.
  - split; [done|]. intros c p Hc. specialize (Hw c p Hc). specialize (Hlt c). destruct p; [done| |done..].
    specialize (Hlt _ Hc). cbn in Hw. lia.
Qed.

Lemma steps_inv s s' : (0 <= timeout)%Z -> steps s s' -> inv s -> inv s'.
Proof. intros Ht. induction 1 as [|? ? ? Hst _ IH]; [done|]. intros Hi. eapply IH, step_inv; eauto. Qed.

(** An ended call keeps its result. *)
Definition ended (p : Phase) : Prop := match p with Answered _ | Failed _ => True | _ => False end.

Lemma step_ended s s' c p : ended p -> gate_step s s' -> sy_calls s !! c = Some p -> sy_calls s' !! c = Some p.
Proof.
  intros He Hst Hc. destruct Hst as [s c'|s c'|s c'| |s c'| | |s c'| ]; unfold set_call; cbn; try done;
    try (destruct (decide (c' = c)) as [->|Hne]; [rewrite Hc in *; simplify_eq/=; done|by rewrite lookup_insert_ne]).
  - rewrite drop_waiting_lookup, Hc. by destruct p.
  - rewrite drop_waiting_lookup, Hc. by destruct p.
Qed.

(** In every reachable state the channel holds at most eight requests, a caller that waits for
    its answer is within its timeout (it hears an answer, an error or the expiry by
    its deadline), and a call that ended keeps its result in every later state. *)
Theorem human_input_safe (s s' : Sys) :
  (0 <= timeout)%Z -> steps gate_initial s -> steps s s' ->
  length (sy_queue s) <= CHANNEL_CAPACITY /\
  (forall c d, sy_calls s !! c = Some (Waiting d) -> (sy_now s <= d <= sy_now s + timeout)%Z) /\
  (forall c p, ended p -> sy_calls s !! c = Some p -> sy_calls s' !! c = Some p).
Proof.
  intros Ht H0 H1. apply steps_inv in H0 as [Hq Hw]; [|done|split; [cbn; lia|apply map_Forall_empty]].
  split; [done|]. split; [intros c d Hc; exact (Hw c _ Hc)|].
  intros c p He. clear Hq Hw. induction H1 as [|? ? ? Hst _ IH]; [done|].
  intros Hc. apply IH. by eapply step_ended.
Qed.

Definition later (s : Sys) (n : nat) : Sys :=
  {| sy_calls := sy_calls s; sy_queue := sy_queue s; sy_taken := sy_taken s; sy_open := sy_open s;
     sy_now := sy_now s + Z.of_nat n |}.

(** The timeout covers the wait for the answer only.  When the channel is full of requests whose
    callers have given up and nobody receives, a caller in [send] stays there for any length of time. *)
Lemma blocked_send_waits (s : Sys) (c : nat) (r : HumanRequest) (n : nat) :
  length (sy_queue s) = CHANNEL_CAPACITY -> (forall c d, sy_calls s !! c <> Some (Waiting d)) ->
  sy_calls s !! c = Some (Sending r) ->
  steps s (later s n) /\ sy_calls (later s n) !! c = Some (Sending r) /\
  length (sy_queue (later s n)) = CHANNEL_CAPACITY.
Proof.
  intros Hq Hw Hc. split; [|done]. unfold steps. apply clos_rt_rt1n. induction n as [|n IH].
  - destruct s; unfold later; cbn. rewrite Z.add_0_r. apply rt_refl.
  - eapply rt_trans; [exact IH|]. apply rt_step.
    replace (later s (S n)) with (later (later s n) 1) by (unfold later; cbn; f_equal; lia).
    apply (st_tick (later s n)). cbn. intros c' d Hc'. by apply Hw in Hc'.
Qed.
End steps.

Definition demo_request : HumanRequest :=
  {| hr_id := "r1"; hr_node_id := "gate"; hr_prompt := "Deploy?"; hr_input_type := Approval; hr_context := None |}.

(** One request, sent at once. *)
Definition demo_waiting : Sys :=
  {| sy_calls := <[0 := Waiting (0 + 10)]> (sy_calls (set_call gate_initial 0 (Sending demo_request)));
     sy_queue := [(0, demo_request)]; sy_taken := ∅; sy_open := true; sy_now := 0 |}.

Lemma human_input_safe_witness :
  length (sy_queue demo_waiting) <= CHANNEL_CAPACITY /\
  (forall c d, sy_calls demo_waiting !! c = Some (Waiting d) ->
     (sy_now demo_waiting <= d <= sy_now demo_waiting + 10)%Z).
Proof.
  destruct (human_input_safe 10%Z (fun _ => "10ns") demo_waiting demo_waiting) as (Hq & Hw & _);
    [lia| |apply rt1n_refl|exact (conj Hq Hw)].
  eapply Relation_Operators.rt1n_trans; [apply (st_call 10%Z (fun _ => "10ns") gate_initial 0 demo_request); done|].
  eapply Relation_Operators.rt1n_trans; [|apply rt1n_refl].
  apply (st_send 10%Z (fun _ => "10ns") (set_call gate_initial 0 (Sending demo_request)) 0 demo_request);
    [done|done|cbn; unfold CHANNEL_CAPACITY; lia].
Defined.
End HumanGate.
