(* ===== verification/RunFiles.v ===== *)
(** * Artifacts and run directories

    Model of [crates/octos-pipeline/src/artifact.rs] and [run_dir.rs] over the file system
    of [Checkpoint], with injected faults. *)

From S2P Require Import Prelude RustStr RustNum Fidelity Graph Guard Checkpoint.

(** [validate_pipeline_id(..).map_err(|e| io::Error::other(e.to_string()))]. *)
Definition check_id (id : string) : fsm unit :=
  fsm_result match validate_pipeline_id id with
             | Ok _ => Ok tt
             | Err e => Err (default "" (head e))
             end.

(** [dir.join(name)] for a name without a separator. *)
Definition child (dir name : string) : Path := {| p_parent := dir; p_file_name := Some name |}.

(** ** Artifacts *)

Module Artifacts.

(** 64 KB. *)
Definition SPILL_THRESHOLD : Z := 64 * 1024.

Inductive ArtifactBacking :=
| Memory (s : string)
| Disk (path : Path).

Record ArtifactStore := { as_artifacts : gmap string ArtifactBacking; as_run_dir : option string }.

Definition store_new (run_dir : string) : ArtifactStore := {| as_artifacts := ∅; as_run_dir := Some run_dir |}.
Definition in_memory : ArtifactStore := {| as_artifacts := ∅; as_run_dir := None |}.

Definition set_artifact (st : ArtifactStore) (id : string) (b : ArtifactBacking) : ArtifactStore :=
  {| as_artifacts := <[id := b]> (as_artifacts st); as_run_dir := as_run_dir st |}.

(** The store after the call; on an error it is left as it was. *)
Definition artifact_put (st : ArtifactStore) (node_id content : string) : fsm ArtifactStore :=
  _ ← check_id node_id;
  match as_run_dir st with
  | Some dir =>
      if (SPILL_THRESHOLD <? str_len content)%Z then
        let artifact_dir := path_join dir "artifacts" in
        _ ← create_dir_all artifact_dir;
        let path := child artifact_dir (node_id +:+ ".txt") in
        _ ← fs_write path content;
        mret (set_artifact st node_id (Disk path))
      else mret (set_artifact st node_id (Memory content))
  | None => mret (set_artifact st node_id (Memory content))
  end.

Definition artifact_get (st : ArtifactStore) (node_id : string) : fsm (option string) :=
  match as_artifacts st !! node_id with
  | Some (Memory s) => mret (Some s)
  | Some (Disk path) => content ← read_to_string path; mret (Some content)
  | None => mret None
  end.

Definition artifact_contains (st : ArtifactStore) (id : string) : bool := bool_decide (is_Some (as_artifacts st !! id)).
Definition artifact_len (st : ArtifactStore) : nat := size (as_artifacts st).
Definition is_on_disk (st : ArtifactStore) (id : string) : bool :=
  match as_artifacts st !! id with Some (Disk _) => true | _ => false end.

(** *** Refinement of a map *)

(** The store and the file system hold the artifact [m !! id], for every id but those in
    [lost]. *)
Definition holds (st : ArtifactStore) (w : FsWorld) (m : gmap string string) (lost : gset string) : Prop :=
  forall id, id ∉ lost ->
    match as_artifacts st !! id with
    | Some (Memory s) => m !! id = Some s
    | Some (Disk p) => exists dir, as_run_dir st = Some dir /\ p = child (path_join dir "artifacts") (id +:+ ".txt") /\
        fw_files w !! p = m !! id /\ exists s, m !! id = Some s /\ valid_utf8 s = true
    | None => m !! id = None
    end.

Lemma child_txt_inj dir id id' : child dir (id +:+ ".txt") = child dir (id' +:+ ".txt") -> id = id'.
Proof. intros [= Heq]. apply (f_equal (strip_suffix ".txt")) in Heq. rewrite !strip_suffix_app in Heq. congruence. Qed.

(** Storing changes one artifact: adding or replacing it in memory. *)
Lemma holds_memory st w m lost id content :
  holds st w m lost -> holds (set_artifact st id (Memory content)) w (<[id := content]> m) (lost ∖ {[id]}).
Proof.
  intros Hh id' Hid'. cbn. destruct (decide (id' = id)) as [->|Hne]; [by rewrite !lookup_insert_eq|].
  rewrite !lookup_insert_ne by done. apply Hh. set_solver.
Qed.

Lemma holds_files st w m lost id dir f :
  holds st w m lost -> as_run_dir st = Some dir ->
  holds st (set_files w (<[child (path_join dir "artifacts") (id +:+ ".txt") := f]> (fw_files w))) m ({[id]} ∪ lost).
Proof.
  intros Hh Hdir id' Hid'. specialize (Hh id' ltac:(set_solver)).
  destruct (as_artifacts st !! id') as [[s|p]|]; [done| |done].
  destruct Hh as (dir' & Hdir' & -> & Hf & Hs). exists dir'. split_and!; [done..| |done]. simplify_eq.
  cbn. rewrite lookup_insert_ne; [done|]. intros Heq%child_txt_inj. set_solver.
Qed.

Lemma holds_world st w w' m lost : fw_files w' = fw_files w -> holds st w m lost -> holds st w' m lost.
Proof. intros Hf Hh id Hid. specialize (Hh id Hid). by rewrite Hf. Qed.

Lemma holds_weaken st w m lost lost' : lost ⊆ lost' -> holds st w m lost -> holds st w m lost'.
Proof. intros Hsub Hh id Hid. apply Hh. set_solver. Qed.

Lemma check_id_run id w : check_id id w = (match validate_pipeline_id id with Ok _ => Ok tt | Err e => Err (default "" (head e)) end, w).
Proof. done. Qed.

(** [artifact_put] and [artifact_get] implement a map from node ids to texts, in memory or spilled to disk
    alike.  A successful [artifact_put] sets one entry (and repairs it if it was lost) and leaves the
    others; a failed [artifact_put] leaves every other entry; [artifact_get] returns the entry or the error of a failed
    read, and changes nothing. *)
Theorem artifacts_refine (st : ArtifactStore) (w : FsWorld) (m : gmap string string) (lost : gset string)
    (id content : string) :
  holds st w m lost -> valid_utf8 content = true ->
  match artifact_put st id content w with
  | (Ok st', w') => holds st' w' (<[id := content]> m) (lost ∖ {[id]})
  | (Err _, w') => holds st w' m ({[id]} ∪ lost)
  end /\
  (id ∉ lost -> forall r w', artifact_get st id w = (r, w') ->
     fw_files w' = fw_files w /\ (r = Ok (m !! id) \/ exists f, r = Err (f_error f))).
Proof.
  intros Hh Hv. split.
  - unfold artifact_put. rewrite fsm_bind_run, check_id_run. destruct (validate_pipeline_id id).
    2: { eapply holds_weaken; [|done]. set_solver. }
    destruct (as_run_dir st) as [dir|] eqn:Hdir; [|by apply holds_memory].
    destruct (_ <? _)%Z; [|by apply holds_memory].
    unfold create_dir_all. rewrite fsm_bind_run, guarded_run. destruct (next_fault w).1.
    { eapply (holds_weaken _ _ _ lost), (holds_world _ w); [set_solver|done..]. }
    cbn [mret fsm_ret]. rewrite fsm_bind_run. unfold fs_write. set (w1 := (next_fault w).2).
    destruct (next_fault w1) as [f2 w2] eqn:Hw2. injection Hw2 as _ <-. destruct f2 as [f2|].
    + destruct (f_written f2); [by apply (holds_files _ _ _ _ id dir), Hdir|].
      eapply (holds_weaken _ _ _ lost), (holds_world _ w); [set_solver|done..].
    + cbn [mret fsm_ret]. intros id' Hid'. cbn. destruct (decide (id' = id)) as [->|Hne].
      * rewrite !lookup_insert_eq. exists dir. split_and!; [done..|]. eauto.
      * rewrite lookup_insert_ne by done. specialize (holds_files st w m lost id dir content Hh Hdir id') as Hf.
        cbn in Hf. rewrite lookup_insert_ne by done. apply Hf. set_solver.
  - intros Hid r w'. specialize (Hh id Hid). unfold artifact_get.
    destruct (as_artifacts st !! id) as [[s|p]|] eqn:Ha.
    + intros [= <- <-]. split; [done|]. left. by rewrite Hh.
    + destruct Hh as (dir & _ & -> & Hf & s & Hs & Hu). unfold read_to_string.
      rewrite fsm_bind_run, guarded_run. destruct (next_fault w).1; [intros [= <- <-]; eauto|].
      cbn [next_fault snd fw_files]. rewrite Hf, Hs. cbn beta iota. rewrite Hu.
      intros [= <- <-]. split; [done|]. by left.
    + intros [= <- <-]. split; [done|]. left. by rewrite Hh.
Qed.

Lemma holds_new dir w : holds (store_new dir) w ∅ ∅.
Proof. by intros id _. Qed.

Lemma artifacts_refine_witness :
  let w := {| fw_files := ∅; fw_faults := []; fw_stat_faults := [] |} in
  match artifact_put (store_new "/run") "search" "found" w with
  | (Ok st', w') => holds st' w' {["search" := "found"]} ∅
  | (Err _, _) => False
  end.
Proof.
  intros w.
  pose proof (artifacts_refine (store_new "/run") w ∅ ∅ "search" "found" (holds_new "/run" w) eq_refl) as [H _].
  vm_compute artifact_put in *. exact H.
Defined.
End Artifacts.

(** ** Run directories *)

Module RunDirs.

Definition MIN_CONTENT_LENGTH : Z := 100.

(** The base directory; none for a run directory that discards writes. *)
Record RunDir := { rd_base : option string }.

Record NodeStatus := {
  ns_node_id : string; ns_label : option string; ns_status : OutcomeStatus; ns_model : option string;
  ns_duration_ms : Z; ns_token_usage : TokenUsage; ns_start_time : string; ns_content_length : Z
}.

Record PipelineRunSummary := {
  rsm_graph_id : string; rsm_success : bool; rsm_duration_ms : Z; rsm_total_tokens : TokenUsage;
  rsm_nodes_executed : Z; rsm_start_time : string; rsm_context_mode : option string;
  rsm_context_reason : option string
}.

Definition with_external_context_unmanaged (s : PipelineRunSummary) (reason : string) : PipelineRunSummary :=
  {| rsm_graph_id := rsm_graph_id s; rsm_success := rsm_success s; rsm_duration_ms := rsm_duration_ms s;
     rsm_total_tokens := rsm_total_tokens s; rsm_nodes_executed := rsm_nodes_executed s;
     rsm_start_time := rsm_start_time s; rsm_context_mode := Some "external_context_unmanaged";
     rsm_context_reason := Some reason |}.

(** [serde_json::to_string_pretty] on the two records. *)
Class StatusJson := {
  status_json : NodeStatus -> result string string;
  summary_json : PipelineRunSummary -> result string string
}.

Definition RunDir_new (working_dir run_id : string) : fsm RunDir :=
  _ ← check_id run_id;
  let base := path_join (path_join working_dir ".octos/runs") run_id in
  _ ← create_dir_all base;
  mret {| rd_base := Some base |}.

Definition noop : RunDir := {| rd_base := None |}.

Section writes.
Context `{StatusJson} (d : RunDir).

Definition write_node_status (status : NodeStatus) : fsm unit :=
  match rd_base d with
  | None => mret tt
  | Some base =>
      _ ← check_id (ns_node_id status);
      let node_dir := path_join base (ns_node_id status) in
      _ ← create_dir_all node_dir;
      json ← fsm_result (status_json status);
      fs_write (child node_dir "status.json") json
  end.

Definition write_node_content (node_id content : string) : fsm (option Path) :=
  match rd_base d with
  | None => mret None
  | Some base =>
      if (str_len content <? MIN_CONTENT_LENGTH)%Z then mret None
      else
        _ ← check_id node_id;
        let node_dir := path_join base node_id in
        _ ← create_dir_all node_dir;
        let content_path := child node_dir "output.txt" in
        _ ← fs_write content_path content;
        mret (Some content_path)
  end.

Definition write_summary (summary : PipelineRunSummary) : fsm unit :=
  match rd_base d with
  | None => mret tt
  | Some base =>
      json ← fsm_result (summary_json summary);
      fs_write (child base "summary.json") json
  end.
End writes.

(** *** Confinement *)

(** The writes of a run. *)
Inductive Write :=
| WStatus (s : NodeStatus)
| WContent (node_id content : string)
| WSummary (s : PipelineRunSummary).

Definition run_write `{StatusJson} (d : RunDir) (op : Write) (w : FsWorld) : FsWorld :=
  match op with
  | WStatus s => (write_node_status d s w).2
  | WContent id c => (write_node_content d id c w).2
  | WSummary s => (write_summary d s w).2
  end.

(** A file directly in [base], or in a directory of [base] named by a valid identifier. *)
Definition confined (base : string) (p : Path) : Prop :=
  p_parent p = base \/
  exists id, validate_pipeline_id id = Ok tt /\ p_parent p = path_join base id.

(** The files an operation may change. *)
Definition touches {A} (m : fsm A) (P : Path -> Prop) : Prop :=
  forall w p, ~ P p -> fw_files (m w).2 !! p = fw_files w !! p.

Lemma touches_ret {A} (a : A) P : touches (mret a) P.
Proof. done. Qed.
Lemma touches_result {A} (r : result string A) P : touches (fsm_result r) P.
Proof. done. Qed.
Lemma touches_create dir P : touches (create_dir_all dir) P.
Proof. intros w p _. unfold create_dir_all. rewrite guarded_run. by destruct (next_fault w).1. Qed.
Lemma touches_write q bytes (P : Path -> Prop) : P q -> touches (fs_write q bytes) P.
Proof.
  intros Hq w p Hp. assert (q <> p) by (intros ->; done). unfold fs_write.
  destruct (next_fault w) as [f w1] eqn:Hw. injection Hw as _ <-.
  destruct f as [f|]; [destruct (f_written f)|]; cbn; rewrite ?lookup_insert_ne by done; done.
Qed.
Lemma touches_bind {A B} (m : fsm A) (f : A -> fsm B) P :
  touches m P -> (forall a w w', m w = (Ok a, w') -> touches (f a) P) -> touches (m ≫= f) P.
Proof.
  intros Hm Hf w p Hp. rewrite fsm_bind_run. specialize (Hm w p Hp).
  destruct (m w) as [[a|e] w1] eqn:He; cbn in *; [|done]. rewrite (Hf a w w1 He w1 p Hp). done.
Qed.
Lemma check_id_ok id a w w' : check_id id w = (Ok a, w') -> validate_pipeline_id id = Ok tt.
Proof. unfold check_id, fsm_result. by destruct (validate_pipeline_id id) as [[]|]. Qed.

Create HintDb confine.
#[local] Hint Resolve touches_ret touches_result touches_create : confine.

Lemma write_confined `{StatusJson} d base op :
  rd_base d = Some base -> forall w p, ~ confined base p -> fw_files (run_write d op w) !! p = fw_files w !! p.
Proof.
  intros Hb w p Hp. destruct op as [s|id c|s]; cbn;
    unfold write_node_status, write_node_content, write_summary; rewrite Hb.
  - apply (touches_bind _ _ (confined base)); [apply touches_result| |done]. intros ? ? ? Hid%check_id_ok.
    repeat (apply touches_bind; [auto with confine|intros _ _ _ _ || intros ? ? ? ?]).
    apply touches_write. right. eauto.
  - case_match; [done|]. apply (touches_bind _ _ (confined base)); [apply touches_result| |done].
    intros ? ? ? Hid%check_id_ok. apply touches_bind; [auto with confine|intros ? ? ? ?].
    apply touches_bind; [|intros ? ? ? ?; apply touches_ret]. apply touches_write. right. eauto.
  - apply (touches_bind _ _ (confined base)); [apply touches_result|intros ? ? ? ?|done].
    apply touches_write. by left.
Qed.

(** Whatever node ids, contents and faults occur, the writes of a run stay in its directory:
    a file that is neither directly in it nor in a sub-directory named by a valid identifier (no
    separator, no parent reference) is never created or changed; and a disabled run
    directory writes nothing. *)
Theorem run_dir_confined `{StatusJson} (d : RunDir) (ops : list Write) (w : FsWorld) (p : Path) :
  (forall base, rd_base d = Some base -> ~ confined base p) ->
  fw_files (foldl (fun w op => run_write d op w) w ops) !! p = fw_files w !! p.
Proof.
  intros Hp. induction ops as [|op ops IH] using rev_ind; [done|].
  rewrite foldl_app. cbn [foldl]. rewrite <- IH. clear IH. destruct (rd_base d) as [base|] eqn:Hb.
  - apply (write_confined d base); [done|by apply Hp].
  - destruct op; cbn; unfold write_node_status, write_node_content, write_summary; by rewrite Hb.
Qed.

Lemma run_dir_confined_witness :
  let json := {| status_json := fun _ => Ok "{}"; summary_json := fun _ => Ok "{}" |} in
  let w := {| fw_files := {[child "/etc" "passwd" := "root"]}; fw_faults := []; fw_stat_faults := [] |} in
  fw_files (foldl (fun w op => run_write (H := json) {| rd_base := Some "/w/.octos/runs/r1" |} op w) w
    [WContent "../../etc" (pretty (10 ^ 200)%Z); WContent "a" (pretty (10 ^ 200)%Z)]) !! child "/etc" "passwd" = Some "root".
Proof.
  intros json w. rewrite (run_dir_confined (H := json)); [done|].
  intros base [= <-] [Hp|(id & Hid & Hp)]; [discriminate Hp|]. unfold path_join in Hp.
  apply validate_pipeline_id_safe in Hid as (_ & Hbad & _).
  destruct (starts_with "/" id) eqn:Hs; cbn in Hp.
  - apply (Hbad "/"); [set_solver|]. apply starts_with_app in Hs as [t ->]. by exists "", t.
  - discriminate Hp.
Defined.
End RunDirs.
