(* ===== verification/Discovery.v ===== *)
(** * Finding pipelines

    Model of [crates/octos-pipeline/src/discovery.rs] (the search for pipeline files) and of
    the resolution of names in [tool.rs], over a read-only view of the file system. *)

From S2P Require Import Prelude RustStr RustNum Fidelity Graph Condition Validate Host Dispatch.
From S2P Require Import Dag Guard Checkpoint Fanout Run Tool.

(** ** Paths *)

(** [Path::components] on Unix: repeated separators and inner [.] disappear. *)
Definition components (p : string) : list string :=
  let parts := split_on "/" p in
  (if starts_with "/" p then ["/"] else if decide (head parts = Some ".") then ["."] else [])
  ++ filter (fun s => s <> "" /\ s <> ".") parts.

Definition path_starts_with (p base : string) : bool :=
  let cs := components base in bool_decide (take (length cs) (components p) = cs).

Definition file_name (p : string) : option string :=
  match last (components p) with
  | Some s => if decide (s = "/" \/ s = "." \/ s = "..") then None else Some s
  | None => None
  end.

(** A name cut at its last dot, unless it has none or only one in front. *)
Definition rsplit_dot (name : string) : string * option string :=
  match rev (split_on "." name) with
  | ext :: ((_ :: _) as before) =>
      let stem := String.concat "." (rev before) in
      if decide (stem = "") then (name, None) else (stem, Some ext)
  | _ => (name, None)
  end.

Definition extension (p : string) : option string := name ← file_name p; (rsplit_dot name).2.
Definition file_stem (p : string) : option string := (fun name => (rsplit_dot name).1) <$> file_name p.

Definition has_dot_ext (p : string) : bool := bool_decide (extension p = Some "dot").

(** ** The file system, as discovery sees it *)

Record FsView := {
  (** [read_dir]: the names of the entries and whether each is a directory. *)
  fv_read_dir : string -> option (list (string * bool));
  fv_exists : string -> bool;
  fv_is_file : string -> bool;
  fv_read : string -> result string string
}.

(** ** Discovery *)

Record PipelineInfo := { pi_name : string; pi_path : string }.

Inductive PipelineResolveError :=
| NotFound (requested : string) (available : list string)
| Read (path source : string).

Definition PipelineResolveError_fmt (e : PipelineResolveError) : string :=
  match e with
  | NotFound requested available =>
      "pipeline '" +:+ requested +:+ "' not found. Available: "
      +:+ (if decide (available = []) then "(none)" else String.concat ", " available)
  | Read path source => "failed to read pipeline file '" +:+ path +:+ "': " +:+ source
  end.

Definition BUNDLED_PIPELINES_DIR : string := "bundled-pipelines".

Record PipelineDiscovery := { pd_search_paths : list string; pd_bundled_dirs : list string }.

Definition PipelineDiscovery_new (data_dir working_dir : string) : PipelineDiscovery :=
  {| pd_search_paths := [path_join (path_join working_dir ".octos") "pipelines";
                         path_join data_dir "pipelines"; path_join data_dir "skills"];
     pd_bundled_dirs := [] |}.

Definition new_operator_trusted (data_dir : string) : PipelineDiscovery :=
  {| pd_search_paths := [path_join data_dir "pipelines"; path_join data_dir "skills"];
     pd_bundled_dirs := [] |}.

(** [PathBuf] compares by components. *)
Definition path_eqb (p q : string) : bool := bool_decide (components p = components q).

Definition add_search_path (d : PipelineDiscovery) (path : string) : PipelineDiscovery :=
  if existsb (path_eqb path) (pd_search_paths d) then d
  else {| pd_search_paths := pd_search_paths d ++ [path]; pd_bundled_dirs := pd_bundled_dirs d |}.

Definition add_bundled_pipelines_dir (d : PipelineDiscovery) (root : string) : PipelineDiscovery :=
  let dir := path_join root BUNDLED_PIPELINES_DIR in
  if existsb (path_eqb dir) (pd_bundled_dirs d) then d
  else {| pd_search_paths := pd_search_paths d; pd_bundled_dirs := pd_bundled_dirs d ++ [dir] |}.

Definition with_octos_home (d : PipelineDiscovery) (home : string) : PipelineDiscovery :=
  add_bundled_pipelines_dir
    (add_search_path (add_search_path d (path_join home "skills")) (path_join home "pipelines")) home.

Definition ordered_search_paths (d : PipelineDiscovery) : list string :=
  pd_search_paths d ++ pd_bundled_dirs d.

Definition pipeline_name_stem (name_or_path : string) : string :=
  let file := match file_name name_or_path with Some s => from_utf8_lossy s | None => name_or_path end in
  default file (strip_suffix ".dot" file).

Section discovery.
Context (fs : FsView).

Definition add_info (pipelines : list PipelineInfo) (path : string) : list PipelineInfo :=
  if has_dot_ext path then
    let name := from_utf8_lossy (default "" (file_stem path)) in
    if existsb (fun p => bool_decide (pi_name p = name)) pipelines then pipelines
    else pipelines ++ [{| pi_name := name; pi_path := path |}]
  else pipelines.

Definition entry_paths (dir : string) : list (string * bool) :=
  match fv_read_dir fs dir with
  | Some entries => (fun e => (path_join dir e.1, e.2)) <$> entries
  | None => []
  end.

Definition scan_dot_files (dir : string) (pipelines : list PipelineInfo) : list PipelineInfo :=
  foldl add_info pipelines (entry_paths dir).*1.

(** A directory, then each of its sub-directories. *)
Definition scan_dir (pipelines : list PipelineInfo) (dir : string) : list PipelineInfo :=
  foldl (fun ps sub => scan_dot_files sub ps) (scan_dot_files dir pipelines)
    (filter (fun e => e.2 = true) (entry_paths dir)).*1.

Definition list_available (d : PipelineDiscovery) : list PipelineInfo :=
  foldl scan_dir [] (ordered_search_paths d).

Definition is_dot_file (p : string) : bool := fv_is_file fs p && has_dot_ext p.

Definition read_located (p : string) : result PipelineResolveError string :=
  match fv_read fs p with Ok s => Ok s | Err e => Err (Read p e) end.

(** The located file of the relative-path step. *)
Fixpoint relative_candidate (dirs : list string) (name_or_path : string) : option string :=
  match dirs with
  | [] => None
  | dir :: dirs =>
      let candidate := path_join dir name_or_path in
      if is_dot_file candidate then Some candidate
      else
        let with_ext := path_join dir (name_or_path +:+ ".dot") in
        if is_dot_file with_ext then Some with_ext else relative_candidate dirs name_or_path
  end.

Definition find_info (l : list PipelineInfo) (stem : string) : option PipelineInfo :=
  List.find (fun i => bool_decide (pi_name i = stem)) l.

Definition resolve (d : PipelineDiscovery) (name_or_path : string) : result PipelineResolveError string :=
  let trimmed := trim name_or_path in
  if starts_with "digraph " trimmed || starts_with "digraph{" trimmed then Ok name_or_path
  else if fv_exists fs name_or_path && has_dot_ext name_or_path then read_located name_or_path
  else
    match relative_candidate (pd_search_paths d) name_or_path with
    | Some p => read_located p
    | None =>
        let all := list_available d in
        match find_info all (pipeline_name_stem name_or_path) with
        | Some info => read_located (pi_path info)
        | None => Err (NotFound name_or_path (pi_name <$> all))
        end
    end.

Definition under_bundled (d : PipelineDiscovery) (i : PipelineInfo) : bool :=
  existsb (path_starts_with (pi_path i)) (pd_bundled_dirs d).

Definition resolve_installed (d : PipelineDiscovery) (name : string)
  : result PipelineResolveError (option string) :=
  match find_info (filter (fun i => under_bundled d i = false) (list_available d))
          (pipeline_name_stem (trim name)) with
  | Some info => Some <$> read_located (pi_path info)
  | None => Ok None
  end.

(** ** Names, in the tool *)

Inductive ResolvedPipeline :=
| ResolvedIr (ir : string)
| ResolvedDot (dot : string).

(** What the binary embeds: DOT files by file name, typed programs by pipeline name. *)
Context (BUNDLED_PIPELINES BUNDLED_IR_PIPELINES : list (string * string)).

Definition find_pair (l : list (string * string)) (P : string -> bool) : option string :=
  snd <$> List.find (fun e => P e.1) l.

Definition bundled_ir (name : string) : option string :=
  find_pair BUNDLED_IR_PIPELINES (fun n => bool_decide (n = name)).

Definition bundled_dot (want : string) : option string :=
  find_pair BUNDLED_PIPELINES (fun f => bool_decide (want = default f (strip_suffix ".dot" f))).

Definition INLINE_DOT_REJECTION : string :=
  "inline DOT graphs are not accepted: free-form DOT was the unsafe legacy authoring surface and has been removed. To run a multi-step workflow, either name a sanctioned pipeline (e.g. `deep_research`) in `pipeline`, or compose a typed-IR workflow program in `ir`.".
Definition PIPELINE_PATH_REJECTION : string :=
  "pipeline file paths are not accepted: name a sanctioned pipeline (e.g. `deep_research`) " +:+
  String "226" (String "128" (String "148" " a bare name, not a path ")) +:+
  String "226" (String "128" (String "148" " or compose a typed-IR workflow program in `ir`.")).

Definition resolve_named_with_bundled_fallback (d : PipelineDiscovery) (name_or_path : string)
  : result PipelineResolveError string :=
  match resolve d name_or_path with
  | Ok dot => Ok dot
  | Err (NotFound r a) =>
      match bundled_dot (pipeline_name_stem (trim name_or_path)) with
      | Some dot => Ok dot
      | None => Err (NotFound r a)
      end
  | Err e => Err e
  end.

(** Errors of the tool layer are reports. *)
Definition as_report {A} (r : result PipelineResolveError A) : result report A :=
  match r with Ok a => Ok a | Err e => bail (PipelineResolveError_fmt e) end.

Definition resolve_named (d : PipelineDiscovery) (pipeline_str : string) : result report ResolvedPipeline :=
  if looks_like_inline_dot pipeline_str then bail INLINE_DOT_REJECTION
  else
    let name := trim pipeline_str in
    if negb (is_bare_pipeline_name name) then bail PIPELINE_PATH_REJECTION
    else
      installed ← as_report (resolve_installed d name);
      match installed with
      | Some dot => Ok (ResolvedDot dot)
      | None =>
          match bundled_ir name with
          | Some ir => Ok (ResolvedIr ir)
          | None => ResolvedDot <$> as_report (resolve_named_with_bundled_fallback d name)
          end
      end.

Definition FALLBACK_PIPELINE_NAME : string := "deep_research".

(** The names the tool's schema offers. *)
Definition advertised (d : PipelineDiscovery) (env_allow : option string) : list string :=
  let names := filter (fun n => is_bare_pipeline_name n = true) (pi_name <$> list_available d) in
  let names := if decide (FALLBACK_PIPELINE_NAME ∈ names) then names else names ++ [FALLBACK_PIPELINE_NAME] in
  match pipeline_allowlist env_allow with
  | Some allow =>
      let kept := filter (fun n => n ∈ allow) names in
      if decide (kept = []) then allow else kept
  | None => names
  end.
End discovery.

(** ** Bare names *)

Local Abbreviation bare s := (str_forall bare_byte s = true).

Lemma bare_name_spec (s : string) : is_bare_pipeline_name s = true -> s <> "" /\ bare s.
Proof.
  unfold is_bare_pipeline_name. intros [Hne Hb]%andb_true_iff. split; [by bool_to_prop|].
  rewrite <- (of_chars_chars s). induction (chars s) as [|[c bs] cs IH]; [done|]. cbn in Hb.
  apply andb_true_iff in Hb as [Hc Hb]. rewrite of_chars_cons, str_forall_app, IH, andb_true_r by done.
  unfold bare_char in Hc. cbn in Hc. apply andb_true_iff in Hc as [_ Hc]. destruct bs as [|b []]; [done| |done].
  cbn. by rewrite Hc.
Qed.

Lemma bare_is_name s : bare s -> s <> "" -> is_bare_pipeline_name s = true.
Proof.
  intros Hb Hne. unfold is_bare_pipeline_name. rewrite bool_decide_eq_false_2 by done. cbn. clear Hne.
  induction s as [|b s IH]; [done|]. cbn [str_forall] in Hb. apply andb_true_iff in Hb as [Hb Hs].
  pose proof (bare_byte_ascii b Hb) as [Ha _]. rewrite chars_ascii_cons by done. cbn [forallb].
  rewrite IH by done. unfold bare_char. cbn [fst snd]. by rewrite Ha, Hb.
Qed.

Lemma bare_split c s : bare s -> bare_byte c = false -> split_on c s = [s].
Proof.
  intros Hb Hc. induction s as [|b s IH]; [done|]. cbn in *. apply andb_true_iff in Hb as [Hbb Hb].
  rewrite IH by done. rewrite decide_False by congruence. done.
Qed.

Lemma bare_starts_with p s : bare s -> ~ bare p -> starts_with p s = false.
Proof.
  intros Hs Hp. apply not_true_iff_false. intros (t & ->)%starts_with_app.
  rewrite str_forall_app in Hs. apply andb_true_iff in Hs. tauto.
Qed.

Lemma bare_no_ws s : bare s -> Forall (fun c => is_whitespace c.1 = false) (chars s).
Proof.
  induction s as [|b s IH]; [constructor|]. cbn [str_forall]. intros [Hb Hs]%andb_true_iff.
  rewrite chars_ascii_cons by (by apply bare_byte_ascii). constructor; [|auto].
  clear - Hb. by destruct b as [[] [] [] [] [] [] [] []]; vm_compute in Hb |- *.
Qed.

Lemma drop_while_ws_id l : Forall (fun c => is_whitespace c.1 = false) l -> drop_while_ws l = l.
Proof. destruct 1 as [|c l Hc Hl]; [done|]. cbn. by rewrite Hc. Qed.

Lemma bare_trim s : bare s -> trim s = s /\ trim_start s = s.
Proof.
  intros Hs%bare_no_ws. unfold trim, trim_start. rewrite (drop_while_ws_id (chars s)) by done.
  rewrite drop_while_ws_id by by apply Forall_rev. by rewrite rev_involutive, of_chars_chars.
Qed.

Lemma bare_inline s : bare s -> looks_like_inline_dot s = false.
Proof.
  intros Hs. unfold looks_like_inline_dot. rewrite (proj2 (bare_trim s Hs)).
  rewrite !bare_starts_with by (done || by vm_compute). done.
Qed.

Lemma bare_components s : bare s -> s <> "" -> components s = [s].
Proof.
  intros Hs Hne. unfold components. rewrite bare_split, bare_starts_with by (done || by vm_compute).
  assert (s <> ".") by (intros ->; by vm_compute in Hs).
  cbn [head]. rewrite decide_False by congruence. cbn [app]. by rewrite filter_cons_True.
Qed.

Lemma bare_file_name s : bare s -> s <> "" -> file_name s = Some s.
Proof.
  intros Hs Hne. unfold file_name. rewrite bare_components by done. cbn.
  rewrite decide_False; [done|]. intros Hc. destruct_or! Hc; subst; by vm_compute in Hs.
Qed.

Lemma bare_no_ext s : bare s -> s <> "" -> has_dot_ext s = false.
Proof.
  intros Hs Hne. unfold has_dot_ext, extension. rewrite bare_file_name by done. cbn.
  unfold rsplit_dot. by rewrite bare_split.
Qed.

Lemma bare_utf8 s : bare s -> from_utf8_lossy s = s.
Proof.
  intros Hs. apply from_utf8_lossy_valid, valid_utf8_ascii. rewrite is_ascii_forall.
  induction s as [|b s IH]; [done|]. cbn in *. apply andb_true_iff in Hs as [Hb Hs].
  apply bare_byte_ascii in Hb as [-> _]. by rewrite IH.
Qed.

Lemma bare_stem s : bare s -> s <> "" -> pipeline_name_stem s = s.
Proof.
  intros Hs Hne. unfold pipeline_name_stem. rewrite bare_file_name, bare_utf8 by done.
  destruct (strip_suffix ".dot" s) as [r|] eqn:Hr; [|done].
  apply strip_suffix_Some in Hr as ->. rewrite str_forall_app in Hs.
  by rewrite andb_comm in Hs.
Qed.

(** ** The list of pipelines *)

Section listing.
Context (fs : FsView).

Lemma add_info_prefix ps path : exists more, add_info ps path = ps ++ more.
Proof. unfold add_info. repeat case_match; try (exists []; by rewrite app_nil_r). by eexists. Qed.

Lemma foldl_prefix {A B} (f : list B -> A -> list B) l ps :
  (forall ps x, exists more, f ps x = ps ++ more) -> exists more, foldl f ps l = ps ++ more.
Proof.
  intros Hf. revert ps. induction l as [|x l IH]; intros ps; cbn; [exists []; by rewrite app_nil_r|].
  destruct (Hf ps x) as [m1 ->]. destruct (IH (ps ++ m1)) as [m2 ->]. exists (m1 ++ m2). by rewrite app_assoc.
Qed.

Lemma scan_dir_prefix ps dir : exists more, scan_dir fs ps dir = ps ++ more.
Proof.
  unfold scan_dir. destruct (foldl_prefix add_info (entry_paths fs dir).*1 ps add_info_prefix) as [m1 Hm1].
  unfold scan_dot_files at 2. rewrite Hm1.
  destruct (foldl_prefix (fun ps sub => scan_dot_files fs sub ps)
    (filter (fun e => e.2 = true) (entry_paths fs dir)).*1 (ps ++ m1)) as [m2 ->].
  { intros. apply foldl_prefix, add_info_prefix. }
  exists (m1 ++ m2). by rewrite app_assoc.
Qed.

(** The pipelines of the installed locations alone. *)
Definition installed (d : PipelineDiscovery) : list PipelineInfo := foldl (scan_dir fs) [] (pd_search_paths d).

Lemma list_available_installed d : exists bundled, list_available fs d = installed d ++ bundled.
Proof.
  unfold list_available, ordered_search_paths, installed. rewrite foldl_app.
  apply foldl_prefix, scan_dir_prefix.
Qed.

Lemma find_info_app l1 l2 n :
  find_info (l1 ++ l2) n = match find_info l1 n with Some i => Some i | None => find_info l2 n end.
Proof. unfold find_info. induction l1 as [|i l1 IH]; [done|]. cbn. by destruct (bool_decide (pi_name i = n)). Qed.

Lemma find_info_Some l n i : find_info l n = Some i -> i ∈ l /\ pi_name i = n.
Proof. intros [Hi Hn]%List.find_some. split; [by apply list_elem_of_In|by bool_to_prop]. Qed.

Lemma find_info_None l n : find_info l n = None <-> forall i, i ∈ l -> pi_name i <> n.
Proof.
  split.
  - intros Hf i Hi Hn. apply list_elem_of_In in Hi. eapply List.find_none in Hi; [|exact Hf]. cbn in Hi. by bool_to_prop.
  - intros Hn. destruct (find_info l n) as [i|] eqn:Hf; [|done]. apply find_info_Some in Hf as [Hi ?].
    by destruct (Hn i Hi).
Qed.

Lemma find_info_filter (P : PipelineInfo -> Prop) `{forall i, Decision (P i)} l n i :
  find_info l n = Some i -> P i -> find_info (filter P l) n = Some i.
Proof.
  intros Hf HP. induction l as [|j l IH]; [done|]. unfold find_info in *. cbn in Hf.
  destruct (bool_decide (pi_name j = n)) eqn:Hj.
  - simplify_eq. rewrite filter_cons_True by done. cbn. by rewrite Hj.
  - rewrite filter_cons. destruct (decide (P j)); [|by apply IH]. cbn. rewrite Hj. by apply IH.
Qed.
End listing.

(** ** Names resolve to what is installed *)

Section names.
Context (fs : FsView) (dots irs : list (string * string)) (d : PipelineDiscovery).

(** No search path lies inside a directory of bundled pipelines. *)
Definition separate : Prop := forall i, i ∈ installed fs d -> under_bundled d i = false.

Lemma resolve_installed_found name i :
  separate -> bare name -> name <> "" -> find_info (installed fs d) name = Some i ->
  resolve_installed fs d name = Some <$> read_located fs (pi_path i).
Proof.
  intros Hsep Hb Hne Hf. unfold resolve_installed. rewrite (proj1 (bare_trim name Hb)), bare_stem by done.
  destruct (list_available_installed fs d) as [more ->].
  pose proof (find_info_Some _ _ _ Hf) as [Hi _].
  rewrite (find_info_filter _ _ _ i); [done|by rewrite find_info_app, Hf|by apply Hsep].
Qed.

Lemma resolve_bare name :
  bare name -> name <> "" ->
  resolve fs d name =
  match relative_candidate fs (pd_search_paths d) name with
  | Some p => read_located fs p
  | None => match find_info (list_available fs d) name with
            | Some info => read_located fs (pi_path info)
            | None => Err (NotFound name (pi_name <$> list_available fs d))
            end
  end.
Proof.
  intros Hb Hne. unfold resolve. rewrite (proj1 (bare_trim name Hb)).
  rewrite !bare_starts_with by (done || by vm_compute). rewrite bare_no_ext, andb_false_r by done.
  cbn [orb]. by rewrite bare_stem.
Qed.

Lemma read_located_spec p : read_located fs p = match fv_read fs p with Ok s => Ok s | Err e => Err (Read p e) end.
Proof. done. Qed.

(** A relative candidate is a file of a search path that carries the name. *)
Lemma relative_candidate_spec dirs name p :
  bare name -> name <> "" -> relative_candidate fs dirs name = Some p ->
  exists dir, dir ∈ dirs /\ (p = path_join dir name \/ p = path_join dir (name +:+ ".dot")) /\ is_dot_file fs p = true.
Proof.
  intros Hb Hne. induction dirs as [|dir dirs IH]; [done|]. cbn.
  destruct (is_dot_file fs (path_join dir name)) eqn:H1; [intros [= <-]; set_solver|].
  destruct (is_dot_file fs (path_join dir (name +:+ ".dot"))) eqn:H2; [intros [= <-]; set_solver|].
  intros (dir' & ? & ?)%IH. set_solver.
Qed.

(** Where a resolved program may come from. *)
Inductive source (name : string) : ResolvedPipeline -> Prop :=
| from_listing i dot : i ∈ list_available fs d -> pi_name i = name -> fv_read fs (pi_path i) = Ok dot ->
    source name (ResolvedDot dot)
| from_search_path dir p dot : dir ∈ pd_search_paths d ->
    (p = path_join dir name \/ p = path_join dir (name +:+ ".dot")) -> is_dot_file fs p = true ->
    fv_read fs p = Ok dot -> source name (ResolvedDot dot)
| from_bundled_ir ir : bundled_ir irs name = Some ir -> source name (ResolvedIr ir)
| from_bundled_dot dot : bundled_dot dots name = Some dot ->
    (forall i, i ∈ list_available fs d -> pi_name i <> name) -> source name (ResolvedDot dot).

(** The model cannot author what runs through [pipeline]: whatever text it passes, a program
    that is resolved comes from a file of the operator's directories that carries the trimmed, bare name,
    or from the binary; inline DOT and paths are refused.  The embedded DOT is used only
    when no location lists the name. *)
Theorem resolve_named_source (text : string) (r : ResolvedPipeline) :
  resolve_named fs dots irs d text = Ok r ->
  is_bare_pipeline_name (trim text) = true /\ source (trim text) r.
Proof.
  unfold resolve_named. destruct (looks_like_inline_dot text); [done|].
  destruct (is_bare_pipeline_name (trim text)) eqn:Hbn; [|done]. cbn [negb].
  pose proof (bare_name_spec _ Hbn) as [Hne Hb]. set (name := trim text) in *.
  rewrite bind_Ok. intros (inst & Hinst & Hr). split; [done|]. destruct inst as [dot|].
  - injection Hr as <-. unfold resolve_installed in Hinst.
    rewrite (proj1 (bare_trim name Hb)), bare_stem in Hinst by done.
    destruct (find_info _ _) as [i|] eqn:Hf; [|done]. apply find_info_Some in Hf as [Hi Hn].
    rewrite read_located_spec in Hinst. destruct (fv_read fs (pi_path i)) as [s|e] eqn:Hrd; [|done].
    cbn in Hinst. simplify_eq. eapply from_listing; [|done|done]. apply list_elem_of_filter in Hi. tauto.
  - destruct (bundled_ir irs name) as [ir|] eqn:Hir; [injection Hr as <-; by apply from_bundled_ir|].
    unfold resolve_named_with_bundled_fallback in Hr. rewrite resolve_bare in Hr by done.
    rewrite (proj1 (bare_trim name Hb)), bare_stem in Hr by done.
    destruct (relative_candidate fs (pd_search_paths d) name) as [p|] eqn:Hrel.
    + apply relative_candidate_spec in Hrel as (dir & ? & ? & ?); [|done..].
      rewrite read_located_spec in Hr. destruct (fv_read fs p) eqn:Hrd; [|done]. cbn in Hr. simplify_eq.
      by eapply from_search_path.
    + destruct (find_info (list_available fs d) name) as [i|] eqn:Hf.
      * apply find_info_Some in Hf as [Hi Hn]. rewrite read_located_spec in Hr.
        destruct (fv_read fs (pi_path i)) eqn:Hrd; [|done]. cbn in Hr. simplify_eq. by eapply from_listing.
      * destruct (bundled_dot dots name) as [dot|] eqn:Hd; [|done]. cbn in Hr. simplify_eq.
        apply from_bundled_dot; [done|]. by apply find_info_None.
Qed.

(** Installed wins: when a search path lists the name, resolution returns the first such
    file or its read error, whatever the bundled directories and the binary hold. *)
Theorem installed_wins (text : string) (i : PipelineInfo) :
  separate -> looks_like_inline_dot text = false -> is_bare_pipeline_name (trim text) = true ->
  find_info (installed fs d) (trim text) = Some i ->
  resolve_named fs dots irs d text =
  match fv_read fs (pi_path i) with
  | Ok dot => Ok (ResolvedDot dot)
  | Err e => bail (PipelineResolveError_fmt (Read (pi_path i) e))
  end.
Proof.
  intros Hsep Hin Hbn Hf. unfold resolve_named. rewrite Hin, Hbn. cbn [negb].
  apply bare_name_spec in Hbn as [Hne Hb]. rewrite (resolve_installed_found _ i) by done.
  rewrite read_located_spec. by destruct (fv_read fs (pi_path i)).
Qed.

(** Every advertised name is resolvable (without an allow-list, and with the fallback name in the
    binary): resolution never reports it as not found, it returns a program or the read error
    of a file that was located. *)
Theorem advertised_resolves (name : string) :
  is_Some (bundled_ir irs FALLBACK_PIPELINE_NAME) -> name ∈ advertised fs d None ->
  (exists r, resolve_named fs dots irs d name = Ok r) \/
  (exists p e, fv_read fs p = Err e /\
     resolve_named fs dots irs d name = bail (PipelineResolveError_fmt (Read p e))).
Proof.
  intros Hfb Hadv.
  assert (Hb : bare name /\ name <> "" /\
    ((exists i, i ∈ list_available fs d /\ pi_name i = name) \/ name = FALLBACK_PIPELINE_NAME)).
  { unfold advertised in Hadv. cbn in Hadv.
    assert (Hn : name ∈ filter (fun n => is_bare_pipeline_name n = true) (pi_name <$> list_available fs d)
      \/ name = FALLBACK_PIPELINE_NAME) by (case_decide; set_solver).
    destruct Hn as [[Hbn (i & -> & Hi)%list_elem_of_fmap]%list_elem_of_filter| ->]; [|by split_and!; [| |right]].
    apply bare_name_spec in Hbn as [? ?]. eauto 10. }
  destruct Hb as (Hb & Hne & Hsrc). unfold resolve_named. rewrite bare_inline by done.
  rewrite (proj1 (bare_trim name Hb)), bare_is_name by done. cbn [negb].
  unfold resolve_installed. rewrite (proj1 (bare_trim name Hb)), bare_stem by done.
  destruct (find_info (filter _ _) name) as [i|].
  { rewrite read_located_spec. destruct (fv_read fs (pi_path i)) as [s|e] eqn:Hr; cbn; eauto. }
  cbn [as_report mbind result_bind]. destruct (bundled_ir irs name) as [ir|] eqn:Hir; [eauto|].
  destruct Hsrc as [(i & Hi & Hn)| ->]; [|by rewrite Hir in Hfb; destruct Hfb].
  unfold resolve_named_with_bundled_fallback. rewrite resolve_bare by done.
  destruct (relative_candidate fs (pd_search_paths d) name) as [p|].
  { rewrite read_located_spec. destruct (fv_read fs p) as [s|e] eqn:Hr; cbn; eauto. }
  destruct (find_info (list_available fs d) name) as [j|] eqn:Hf.
  { rewrite read_located_spec. destruct (fv_read fs (pi_path j)) as [s|e] eqn:Hr; cbn; eauto. }
  by destruct (proj1 (find_info_None _ _) Hf i Hi).
Qed.
End names.

(** ** A concrete layout

    The name is bundled twice (on disk and in the binary) and installed in a skill. *)

Definition demo_fs : FsView := {|
  fv_read_dir dir :=
    if decide (dir = "/d/skills") then Some [("notes.txt", false); ("mofa", true)]
    else if decide (dir = "/d/skills/mofa") then Some [("deep_research.dot", false)]
    else if decide (dir = "/h/bundled-pipelines") then Some [("deep_research.dot", false)]
    else None;
  fv_exists p := bool_decide (p ∈ ["/d/skills/mofa/deep_research.dot"; "/h/bundled-pipelines/deep_research.dot"]);
  fv_is_file p := bool_decide (p ∈ ["/d/skills/mofa/deep_research.dot"; "/h/bundled-pipelines/deep_research.dot"]);
  fv_read p :=
    if decide (p = "/d/skills/mofa/deep_research.dot") then Ok "digraph mine {}"
    else if decide (p = "/h/bundled-pipelines/deep_research.dot") then Ok "digraph bundled {}"
    else Err "No such file or directory"
|}.

Definition demo_discovery : PipelineDiscovery := with_octos_home (new_operator_trusted "/d") "/h".

Definition demo_dots : list (string * string) := [("deep_research.dot", "digraph embedded {}")].
Definition demo_irs : list (string * string) := [("deep_research", "{}")].

Lemma demo_installed :
  installed demo_fs demo_discovery =
  [{| pi_name := "deep_research"; pi_path := "/d/skills/mofa/deep_research.dot" |}].
Proof. by vm_compute. Qed.

Lemma demo_separate : separate demo_fs demo_discovery.
Proof. intros i. rewrite demo_installed, list_elem_of_singleton. intros ->. by vm_compute. Qed.

Lemma installed_wins_witness :
  resolve_named demo_fs demo_dots demo_irs demo_discovery " deep_research " =
  Ok (ResolvedDot "digraph mine {}").
Proof.
  rewrite (installed_wins demo_fs demo_dots demo_irs demo_discovery " deep_research "
    {| pi_name := "deep_research"; pi_path := "/d/skills/mofa/deep_research.dot" |});
    [done|exact demo_separate|by vm_compute..].
Defined.

Lemma resolve_named_source_witness :
  is_bare_pipeline_name "deep_research" = true /\
  source demo_fs demo_dots demo_irs (new_operator_trusted "/none") "deep_research" (ResolvedIr "{}").
Proof. by apply (resolve_named_source demo_fs demo_dots demo_irs _ "deep_research"); vm_compute. Defined.

Lemma advertised_resolves_witness :
  (exists r, resolve_named demo_fs demo_dots demo_irs demo_discovery "deep_research" = Ok r) \/
  (exists p e, fv_read demo_fs p = Err e /\
     resolve_named demo_fs demo_dots demo_irs demo_discovery "deep_research" = bail (PipelineResolveError_fmt (Read p e))).
Proof.
  apply (advertised_resolves demo_fs demo_dots demo_irs demo_discovery "deep_research"); [by eexists|].
  apply (bool_decide_eq_true _). by vm_compute.
Defined.
