(* ===== verification/ToolRun.v ===== *)
(** * A call of [run_pipeline]

    Model of the admission and of the result of a call in
    [crates/octos-pipeline/src/tool.rs]: [pre_flight_validate], the way [execute] obtains
    its graph, the report files it delivers and the text it returns. *)

From S2P Require Import Prelude RustStr RustNum Fidelity Graph Condition Parser ToolPolicy Validate.
From S2P Require Import Ir Profile Compose Host Dispatch Dag Guard Checkpoint Fanout Models Run.
From S2P Require Import Tool Discovery RunFiles.

(** ** Admission *)

Record Input := {
  in_pipeline : string;
  in_input : string;
  in_ir : option string;
  in_variables : list (string * option string);
  in_timeout_secs : option Z
}.

(** What the tool knows: its configuration, the file system, what the binary embeds, and the
    JSON reader of typed programs. *)
Record ToolEnv := {
  te_ir_enabled : bool;
  te_allow_env : option string;
  te_fs : FsView;
  te_discovery : PipelineDiscovery;
  te_bundled_dots : list (string * string);
  te_bundled_irs : list (string * string);
  te_from_str : string -> result string PipelineIr;
  te_catalog : option (list CatalogEntry);
  te_builtin_tools : list string;
  te_loaded_tools : list string;
  te_plugin_dirs : list string
}.

(** How [execute] proceeds: with a graph and its id, with a [ToolResult] that failed, or with an error. *)
Inductive Acquired :=
| AcqGraph (g : PipelineGraph) (graph_id : string)
| AcqRefused (output : string)
| AcqError (e : report).

Section admission.
Context `{HashIter} `{RustFmt} `{UnicodeTables} (env : ToolEnv).

(** A program was supplied and is enabled. *)
Definition ir_text (input : Input) : option string :=
  if te_ir_enabled env then
    match in_ir input with
    | Some s => if decide (trim s = "") then None else Some s
    | None => None
    end
  else None.

Definition compose_for (input : Input) (ir : string) : result ComposeError PipelineGraph :=
  compose (te_from_str env) ir l2_default (in_variables input).*1.

Definition feedback (e : ComposeError) : string := String.concat (nl "") (feedback_lines e).

Definition refused_by_allowlist (input : Input) : option string :=
  allow ← pipeline_allowlist (te_allow_env env);
  allowlist_rejection allow (in_pipeline input) (bool_decide (is_Some (ir_text input))).

Definition tool_resolve (input : Input) : result report ResolvedPipeline :=
  resolve_named (te_fs env) (te_bundled_dots env) (te_bundled_irs env) (te_discovery env) (in_pipeline input).

Definition tool_validation_context (g : PipelineGraph) (input : Input) : ValidationContext :=
  with_known_tools
    (with_known_models (with_runtime_variables ValidationContext_default (in_variables input).*1)
       (elements (known_model_keys_from_catalog (te_catalog env))))
    (known_tool_names_with_plugins (te_builtin_tools env) (te_loaded_tools env) (te_plugin_dirs env)
       (referenced_tool_entries g)).

(** [{e}] of a report is its outermost message. *)
Definition pre_flight_validate (input : Input) : result string unit :=
  match refused_by_allowlist input with
  | Some message => Err message
  | None =>
      match ir_text input with
      | Some ir =>
          match compose_for input ir with
          | Ok _ => Ok tt
          | Err e => Err ("IR validation failed:" +:+ nl (feedback e))
          end
      | None =>
          if looks_like_inline_dot (in_pipeline input) then Err INLINE_DOT_REJECTION
          else
            match tool_resolve input with
            | Ok (ResolvedIr ir) =>
                match compose_for input ir with
                | Ok _ => Ok tt
                | Err e => Err ("bundled pipeline IR failed to compose:" +:+ nl (feedback e))
                end
            | Ok (ResolvedDot dot) =>
                match parse_dot dot with
                | Ok g =>
                    let diags := diagnostics_with_context g (tool_validation_context g input) in
                    if has_errors diags then Err (format_bounded_preflight_errors diags) else Ok tt
                | Err e => Err ("failed to parse pipeline DOT: " +:+ report_display e)
                end
            | Err e => Err ("failed to resolve pipeline: " +:+ report_display e)
            end
      end
  end.

(** The first part of [execute], with the names that are running: when an allow-list is
    configured the name is claimed, and the guard is held for the whole call. *)
Definition acquire (input : Input) (running : gset string) : Acquired * option string * gset string :=
  match refused_by_allowlist input with
  | Some message => (AcqRefused message, None, running)
  | None =>
      let name := trim (in_pipeline input) in
      let '(claimed, guard, running) :=
        match pipeline_allowlist (te_allow_env env) with
        | Some _ => ((claim name running).1, Some name, (claim name running).2)
        | None => (true, None, running)
        end in
      if negb claimed then
        (AcqRefused ("pipeline '" +:+ name +:+ "' is already running; it reports back on its own when it finishes. Do not start it again."),
         None, running)
      else
        (match ir_text input with
         | Some ir =>
             match compose_for input ir with
             | Ok g => AcqGraph g (pg_id g)
             | Err e => AcqRefused ("IR compose failed " +:+ String "226" (String "128" (String "148"
                          " fix the workflow and call run_pipeline again:")) +:+ nl (feedback e))
             end
         | None =>
             if looks_like_inline_dot (in_pipeline input) then AcqRefused INLINE_DOT_REJECTION
             else
               match tool_resolve input with
               | Ok (ResolvedIr ir) =>
                   match compose_for input ir with
                   | Ok g => AcqGraph g (pg_id g)
                   | Err e => AcqRefused ("bundled pipeline IR failed to compose:" +:+ nl (feedback e))
                   end
               | Ok (ResolvedDot dot) =>
                   match wrap_err "failed to parse pipeline DOT" (parse_dot dot) with
                   | Ok g => AcqGraph g (graph_id_from_dot dot)
                   | Err e => AcqError e
                   end
               | Err e => AcqRefused (report_display e)
               end
         end, guard, running)
  end.

(** *** Preflight and run agree *)

(** A graph the tool may run: composed from the typed palette within the L2 profile, or the DOT of a
    resolved name. *)
Inductive sanctioned (input : Input) : PipelineGraph -> Prop :=
| by_program ir g : ir_text input = Some ir -> compose_for input ir = Ok g -> sanctioned input g
| by_bundled_ir ir g : tool_resolve input = Ok (ResolvedIr ir) -> compose_for input ir = Ok g -> sanctioned input g
| by_name dot g : ir_text input = None -> tool_resolve input = Ok (ResolvedDot dot) -> parse_dot dot = Ok g -> sanctioned input g.

Lemma acquired_sanctioned input running g id guard running' :
  acquire input running = (AcqGraph g id, guard, running') -> refused_by_allowlist input = None /\ sanctioned input g.
Proof.
  unfold acquire. destruct (refused_by_allowlist input); [done|]. 
  destruct (match pipeline_allowlist _ with Some _ => _ | None => _ end) as [[claimed gd] r1].
  destruct claimed; cbn [negb]; [|done]. intros Heq. split; [done|]. injection Heq as Hg _ _.
  destruct (ir_text input) as [ir|] eqn:Hir.
  - destruct (compose_for input ir) eqn:Hc; [|done]. simplify_eq. by eapply by_program.
  - destruct (looks_like_inline_dot _); [done|]. destruct (tool_resolve input) as [[ir|dot]|e] eqn:Hr; [| |done].
    + destruct (compose_for input ir) eqn:Hc; [|done]. simplify_eq. by eapply by_bundled_ir.
    + destruct (parse_dot dot) eqn:Hp; cbn in Hg; [|done]. simplify_eq. by eapply by_name.
Qed.

(** C37. The preflight predicts the run: when it passes, [execute] (of the same call, the name not
    already running) obtains a graph, and a DOT graph has no error in the context of the
    tool; when it refuses, [execute] either refuses or fails too, or obtains a DOT graph that the
    preflight found invalid.  In every case a graph that is obtained is sanctioned: composed
    from the palette within the L2 profile, or the DOT of a resolved name. *)
Theorem preflight_predicts_run (input : Input) (running : gset string) :
  trim (in_pipeline input) ∉ running ->
  (pre_flight_validate input = Ok tt ->
   exists g id, (acquire input running).1.1 = AcqGraph g id /\ sanctioned input g /\
     (forall dot, ir_text input = None -> tool_resolve input = Ok (ResolvedDot dot) ->
        has_errors (diagnostics_with_context g (tool_validation_context g input)) = false)) /\
  (forall e, pre_flight_validate input = Err e ->
   forall g id, (acquire input running).1.1 = AcqGraph g id ->
     sanctioned input g /\ has_errors (diagnostics_with_context g (tool_validation_context g input)) = true).
Proof.
  intros Hrun.
  assert (Hclaim : exists gd r, (match pipeline_allowlist (te_allow_env env) with
    | Some _ => ((claim (trim (in_pipeline input)) running).1, Some (trim (in_pipeline input)),
                 (claim (trim (in_pipeline input)) running).2)
    | None => (true, None, running) end) = (true, gd, r)).
  { destruct (pipeline_allowlist _); [|eauto]. unfold claim. rewrite decide_False by done. eauto. }
  destruct Hclaim as (gd & r & Hclaim).
  pose proof (fun g id => acquired_sanctioned input running g id (acquire input running).1.2
    (acquire input running).2) as Hs.
  unfold pre_flight_validate. revert Hs. unfold acquire. rewrite Hclaim. cbn [negb].
  destruct (refused_by_allowlist input); [done|]. cbn [fst snd]. intros Hs.
  destruct (ir_text input) as [ir|].
  - destruct (compose_for input ir) as [g|e]; [|done]. split; [|done]. intros _. exists g, (pg_id g).
    split_and!; [done|by eapply Hs|done].
  - destruct (looks_like_inline_dot _); [done|]. destruct (tool_resolve input) as [[ir|dot]|e]; [| |done].
    + destruct (compose_for input ir) as [g|e]; [|done]. split; [|done]. intros _. exists g, (pg_id g).
      split_and!; [done|by eapply Hs|done].
    + destruct (parse_dot dot) as [g|e]; [|done]. cbn [wrap_err] in *.
      destruct (has_errors _) eqn:He; (split; [|intros e]); try done.
      * intros _ g' id' [= <- <-]. split; [by eapply Hs|done].
      * intros _. exists g, (graph_id_from_dot dot). split_and!; [done|by eapply Hs|done].
Qed.
End admission.

(** ** The result of a run *)

Record ReportDelivery := {
  rd_report_file : option Path;
  rd_full_report : option Path;
  rd_files_to_send : list Path;
  rd_full_report_name : option string
}.

(** The text of a path: its parent and its file name. *)
Definition path_of (p : string) : Path :=
  match file_name p with
  | Some n => {| p_parent := match strip_suffix ("/" +:+ n) p with
                             | Some dir => if decide (dir = "") then "/" else dir
                             | None => "" end;
                 p_file_name := Some n |}
  | None => {| p_parent := p; p_file_name := None |}
  end.

Definition is_report (f : string) : bool :=
  let name := match file_name f with Some n => if valid_utf8 n then n else "" | None => "" end in
  ends_with ".md" name && negb (starts_with "_search" name).

Section delivery.
(** [std::fs::canonicalize]; the clock in seconds, the process id and the value of the
    counter when the report is written. *)
Context (canonicalize : string -> option string) (timestamp pid seq : Z).

Definition real_report_file (files_modified : list string) : option string :=
  (fun f => if starts_with "/" f then f else default f (canonicalize f))
    <$> List.find is_report files_modified.

Definition synthetic_name : string :=
  "run_pipeline_" +:+ pretty timestamp +:+ "_" +:+ pretty pid +:+ "_" +:+ pretty seq +:+ ".md".

(** [None] when the directory or the file cannot be written. *)
Definition write_synthetic_report (output dir : string) : FsWorld -> option Path * FsWorld := fun w =>
  match (_ ← create_dir_all dir; fs_write (child dir synthetic_name) output) w with
  | (Ok _, w) => (Some (child dir synthetic_name), w)
  | (Err _, w) => (None, w)
  end.

(** The candidates that exist, without repetition. *)
Fixpoint existing (candidates send : list Path) : FsWorld -> list Path * FsWorld := fun w =>
  match candidates with
  | [] => (send, w)
  | c :: candidates =>
      match fs_exists c w with
      | (Ok true, w) => existing candidates (if decide (c ∈ send) then send else send ++ [c]) w
      | (_, w) => existing candidates send w
      end
  end.

Definition resolve_report_delivery (full_output : string) (files_modified : list string) (truncated : bool)
    (synthetic_dir : string) : FsWorld -> ReportDelivery * FsWorld := fun w =>
  let real := path_of <$> real_report_file files_modified in
  let needs_full := truncated && negb (bool_decide (full_output = "")) in
  let needs_payload := negb truncated && bool_decide (real = None) && negb (bool_decide (full_output = "")) in
  let '(synthesized, w) :=
    if needs_full || needs_payload then write_synthetic_report full_output synthetic_dir w else (None, w) in
  let '(send, w) := existing (option_list real ++ option_list synthesized) [] w in
  ({| rd_report_file := match real with Some r => Some r | None => synthesized end;
      rd_full_report := if needs_full then synthesized else None;
      rd_files_to_send := send;
      rd_full_report_name := if needs_full then synthesized ≫= p_file_name else None |}, w).

(** *** Nothing is lost by truncation *)

Lemma existing_spec cs : forall send w,
  fw_stat_faults w = [] -> let '(send', w') := existing cs send w in
  fw_files w' = fw_files w /\ (forall p, p ∈ send -> p ∈ send') /\
  (forall p, p ∈ cs -> is_Some (fw_files w !! p) -> p ∈ send').
Proof.
  induction cs as [|c cs IH]; intros send w Hf; cbn; [split_and!; set_solver|].
  unfold fs_exists. rewrite Hf. cbn. destruct (bool_decide (is_Some (fw_files w !! c))) eqn:Hb; bool_to_prop.
  - specialize (IH (if decide (c ∈ send) then send else send ++ [c]) {| fw_files := fw_files w; fw_faults := fw_faults w; fw_stat_faults := [] |} eq_refl).
    destruct (existing _ _ _) as [send' w']. destruct IH as (-> & Hs & Hc). split_and!; [done|..].
    + intros p Hp. apply Hs. case_decide; set_solver.
    + intros p Hp Hex. apply elem_of_cons in Hp as [->|Hp]; [|by apply Hc]. apply Hs. case_decide; set_solver.
  - specialize (IH send {| fw_files := fw_files w; fw_faults := fw_faults w; fw_stat_faults := [] |} eq_refl).
    destruct (existing _ _ _) as [send' w']. destruct IH as (-> & Hs & Hc). split_and!; [done..|].
    intros p Hp Hex. apply elem_of_cons in Hp as [->|Hp]; [done|by apply Hc].
Qed.

Lemma write_synthetic_spec output dir w :
  let '(p, w') := write_synthetic_report output dir w in
  fw_stat_faults w' = fw_stat_faults w /\
  match p with
  | Some p => p = child dir synthetic_name /\ fw_files w' !! p = Some output
  | None => exists f, Some f ∈ fw_faults w
  end.
Proof.
  unfold write_synthetic_report, create_dir_all. rewrite fsm_bind_run, guarded_run.
  destruct (next_fault w).1 as [f|] eqn:Hf1; cbn [mret fsm_ret].
  { split; [done|]. exists f. unfold next_fault in Hf1. cbn in Hf1. destruct (fw_faults w) as [|[f'|] fs]; [done| |done].
    cbn in Hf1. simplify_eq. set_solver. }
  unfold fs_write. set (w1 := (next_fault w).2). destruct (next_fault w1) as [f2 w2] eqn:Hw2.
  injection Hw2 as Hf2 <-. destruct f2 as [f2|].
  - split; [by destruct (f_written f2)|]. exists f2. subst w1. cbn in Hf2.
    destruct (fw_faults w) as [|f0 [|[f'|] fs]]; [done|done| |done]. cbn in Hf2. simplify_eq. set_solver.
  - split; [done|]. split; [done|]. cbn. by rewrite lookup_insert_eq.
Qed.

(** When the body of a result is cut, the full output is not lost: unless an operation of the
    file system fails, the report named by the marker holds exactly the full output and is among the files
    that are sent, next to any report of the run itself; when it is not cut, no marker name is given. *)
Theorem truncated_output_delivered (full_output : string) (files : list string) (truncated : bool)
    (dir : string) (w : FsWorld) :
  full_output <> "" -> fw_stat_faults w = [] -> (forall f, Some f ∉ fw_faults w) ->
  let '(d, w') := resolve_report_delivery full_output files truncated dir w in
  if truncated then
    exists p, rd_full_report d = Some p /\ rd_full_report_name d = Some synthetic_name /\
      p = child dir synthetic_name /\ fw_files w' !! p = Some full_output /\ p ∈ rd_files_to_send d
  else rd_full_report_name d = None /\ (real_report_file files = None -> rd_files_to_send d <> []).
Proof.
  intros Hne Hst Hfl. unfold resolve_report_delivery. rewrite (bool_decide_eq_false_2 (full_output = "")) by done.
  cbn [negb]. rewrite !andb_true_r.
  pose proof (write_synthetic_spec full_output dir w) as Hw.
  destruct (write_synthetic_report full_output dir w) as [p w1]. destruct Hw as [Hst1 Hp].
  destruct p as [p|]; [|destruct Hp as [f Hf]; by destruct (Hfl f)]. destruct Hp as [-> Hp].
  set (real := path_of <$> real_report_file files). destruct truncated; cbn [orb negb andb].
  - pose proof (existing_spec (option_list real ++ [child dir synthetic_name]) [] w1 ltac:(congruence)) as He.
    cbn [option_list] in *. destruct (existing _ _ _) as [send w2]. destruct He as (Hf & _ & Hin). cbn.
    exists (child dir synthetic_name). split_and!; [done..|by rewrite Hf|]. apply Hin; [set_solver|by rewrite Hp].
  - destruct (bool_decide (real = None)) eqn:Hr; bool_to_prop; cbn.
    + rewrite Hr. cbn [option_list app]. pose proof (existing_spec [child dir synthetic_name] [] w1 ltac:(congruence)) as He.
      destruct (existing _ _ _) as [send w2]. destruct He as (_ & _ & Hin). cbn. split; [done|]. intros _ ->.
      specialize (Hin (child dir synthetic_name) ltac:(set_solver) ltac:(by rewrite Hp)). by apply elem_of_nil in Hin.
    + destruct (existing _ _ _) as [send w2]. cbn. split; [done|]. intros Hn. unfold real in Hr. by rewrite Hn in Hr.
Qed.
End delivery.

(** ** The text of the result *)

Definition summary_line (n : NodeSummary) : string :=
  "- " +:+ Graph.ns_node_id n +:+ " (" +:+ default "default" (Graph.ns_model n) +:+ "): "
  +:+ pretty (Graph.ns_duration_ms n) +:+ "ms, " +:+ pretty (input_tokens (Graph.ns_token_usage n)) +:+ "+"
  +:+ pretty (output_tokens (Graph.ns_token_usage n)) +:+ " tokens".

Definition total_line (r : PipelineResult) : string :=
  "Total: " +:+ pretty (input_tokens (pr_token_usage r)) +:+ " input + "
  +:+ pretty (output_tokens (pr_token_usage r)) +:+ " output tokens".

(** [declared] is the fidelity the graph asks for, [name] the one of the full report. *)
Definition result_output (r : PipelineResult) (declared : option FidelityMode) (name : option string) : string :=
  with_marker (compute_result_ceiling (pr_output r) declared) name
  +:+ bound_footer (summary_line <$> pr_node_summaries r) (total_line r).

Definition timeout_output (timeout_secs : Z) : string :=
  "pipeline timed out after " +:+ pretty timeout_secs +:+ "s".

Lemma synthetic_name_json timestamp pid seq :
  (0 <= timestamp <= u64_max)%Z -> (0 <= pid <= u32_max)%Z -> (0 <= seq <= u64_max)%Z ->
  (json_escaped_len (synthetic_name timestamp pid seq) <= 160)%Z.
Proof.
  intros Ht Hp Hs. unfold synthetic_name. rewrite !json_escaped_len_app.
  pose proof (pretty_usize_json timestamp Ht). pose proof (pretty_usize_json seq Hs).
  pose proof (pretty_usize_json pid ltac:(unfold usize_max, u64_max, u32_max in *; lia)).
  change (json_escaped_len "run_pipeline_") with 13%Z. change (json_escaped_len "_") with 1%Z.
  change (json_escaped_len ".md") with 3%Z. lia.
Qed.

Lemma total_line_json r :
  (0 <= input_tokens (pr_token_usage r) <= u32_max)%Z -> (0 <= output_tokens (pr_token_usage r) <= u32_max)%Z ->
  (json_escaped_len (total_line r) <= FOOTER_BUDGET_BYTES - 100)%Z.
Proof.
  intros Hi Ho. unfold total_line. rewrite !json_escaped_len_app.
  pose proof (pretty_usize_json (input_tokens (pr_token_usage r)) ltac:(unfold usize_max, u64_max, u32_max in *; lia)).
  pose proof (pretty_usize_json (output_tokens (pr_token_usage r)) ltac:(unfold usize_max, u64_max, u32_max in *; lia)).
  change (json_escaped_len "Total: ") with 7%Z. change (json_escaped_len " input + ") with 9%Z.
  change (json_escaped_len " output tokens") with 14%Z. change (FOOTER_BUDGET_BYTES - 100)%Z with 32668%Z. lia.
Qed.

(** C35. What a call returns fits the frame: for every result of a graph that declares no
    fidelity, with any output, any number of nodes and names of any length, the text [run_pipeline] returns (body,
    marker that names the report of the delivery, footer) takes at most 512 KiB of
    escaped JSON, half of what a frame may hold. *)
Theorem result_fits_frame (r : PipelineResult) (timestamp pid seq : Z) (truncated : bool) :
  (str_len (pr_output r) <= usize_max)%Z -> (Z.of_nat (length (pr_node_summaries r)) <= usize_max)%Z ->
  (0 <= input_tokens (pr_token_usage r) <= u32_max)%Z -> (0 <= output_tokens (pr_token_usage r) <= u32_max)%Z ->
  (0 <= timestamp <= u64_max)%Z -> (0 <= pid <= u32_max)%Z -> (0 <= seq <= u64_max)%Z ->
  (json_escaped_len (result_output r None (if truncated then Some (synthetic_name timestamp pid seq) else None))
   <= MAX_FRAME_BUDGET_BYTES < MAX_TEXT_FRAME_BYTES)%Z.
Proof.
  intros Ho Hn Hi Hou Ht Hp Hs. unfold result_output. rewrite json_escaped_len_app.
  pose proof (with_marker_bound (pr_output r) (if truncated then Some (synthetic_name timestamp pid seq) else None) Ho)
    as Hb.
  pose proof (bound_footer_bound (summary_line <$> pr_node_summaries r) (total_line r)
    ltac:(by rewrite length_fmap) (total_line_json r Hi Hou)) as Hf.
  assert (Hname : forall name, (if truncated then Some (synthetic_name timestamp pid seq) else None) = Some name ->
    (json_escaped_len name <= 160)%Z)
    by (intros name Hname; destruct truncated; [|done]; injection Hname as <-; by apply synthetic_name_json).
  specialize (Hb Hname). split; [unfold BODY_BUDGET_BYTES in *; lia|done].
Qed.

Definition demo_result : PipelineResult := {|
  pr_output := "done"; pr_success := true; pr_token_usage := TokenUsage_default; pr_node_summaries := [];
  pr_files_modified := []; pr_node_costs := []
|}.

Lemma result_fits_frame_witness :
  (json_escaped_len (result_output demo_result None (Some (synthetic_name 1700000000 4711 3)))
   <= MAX_FRAME_BUDGET_BYTES < MAX_TEXT_FRAME_BYTES)%Z.
Proof. apply (result_fits_frame demo_result 1700000000 4711 3 true); vm_compute; by try split. Defined.

Lemma truncated_output_delivered_witness :
  let '(d, w') := resolve_report_delivery (fun _ => None) 1700000000 4711 3 "body" ["notes.txt"] true "/w"
    {| fw_files := ∅; fw_faults := []; fw_stat_faults := [] |} in
  exists p, rd_full_report d = Some p /\ rd_full_report_name d = Some (synthetic_name 1700000000 4711 3) /\
    p = child "/w" (synthetic_name 1700000000 4711 3) /\ fw_files w' !! p = Some "body" /\ p ∈ rd_files_to_send d.
Proof.
  apply (truncated_output_delivered (fun _ => None) 1700000000 4711 3 "body" ["notes.txt"] true "/w"); [done..|].
  intros f. apply not_elem_of_nil.
Defined.

(** The tool with one program, and a call that runs it. *)
Definition demo_env : ToolEnv := {|
  te_ir_enabled := true; te_allow_env := None; te_fs := demo_fs; te_discovery := demo_discovery;
  te_bundled_dots := demo_dots; te_bundled_irs := demo_irs; te_from_str := demo_reader demo_ir;
  te_catalog := None; te_builtin_tools := []; te_loaded_tools := []; te_plugin_dirs := []
|}.
Definition demo_input : Input := {|
  in_pipeline := ""; in_input := "go"; in_ir := Some "program"; in_variables := []; in_timeout_secs := None
|}.

Lemma preflight_predicts_run_witness :
  exists g id, (@acquire tree_iter no_fmt ascii_tables demo_env demo_input ∅).1.1 = AcqGraph g id /\
    @sanctioned tree_iter no_fmt ascii_tables demo_env demo_input g.
Proof.
  destruct (@preflight_predicts_run tree_iter no_fmt ascii_tables demo_env demo_input ∅) as [H _]; [set_solver|].
  destruct H as (g & id & H1 & H2 & _); [by vm_compute|]. eauto.
Defined.

(** ** The whole call *)

(** Metadata are the cost rows; [named_outputs] is always absent here. *)
Record ToolResult := {
  tr_output : string;
  tr_success : bool;
  tr_file_modified : option Path;
  tr_files_to_send : list Path;
  tr_tokens_used : option TokenUsage;
  tr_node_costs : option (list NodeCost)
}.

Definition failed_result (output : string) : ToolResult :=
  {| tr_output := output; tr_success := false; tr_file_modified := None; tr_files_to_send := [];
     tr_tokens_used := None; tr_node_costs := None |}.

Definition build_pipeline_timeout_result (timeout_secs : Z) : ToolResult := failed_result (timeout_output timeout_secs).

Definition node_costs_metadata (rows : list NodeCost) : option (list NodeCost) :=
  match rows with [] => None | _ => Some rows end.

Definition UNMANAGED_REASON : string := "pipeline workers don't yet propagate ContextManager (M17-B)".

Definition build_pipeline_run_summary (graph_id : string) (r : PipelineResult) (duration_ms : Z) (start_time : string)
  : RunDirs.PipelineRunSummary :=
  RunDirs.with_external_context_unmanaged
    {| RunDirs.rsm_graph_id := graph_id; RunDirs.rsm_success := pr_success r; RunDirs.rsm_duration_ms := duration_ms;
       RunDirs.rsm_total_tokens := pr_token_usage r;
       RunDirs.rsm_nodes_executed := Z.of_nat (length (pr_node_summaries r));
       RunDirs.rsm_start_time := start_time; RunDirs.rsm_context_mode := None; RunDirs.rsm_context_reason := None |}
    UNMANAGED_REASON.

Definition timeout_summary (graph_id : string) (duration_ms : Z) (start_time : string) (timeout_secs : Z)
  : RunDirs.PipelineRunSummary :=
  RunDirs.with_external_context_unmanaged
    {| RunDirs.rsm_graph_id := graph_id; RunDirs.rsm_success := false; RunDirs.rsm_duration_ms := duration_ms;
       RunDirs.rsm_total_tokens := TokenUsage_default; RunDirs.rsm_nodes_executed := 0;
       RunDirs.rsm_start_time := start_time; RunDirs.rsm_context_mode := None; RunDirs.rsm_context_reason := None |}
    (UNMANAGED_REASON +:+ "; pipeline timed out after " +:+ pretty timeout_secs +:+ "s").

(** Failures are logged only. *)
Definition emit_summary `{RunDirs.StatusJson} (working_dir run_id : string) (s : RunDirs.PipelineRunSummary)
    (w : FsWorld) : FsWorld :=
  ((d ← RunDirs.RunDir_new working_dir run_id; RunDirs.write_summary d s) w).2.

(** What a call reads from outside: the clock, the process, the counters, the environment
    and the directory of the session. *)
Record CallEnv := {
  ce_secs : Z; ce_nanos : Z; ce_pid : Z; ce_run_counter : Z; ce_report_counter : Z;
  ce_elapsed_ms : Z; ce_now_secs : Z;
  ce_timeout_env : option string; ce_timeout_max_env : option string;
  ce_working_dir : string; ce_shared_dir : string
}.

Section execute.
Context `{HashIter} `{RustFmt} `{UnicodeTables} `{RunDirs.StatusJson} (env : ToolEnv) (ce : CallEnv).
Context (canonicalize : string -> option string).
(** [executor.run_graph] in a working directory under [tokio::time::timeout]: nothing on
    expiry. *)
Context (run : string -> Z -> PipelineGraph -> string -> list (string * option string) -> FsWorld ->
               result report (option PipelineResult) * FsWorld).
(** [mark_descendants_failed] of the supervisor. *)
Context (cascade_fail : string -> FsWorld -> FsWorld).

Definition start_time : string := default "" (systemtime_to_rfc3339 (ce_secs ce)).

(** The result of a run that ended in time. *)
Definition deliver (declared : option FidelityMode) (r : PipelineResult) (w : FsWorld) : ToolResult * FsWorld :=
  let dir := path_join (path_join (ce_shared_dir ce) "skill-output") "run_pipeline" in
  let '(d, w) := resolve_report_delivery canonicalize (ce_now_secs ce) (ce_pid ce) (ce_report_counter ce)
                   (pr_output r) (pr_files_modified r)
                   (rc_truncated (compute_result_ceiling (pr_output r) declared)) dir w in
  ({| tr_output := result_output r declared (rd_full_report_name d); tr_success := pr_success r;
      tr_file_modified := rd_report_file d; tr_files_to_send := rd_files_to_send d;
      tr_tokens_used := Some (pr_token_usage r); tr_node_costs := node_costs_metadata (pr_node_costs r) |}, w).

(** A graph was obtained: run it in a directory of its own (or the shared one when that
    cannot be made) and report.  The link to the latest run and the removal of old directories
    ([Tool.dirs_to_prune]) do not touch files of this model. *)
Definition run_acquired (input : Input) (g : PipelineGraph) (graph_id : string) (w : FsWorld)
  : result report ToolResult * FsWorld :=
  let run_id := generate_run_id graph_id (ce_secs ce) (ce_nanos ce) (ce_pid ce) (ce_run_counter ce) in
  let run_dir := path_join (path_join (ce_shared_dir ce) "pipeline-runs") run_id in
  let '(made, w) := create_dir_all run_dir w in
  let effective := if is_ok made then run_dir else ce_shared_dir ce in
  let timeout_secs := default 0%Z (resolve_pipeline_timeout (ce_timeout_env ce) (ce_timeout_max_env ce)
                                     (in_timeout_secs input) (pg_default_timeout_secs g)) in
  match run effective timeout_secs g (in_input input) (in_variables input) w with
  | (Err e, w) => (Err e, w)
  | (Ok None, w) =>
      let w := emit_summary (ce_working_dir ce) run_id
                 (timeout_summary graph_id (ce_elapsed_ms ce) start_time timeout_secs) w in
      (Ok (build_pipeline_timeout_result timeout_secs), cascade_fail (timeout_output timeout_secs) w)
  | (Ok (Some r), w) =>
      let w := emit_summary (ce_working_dir ce) run_id
                 (build_pipeline_run_summary graph_id r (ce_elapsed_ms ce) start_time) w in
      let '(t, w) := deliver (pg_result_fidelity g) r w in (Ok t, w)
  end.

Definition tool_execute (input : Input) (running : gset string) (w : FsWorld)
  : result report ToolResult * gset string * FsWorld :=
  let '(a, guard, running) := acquire env input running in
  let '(r, w) := match a with
                 | AcqRefused output => (Ok (failed_result output), w)
                 | AcqError e => (Err e, w)
                 | AcqGraph g id => run_acquired input g id w
                 end in
  (r, match guard with Some name => release name running | None => running end, w).

(** *** What a successful call means *)

Lemma acquire_guard input running a guard running' :
  acquire env input running = (a, guard, running') ->
  match guard with
  | Some name => name ∉ running /\ running' = {[name]} ∪ running
  | None => running' = running
  end.
Proof.
  unfold acquire. destruct (refused_by_allowlist _ _); [by intros [= _ <- <-]|].
  destruct (pipeline_allowlist _) as [allow|]; [|by intros [= _ <- <-]].
  unfold claim. case_decide; [by intros [= _ <- <-]|]. by intros [= _ <- <-].
Qed.

(** C36. A call that reports success ran a sanctioned graph to a successful result within its
    timeout (between a minute and the ceiling); and however a call ends (refused, failed, timed out,
    succeeded), the name it claimed is released: the running names are as before. *)
Theorem call_success_sound (input : Input) (running : gset string) (w w' : FsWorld) r running' :
  tool_execute input running w = (r, running', w') ->
  running' = running /\
  forall t, r = Ok t -> tr_success t = true ->
    exists g id dir secs w1 w2 res, (acquire env input running).1.1 = AcqGraph g id /\ sanctioned env input g /\
      (PIPELINE_TIMEOUT_MIN_SECS <= secs <= pipeline_timeout_ceiling (ce_timeout_max_env ce))%Z /\
      run dir secs g (in_input input) (in_variables input) w1 = (Ok (Some res), w2) /\
      pr_success res = true /\ tr_tokens_used t = Some (pr_token_usage res).
Proof.
  unfold tool_execute. destruct (acquire env input running) as [[a guard] r1] eqn:Ha.
  pose proof (acquire_guard _ _ _ _ _ Ha) as Hg.
  destruct (match a with AcqGraph _ _ => _ | AcqRefused _ => _ | AcqError _ => _ end) as [r2 w2] eqn:Hr.
  intros [= <- <- <-]. split.
  - destruct guard as [name|]; [destruct Hg as [Hn ->]; unfold release; set_solver|done].
  - intros t -> Hs. destruct a as [g id|out|e]; [|by injection Hr as <- <-|done].
    pose proof (acquired_sanctioned _ _ _ _ _ _ _ Ha) as [_ Hsan]. unfold run_acquired in Hr.
    destruct (create_dir_all _ w) as [made w1].
    match type of Hr with context [run ?d ?s _ _ _ _] => set (dir := d) in Hr; set (secs := s) in Hr end.
    assert (Hsecs : (PIPELINE_TIMEOUT_MIN_SECS <= secs <= pipeline_timeout_ceiling (ce_timeout_max_env ce))%Z).
    { unfold secs. destruct (resolve_pipeline_timeout_range (ce_timeout_env ce) (ce_timeout_max_env ce)
        (in_timeout_secs input) (pg_default_timeout_secs g)) as (t' & -> & ? & _). done. }
    destruct (run dir secs g (in_input input) (in_variables input) w1) as [[[res|]|e] w3] eqn:Hrun; [| |done].
    + destruct (deliver _ _ _) as [t' w4] eqn:Hd. injection Hr as -> _. exists g, id, dir, secs, w1, w3, res.
      unfold deliver in Hd. destruct (resolve_report_delivery _ _ _ _ _ _ _ _ _) as [d w5].
      injection Hd as <- _. split_and!; [done|exact Hsan|lia|lia|exact Hrun|exact Hs|done].
    + injection Hr as <- _. done.
Qed.
End execute.

Definition demo_call : CallEnv := {|
  ce_secs := 1700000000; ce_nanos := 42; ce_pid := 4711; ce_run_counter := 3; ce_report_counter := 3;
  ce_elapsed_ms := 10; ce_now_secs := 1700000001; ce_timeout_env := None; ce_timeout_max_env := None;
  ce_working_dir := "/d"; ce_shared_dir := "/d"
|}.
Definition demo_status_json : RunDirs.StatusJson :=
  {| RunDirs.status_json := fun _ => Ok "{}"; RunDirs.summary_json := fun _ => Ok "{}" |}.
Definition demo_run (dir : string) (secs : Z) (g : PipelineGraph) (input : string)
    (vars : list (string * option string)) (w : FsWorld) : result report (option PipelineResult) * FsWorld :=
  (Ok (Some demo_result), w).
Definition empty_fs : FsWorld := {| fw_files := ∅; fw_faults := []; fw_stat_faults := [] |}.
Definition demo_execute : result report ToolResult * gset string * FsWorld :=
  @tool_execute tree_iter no_fmt ascii_tables demo_status_json demo_env demo_call (fun _ => None) demo_run
    (fun _ w => w) demo_input ∅ empty_fs.

Lemma call_success_sound_witness :
  demo_execute.1.2 = ∅ /\
  exists g id, (@acquire tree_iter no_fmt ascii_tables demo_env demo_input ∅).1.1 = AcqGraph g id /\
    @sanctioned tree_iter no_fmt ascii_tables demo_env demo_input g.
Proof.
  assert (Ht : match demo_execute.1.1 with Ok t => tr_success t | Err _ => false end = true)
    by (vm_compute; reflexivity).
  destruct demo_execute as [[r running] w] eqn:He. unfold demo_execute in He.
  pose proof (@call_success_sound tree_iter no_fmt ascii_tables demo_status_json demo_env demo_call (fun _ => None)
    demo_run (fun _ w => w) demo_input ∅ empty_fs w r running He) as [Hrun Hok].
  split; [exact Hrun|]. cbn [fst snd] in Ht. destruct r as [t|e]; [|discriminate Ht].
  destruct (Hok t eq_refl Ht) as (g & id & dir & secs & w1 & w2 & res & H1 & H2 & _). exists g, id. exact (conj H1 H2).
Defined.
