(* ===== verification/Grant.v ===== *)
(** * Worker grants

    [crates/octos-fleet/src/grant.rs]: the capability grant an operator gives one fleet
    worker (network, tools, filesystem, per-path write fence) and the validation that runs
    when a plan is parsed and again before a worker is built.  The theorem states exactly
    which grants pass. *)
From S2P Require Import Prelude RustStr RustNum.
Open Scope octos_scope.

(** ** The catalogue *)

Definition BASE_TOOLS : list string :=
  ["read_file"; "write_file"; "edit_file"; "glob"; "grep"; "list_dir"; "shell"].

Definition GRANTABLE_TOOLS : list string :=
  ["read_file"; "write_file"; "edit_file"; "glob"; "grep"; "list_dir"; "shell"; "web_fetch"; "web_search"].

Definition WEB_TOOLS : list string := ["web_fetch"; "web_search"].

(** ** The grant *)

Inductive NetworkGrant :=
  | NetNone
  | Hosts (hosts : list string)
  | Full.

#[export] Instance NetworkGrant_eq_dec : EqDecision NetworkGrant.
Proof. solve_decision. Defined.

Definition allows_raw_egress (n : NetworkGrant) : bool := match n with Full => true | _ => false end.
Definition web_allowlist (n : NetworkGrant) : option (list string) :=
  match n with Hosts hosts => Some hosts | _ => None end.
Definition permits_web_tools (n : NetworkGrant) : bool := match n with NetNone => false | _ => true end.

Inductive FsGrant := FsWorkspace | FsHost.

#[export] Instance FsGrant_eq_dec : EqDecision FsGrant.
Proof. solve_decision. Defined.

Definition is_host (f : FsGrant) : bool := match f with FsHost => true | FsWorkspace => false end.

Record WorkerGrant := {
  wg_network : NetworkGrant;
  wg_tools : list string;
  wg_fs : FsGrant;
  wg_write_paths : option (list string);
  wg_create_only : bool;
}.

#[export] Instance WorkerGrant_eq_dec : EqDecision WorkerGrant.
Proof. solve_decision. Defined.

Definition minimal : WorkerGrant := {|
  wg_network := NetNone; wg_tools := BASE_TOOLS; wg_fs := FsWorkspace;
  wg_write_paths := None; wg_create_only := false |}.

Definition has_write_fence (g : WorkerGrant) : bool := bool_decide (is_Some (wg_write_paths g)).

(** [Vec::dedup]: equal neighbours are merged. *)
Fixpoint dedup (l : list string) : list string :=
  match l with
  | [] => []
  | x :: l' => match dedup l' with
               | [] => [x]
               | y :: l'' => if bool_decide (x = y) then y :: l'' else x :: y :: l''
               end
  end.

Definition sorted_tools (g : WorkerGrant) : list string := dedup (merge_sort String.le (wg_tools g)).

Inductive GrantError :=
  | UnknownTool (tool : string)
  | WebToolWithoutNetwork (tool : string)
  | EmptyHostAllowlist
  | WritePathsWithHostFs
  | CreateOnlyWithoutWritePaths
  | EmptyWritePathsWithCreateOnly
  | InvalidWritePath (pattern reason : string).

Definition is_blank (s : string) : bool := bool_decide (trim s = "").

(** ** Write-path patterns *)

Definition control_byte (b : ascii) : bool := ((byte_val b <? 32) || (byte_val b =? 127))%N.

Definition has_byte (P : ascii -> bool) (s : string) : bool := negb (str_forall (fun b => negb (P b)) s).

Definition among (bs : list ascii) (b : ascii) : bool := bool_decide (b ∈ bs).

Definition PROFILE_META : list ascii := ["("; ")"; "092"; "034"]%char.
Definition GLOB_CLASS : list ascii := ["["; "]"; "{"; "}"]%char.

Fixpoint check_segments (reject : string -> result GrantError unit) (segs : list string)
    : result GrantError unit :=
  match segs with
  | [] => Ok tt
  | seg :: rest =>
      if bool_decide (seg = "") then reject "empty path segment (`//` or trailing `/`)"
      else if bool_decide (seg = ".") || bool_decide (seg = "..") then
        reject "`.` / `..` path segments are not allowed (write the plain relative path)"
      else check_segments reject rest
  end.

Definition validate_write_path_pattern (pattern : string) : result GrantError unit :=
  let reject reason := Err (InvalidWritePath pattern reason) in
  if is_blank pattern then reject "pattern is empty"
  else if starts_with "/" pattern then reject "pattern must be workspace-relative, not absolute"
  else if has_byte control_byte pattern then reject "pattern contains control characters"
  else if has_byte (among PROFILE_META) pattern then
    reject (String.append "pattern contains sandbox-profile metacharacters ( ) \ " (String DQ ""))
  else if has_byte (among [":"%char]) pattern then
    reject "pattern must not contain `:` (mount-spec / drive separator)"
  else if has_byte (among GLOB_CLASS) pattern then
    reject "glob classes/alternations are not supported in fs.write v1 (use * and ?)"
  else if contains pattern "**" then reject "recursive `**` globs are not supported in fs.write v1"
  else check_segments reject (split_on "/" pattern).

(** ** Validation of a grant *)

Definition first_err {A} (check : A -> result GrantError unit) : list A -> result GrantError unit :=
  foldr (fun a rest => match check a with Ok _ => rest | Err e => Err e end) (Ok tt).

Definition check_write_paths (g : WorkerGrant) : result GrantError unit :=
  match wg_write_paths g with
  | Some paths =>
      if is_host (wg_fs g) then Err WritePathsWithHostFs
      else if wg_create_only g && forallb is_blank paths then Err EmptyWritePathsWithCreateOnly
      else first_err validate_write_path_pattern paths
  | None => if wg_create_only g then Err CreateOnlyWithoutWritePaths else Ok tt
  end.

Definition grant_validate (g : WorkerGrant) : result GrantError unit :=
  _ ← match wg_network g with
      | Hosts hosts => if forallb is_blank hosts then Err EmptyHostAllowlist else Ok tt
      | _ => Ok tt
      end;
  _ ← first_err (fun tool => if bool_decide (tool ∈ GRANTABLE_TOOLS) then Ok tt else Err (UnknownTool tool))
        (wg_tools g);
  _ ← (if permits_web_tools (wg_network g) then Ok tt
       else first_err (fun tool => if bool_decide (tool ∈ WEB_TOOLS)
                                   then Err (WebToolWithoutNetwork tool) else Ok tt) (wg_tools g));
  check_write_paths g.

(** ** What a valid grant is *)

(** A write pattern that names a place inside the workspace and means the same to the tool
    layer and to the sandbox profile. *)
Record safe_pattern (p : string) : Prop := {
  sp_not_blank : trim p <> "";
  sp_clean : forall b l r, p = l +:+ String b r ->
    control_byte b = false /\ b ∉ PROFILE_META /\ b <> ":"%char /\ b ∉ GLOB_CLASS;
  sp_no_recursion : forall l r, p <> l +:+ "**" +:+ r;
  sp_segments : Forall (fun seg => seg <> "" /\ seg <> "." /\ seg <> "..") (split_on "/" p);
}.

Record coherent (g : WorkerGrant) : Prop := {
  co_hosts : forall hosts, wg_network g = Hosts hosts -> exists h, h ∈ hosts /\ trim h <> "";
  co_catalogue : forall t, t ∈ wg_tools g -> t ∈ GRANTABLE_TOOLS;
  co_web : forall t, t ∈ wg_tools g -> t ∈ WEB_TOOLS -> wg_network g <> NetNone;
  co_fence : forall paths, wg_write_paths g = Some paths ->
    wg_fs g = FsWorkspace /\ Forall safe_pattern paths;
  co_create_only : wg_create_only g = true ->
    exists paths p, wg_write_paths g = Some paths /\ p ∈ paths /\ trim p <> "";
}.

(** ** Proofs *)

Lemma has_byte_spec P s : has_byte P s = false <-> (forall b l r, s = l +:+ String b r -> P b = false).
Proof.
  unfold has_byte. rewrite negb_false_iff. induction s as [|c s IH]; cbn [str_forall].
  - split; [|done]. intros _ b [|? l] r; discriminate.
  - rewrite andb_true_iff, IH, negb_true_iff. split.
    + intros [Hc Hs] b [|d l] r Heq; rewrite ?str_nil_app, ?str_cons_app in Heq; simplify_eq; eauto.
    + intros H. split; [by apply (H c "" s)|]. intros b l r ->. by apply (H b (String c l) r).
Qed.

Lemma among_false bs b : among bs b = false <-> b ∉ bs.
Proof. apply bool_decide_eq_false. Qed.

Lemma check_segments_ok reject segs :
  (forall r, reject r <> Ok tt) ->
  check_segments reject segs = Ok tt <-> Forall (fun seg => seg <> "" /\ seg <> "." /\ seg <> "..") segs.
Proof.
  intros Hr. induction segs as [|seg segs IH]; cbn; [by split|]. rewrite Forall_cons.
  repeat case_bool_decide; cbn; rewrite ?IH; naive_solver.
Qed.

Lemma split_on_slash_head p : starts_with "/" p = true -> "" ∈ split_on "/" p.
Proof.
  rewrite starts_with_app. intros [t ->]. change ("/" +:+ t) with (String "/" t). cbn [split_on].
  destruct (split_on "/" t); rewrite ?decide_True by done; constructor.
Qed.

Lemma validate_write_path_pattern_iff p : validate_write_path_pattern p = Ok tt <-> safe_pattern p.
Proof.
  unfold validate_write_path_pattern, is_blank. split.
  - destruct (bool_decide (trim p = "")) eqn:Hb; [done|]. apply bool_decide_eq_false in Hb.
    destruct (starts_with "/" p); [done|]. destruct (has_byte control_byte p) eqn:H1; [done|].
    destruct (has_byte (among PROFILE_META) p) eqn:H2; [done|].
    destruct (has_byte (among [":"%char]) p) eqn:H3; [done|].
    destruct (has_byte (among GLOB_CLASS) p) eqn:H4; [done|]. destruct (contains p "**") eqn:H5; [done|].
    rewrite check_segments_ok by done. rewrite has_byte_spec in H1, H2, H3, H4.
    setoid_rewrite among_false in H2. setoid_rewrite among_false in H3. setoid_rewrite among_false in H4.
    constructor; [done| | |done].
    + intros b l r E. specialize (H3 b l r E). set_solver.
    + intros l r E. assert (contains p "**" = true) as E' by (apply contains_spec; eauto). congruence.
  - intros [Hb Hc Hr Hs]. rewrite bool_decide_eq_false_2 by done.
    assert (forall P, (forall b, control_byte b = false /\ b ∉ PROFILE_META /\ b <> ":"%char /\ b ∉ GLOB_CLASS ->
      P b = false) -> has_byte P p = false) as Hclean by (intros P HP; apply has_byte_spec; eauto).
    destruct (starts_with "/" p) eqn:Hsl.
    { apply split_on_slash_head in Hsl. rewrite Forall_forall in Hs. by destruct (Hs _ Hsl). }
    rewrite !Hclean; [|setoid_rewrite among_false; set_solver..|naive_solver].
    destruct (contains p "**") eqn:E; [apply contains_spec in E as (l & r & ->); by destruct (Hr l r)|].
    by apply check_segments_ok.
Qed.

Lemma first_err_ok {A} (check : A -> result GrantError unit) l :
  first_err check l = Ok tt <-> forall a, a ∈ l -> check a = Ok tt.
Proof.
  induction l as [|a l IH]; cbn; [set_solver|]. setoid_rewrite elem_of_cons.
  destruct (check a) as [[]|e] eqn:E.
  - rewrite IH. split; [intros H b [->|Hb]; auto|auto].
  - split; [done|]. intros H. rewrite <- E. apply H. by left.
Qed.

Lemma all_blank_false l : forallb is_blank l = false <-> exists h, h ∈ l /\ trim h <> "".
Proof.
  unfold is_blank. induction l as [|h l IH]; cbn; [set_solver|]. rewrite andb_false_iff, IH, bool_decide_eq_false.
  set_solver.
Qed.

Lemma check_write_paths_iff g :
  check_write_paths g = Ok tt <->
  (forall paths, wg_write_paths g = Some paths -> wg_fs g = FsWorkspace /\ Forall safe_pattern paths) /\
  (wg_create_only g = true ->
    exists paths p, wg_write_paths g = Some paths /\ p ∈ paths /\ trim p <> "").
Proof.
  unfold check_write_paths. destruct (wg_write_paths g) as [paths|]; [|destruct (wg_create_only g); naive_solver].
  assert (first_err validate_write_path_pattern paths = Ok tt <-> Forall safe_pattern paths) as Hf.
  { rewrite first_err_ok, Forall_forall. by setoid_rewrite validate_write_path_pattern_iff. }
  assert ((wg_create_only g = true -> exists paths' p, Some paths = Some paths' /\ p ∈ paths' /\ trim p <> "") <->
    wg_create_only g && forallb is_blank paths = false) as Hc.
  { rewrite andb_false_iff, all_blank_false. destruct (wg_create_only g); naive_solver. }
  rewrite Hc. destruct (wg_fs g); cbn; [|naive_solver]. destruct (wg_create_only g && forallb is_blank paths);
    rewrite ?Hf; naive_solver.
Qed.

(** C33. Validation accepts a grant exactly when it is coherent: a host allowlist names at
    least one host, every tool is in the catalogue, no web tool is granted without a network,
    a write fence goes with the workspace scope and every pattern of it is a plain relative
    path without traversal, sandbox metacharacters or recursion, and create-only has
    something to create. *)
Theorem grant_validate_iff (g : WorkerGrant) : grant_validate g = Ok tt <-> coherent g.
Proof.
  unfold grant_validate. rewrite bind_Ok. setoid_rewrite bind_Ok. setoid_rewrite bind_Ok.
  setoid_rewrite check_write_paths_iff. split.
  - intros ([] & Hn & [] & Ht & [] & Hw & Hf & Hc). constructor; [..|done|done].
    + intros hosts E. rewrite E in Hn. apply all_blank_false. by destruct (forallb _ _).
    + rewrite first_err_ok in Ht. intros t Hin. specialize (Ht t Hin). by case_bool_decide.
    + intros t Hin Hweb E. rewrite E in Hw. cbn in Hw. rewrite first_err_ok in Hw. specialize (Hw t Hin).
      by rewrite bool_decide_eq_true_2 in Hw.
  - intros [Hh Hcat Hweb Hf Hc]. exists tt. split.
    { destruct (wg_network g) as [|hosts|]; [done| |done]. destruct (Hh _ eq_refl) as (h & Hin & Hb).
      assert (forallb is_blank hosts = false) as -> by (apply all_blank_false; eauto). done. }
    exists tt. split; [apply first_err_ok; intros t Hin; by rewrite bool_decide_eq_true_2 by auto|].
    exists tt. split; [|done]. destruct (wg_network g) eqn:E; [|done|done]. apply first_err_ok.
    intros t Hin. cbn. case_bool_decide; [|done]. by destruct (Hweb t).
Qed.

(** The default grant passes. *)
Example minimal_valid : grant_validate minimal = Ok tt.
Proof. vm_compute. exact eq_refl. Qed.
