(* ===== verification/FleetRecords.v ===== *)
(** * Durable records of the fleet kernel

    [crates/octos-fleet/src/records.rs]: fleets with their token budget, children, attempts
    and their leases, the durable plan, decisions and outbox events, with the version guard
    every load goes through.

    A row of the database is JSON text.  It is represented by what serde reads in it: the
    record it holds, or, for a text that is not a record of the type asked for, the
    [schema_version] the probe finds (if any). *)
From S2P Require Import Prelude RustStr RustNum Grant.
Open Scope octos_scope.

Definition SCHEMA_VERSION : Z := 3.

(** ** Status enums *)

Inductive FleetStatus := FleetActive | FleetDraining | FleetComplete | FleetFailed | FleetCancelled.

#[export] Instance FleetStatus_eq_dec : EqDecision FleetStatus.
Proof. solve_decision. Defined.

Inductive ChildStatus :=
  Planned | Ready | Launching | Running | Blocked | Succeeded | Failed | Cancelled.

#[export] Instance ChildStatus_eq_dec : EqDecision ChildStatus.
Proof. solve_decision. Defined.

Definition child_is_terminal (s : ChildStatus) : bool :=
  match s with Succeeded | Failed | Cancelled => true | _ => false end.

Inductive AttemptStatus := Leased | AttRunning | Done | Interrupted.

#[export] Instance AttemptStatus_eq_dec : EqDecision AttemptStatus.
Proof. solve_decision. Defined.

Inductive WorkerKind := StatelessTask.

(** ** Fleet and budget *)

Definition u64_checked_add (a b : Z) : option Z := if (a + b <=? u64_max)%Z then Some (a + b)%Z else None.
Definition u64_checked_sub (a b : Z) : option Z := if (b <=? a)%Z then Some (a - b)%Z else None.
Definition u32_checked_add (a b : Z) : option Z := if (a + b <=? u32_max)%Z then Some (a + b)%Z else None.

Record FleetBudget := {
  bg_token_budget : Z;
  bg_tokens_reserved : Z;
  bg_tokens_committed : Z;
  bg_hard : bool;
}.

Definition admits (b : FleetBudget) (projected : Z) : bool :=
  match s ← u64_checked_add (bg_tokens_reserved b) (bg_tokens_committed b); u64_checked_add s projected with
  | Some total => (total <=? bg_token_budget b)%Z
  | None => false
  end.

Record FleetRecord := {
  fl_schema_version : Z;
  fl_fleet_id : string;
  fl_controller_session_key : string;
  fl_controller_workspace_root : option string;
  fl_controller_workspace_has_runtime_hint : option bool;
  fl_profile_id : string;
  fl_budget : FleetBudget;
  fl_status : FleetStatus;
  fl_generation : Z;
  fl_created_at_ms : Z;
  fl_updated_at_ms : Z;
}.

(** ** Child, attempt, lease *)

Record EscalationRequest := { er_requested_grant : WorkerGrant; er_reason : string }.

Record EvidenceRef := {
  ev_kind : string;
  ev_locator : string;
  ev_sha256 : string;
  ev_captured_at_ms : Z;
}.

Inductive AcceptanceVerdict :=
  | Accepted (evidence : list EvidenceRef)
  | Rejected (reason : string)
  | Terminated (reason : string).

Record FleetChildRecord := {
  ch_schema_version : Z;
  ch_fleet_id : string;
  ch_child_id : string;
  ch_worker_kind : WorkerKind;
  ch_status : ChildStatus;
  ch_current_attempt_id : option string;
  ch_attempts_used : Z;
  ch_outcome : option AcceptanceVerdict;
  ch_tokens_committed : Z;
  ch_deps : list string;
  ch_pending_escalation : option EscalationRequest;
  ch_generation : Z;
  ch_updated_at_ms : Z;
}.

Record Lease := { ls_owner_epoch : Z; ls_expires_at_ms : Z }.

Record ChildResultSnapshot := {
  rs_output : string;
  rs_success : bool;
  rs_tokens_used : Z;
  rs_files : list string;
  rs_error : option string;
}.

Record Attempt := {
  at_schema_version : Z;
  at_fleet_id : string;
  at_child_id : string;
  at_attempt_id : string;
  at_generation : Z;
  at_status : AttemptStatus;
  at_lease : Lease;
  at_reserved_tokens : Z;
  at_result_snapshot : option ChildResultSnapshot;
  at_started_at_ms : Z;
  at_ended_at_ms : option Z;
}.

(** ** Durable plan *)

Inductive Verifier :=
  | Manual
  | FileExists (path : string)
  | CommandExit (cmd : string) (code : Z)
  | ValidatorRef (id : string).

Record AcceptanceCriterion := { ac_id : string; ac_description : string; ac_verifier : Verifier }.

Record PlanTask := {
  pt_task_id : string;
  pt_title : string;
  pt_detail : string;
  pt_deps : list string;
  pt_acceptance : list AcceptanceCriterion;
  pt_grant : WorkerGrant;
}.

Record DurablePlan := {
  dp_schema_version : Z;
  dp_fleet_id : string;
  dp_revision : Z;
  dp_objective : string;
  dp_tasks : list PlanTask;
}.

(** ** Decision log and outbox *)

Inductive DecisionKind := DkPlan | DkLaunch | DkComplete | DkReconcile | DkReplan | DkCancel | DkNote.

Record DecisionEntry := {
  de_schema_version : Z;
  de_seq : Z;
  de_at_ms : Z;
  de_actor : string;
  de_kind : DecisionKind;
  de_note : string;
}.

Inductive FleetEventKind := ChildLaunching | ChildRunning | ChildDone | FleetDrained.

(** The payload is the JSON text of the value. *)
Record OutboxEvent := {
  ob_schema_version : Z;
  ob_sequence : Z;
  ob_event_id : string;
  ob_fleet_id : string;
  ob_child_id : option string;
  ob_attempt_id : option string;
  ob_kind : FleetEventKind;
  ob_payload : string;
  ob_claimed_by : option string;
  ob_claim_token : option string;
  ob_claim_expires_at : option Z;
  ob_acked : bool;
}.

(** ** Rows and the version guard *)

Inductive Row (A : Type) :=
  | Json (a : A)
  | Foreign (version : option Z).
Arguments Json {A} _.
Arguments Foreign {A} _.

Class Versioned (A : Type) := schema_version : A -> Z.
#[export] Instance fleet_versioned : Versioned FleetRecord := fl_schema_version.
#[export] Instance child_versioned : Versioned FleetChildRecord := ch_schema_version.
#[export] Instance attempt_versioned : Versioned Attempt := at_schema_version.
#[export] Instance plan_versioned : Versioned DurablePlan := dp_schema_version.
#[export] Instance decision_versioned : Versioned DecisionEntry := de_schema_version.
#[export] Instance outbox_versioned : Versioned OutboxEvent := ob_schema_version.

Definition decode_row `{Versioned A} (row : Row A) : result report (option A) :=
  match row with
  | Json a => if (SCHEMA_VERSION <? schema_version a)%Z then Ok None else Ok (Some a)
  | Foreign (Some v) =>
      if (SCHEMA_VERSION <? v)%Z then Ok None else bail "row does not deserialize"
  | Foreign None => bail "missing field `schema_version`"
  end.

(** ** Field updates *)

Definition bg_set_reserved (r : Z) (b : FleetBudget) : FleetBudget := {|
  bg_token_budget := bg_token_budget b; bg_tokens_reserved := r;
  bg_tokens_committed := bg_tokens_committed b; bg_hard := bg_hard b |}.

Definition bg_set_committed (c : Z) (b : FleetBudget) : FleetBudget := {|
  bg_token_budget := bg_token_budget b; bg_tokens_reserved := bg_tokens_reserved b;
  bg_tokens_committed := c; bg_hard := bg_hard b |}.

(** A fleet row is always rewritten with its time stamp. *)
Definition fl_update (budget : FleetBudget) (status : FleetStatus) (generation updated : Z) (f : FleetRecord)
    : FleetRecord := {|
  fl_schema_version := fl_schema_version f; fl_fleet_id := fl_fleet_id f;
  fl_controller_session_key := fl_controller_session_key f;
  fl_controller_workspace_root := fl_controller_workspace_root f;
  fl_controller_workspace_has_runtime_hint := fl_controller_workspace_has_runtime_hint f;
  fl_profile_id := fl_profile_id f; fl_budget := budget; fl_status := status;
  fl_generation := generation; fl_created_at_ms := fl_created_at_ms f; fl_updated_at_ms := updated |}.

Definition fl_set_budget (b : FleetBudget) (updated : Z) (f : FleetRecord) : FleetRecord :=
  fl_update b (fl_status f) (fl_generation f) updated f.

Definition ch_set_status (s : ChildStatus) (c : FleetChildRecord) : FleetChildRecord := {|
  ch_schema_version := ch_schema_version c; ch_fleet_id := ch_fleet_id c; ch_child_id := ch_child_id c;
  ch_worker_kind := ch_worker_kind c; ch_status := s; ch_current_attempt_id := ch_current_attempt_id c;
  ch_attempts_used := ch_attempts_used c; ch_outcome := ch_outcome c;
  ch_tokens_committed := ch_tokens_committed c; ch_deps := ch_deps c;
  ch_pending_escalation := ch_pending_escalation c; ch_generation := ch_generation c;
  ch_updated_at_ms := ch_updated_at_ms c |}.

Definition ch_set_current (a : option string) (c : FleetChildRecord) : FleetChildRecord := {|
  ch_schema_version := ch_schema_version c; ch_fleet_id := ch_fleet_id c; ch_child_id := ch_child_id c;
  ch_worker_kind := ch_worker_kind c; ch_status := ch_status c; ch_current_attempt_id := a;
  ch_attempts_used := ch_attempts_used c; ch_outcome := ch_outcome c;
  ch_tokens_committed := ch_tokens_committed c; ch_deps := ch_deps c;
  ch_pending_escalation := ch_pending_escalation c; ch_generation := ch_generation c;
  ch_updated_at_ms := ch_updated_at_ms c |}.

Definition ch_set_attempts_used (n : Z) (c : FleetChildRecord) : FleetChildRecord := {|
  ch_schema_version := ch_schema_version c; ch_fleet_id := ch_fleet_id c; ch_child_id := ch_child_id c;
  ch_worker_kind := ch_worker_kind c; ch_status := ch_status c; ch_current_attempt_id := ch_current_attempt_id c;
  ch_attempts_used := n; ch_outcome := ch_outcome c;
  ch_tokens_committed := ch_tokens_committed c; ch_deps := ch_deps c;
  ch_pending_escalation := ch_pending_escalation c; ch_generation := ch_generation c;
  ch_updated_at_ms := ch_updated_at_ms c |}.

Definition ch_set_outcome (o : option AcceptanceVerdict) (c : FleetChildRecord) : FleetChildRecord := {|
  ch_schema_version := ch_schema_version c; ch_fleet_id := ch_fleet_id c; ch_child_id := ch_child_id c;
  ch_worker_kind := ch_worker_kind c; ch_status := ch_status c; ch_current_attempt_id := ch_current_attempt_id c;
  ch_attempts_used := ch_attempts_used c; ch_outcome := o;
  ch_tokens_committed := ch_tokens_committed c; ch_deps := ch_deps c;
  ch_pending_escalation := ch_pending_escalation c; ch_generation := ch_generation c;
  ch_updated_at_ms := ch_updated_at_ms c |}.

Definition ch_set_committed (t : Z) (c : FleetChildRecord) : FleetChildRecord := {|
  ch_schema_version := ch_schema_version c; ch_fleet_id := ch_fleet_id c; ch_child_id := ch_child_id c;
  ch_worker_kind := ch_worker_kind c; ch_status := ch_status c; ch_current_attempt_id := ch_current_attempt_id c;
  ch_attempts_used := ch_attempts_used c; ch_outcome := ch_outcome c;
  ch_tokens_committed := t; ch_deps := ch_deps c;
  ch_pending_escalation := ch_pending_escalation c; ch_generation := ch_generation c;
  ch_updated_at_ms := ch_updated_at_ms c |}.

Definition ch_set_deps (d : list string) (c : FleetChildRecord) : FleetChildRecord := {|
  ch_schema_version := ch_schema_version c; ch_fleet_id := ch_fleet_id c; ch_child_id := ch_child_id c;
  ch_worker_kind := ch_worker_kind c; ch_status := ch_status c; ch_current_attempt_id := ch_current_attempt_id c;
  ch_attempts_used := ch_attempts_used c; ch_outcome := ch_outcome c;
  ch_tokens_committed := ch_tokens_committed c; ch_deps := d;
  ch_pending_escalation := ch_pending_escalation c; ch_generation := ch_generation c;
  ch_updated_at_ms := ch_updated_at_ms c |}.

Definition ch_set_escalation (e : option EscalationRequest) (c : FleetChildRecord) : FleetChildRecord := {|
  ch_schema_version := ch_schema_version c; ch_fleet_id := ch_fleet_id c; ch_child_id := ch_child_id c;
  ch_worker_kind := ch_worker_kind c; ch_status := ch_status c; ch_current_attempt_id := ch_current_attempt_id c;
  ch_attempts_used := ch_attempts_used c; ch_outcome := ch_outcome c;
  ch_tokens_committed := ch_tokens_committed c; ch_deps := ch_deps c;
  ch_pending_escalation := e; ch_generation := ch_generation c;
  ch_updated_at_ms := ch_updated_at_ms c |}.

Definition ch_set_generation (g : Z) (c : FleetChildRecord) : FleetChildRecord := {|
  ch_schema_version := ch_schema_version c; ch_fleet_id := ch_fleet_id c; ch_child_id := ch_child_id c;
  ch_worker_kind := ch_worker_kind c; ch_status := ch_status c; ch_current_attempt_id := ch_current_attempt_id c;
  ch_attempts_used := ch_attempts_used c; ch_outcome := ch_outcome c;
  ch_tokens_committed := ch_tokens_committed c; ch_deps := ch_deps c;
  ch_pending_escalation := ch_pending_escalation c; ch_generation := g;
  ch_updated_at_ms := ch_updated_at_ms c |}.

Definition ch_set_updated (t : Z) (c : FleetChildRecord) : FleetChildRecord := {|
  ch_schema_version := ch_schema_version c; ch_fleet_id := ch_fleet_id c; ch_child_id := ch_child_id c;
  ch_worker_kind := ch_worker_kind c; ch_status := ch_status c; ch_current_attempt_id := ch_current_attempt_id c;
  ch_attempts_used := ch_attempts_used c; ch_outcome := ch_outcome c;
  ch_tokens_committed := ch_tokens_committed c; ch_deps := ch_deps c;
  ch_pending_escalation := ch_pending_escalation c; ch_generation := ch_generation c;
  ch_updated_at_ms := t |}.

Definition ch_set_version (v : Z) (c : FleetChildRecord) : FleetChildRecord := {|
  ch_schema_version := v; ch_fleet_id := ch_fleet_id c; ch_child_id := ch_child_id c;
  ch_worker_kind := ch_worker_kind c; ch_status := ch_status c; ch_current_attempt_id := ch_current_attempt_id c;
  ch_attempts_used := ch_attempts_used c; ch_outcome := ch_outcome c;
  ch_tokens_committed := ch_tokens_committed c; ch_deps := ch_deps c;
  ch_pending_escalation := ch_pending_escalation c; ch_generation := ch_generation c;
  ch_updated_at_ms := ch_updated_at_ms c |}.

Definition at_update (status : AttemptStatus) (snap : option ChildResultSnapshot) (ended : option Z) (a : Attempt)
    : Attempt := {|
  at_schema_version := at_schema_version a; at_fleet_id := at_fleet_id a; at_child_id := at_child_id a;
  at_attempt_id := at_attempt_id a; at_generation := at_generation a; at_status := status;
  at_lease := at_lease a; at_reserved_tokens := at_reserved_tokens a; at_result_snapshot := snap;
  at_started_at_ms := at_started_at_ms a; at_ended_at_ms := ended |}.

(** [Leased]/[Running] to [Interrupted]. *)
Definition at_interrupt (now_ms : Z) (a : Attempt) : Attempt :=
  at_update Interrupted (at_result_snapshot a) (Some now_ms) a.

Definition pt_set_text (title detail : string) (t : PlanTask) : PlanTask := {|
  pt_task_id := pt_task_id t; pt_title := title; pt_detail := detail; pt_deps := pt_deps t;
  pt_acceptance := pt_acceptance t; pt_grant := pt_grant t |}.

Definition pt_set_deps (deps : list string) (t : PlanTask) : PlanTask := {|
  pt_task_id := pt_task_id t; pt_title := pt_title t; pt_detail := pt_detail t; pt_deps := deps;
  pt_acceptance := pt_acceptance t; pt_grant := pt_grant t |}.

Definition pt_set_grant (g : WorkerGrant) (t : PlanTask) : PlanTask := {|
  pt_task_id := pt_task_id t; pt_title := pt_title t; pt_detail := pt_detail t; pt_deps := pt_deps t;
  pt_acceptance := pt_acceptance t; pt_grant := g |}.

Definition dp_set (fleet_id : string) (revision : Z) (tasks : list PlanTask) (p : DurablePlan) : DurablePlan := {|
  dp_schema_version := SCHEMA_VERSION; dp_fleet_id := fleet_id; dp_revision := revision;
  dp_objective := dp_objective p; dp_tasks := tasks |}.

Definition ob_set_sequence (seq : Z) (e : OutboxEvent) : OutboxEvent := {|
  ob_schema_version := SCHEMA_VERSION; ob_sequence := seq; ob_event_id := ob_event_id e;
  ob_fleet_id := ob_fleet_id e; ob_child_id := ob_child_id e; ob_attempt_id := ob_attempt_id e;
  ob_kind := ob_kind e; ob_payload := ob_payload e; ob_claimed_by := ob_claimed_by e;
  ob_claim_token := ob_claim_token e; ob_claim_expires_at := ob_claim_expires_at e; ob_acked := ob_acked e |}.

Definition ob_claim (consumer token : string) (expires : Z) (e : OutboxEvent) : OutboxEvent := {|
  ob_schema_version := ob_schema_version e; ob_sequence := ob_sequence e; ob_event_id := ob_event_id e;
  ob_fleet_id := ob_fleet_id e; ob_child_id := ob_child_id e; ob_attempt_id := ob_attempt_id e;
  ob_kind := ob_kind e; ob_payload := ob_payload e; ob_claimed_by := Some consumer;
  ob_claim_token := Some token; ob_claim_expires_at := Some expires; ob_acked := ob_acked e |}.

Definition ob_set_acked (e : OutboxEvent) : OutboxEvent := {|
  ob_schema_version := ob_schema_version e; ob_sequence := ob_sequence e; ob_event_id := ob_event_id e;
  ob_fleet_id := ob_fleet_id e; ob_child_id := ob_child_id e; ob_attempt_id := ob_attempt_id e;
  ob_kind := ob_kind e; ob_payload := ob_payload e; ob_claimed_by := ob_claimed_by e;
  ob_claim_token := ob_claim_token e; ob_claim_expires_at := ob_claim_expires_at e; ob_acked := true |}.

(** ** Facts *)

Lemma u64_checked_add_Some a b c : u64_checked_add a b = Some c <-> (c = a + b /\ a + b <= u64_max)%Z.
Proof. unfold u64_checked_add. destruct (Z.leb_spec (a + b) u64_max); naive_solver lia. Qed.

Lemma u64_checked_sub_Some a b c : u64_checked_sub a b = Some c <-> (c = a - b /\ b <= a)%Z.
Proof. unfold u64_checked_sub. destruct (Z.leb_spec b a); naive_solver lia. Qed.

Lemma u32_checked_add_Some a b c : u32_checked_add a b = Some c <-> (c = a + b /\ a + b <= u32_max)%Z.
Proof. unfold u32_checked_add. destruct (Z.leb_spec (a + b) u32_max); naive_solver lia. Qed.

(** Admission is exact on the integers: no overflow lets an oversized reservation in. *)
Lemma admits_iff b p :
  (0 <= p)%Z -> (0 <= bg_token_budget b <= u64_max)%Z ->
  admits b p = true <-> (bg_tokens_reserved b + bg_tokens_committed b + p <= bg_token_budget b)%Z.
Proof.
  intros Hp Hb. unfold admits. destruct (_ ← _; _) as [t|] eqn:E; cbn.
  - apply bind_Some in E as (s & Hs & Ht). apply u64_checked_add_Some in Hs as [-> ?].
    apply u64_checked_add_Some in Ht as [-> ?]. rewrite Z.leb_le. done.
  - split; [done|]. intros Hle. exfalso. apply bind_None in E as [E|(s & Hs & Ht)].
    + unfold u64_checked_add in E. destruct (Z.leb_spec (bg_tokens_reserved b + bg_tokens_committed b) u64_max); [done|lia].
    + apply u64_checked_add_Some in Hs as [-> ?]. unfold u64_checked_add in Ht.
      destruct (Z.leb_spec (bg_tokens_reserved b + bg_tokens_committed b + p) u64_max); [done|lia].
Qed.

Section rows.
Context `{Versioned A}.
Implicit Types (row : Row A).

(** A row this binary understands. *)
Definition readable (row : Row A) : option A := default None (ok (decode_row row)).

Lemma decode_Some row a : decode_row row = Ok (Some a) <-> row = Json a /\ (schema_version a <= SCHEMA_VERSION)%Z.
Proof.
  destruct row as [b|[v|]]; cbn; [destruct (Z.ltb_spec SCHEMA_VERSION (schema_version b))
    |destruct (Z.ltb_spec SCHEMA_VERSION v)|]; naive_solver lia.
Qed.

Lemma readable_Some row a : readable row = Some a <-> decode_row row = Ok (Some a).
Proof. unfold readable. destruct (decode_row row) as [[b|]|e]; naive_solver. Qed.
End rows.

(** The fields a field update leaves alone, computed by [cbn]. *)
Ltac fields := cbn [ch_set_status ch_set_current ch_set_attempts_used ch_set_outcome ch_set_committed
  ch_set_deps ch_set_escalation ch_set_generation ch_set_updated ch_set_version at_update at_interrupt
  fl_update fl_set_budget bg_set_reserved bg_set_committed
  ch_schema_version ch_fleet_id ch_child_id ch_worker_kind ch_status ch_current_attempt_id ch_attempts_used
  ch_outcome ch_tokens_committed ch_deps ch_pending_escalation ch_generation ch_updated_at_ms
  at_schema_version at_fleet_id at_child_id at_attempt_id at_generation at_status at_lease at_reserved_tokens
  at_result_snapshot at_started_at_ms at_ended_at_ms
  fl_schema_version fl_fleet_id fl_budget fl_status fl_generation bg_tokens_reserved bg_tokens_committed
  bg_token_budget dp_schema_version dp_fleet_id dp_revision dp_tasks dp_set
  schema_version fleet_versioned child_versioned attempt_versioned plan_versioned decision_versioned
  outbox_versioned] in *.
