(* ===== verification/FleetStore.v ===== *)
(** * The fleet kernel store

    [crates/octos-fleet/src/store.rs]: one redb database of six tables, and one operation per
    method of [FleetKernelStore].  Every method takes the [io_gate] once and does all its work
    in one transaction, so a method is one atomic step on the database: here a function
    [Db -> result report (outcome * Db)], whose database is the one committed.  [Err] is a
    transaction dropped before its commit: [in_txn] gives back the database unchanged, as redb
    does.  A rejection that returns early (without commit) returns the database it was given.

    Fresh identifiers ([Uuid::new_v4]) are arguments.  An interpolated [{:?}] is left out of
    the error messages. *)
From S2P Require Import Prelude RustStr RustNum Grant FleetRecords.
Open Scope octos_scope.

(** ** Keys *)

Definition key_component_is_safe (s : string) : bool :=
  negb (bool_decide (s = "")) && negb (existsb (fun c => is_control c.1) (chars s)).

Fixpoint ensure_key_safe (components : list string) : result report unit :=
  match components with
  | [] => Ok tt
  | c :: rest =>
      if negb (key_component_is_safe c) then
        bail "invalid key component: must be non-empty and free of control/NUL characters"
      else ensure_key_safe rest
  end.

Definition NUL : ascii := "000".

Definition child_key (fleet_id child_id : string) : string := fleet_id +:+ String NUL child_id.
Definition attempt_key (child_id attempt_id : string) : string := child_id +:+ String NUL attempt_id.

(** [{:0n}] of a number of at most [n] decimal digits. *)
Fixpoint zero_padded (n : nat) (z : Z) : string :=
  match n with
  | O => ""
  | S n' => let p := (10 ^ Z.of_nat n')%Z in
            String (ascii_of_N (48 + Z.to_N (z / p))) (zero_padded n' (z mod p))
  end.

Definition outbox_key (seq : Z) : string := zero_padded 20 seq.
Definition decision_key (fleet_id : string) (seq : Z) : string := fleet_id +:+ String NUL (zero_padded 20 seq).

Definition decision_seq (key fleet_id : string) : option Z :=
  rest ← strip_prefix (fleet_id +:+ String NUL "") key; parse_u64 rest.

Definition fleet_is_live (f : FleetRecord) : bool :=
  match fl_status f with FleetActive | FleetDraining => true | _ => false end.

(** ** The database *)

Record Db := {
  db_fleets : gmap string (Row FleetRecord);
  db_children : gmap string (Row FleetChildRecord);
  db_attempts : gmap string (Row Attempt);
  db_plans : gmap string (Row DurablePlan);
  db_decisions : gmap string (Row DecisionEntry);
  db_outbox : gmap string (Row OutboxEvent);
}.

(** A database [open] has just created. *)
Definition open : Db := {|
  db_fleets := ∅; db_children := ∅; db_attempts := ∅; db_plans := ∅; db_decisions := ∅; db_outbox := ∅ |}.

Definition set_fleets t db : Db := {| db_fleets := t; db_children := db_children db; db_attempts := db_attempts db;
  db_plans := db_plans db; db_decisions := db_decisions db; db_outbox := db_outbox db |}.
Definition set_children t db : Db := {| db_fleets := db_fleets db; db_children := t; db_attempts := db_attempts db;
  db_plans := db_plans db; db_decisions := db_decisions db; db_outbox := db_outbox db |}.
Definition set_attempts t db : Db := {| db_fleets := db_fleets db; db_children := db_children db; db_attempts := t;
  db_plans := db_plans db; db_decisions := db_decisions db; db_outbox := db_outbox db |}.
Definition set_plans t db : Db := {| db_fleets := db_fleets db; db_children := db_children db;
  db_attempts := db_attempts db; db_plans := t; db_decisions := db_decisions db; db_outbox := db_outbox db |}.
Definition set_decisions t db : Db := {| db_fleets := db_fleets db; db_children := db_children db;
  db_attempts := db_attempts db; db_plans := db_plans db; db_decisions := t; db_outbox := db_outbox db |}.
Definition set_outbox t db : Db := {| db_fleets := db_fleets db; db_children := db_children db;
  db_attempts := db_attempts db; db_plans := db_plans db; db_decisions := db_decisions db; db_outbox := t |}.

(** A table is iterated in the byte order of its keys. *)
Definition table_iter {A} (t : gmap string A) : list (string * A) :=
  omap (fun k => pair k <$> t !! k) (btree_iter (dom t)).

Definition table_last {A} (t : gmap string A) : option (string * A) := last (table_iter t).

(** The row under [k], if there is one and this binary understands it. *)
Definition load_row `{Versioned A} (t : gmap string (Row A)) (k : string) : result report (option A) :=
  match t !! k with
  | Some row => decode_row row
  | None => Ok None
  end.

(** The rows of a table that decode, with their keys; a corrupt row is an error. *)
Fixpoint decode_all `{Versioned A} (l : list (string * Row A)) : result report (list (string * option A)) :=
  match l with
  | [] => Ok []
  | (k, row) :: l' =>
      r ← decode_row row;
      rest ← decode_all l';
      Ok ((k, r) :: rest)
  end.

Definition scan `{Versioned A} (t : gmap string (Row A)) : result report (list (string * A)) :=
  (fun rows : list (string * option A) => omap (fun '(k, r) => pair k <$> r) rows) <$> decode_all (table_iter t).

Fixpoint try_fold {S A} (f : S -> A -> result report S) (s : S) (l : list A) : result report S :=
  match l with
  | [] => Ok s
  | a :: l' => s' ← f s a; try_fold f s' l'
  end.

Definition ok_or {A} (msg : string) (o : option A) : result report A :=
  match o with Some a => Ok a | None => bail msg end.

Definition eqb (a b : string) : bool := bool_decide (a = b).

(** ** Outcomes *)

Inductive LaunchOutcome :=
  | Launched (attempt_id : string)
  | RejectedNotReady
  | RejectedDoubleLaunch
  | RejectedBudgetExceeded
  | RejectedFleetTerminal.

Inductive CompleteOutcome := Completed | Superseded.

Record DenyEscalationOutcome := { dn_settled : CompleteOutcome; dn_fleet_un_completable : bool }.

Inductive MarkRunningOutcome := MrRunning | MrSuperseded.

Inductive PlanMutateOutcome :=
  | Mutated (revision : Z)
  | RevisionMismatch (actual : Z)
  | PmRejectedFleetTerminal
  | RejectedTerminalDepChange (task_id : string)
  | RejectedNotBlocked (task_id : string).

Inductive AckOutcome := Acked | StaleClaim.

Record InterruptedAttempt := { ia_fleet_id : string; ia_child_id : string; ia_attempt_id : string }.

Record FleetSnapshot := {
  fs_fleet : FleetRecord;
  fs_plan : option DurablePlan;
  fs_children : list FleetChildRecord;
}.

(** One call on the store: what the caller sees and the database afterwards. *)
Definition in_txn {A} (op : Db -> result report (A * Db)) (db : Db) : result report A * Db :=
  match op db with
  | Ok (a, db') => (Ok a, db')
  | Err e => (Err e, db)
  end.

(** ** Outbox append *)

Definition outbox_event (kind : FleetEventKind) (fleet_id : string) (child_id attempt_id : option string)
    (uuid : string) : OutboxEvent := {|
  ob_schema_version := SCHEMA_VERSION; ob_sequence := 0; ob_event_id := uuid; ob_fleet_id := fleet_id;
  ob_child_id := child_id; ob_attempt_id := attempt_id; ob_kind := kind; ob_payload := "null";
  ob_claimed_by := None; ob_claim_token := None; ob_claim_expires_at := None; ob_acked := false |}.

Definition append_outbox (outbox : gmap string (Row OutboxEvent)) (event : OutboxEvent)
    : result report (Z * gmap string (Row OutboxEvent)) :=
  next ← match table_last outbox with
         | Some (k, _) =>
             l ← ok_or ("corrupt outbox key " +:+ k) (parse_u64 k);
             ok_or "outbox sequence overflow" (u64_checked_add l 1)
         | None => Ok 1%Z
         end;
  Ok (next, <[outbox_key next := Json (ob_set_sequence next event)]> outbox).

(** ** Creation *)

Definition new_fleet (fleet_id session_key : string) (root : option string) (hint : option bool)
    (profile_id : string) (token_budget : Z) (hard : bool) (now_ms : Z) : FleetRecord := {|
  fl_schema_version := SCHEMA_VERSION; fl_fleet_id := fleet_id; fl_controller_session_key := session_key;
  fl_controller_workspace_root := root; fl_controller_workspace_has_runtime_hint := hint;
  fl_profile_id := profile_id;
  fl_budget := {| bg_token_budget := token_budget; bg_tokens_reserved := 0; bg_tokens_committed := 0;
                  bg_hard := hard |};
  fl_status := FleetActive; fl_generation := 0; fl_created_at_ms := now_ms; fl_updated_at_ms := now_ms |}.

Definition new_child (fleet_id child_id : string) (status : ChildStatus) (deps : list string)
    (generation now_ms : Z) : FleetChildRecord := {|
  ch_schema_version := SCHEMA_VERSION; ch_fleet_id := fleet_id; ch_child_id := child_id;
  ch_worker_kind := StatelessTask; ch_status := status; ch_current_attempt_id := None;
  ch_attempts_used := 0; ch_outcome := None; ch_tokens_committed := 0; ch_deps := deps;
  ch_pending_escalation := None; ch_generation := generation; ch_updated_at_ms := now_ms |}.

Definition create_fleet (fleet_id session_key : string) (root : option string) (profile_id : string)
    (token_budget : Z) (hard : bool) (now_ms : Z) (db : Db) : result report (unit * Db) :=
  _ ← ensure_key_safe [fleet_id];
  match db_fleets db !! fleet_id with
  | Some _ => bail ("fleet " +:+ fleet_id +:+ " already exists")
  | None =>
      let record := new_fleet fleet_id session_key root None profile_id token_budget hard now_ms in
      Ok (tt, set_fleets (<[fleet_id := Json record]> (db_fleets db)) db)
  end.

Fixpoint ensure_tasks_safe (tasks : list PlanTask) : result report unit :=
  match tasks with
  | [] => Ok tt
  | t :: rest =>
      _ ← ensure_key_safe [pt_task_id t];
      _ ← ensure_key_safe (pt_deps t);
      ensure_tasks_safe rest
  end.

Definition create_plan (plan : DurablePlan) (db : Db) : result report (PlanMutateOutcome * Db) :=
  _ ← ensure_key_safe [dp_fleet_id plan];
  _ ← ensure_tasks_safe (dp_tasks plan);
  let id := dp_fleet_id plan in
  fj ← ok_or ("cannot create plan for unknown fleet " +:+ id) (db_fleets db !! id);
  fo ← decode_row fj;
  fleet ← ok_or ("fleet " +:+ id +:+ " is a newer schema") fo;
  if negb (eqb (fl_fleet_id fleet) id) then bail ("create_plan: fleet identity mismatch for " +:+ id)
  else if negb (fleet_is_live fleet) then Ok (PmRejectedFleetTerminal, db)
  else match db_plans db !! id with
       | Some _ => bail ("plan for fleet " +:+ id +:+ " already exists; use replan")
       | None =>
           let revision := dp_revision plan in
           Ok (Mutated revision,
               set_plans (<[id := Json (dp_set id revision (dp_tasks plan) plan)]> (db_plans db)) db)
       end.

(** The readiness a task starts with, where nothing is [Succeeded] yet. *)
Definition genesis_status (deps : list string) : ChildStatus :=
  match deps with [] => Ready | _ => Planned end.

Definition create_child (fleet_id : string) (now_ms : Z) (children : gmap string (Row FleetChildRecord))
    (t : PlanTask) : result report (gmap string (Row FleetChildRecord)) :=
  let ckey := child_key fleet_id (pt_task_id t) in
  match children !! ckey with
  | Some _ => bail ("duplicate child " +:+ pt_task_id t +:+ " in fleet " +:+ fleet_id)
  | None => Ok (<[ckey := Json (new_child fleet_id (pt_task_id t) (genesis_status (pt_deps t)) (pt_deps t) 0 now_ms)]>
                  children)
  end.

Definition create_fleet_with_plan_and_workspace_provenance (session_key : string) (root : option string)
    (hint : option bool) (profile_id : string) (token_budget : Z) (hard : bool) (plan : DurablePlan)
    (now_ms : Z) (db : Db) : result report (unit * Db) :=
  let fleet_id := dp_fleet_id plan in
  _ ← ensure_key_safe [fleet_id];
  _ ← ensure_tasks_safe (dp_tasks plan);
  match db_fleets db !! fleet_id, db_plans db !! fleet_id with
  | Some _, _ => bail ("fleet " +:+ fleet_id +:+ " already exists")
  | None, Some _ => bail ("plan for fleet " +:+ fleet_id +:+ " already exists")
  | None, None =>
      let fleet := new_fleet fleet_id session_key root hint profile_id token_budget hard now_ms in
      children ← try_fold (create_child fleet_id now_ms) (db_children db) (dp_tasks plan);
      Ok (tt, set_fleets (<[fleet_id := Json fleet]> (db_fleets db))
                (set_children children
                  (set_plans (<[fleet_id := Json (dp_set fleet_id (dp_revision plan) (dp_tasks plan) plan)]>
                                (db_plans db)) db)))
  end.

Definition create_fleet_with_plan (session_key : string) (root : option string) (profile_id : string)
    (token_budget : Z) (hard : bool) (plan : DurablePlan) (now_ms : Z) (db : Db) : result report (unit * Db) :=
  create_fleet_with_plan_and_workspace_provenance session_key root None profile_id token_budget hard plan now_ms db.

Definition add_child (fleet_id child_id : string) (deps : list string) (now_ms : Z) (db : Db)
    : result report (unit * Db) :=
  _ ← ensure_key_safe [fleet_id; child_id];
  _ ← ensure_key_safe deps;
  fj ← ok_or ("cannot add child to unknown fleet " +:+ fleet_id) (db_fleets db !! fleet_id);
  fo ← decode_row fj;
  fleet ← ok_or ("fleet " +:+ fleet_id +:+ " is a newer schema") fo;
  if negb (fleet_is_live fleet) then bail ("cannot add child to terminal fleet " +:+ fleet_id)
  else
    let ckey := child_key fleet_id child_id in
    match db_children db !! ckey with
    | Some _ => bail ("child " +:+ child_id +:+ " already exists in fleet " +:+ fleet_id)
    | None =>
        let record := new_child fleet_id child_id (genesis_status deps) deps (fl_generation fleet) now_ms in
        Ok (tt, set_children (<[ckey := Json record]> (db_children db)) db)
    end.

(** ** Readiness *)

(** The owning fleet is there, readable and live. *)
Definition fleet_live (db : Db) (fleet_id : string) : result report bool :=
  fo ← load_row (db_fleets db) fleet_id;
  Ok (match fo with
      | Some fleet => eqb (fl_fleet_id fleet) fleet_id && fleet_is_live fleet
      | None => false
      end).

Definition dep_ok (db : Db) (fleet_id dep : string) : result report bool :=
  od ← load_row (db_children db) (child_key fleet_id dep);
  Ok (match od with
      | Some d => eqb (ch_fleet_id d) fleet_id && eqb (ch_child_id d) dep && bool_decide (ch_status d = Succeeded)
      | None => false
      end).

Fixpoint deps_met (db : Db) (fleet_id : string) (deps : list string) : result report bool :=
  match deps with
  | [] => Ok true
  | dep :: rest =>
      b ← dep_ok db fleet_id dep;
      if b : bool then deps_met db fleet_id rest else Ok false
  end.

Definition owns_child (fleet_id child_id : string) (c : FleetChildRecord) : bool :=
  eqb (ch_fleet_id c) fleet_id && eqb (ch_child_id c) child_id.

Definition promote (now_ms : Z) (c : FleetChildRecord) : FleetChildRecord :=
  ch_set_updated now_ms (ch_set_status Ready c).

Definition mark_ready (fleet_id child_id : string) (now_ms : Z) (db : Db) : result report (bool * Db) :=
  _ ← ensure_key_safe [fleet_id; child_id];
  live ← fleet_live db fleet_id;
  if negb live then Ok (false, db)
  else
    let ckey := child_key fleet_id child_id in
    cj ← ok_or ("mark_ready: unknown child " +:+ child_id +:+ " in fleet " +:+ fleet_id) (db_children db !! ckey);
    oc ← decode_row cj;
    child ← ok_or ("child " +:+ child_id +:+ " is a newer schema") oc;
    if negb (owns_child fleet_id child_id child) then bail "mark_ready: child identity mismatch"
    else if negb (bool_decide (ch_status child = Planned)) then Ok (false, db)
    else
      met ← deps_met db fleet_id (ch_deps child);
      if met : bool
      then Ok (true, set_children (<[ckey := Json (promote now_ms child)]> (db_children db)) db)
      else Ok (false, db).

(** The children of a fleet, each owning the key it is stored under. *)
Definition fleet_children (fleet_id : string) (rows : list (string * FleetChildRecord)) : list FleetChildRecord :=
  (filter (fun '(k, rec) => ch_fleet_id rec = fleet_id /\ child_key (ch_fleet_id rec) (ch_child_id rec) = k) rows).*2.

Definition succeeded_ids (recs : list FleetChildRecord) : gset string :=
  list_to_set (ch_child_id <$> filter (fun c => ch_status c = Succeeded) recs).

Definition promotable (succeeded : gset string) (c : FleetChildRecord) : bool :=
  bool_decide (ch_status c = Planned) && bool_decide (ch_current_attempt_id c = None)
  && forallb (fun d => bool_decide (d ∈ succeeded)) (ch_deps c).

Definition heal (succeeded : gset string) (now_ms : Z) (c : FleetChildRecord) : FleetChildRecord :=
  if promotable succeeded c then promote now_ms c else c.

Definition launchable (c : FleetChildRecord) : bool :=
  bool_decide (ch_status c = Ready) && bool_decide (ch_current_attempt_id c = None).

Definition resolve_child (fleet_id : string) (succeeded : gset string) (now_ms : Z)
    (st : gmap string (Row FleetChildRecord) * list string) (c : FleetChildRecord)
    : gmap string (Row FleetChildRecord) * list string :=
  let '(children, ready) := st in
  let c' := heal succeeded now_ms c in
  (if promotable succeeded c then <[child_key fleet_id (ch_child_id c) := Json c']> children else children,
   if launchable c' then ready ++ [ch_child_id c'] else ready).

Definition resolve_and_collect_ready (fleet_id : string) (now_ms : Z) (db : Db)
    : result report (list string * Db) :=
  _ ← ensure_key_safe [fleet_id];
  live ← fleet_live db fleet_id;
  if negb live then Ok ([], db)
  else
    rows ← scan (db_children db);
    let recs := fleet_children fleet_id rows in
    let '(children, ready) := foldl (resolve_child fleet_id (succeeded_ids recs) now_ms) (db_children db, []) recs in
    Ok (merge_sort String.le ready, set_children children db).

Definition live_fleets (db : Db) : result report (list FleetRecord) :=
  rows ← scan (db_fleets db);
  Ok (filter (fun '(k, rec) => fl_fleet_id rec = k /\ fleet_is_live rec = true) rows).*2.

(** The second phase is one call per candidate, each its own transaction: what the earlier
    calls committed stays when a later one fails. *)
Fixpoint ready_fleets (candidates : list FleetRecord) (now_ms : Z) (db : Db)
    : result report (list FleetRecord) * Db :=
  match candidates with
  | [] => (Ok [], db)
  | rec :: rest =>
      match in_txn (resolve_and_collect_ready (fl_fleet_id rec) now_ms) db with
      | (Ok ready, db') =>
          let '(out, db'') := ready_fleets rest now_ms db' in
          ((fun out => match ready with [] => out | _ => rec :: out end) <$> out, db'')
      | (Err e, db') => (Err e, db')
      end
  end.

Definition fleets_with_ready_children (now_ms : Z) (db : Db) : result report (list FleetRecord) * Db :=
  match live_fleets db with
  | Ok candidates => ready_fleets candidates now_ms db
  | Err e => (Err e, db)
  end.

(** ** Cancelling a fleet *)

Definition cancel_fleet (fleet_id : string) (now_ms : Z) (db : Db) : result report (bool * Db) :=
  _ ← ensure_key_safe [fleet_id];
  fo ← load_row (db_fleets db) fleet_id;
  match fo with
  | None => Ok (false, db)
  | Some fleet =>
      if negb (eqb (fl_fleet_id fleet) fleet_id) then bail "cancel_fleet: fleet identity mismatch"
      else if negb (fleet_is_live fleet) then Ok (false, db)
      else
        let fleet' := fl_update (fl_budget fleet) FleetCancelled (fl_generation fleet) now_ms fleet in
        Ok (true, set_fleets (<[fleet_id := Json fleet']> (db_fleets db)) db)
  end.

(** ** Launch, run, complete *)

Definition launch_child (fleet_id child_id : string) (projected_tokens now_ms owner_epoch lease_ttl_ms : Z)
    (attempt_id event_id : string) (db : Db) : result report (LaunchOutcome * Db) :=
  _ ← ensure_key_safe [fleet_id; child_id];
  let ckey := child_key fleet_id child_id in
  oc ← load_row (db_children db) ckey;
  match oc with
  | None => Ok (RejectedNotReady, db)
  | Some child =>
      if negb (owns_child fleet_id child_id child) then Ok (RejectedNotReady, db)
      else if negb (bool_decide (ch_status child = Ready)) then
        if (bool_decide (ch_status child = Launching) || bool_decide (ch_status child = Running))
           && bool_decide (is_Some (ch_current_attempt_id child))
        then Ok (RejectedDoubleLaunch, db)
        else Ok (RejectedNotReady, db)
      else if bool_decide (is_Some (ch_current_attempt_id child)) then Ok (RejectedDoubleLaunch, db)
      else
        fo ← load_row (db_fleets db) fleet_id;
        match fo with
        | None => Ok (RejectedNotReady, db)
        | Some fleet =>
            if negb (eqb (fl_fleet_id fleet) fleet_id) then Ok (RejectedNotReady, db)
            else if negb (fleet_is_live fleet) then Ok (RejectedFleetTerminal, db)
            else if negb (admits (fl_budget fleet) projected_tokens) then Ok (RejectedBudgetExceeded, db)
            else
              new_reserved ← ok_or ("reservation overflow launching " +:+ child_id)
                (u64_checked_add (bg_tokens_reserved (fl_budget fleet)) projected_tokens);
              lease_expires ← ok_or ("lease-expiry overflow launching " +:+ child_id)
                (u64_checked_add now_ms lease_ttl_ms);
              attempts_used ← ok_or ("attempts_used overflow for " +:+ child_id)
                (u32_checked_add (ch_attempts_used child) 1);
              let child' := ch_set_updated now_ms (ch_set_attempts_used attempts_used
                (ch_set_current (Some attempt_id) (ch_set_status Launching child))) in
              let attempt := {|
                at_schema_version := SCHEMA_VERSION; at_fleet_id := fleet_id; at_child_id := child_id;
                at_attempt_id := attempt_id; at_generation := fl_generation fleet; at_status := Leased;
                at_lease := {| ls_owner_epoch := owner_epoch; ls_expires_at_ms := lease_expires |};
                at_reserved_tokens := projected_tokens; at_result_snapshot := None;
                at_started_at_ms := now_ms; at_ended_at_ms := None |} in
              let fleet' := fl_set_budget (bg_set_reserved new_reserved (fl_budget fleet)) now_ms fleet in
              '(_, outbox) ← append_outbox (db_outbox db)
                (outbox_event ChildLaunching fleet_id (Some child_id) (Some attempt_id) event_id);
              Ok (Launched attempt_id,
                  set_children (<[ckey := Json child']> (db_children db))
                    (set_attempts (<[attempt_key child_id attempt_id := Json attempt]> (db_attempts db))
                      (set_fleets (<[fleet_id := Json fleet']> (db_fleets db))
                        (set_outbox outbox db))))
        end
  end.

Definition owns_attempt (child_id attempt_id : string) (a : Attempt) : bool :=
  eqb (at_child_id a) child_id && eqb (at_attempt_id a) attempt_id.

Definition is_current (attempt_id : string) (c : FleetChildRecord) : bool :=
  bool_decide (ch_current_attempt_id c = Some attempt_id).

Definition mark_running (child_id attempt_id : string) (db : Db) : result report (MarkRunningOutcome * Db) :=
  _ ← ensure_key_safe [child_id; attempt_id];
  let akey := attempt_key child_id attempt_id in
  oa ← load_row (db_attempts db) akey;
  match oa with
  | None => Ok (MrSuperseded, db)
  | Some attempt =>
      if negb (owns_attempt child_id attempt_id attempt) then Ok (MrSuperseded, db)
      else
        let ckey := child_key (at_fleet_id attempt) child_id in
        oc ← load_row (db_children db) ckey;
        match oc with
        | None => Ok (MrSuperseded, db)
        | Some child =>
            if negb (owns_child (at_fleet_id attempt) child_id child) then Ok (MrSuperseded, db)
            else
              fo ← load_row (db_fleets db) (at_fleet_id attempt);
              match fo with
              | None => Ok (MrSuperseded, db)
              | Some fleet =>
                  if negb (eqb (fl_fleet_id fleet) (at_fleet_id attempt)) then Ok (MrSuperseded, db)
                  else if negb (fleet_is_live fleet) then Ok (MrSuperseded, db)
                  else if negb (is_current attempt_id child)
                          || negb (bool_decide (ch_status child = Launching))
                          || negb (bool_decide (at_status attempt = Leased))
                          || negb (at_generation attempt =? fl_generation fleet)%Z
                  then Ok (MrSuperseded, db)
                  else
                    let attempt' := at_update AttRunning (at_result_snapshot attempt) (at_ended_at_ms attempt) attempt in
                    let child' := ch_set_status Running child in
                    Ok (MrRunning, set_attempts (<[akey := Json attempt']> (db_attempts db))
                                     (set_children (<[ckey := Json child']> (db_children db)) db))
              end
        end
  end.

(** The identity checks, the terminal-fleet fence and the four-part predicate
    [complete_child] and [record_escalation] share: the rows of a live attempt this caller
    may settle. *)
Definition settle_fence (fleet_id child_id attempt_id : string) (owner_epoch : Z) (db : Db)
    : result report (option (FleetChildRecord * Attempt * FleetRecord)) :=
  oc ← load_row (db_children db) (child_key fleet_id child_id);
  match oc with
  | None => Ok None
  | Some child =>
      oa ← load_row (db_attempts db) (attempt_key child_id attempt_id);
      match oa with
      | None => Ok None
      | Some attempt =>
          fo ← load_row (db_fleets db) fleet_id;
          match fo with
          | None => Ok None
          | Some fleet =>
              if negb (owns_child fleet_id child_id child && eqb (at_fleet_id attempt) fleet_id
                       && owns_attempt child_id attempt_id attempt && eqb (fl_fleet_id fleet) fleet_id)
              then Ok None
              else if negb (fleet_is_live fleet) then Ok None
              else if negb (is_current attempt_id child && bool_decide (at_status attempt = AttRunning)
                            && (at_generation attempt =? fl_generation fleet)%Z
                            && (ls_owner_epoch (at_lease attempt) =? owner_epoch)%Z)
              then Ok None
              else Ok (Some (child, attempt, fleet))
          end
      end
  end.

(** [committed += actual], [reserved -= reserved_tokens], both checked. *)
Definition settle_budget (what child_id : string) (b : FleetBudget) (actual_tokens reserved : Z)
    : result report FleetBudget :=
  new_committed ← ok_or ("committed-token overflow " +:+ what +:+ " " +:+ child_id)
    (u64_checked_add (bg_tokens_committed b) actual_tokens);
  new_reserved ← ok_or ("reservation underflow " +:+ what +:+ " " +:+ child_id)
    (u64_checked_sub (bg_tokens_reserved b) reserved);
  Ok (bg_set_reserved new_reserved (bg_set_committed new_committed b)).

(** Write the three rows of a settled attempt and append the wake. *)
Definition settle_write (fleet_id child_id attempt_id event_id : string) (child : FleetChildRecord)
    (attempt : Attempt) (fleet : FleetRecord) (db : Db) : result report Db :=
  '(_, outbox) ← append_outbox (db_outbox db)
    (outbox_event ChildDone fleet_id (Some child_id) (Some attempt_id) event_id);
  Ok (set_children (<[child_key fleet_id child_id := Json child]> (db_children db))
        (set_attempts (<[attempt_key child_id attempt_id := Json attempt]> (db_attempts db))
          (set_fleets (<[fleet_id := Json fleet]> (db_fleets db))
            (set_outbox outbox db)))).

Definition is_accepted (v : AcceptanceVerdict) : bool := match v with Accepted _ => true | _ => false end.

Definition complete_child (fleet_id child_id attempt_id : string) (verdict : AcceptanceVerdict)
    (snapshot : ChildResultSnapshot) (actual_tokens owner_epoch now_ms : Z) (event_id : string) (db : Db)
    : result report (CompleteOutcome * Db) :=
  _ ← ensure_key_safe [fleet_id; child_id; attempt_id];
  rows ← settle_fence fleet_id child_id attempt_id owner_epoch db;
  match rows with
  | None => Ok (Superseded, db)
  | Some (child, attempt, fleet) =>
      budget ← settle_budget "completing" child_id (fl_budget fleet) actual_tokens (at_reserved_tokens attempt);
      spent ← ok_or ("child committed-token overflow for " +:+ child_id)
        (u64_checked_add (ch_tokens_committed child) actual_tokens);
      let child' := ch_set_updated now_ms (ch_set_committed spent (ch_set_outcome (Some verdict)
        (ch_set_status (if is_accepted verdict then Succeeded else Failed) child))) in
      let attempt' := at_update Done (Some snapshot) (Some now_ms) attempt in
      db' ← settle_write fleet_id child_id attempt_id event_id child' attempt' (fl_set_budget budget now_ms fleet) db;
      Ok (Completed, db')
  end.

Definition record_escalation (fleet_id child_id attempt_id : string) (request : EscalationRequest)
    (actual_tokens owner_epoch now_ms : Z) (event_id : string) (db : Db) : result report (CompleteOutcome * Db) :=
  _ ← ensure_key_safe [fleet_id; child_id; attempt_id];
  rows ← settle_fence fleet_id child_id attempt_id owner_epoch db;
  match rows with
  | None => Ok (Superseded, db)
  | Some (child, attempt, fleet) =>
      budget ← settle_budget "escalating" child_id (fl_budget fleet) actual_tokens (at_reserved_tokens attempt);
      spent ← ok_or ("child committed-token overflow for " +:+ child_id)
        (u64_checked_add (ch_tokens_committed child) actual_tokens);
      let child' := ch_set_updated now_ms (ch_set_committed spent (ch_set_current None
        (ch_set_escalation (Some request) (ch_set_version SCHEMA_VERSION (ch_set_status Blocked child))))) in
      db' ← settle_write fleet_id child_id attempt_id event_id child' (at_interrupt now_ms attempt)
              (fl_set_budget budget now_ms fleet) db;
      Ok (Completed, db')
  end.

(** ** Re-planning *)

(** The children of [fleet_id] by stored key: those that decode and own their key, and the
    ids of the others. *)
Fixpoint replan_rows (fleet_id : string) (l : list (string * Row FleetChildRecord))
    : result report (list FleetChildRecord * gset string) :=
  match l with
  | [] => Ok ([], ∅)
  | (k, row) :: l' =>
      match strip_prefix (fleet_id +:+ String NUL "") k with
      | None => replan_rows fleet_id l'
      | Some cid =>
          r ← decode_row row;
          '(existing, undecodable) ← replan_rows fleet_id l';
          match r with
          | Some rec => if owns_child fleet_id cid rec then Ok (rec :: existing, undecodable)
                        else Ok (existing, {[cid]} ∪ undecodable)
          | None => Ok (existing, {[cid]} ∪ undecodable)
          end
      end
  end.

Definition find_child (existing : list FleetChildRecord) (id : string) : option FleetChildRecord :=
  snd <$> list_find (fun c => ch_child_id c = id) existing.

Definition find_task (tasks : list PlanTask) (id : string) : option PlanTask :=
  snd <$> list_find (fun t => pt_task_id t = id) tasks.

Definition frozen (existing : list FleetChildRecord) (task : PlanTask) : bool :=
  match find_child existing (pt_task_id task) with
  | Some child => negb (bool_decide (ch_deps child = pt_deps task))
                  && (bool_decide (ch_status child = Succeeded) || bool_decide (ch_status child = Failed))
  | None => false
  end.

Definition att_is_live (a : Attempt) : bool :=
  match at_status a with Leased | AttRunning => true | _ => false end.

(** Interrupt the attempt the child points at, if it is live, and release its reservation;
    the flag says whether it was. *)
Definition interrupt_current (fleet_id : string) (now_ms : Z) (child : FleetChildRecord)
    (attempts : gmap string (Row Attempt)) (reserved : Z)
    : result report (gmap string (Row Attempt) * Z * bool) :=
  match ch_current_attempt_id child with
  | None => Ok (attempts, reserved, false)
  | Some aid =>
      let akey := attempt_key (ch_child_id child) aid in
      oa ← load_row attempts akey;
      match oa with
      | None => Ok (attempts, reserved, false)
      | Some att =>
          if eqb (at_fleet_id att) fleet_id && owns_attempt (ch_child_id child) aid att && att_is_live att
          then
            r ← ok_or ("reservation underflow interrupting " +:+ ch_child_id child)
                  (u64_checked_sub reserved (at_reserved_tokens att));
            Ok (<[akey := Json (at_interrupt now_ms att)]> attempts, r, true)
          else Ok (attempts, reserved, false)
      end
  end.

Definition readiness (succeeded : gset string) (deps : list string) : ChildStatus :=
  if forallb (fun d => bool_decide (d ∈ succeeded)) deps then Ready else Planned.

(** The row a child gets: a survivor is re-stamped and, unless it succeeded, made runnable
    again from its new dependencies; a removed one is cancelled. *)
Definition rebucket (tasks : list PlanTask) (succeeded : gset string) (new_gen now_ms : Z) (interrupted : bool)
    (child : FleetChildRecord) : FleetChildRecord :=
  let child := if interrupted then ch_set_current None child else child in
  let child := ch_set_updated now_ms (ch_set_generation new_gen child) in
  match find_task tasks (ch_child_id child) with
  | Some t =>
      let child := ch_set_deps (pt_deps t) child in
      if bool_decide (ch_status child = Succeeded) then child
      else ch_set_status (readiness succeeded (ch_deps child))
             (ch_set_escalation None (ch_set_outcome None (ch_set_current None child)))
  | None =>
      ch_set_escalation None (ch_set_current None
        (ch_set_outcome (Some (Terminated "removed by replan")) (ch_set_status Cancelled child)))
  end.

Definition replan_child (fleet_id : string) (tasks : list PlanTask) (succeeded : gset string) (new_gen now_ms : Z)
    (st : gmap string (Row FleetChildRecord) * gmap string (Row Attempt) * Z) (child : FleetChildRecord)
    : result report (gmap string (Row FleetChildRecord) * gmap string (Row Attempt) * Z) :=
  let '(children, attempts, reserved) := st in
  '(attempts', reserved', interrupted) ← interrupt_current fleet_id now_ms child attempts reserved;
  Ok (<[child_key fleet_id (ch_child_id child) := Json (rebucket tasks succeeded new_gen now_ms interrupted child)]>
        children, attempts', reserved').

Definition add_new_task (fleet_id : string) (skip succeeded : gset string) (new_gen now_ms : Z)
    (children : gmap string (Row FleetChildRecord)) (task : PlanTask) : gmap string (Row FleetChildRecord) :=
  if bool_decide (pt_task_id task ∈ skip) then children
  else <[child_key fleet_id (pt_task_id task) :=
           Json (new_child fleet_id (pt_task_id task) (readiness succeeded (pt_deps task)) (pt_deps task)
                   new_gen now_ms)]> children.

Definition surviving_succeeded (tasks : list PlanTask) (existing : list FleetChildRecord) : gset string :=
  list_to_set (ch_child_id <$> filter (fun c => ch_status c = Succeeded /\ ch_child_id c ∈ (pt_task_id <$> tasks))
                                 existing).

Definition replan (fleet_id : string) (expected_revision : Z) (new_plan : DurablePlan) (now_ms : Z) (db : Db)
    : result report (PlanMutateOutcome * Db) :=
  _ ← ensure_key_safe [fleet_id];
  _ ← ensure_tasks_safe (dp_tasks new_plan);
  pj ← ok_or ("replan: no plan for fleet " +:+ fleet_id) (db_plans db !! fleet_id);
  op ← decode_row pj;
  plan ← ok_or ("replan: plan for " +:+ fleet_id +:+ " is a newer schema; refusing to overwrite") op;
  if negb (eqb (dp_fleet_id plan) fleet_id) then bail ("replan: plan identity mismatch for " +:+ fleet_id)
  else if negb (dp_revision plan =? expected_revision)%Z then Ok (RevisionMismatch (dp_revision plan), db)
  else
    fj ← ok_or ("replan: no fleet " +:+ fleet_id) (db_fleets db !! fleet_id);
    fo ← decode_row fj;
    fleet ← ok_or ("replan: fleet " +:+ fleet_id +:+ " is a newer schema") fo;
    if negb (eqb (fl_fleet_id fleet) fleet_id) then bail ("replan: fleet identity mismatch for " +:+ fleet_id)
    else if negb (fleet_is_live fleet) then Ok (PmRejectedFleetTerminal, db)
    else
      new_gen ← ok_or ("generation overflow re-planning " +:+ fleet_id) (u64_checked_add (fl_generation fleet) 1);
      new_rev ← ok_or ("revision overflow re-planning " +:+ fleet_id) (u64_checked_add expected_revision 1);
      let tasks := dp_tasks new_plan in
      '(existing, undecodable) ← replan_rows fleet_id (table_iter (db_children db));
      let succeeded := surviving_succeeded tasks existing in
      match list_find (fun t => frozen existing t = true) tasks with
      | Some (_, task) => Ok (RejectedTerminalDepChange (pt_task_id task), db)
      | None =>
          '(children, attempts, reserved) ←
            try_fold (replan_child fleet_id tasks succeeded new_gen now_ms)
              (db_children db, db_attempts db, bg_tokens_reserved (fl_budget fleet)) existing;
          let skip := list_to_set (ch_child_id <$> existing) ∪ undecodable in
          let children := foldl (add_new_task fleet_id skip succeeded new_gen now_ms) children tasks in
          let fleet' := fl_update (bg_set_reserved reserved (fl_budget fleet)) (fl_status fleet) new_gen now_ms fleet in
          Ok (Mutated new_rev,
              set_children children (set_attempts attempts
                (set_plans (<[fleet_id := Json (dp_set fleet_id new_rev tasks new_plan)]> (db_plans db))
                  (set_fleets (<[fleet_id := Json fleet']> (db_fleets db)) db))))
      end.

(** ** Spec-only edits and escalation decisions *)

(** [iter_mut().find(..)] followed by an assignment: the first task of that id is changed. *)
Fixpoint update_task (id : string) (f : PlanTask -> PlanTask) (tasks : list PlanTask) : option (list PlanTask) :=
  match tasks with
  | [] => None
  | t :: rest => if bool_decide (pt_task_id t = id) then Some (f t :: rest)
                 else cons t <$> update_task id f rest
  end.

Definition retitle_task (fleet_id : string) (expected_revision : Z) (task_id title detail : string) (db : Db)
    : result report (PlanMutateOutcome * Db) :=
  _ ← ensure_key_safe [fleet_id; task_id];
  live ← fleet_live db fleet_id;
  if negb live then Ok (PmRejectedFleetTerminal, db)
  else
    pj ← ok_or ("retitle_task: no plan for fleet " +:+ fleet_id) (db_plans db !! fleet_id);
    op ← decode_row pj;
    plan ← ok_or ("retitle_task: plan for " +:+ fleet_id +:+ " is a newer schema") op;
    if negb (eqb (dp_fleet_id plan) fleet_id) then bail ("retitle_task: plan identity mismatch for " +:+ fleet_id)
    else if negb (dp_revision plan =? expected_revision)%Z then Ok (RevisionMismatch (dp_revision plan), db)
    else
      tasks ← ok_or ("retitle_task: task " +:+ task_id +:+ " not in fleet " +:+ fleet_id +:+ "'s plan")
        (update_task task_id (pt_set_text title detail) (dp_tasks plan));
      new_rev ← ok_or ("revision overflow retitling " +:+ fleet_id) (u64_checked_add expected_revision 1);
      Ok (Mutated new_rev,
          set_plans (<[fleet_id := Json (dp_set (dp_fleet_id plan) new_rev tasks plan)]> (db_plans db)) db).

Definition set_task_grant (fleet_id : string) (expected_revision : Z) (task_id : string) (grant : WorkerGrant)
    (now_ms : Z) (db : Db) : result report (PlanMutateOutcome * Db) :=
  _ ← ensure_key_safe [fleet_id; task_id];
  live ← fleet_live db fleet_id;
  if negb live then Ok (PmRejectedFleetTerminal, db)
  else
    pj ← ok_or ("set_task_grant: no plan for fleet " +:+ fleet_id) (db_plans db !! fleet_id);
    op ← decode_row pj;
    plan ← ok_or ("set_task_grant: plan for " +:+ fleet_id +:+ " is a newer schema") op;
    if negb (eqb (dp_fleet_id plan) fleet_id) then bail ("set_task_grant: plan identity mismatch for " +:+ fleet_id)
    else if negb (dp_revision plan =? expected_revision)%Z then Ok (RevisionMismatch (dp_revision plan), db)
    else
      tasks ← ok_or ("set_task_grant: task " +:+ task_id +:+ " not in fleet " +:+ fleet_id +:+ "'s plan")
        (update_task task_id (pt_set_grant grant) (dp_tasks plan));
      let ckey := child_key fleet_id task_id in
      oc ← load_row (db_children db) ckey;
      match oc with
      | None => Ok (RejectedNotBlocked task_id, db)
      | Some child =>
          if negb (owns_child fleet_id task_id child) || negb (bool_decide (ch_status child = Blocked))
          then Ok (RejectedNotBlocked task_id, db)
          else
            new_rev ← ok_or ("revision overflow granting " +:+ fleet_id) (u64_checked_add expected_revision 1);
            let child' := ch_set_updated now_ms (ch_set_current None (ch_set_escalation None
              (ch_set_status Ready child))) in
            Ok (Mutated new_rev,
                set_plans (<[fleet_id := Json (dp_set (dp_fleet_id plan) new_rev tasks plan)]> (db_plans db))
                  (set_children (<[ckey := Json child']> (db_children db)) db))
      end.

(** The status the completability rule reads for one task of the plan. *)
Definition task_status (fleet_id child_id : string) (own : ChildStatus) (children : gmap string (Row FleetChildRecord))
    (task : PlanTask) : result report ChildStatus :=
  if bool_decide (pt_task_id task = child_id) then Ok own
  else
    oc ← load_row children (child_key fleet_id (pt_task_id task));
    Ok (match oc with Some c => ch_status c | None => Planned end).

Definition un_completable_step (fleet_id child_id : string) (own : ChildStatus)
    (children : gmap string (Row FleetChildRecord)) (st : bool * bool) (task : PlanTask)
    : result report (bool * bool) :=
  let '(all_succeeded, any_failed) := st in
  s ← task_status fleet_id child_id own children task;
  Ok (all_succeeded && bool_decide (s = Succeeded), any_failed || bool_decide (s = Failed)).

Definition deny_escalation (fleet_id child_id reason : string) (now_ms : Z) (event_id : string) (db : Db)
    : result report (DenyEscalationOutcome * Db) :=
  let superseded := {| dn_settled := Superseded; dn_fleet_un_completable := false |} in
  _ ← ensure_key_safe [fleet_id; child_id];
  live ← fleet_live db fleet_id;
  if negb live then Ok (superseded, db)
  else
    let ckey := child_key fleet_id child_id in
    oc ← load_row (db_children db) ckey;
    match oc with
    | None => Ok (superseded, db)
    | Some child =>
        if negb (owns_child fleet_id child_id child) || negb (bool_decide (ch_status child = Blocked))
        then Ok (superseded, db)
        else
          let child' := ch_set_updated now_ms (ch_set_current None (ch_set_escalation None
            (ch_set_outcome (Some (Rejected ("escalation denied: " +:+ reason))) (ch_set_status Failed child)))) in
          let children := <[ckey := Json child']> (db_children db) in
          op ← load_row (db_plans db) fleet_id;
          '(plans, un_completable) ←
            match op with
            | Some plan =>
                if eqb (dp_fleet_id plan) fleet_id then
                  rev ← ok_or ("revision overflow denying escalation for " +:+ fleet_id)
                          (u64_checked_add (dp_revision plan) 1);
                  '(all_succeeded, any_failed) ←
                    try_fold (un_completable_step fleet_id child_id (ch_status child') children)
                      (true, false) (dp_tasks plan);
                  Ok (<[fleet_id := Json (dp_set (dp_fleet_id plan) rev (dp_tasks plan) plan)]> (db_plans db),
                      negb all_succeeded && any_failed)
                else Ok (db_plans db, false)
            | None => Ok (db_plans db, false)
            end;
          '(_, outbox) ← append_outbox (db_outbox db)
            (outbox_event ChildDone fleet_id (Some child_id) None event_id);
          Ok ({| dn_settled := Completed; dn_fleet_un_completable := un_completable |},
              set_children children (set_plans plans (set_outbox outbox db)))
    end.

(** ** Boot recovery *)

Definition lease_stale (a : Attempt) (now_ms owner_epoch : Z) : bool :=
  negb (ls_owner_epoch (at_lease a) =? owner_epoch)%Z || (ls_expires_at_ms (at_lease a) <? now_ms)%Z.

Definition reconcile_child (now_ms owner_epoch : Z) (st : Db * list InterruptedAttempt) (child : FleetChildRecord)
    : result report (Db * list InterruptedAttempt) :=
  let '(db, report) := st in
  match ch_status child, ch_current_attempt_id child with
  | (Launching | Running), Some aid =>
      fo ← load_row (db_fleets db) (ch_fleet_id child);
      match fo with
      | None => Ok st
      | Some fleet =>
          if negb (eqb (fl_fleet_id fleet) (ch_fleet_id child)) then Ok st
          else
            let akey := attempt_key (ch_child_id child) aid in
            oa ← load_row (db_attempts db) akey;
            match oa with
            | None => Ok st
            | Some attempt =>
                if negb (owns_attempt (ch_child_id child) aid attempt
                         && eqb (at_fleet_id attempt) (ch_fleet_id child)) then Ok st
                else if negb (att_is_live attempt) then Ok st
                else if fleet_is_live fleet && negb (lease_stale attempt now_ms owner_epoch) then Ok st
                else
                  r ← ok_or ("reconcile reservation underflow for " +:+ ch_child_id child)
                        (u64_checked_sub (bg_tokens_reserved (fl_budget fleet)) (at_reserved_tokens attempt));
                  let fleet' := fl_set_budget (bg_set_reserved r (fl_budget fleet)) now_ms fleet in
                  let child' := ch_set_updated now_ms (ch_set_current None
                    (ch_set_status (if fleet_is_live fleet then Ready else Cancelled) child)) in
                  Ok (set_attempts (<[akey := Json (at_interrupt now_ms attempt)]> (db_attempts db))
                        (set_fleets (<[ch_fleet_id child := Json fleet']> (db_fleets db))
                          (set_children (<[child_key (ch_fleet_id child) (ch_child_id child) := Json child']>
                                           (db_children db)) db)),
                      report ++ [{| ia_fleet_id := ch_fleet_id child; ia_child_id := ch_child_id child;
                                    ia_attempt_id := aid |}])
            end
      end
  | _, _ => Ok st
  end.

(** Children that own the key they are stored under, of every fleet. *)
Definition owned_children (rows : list (string * FleetChildRecord)) : list FleetChildRecord :=
  (filter (fun '(k, rec) => child_key (ch_fleet_id rec) (ch_child_id rec) = k) rows).*2.

Definition reconcile (now_ms owner_epoch : Z) (db : Db) : result report (list InterruptedAttempt * Db) :=
  rows ← scan (db_children db);
  '(db', report) ← try_fold (reconcile_child now_ms owner_epoch) (db, []) (owned_children rows);
  Ok (report, db').

(** ** Reads *)

Definition by_child_id (a b : FleetChildRecord) : bool := bool_decide (String.le (ch_child_id a) (ch_child_id b)).

Definition list_children (fleet_id : string) (db : Db) : result report (list FleetChildRecord) :=
  _ ← ensure_key_safe [fleet_id];
  rows ← scan (db_children db);
  Ok (sort_by by_child_id (filter (fun c => ch_fleet_id c = fleet_id) rows.*2)).

Definition get_fleet (fleet_id : string) (db : Db) : result report (option FleetRecord) :=
  _ ← ensure_key_safe [fleet_id];
  fo ← load_row (db_fleets db) fleet_id;
  Ok (f ← fo; if eqb (fl_fleet_id f) fleet_id then Some f else None).

Definition get_child (fleet_id child_id : string) (db : Db) : result report (option FleetChildRecord) :=
  _ ← ensure_key_safe [fleet_id; child_id];
  oc ← load_row (db_children db) (child_key fleet_id child_id);
  Ok (c ← oc; if owns_child fleet_id child_id c then Some c else None).

Definition get_plan (fleet_id : string) (db : Db) : result report (option DurablePlan) :=
  _ ← ensure_key_safe [fleet_id];
  op ← load_row (db_plans db) fleet_id;
  Ok (p ← op; if eqb (dp_fleet_id p) fleet_id then Some p else None).

Definition get_attempt (child_id attempt_id : string) (db : Db) : result report (option Attempt) :=
  _ ← ensure_key_safe [child_id; attempt_id];
  oa ← load_row (db_attempts db) (attempt_key child_id attempt_id);
  Ok (a ← oa; if owns_attempt child_id attempt_id a then Some a else None).

Definition load_snapshot (fleet_id : string) (db : Db) : result report (option FleetSnapshot) :=
  _ ← ensure_key_safe [fleet_id];
  fo ← load_row (db_fleets db) fleet_id;
  match fo with
  | None => Ok None
  | Some fleet =>
      if negb (eqb (fl_fleet_id fleet) fleet_id) then Ok None
      else
        op ← load_row (db_plans db) fleet_id;
        rows ← scan (db_children db);
        Ok (Some {| fs_fleet := fleet;
                    fs_plan := p ← op; if eqb (dp_fleet_id p) fleet_id then Some p else None;
                    fs_children := sort_by by_child_id (filter (fun c => ch_fleet_id c = fleet_id) rows.*2) |})
  end.

(** ** Outbox *)

Definition append_event (event : OutboxEvent) (db : Db) : result report (Z * Db) :=
  _ ← ensure_key_safe [ob_fleet_id event; ob_event_id event];
  _ ← ensure_key_safe (option_list (ob_child_id event));
  _ ← ensure_key_safe (option_list (ob_attempt_id event));
  '(seq, outbox) ← append_outbox (db_outbox db) event;
  Ok (seq, set_outbox outbox db).

Definition claim_free (now_ms : Z) (ev : OutboxEvent) : bool :=
  bool_decide (ob_claimed_by ev = None)
  || match ob_claim_expires_at ev with Some e => (e <? now_ms)%Z | None => true end.

(** The first row, in key order, that can be claimed; the rows after it are not read. *)
Fixpoint first_claimable (now_ms : Z) (l : list (string * Row OutboxEvent))
    : result report (option (string * OutboxEvent)) :=
  match l with
  | [] => Ok None
  | (k, row) :: l' =>
      r ← decode_row row;
      match r with
      | None => first_claimable now_ms l'
      | Some ev => if negb (ob_acked ev) && claim_free now_ms ev then Ok (Some (k, ev))
                   else first_claimable now_ms l'
      end
  end.

Definition claim_next (consumer : string) (now_ms ttl_ms : Z) (token : string) (db : Db)
    : result report (option OutboxEvent * Db) :=
  found ← first_claimable now_ms (table_iter (db_outbox db));
  match found with
  | None => Ok (None, db)
  | Some (key, ev) =>
      expires ← ok_or "claim-expiry overflow" (u64_checked_add now_ms ttl_ms);
      let ev' := ob_claim consumer token expires ev in
      Ok (Some ev', set_outbox (<[key := Json ev']> (db_outbox db)) db)
  end.

Definition ack (sequence : Z) (consumer claim_token : string) (db : Db) : result report (AckOutcome * Db) :=
  let key := outbox_key sequence in
  vj ← ok_or ("ack: outbox sequence " +:+ pretty sequence +:+ " not found") (db_outbox db !! key);
  oe ← decode_row vj;
  ev ← ok_or ("outbox event " +:+ pretty sequence +:+ " is a newer schema") oe;
  if bool_decide (ob_claimed_by ev = Some consumer) && bool_decide (ob_claim_token ev = Some claim_token)
  then Ok (Acked, set_outbox (<[key := Json (ob_set_acked ev)]> (db_outbox db)) db)
  else Ok (StaleClaim, db).

(** ** Decision log *)

Definition max_decision (fleet_id : string) (log : gmap string (Row DecisionEntry)) : Z :=
  foldl (fun m '(k, _) => match decision_seq k fleet_id with Some s => Z.max m s | None => m end) 0%Z
    (table_iter log).

Definition append_decision (fleet_id actor : string) (kind : DecisionKind) (note : string) (now_ms : Z) (db : Db)
    : result report (Z * Db) :=
  _ ← ensure_key_safe [fleet_id];
  next ← ok_or ("decision sequence overflow for " +:+ fleet_id)
    (u64_checked_add (max_decision fleet_id (db_decisions db)) 1);
  let entry := {| de_schema_version := SCHEMA_VERSION; de_seq := next; de_at_ms := now_ms; de_actor := actor;
                  de_kind := kind; de_note := note |} in
  Ok (next, set_decisions (<[decision_key fleet_id next := Json entry]> (db_decisions db)) db).

Definition list_decisions (fleet_id : string) (db : Db) : result report (list DecisionEntry) :=
  _ ← ensure_key_safe [fleet_id];
  rows ← decode_all (filter (fun '(k, _) => is_Some (decision_seq k fleet_id)) (table_iter (db_decisions db)));
  Ok (sort_by (fun a b => (de_seq a <=? de_seq b)%Z) (omap snd rows)).
