(* ===== verification/FleetFacts.v ===== *)
(** * Keys and tables of the fleet store

    What the proofs about [store.rs] share: composite keys of safe components cannot collide,
    zero-padded sequence keys sort as their numbers and parse back, iteration visits exactly
    the rows of a table in key order, and a total over the rows of a table follows an update
    of one row. *)
From S2P Require Import Prelude RustStr RustNum Grant FleetRecords FleetStore.
Open Scope octos_scope.

(** ** Safe key components *)

Definition no_nul (s : string) : Prop := forall l r, s <> l +:+ String NUL r.

Lemma safe_no_nul s : key_component_is_safe s = true -> no_nul s.
Proof.
  unfold key_component_is_safe. intros [_ H]%andb_true_iff l r ->. apply negb_true_iff in H.
  destruct (chars_byte _ NUL l r eq_refl) as [bs Hin]; [done|].
  assert (existsb (fun c => is_control c.1) (chars (l +:+ String NUL r)) = true) as E; [|congruence].
  apply existsb_exists. exists (byte_val NUL, bs). split; [by apply list_elem_of_In|done].
Qed.

Lemma nul_inj a b c d :
  no_nul a -> no_nul c -> a +:+ String NUL b = c +:+ String NUL d -> a = c /\ b = d.
Proof.
  revert c. induction a as [|x a IH]; intros [|y c] Ha Hc E; rewrite ?str_nil_app, ?str_cons_app in E.
  - by simplify_eq.
  - exfalso. injection E as <- _. by apply (Hc "" c).
  - exfalso. injection E as -> _. by apply (Ha "" a).
  - injection E as -> E. destruct (IH c) as [-> ->]; [| |done|done].
    + intros l r ->. by apply (Ha (String y l) r).
    + intros l r ->. by apply (Hc (String y l) r).
Qed.

Lemma child_key_inj f c f' c' : no_nul f -> no_nul f' -> child_key f c = child_key f' c' -> f = f' /\ c = c'.
Proof. apply nul_inj. Qed.

Lemma attempt_key_inj c a c' a' : no_nul c -> no_nul c' -> attempt_key c a = attempt_key c' a' -> c = c' /\ a = a'.
Proof. apply nul_inj. Qed.

Lemma ensure_key_safe_ok l : ensure_key_safe l = Ok tt <-> Forall (fun s => key_component_is_safe s = true) l.
Proof.
  induction l as [|s l IH]; cbn; [by split; [constructor|]|]. rewrite Forall_cons.
  destruct (key_component_is_safe s); cbn; rewrite ?IH; naive_solver.
Qed.

Lemma ensure_key_safe_nul l u : ensure_key_safe l = Ok u -> Forall no_nul l.
Proof. destruct u. rewrite ensure_key_safe_ok. intros H. eapply Forall_impl; [exact H|exact safe_no_nul]. Qed.

Lemma ensure_tasks_safe_nul tasks u :
  ensure_tasks_safe tasks = Ok u -> Forall (fun t => no_nul (pt_task_id t)) tasks.
Proof.
  induction tasks as [|t tasks IH]; cbn [ensure_tasks_safe]; [constructor|]. rewrite bind_Ok. setoid_rewrite bind_Ok.
  intros ([] & H1 & [] & H2 & H3). apply ensure_key_safe_nul in H1. inversion H1; subst. constructor; auto.
Qed.

(** The stored key of a child of [f] carries the prefix of [f]. *)
Lemma strip_child_key f k cid :
  strip_prefix (f +:+ String NUL "") k = Some cid <-> k = child_key f cid.
Proof.
  unfold child_key. assert (f +:+ String NUL cid = (f +:+ String NUL "") +:+ cid) as ->
    by (rewrite str_app_assoc; reflexivity).
  split; [|intros ->; apply strip_prefix_app]. unfold strip_prefix.
  destruct (starts_with _ k) eqn:E; [|done]. apply starts_with_app in E as [t ->]. intros [= <-].
  by rewrite str_drop_app.
Qed.

(** ** Zero-padded numbers *)

Lemma pow10_pos n : (0 < 10 ^ Z.of_nat n)%Z.
Proof. apply Z.pow_pos_nonneg; lia. Qed.

Lemma zero_padded_digit n z :
  (0 <= z < 10 ^ Z.of_nat (S n))%Z -> (0 <= z / 10 ^ Z.of_nat n <= 9)%Z.
Proof.
  intros H. pose proof (pow10_pos n). rewrite Nat2Z.inj_succ, Z.pow_succ_r in H by lia.
  split; [apply Z.div_pos; lia|]. assert (z / 10 ^ Z.of_nat n < 10)%Z; [|lia]. apply Z.div_lt_upper_bound; lia.
Qed.

Lemma digit_byte d : (0 <= d <= 9)%Z -> byte_val (ascii_of_N (48 + Z.to_N d)) = (48 + Z.to_N d)%N.
Proof. intros H. unfold byte_val. apply N_ascii_embedding. lia. Qed.

Lemma zero_padded_val n : forall z acc, (0 <= z < 10 ^ Z.of_nat n)%Z ->
  digits_val acc (zero_padded n z) = Some (acc * 10 ^ Z.of_nat n + z)%Z.
Proof.
  induction n as [|n IH]; intros z acc H.
  { cbn in *. f_equal. lia. }
  pose proof (zero_padded_digit _ _ H) as Hd. pose proof (pow10_pos n). pose proof (Z.mod_pos_bound z (10 ^ Z.of_nat n)).
  cbn [zero_padded digits_val]. unfold digit_val. rewrite digit_byte by done.
  assert (is_ascii_digit (48 + Z.to_N (z / 10 ^ Z.of_nat n)) = true) as ->.
  { unfold is_ascii_digit. apply andb_true_iff. split; apply N.leb_le; lia. }
  rewrite IH by lia. f_equal. rewrite (Z.div_mod z (10 ^ Z.of_nat n)) at 3 by lia.
  rewrite Nat2Z.inj_succ, Z.pow_succ_r by lia. lia.
Qed.

Lemma u64_fits z : (0 <= z <= u64_max)%Z -> (0 <= z < 10 ^ Z.of_nat 20)%Z.
Proof. unfold u64_max. intros H. split; [lia|]. change (10 ^ Z.of_nat 20)%Z with 100000000000000000000%Z. lia. Qed.

Lemma parse_zero_padded z : (0 <= z <= u64_max)%Z -> parse_u64 (zero_padded 20 z) = Some z.
Proof.
  intros H. pose proof (u64_fits _ H) as Hf. pose proof (zero_padded_digit 19 z Hf) as Hd.
  unfold parse_u64. apply parse_uint_digits; [done| |lia]. rewrite zero_padded_val by done. f_equal.
Qed.

Lemma zero_padded_inj z z' :
  (0 <= z <= u64_max)%Z -> (0 <= z' <= u64_max)%Z -> zero_padded 20 z = zero_padded 20 z' -> z = z'.
Proof. intros H H' E. apply parse_zero_padded in H, H'. rewrite E in H. congruence. Qed.

Lemma digit_compare d d' :
  (0 <= d <= 9)%Z -> (0 <= d' <= 9)%Z ->
  Ascii.compare (ascii_of_N (48 + Z.to_N d)) (ascii_of_N (48 + Z.to_N d')) = (d ?= d')%Z.
Proof.
  intros H H'. unfold Ascii.compare. change N_of_ascii with byte_val. rewrite !digit_byte by done.
  destruct (Z.compare_spec d d').
  - subst. apply N.compare_refl.
  - apply N.compare_lt_iff. lia.
  - apply N.compare_gt_iff. lia.
Qed.

Lemma zero_padded_compare n : forall z z',
  (0 <= z < 10 ^ Z.of_nat n)%Z -> (0 <= z' < 10 ^ Z.of_nat n)%Z ->
  String.compare (zero_padded n z) (zero_padded n z') = (z ?= z')%Z.
Proof.
  induction n as [|n IH]; intros z z' H H'.
  { cbn in *. symmetry. apply Z.compare_eq_iff. lia. }
  pose proof (zero_padded_digit _ _ H) as Hd. pose proof (zero_padded_digit _ _ H') as Hd'.
  pose proof (pow10_pos n) as Hp. cbn [zero_padded String.compare]. rewrite digit_compare by done.
  set (p := (10 ^ Z.of_nat n)%Z) in *.
  pose proof (Z.div_mod z p ltac:(lia)) as E. pose proof (Z.div_mod z' p ltac:(lia)) as E'.
  pose proof (Z.mod_pos_bound z p Hp) as Hm. pose proof (Z.mod_pos_bound z' p Hp) as Hm'.
  destruct (Z.compare_spec (z / p) (z' / p)) as [Heq|Hlt|Hgt].
  - rewrite IH by done. rewrite Heq in E. destruct (Z.compare_spec (z mod p) (z' mod p)); symmetry.
    + apply Z.compare_eq_iff. lia.
    + apply Z.compare_lt_iff. lia.
    + apply Z.compare_gt_iff. lia.
  - symmetry. apply Z.compare_lt_iff. nia.
  - symmetry. apply Z.compare_gt_iff. nia.
Qed.

(** Sequence keys sort as their numbers. *)
Lemma zero_padded_le z z' :
  (0 <= z <= u64_max)%Z -> (0 <= z' <= u64_max)%Z ->
  String.le (zero_padded 20 z) (zero_padded 20 z') <-> (z <= z')%Z.
Proof.
  intros H%u64_fits H'%u64_fits. unfold String.le, String.leb. rewrite zero_padded_compare by done.
  destruct (Z.compare_spec z z'); cbn; split; (done || lia || (intros; exfalso; done) || idtac).
Qed.

(** ** Iteration *)

Section tables.
Context {A : Type}.
Implicit Types (t : gmap string A).

Lemma elem_of_table_iter t k a : (k, a) ∈ table_iter t <-> t !! k = Some a.
Proof.
  unfold table_iter. rewrite list_elem_of_omap. setoid_rewrite elem_of_btree_iter. split.
  - intros (k' & _ & H). destruct (t !! k') eqn:E; [|done]. by simplify_eq/=.
  - intros H. exists k. split; [by apply elem_of_dom_2 in H|]. by rewrite H.
Qed.

Lemma table_iter_keys t : (table_iter t).*1 = btree_iter (dom t).
Proof.
  unfold table_iter. assert (Forall (fun k => is_Some (t !! k)) (btree_iter (dom t))) as H.
  { apply Forall_forall. intros k. rewrite elem_of_btree_iter. apply elem_of_dom. }
  induction H as [|k l [a Ha] _ IH]; [done|]. cbn. rewrite Ha. cbn. by f_equal.
Qed.

Lemma NoDup_table_iter t : NoDup (table_iter t).*1.
Proof. rewrite table_iter_keys. unfold btree_iter. rewrite merge_sort_Permutation. apply NoDup_elements. Qed.

Lemma sorted_table_iter t : StronglySorted String.le (table_iter t).*1.
Proof. rewrite table_iter_keys. apply (StronglySorted_merge_sort _). Qed.

Lemma table_iter_nil t : table_iter t = [] <-> t = ∅.
Proof.
  split; [|intros ->; reflexivity].
  intros H. apply map_empty. intros k. destruct (t !! k) as [a|] eqn:E; [|done].
  apply elem_of_table_iter in E. rewrite H in E. set_solver.
Qed.

(** The last row has the greatest key. *)
Lemma table_last_max t k a :
  table_last t = Some (k, a) -> t !! k = Some a /\ forall k', is_Some (t !! k') -> String.le k' k.
Proof.
  unfold table_last. intros H. apply last_Some in H as [l Hl]. split.
  { apply elem_of_table_iter. rewrite Hl. set_solver. }
  intros k' [a' Ha']. apply elem_of_table_iter in Ha'. pose proof (sorted_table_iter t) as Hs.
  rewrite Hl in Hs, Ha'. rewrite fmap_app in Hs. apply elem_of_app in Ha' as [Ha'|Ha'].
  - eapply StronglySorted_app_1_elem_of; [exact Hs| |by left]. apply list_elem_of_fmap. by exists (k', a').
  - apply list_elem_of_singleton in Ha'. by simplify_eq.
Qed.

Lemma table_last_None t : table_last t = None <-> t = ∅.
Proof. unfold table_last. by rewrite last_None, table_iter_nil. Qed.
End tables.

(** ** Totals over a table *)

Section sums.
Context {A : Type} (w : A -> Z).
Implicit Types (m : gmap string A).

Definition map_sum (m : gmap string A) : Z := map_fold (fun _ a s => w a + s)%Z 0%Z m.

Lemma map_sum_insert_new m k a : m !! k = None -> map_sum (<[k := a]> m) = (w a + map_sum m)%Z.
Proof. intros H. unfold map_sum. rewrite map_fold_insert_L; [done|intros; lia|done]. Qed.

(** Replacing one row changes the total by the difference. *)
Lemma map_sum_insert m k a :
  map_sum (<[k := a]> m) = (map_sum m + w a - from_option w 0 (m !! k))%Z.
Proof.
  destruct (m !! k) as [b|] eqn:E; cbn.
  - rewrite <- (insert_delete_eq m k a), map_sum_insert_new by apply lookup_delete_eq.
    rewrite <- (insert_delete_id m k b E) at 2. rewrite map_sum_insert_new by apply lookup_delete_eq. lia.
  - rewrite map_sum_insert_new by done. lia.
Qed.

Lemma map_sum_empty : map_sum ∅ = 0%Z.
Proof. reflexivity. Qed.

Lemma map_sum_nonneg m : (forall k b, m !! k = Some b -> 0 <= w b)%Z -> (0 <= map_sum m)%Z.
Proof.
  induction m as [|k a m Hk IH] using map_ind; intros Hw; [by rewrite map_sum_empty|].
  rewrite map_sum_insert_new by done. assert (0 <= map_sum m)%Z.
  { apply IH. intros k' b Hb. apply (Hw k'). rewrite lookup_insert_ne; [done|]. intros ->. congruence. }
  specialize (Hw k a (lookup_insert_eq _ _ _)). lia.
Qed.

Lemma map_sum_le m k a : (forall k b, m !! k = Some b -> 0 <= w b)%Z -> m !! k = Some a -> (w a <= map_sum m)%Z.
Proof.
  intros Hw Hk. rewrite <- (insert_delete_id m k a Hk), map_sum_insert_new by apply lookup_delete_eq.
  assert (0 <= map_sum (delete k m))%Z; [|lia]. apply map_sum_nonneg.
  intros k' b [_ Hb]%lookup_delete_Some. eauto.
Qed.

Lemma map_sum_zero m : (forall k b, m !! k = Some b -> w b = 0)%Z -> map_sum m = 0%Z.
Proof.
  induction m as [|k a m Hk IH] using map_ind; intros Hw; [done|].
  rewrite map_sum_insert_new, (Hw k a (lookup_insert_eq _ _ _)), IH; [done| |done].
  intros k' b Hb. apply (Hw k'). rewrite lookup_insert_ne; [done|]. intros ->. congruence.
Qed.
End sums.

(** ** Reading rows *)

Section reads.
Context `{Versioned A}.
Implicit Types (t : gmap string (Row A)).

(** The record this binary reads under [k]. *)
Definition rd (t : gmap string (Row A)) (k : string) : option A := t !! k ≫= readable.

(** No row of the table is corrupt: each decodes, or is a newer daemon's. *)
Definition intact (t : gmap string (Row A)) : Prop := forall k row, t !! k = Some row -> is_ok (decode_row row) = true.

Lemma rd_Some t k a : rd t k = Some a <-> t !! k = Some (Json a) /\ (schema_version a <= SCHEMA_VERSION)%Z.
Proof.
  unfold rd. rewrite bind_Some. setoid_rewrite readable_Some. setoid_rewrite decode_Some. naive_solver.
Qed.

Lemma load_rd t k o : load_row t k = Ok o -> rd t k = o.
Proof. unfold load_row, rd. destruct (t !! k); cbn; [|naive_solver]. unfold readable. by intros ->. Qed.

Lemma load_intact t k : intact t -> load_row t k = Ok (rd t k).
Proof.
  intros Hi. destruct (load_row t k) as [o|e] eqn:E; [by rewrite (load_rd _ _ _ E)|]. exfalso.
  unfold load_row in E. destruct (t !! k) as [row|] eqn:Ek; [|done]. specialize (Hi _ _ Ek). by rewrite E in Hi.
Qed.

Lemma rd_insert t k k' a :
  (schema_version a <= SCHEMA_VERSION)%Z -> rd (<[k := Json a]> t) k' = if decide (k = k') then Some a else rd t k'.
Proof.
  intros Ha. unfold rd. destruct (decide (k = k')) as [->|Hne].
  - rewrite lookup_insert_eq. cbn. unfold readable. cbn.
    destruct (Z.ltb_spec SCHEMA_VERSION (schema_version a)); [lia|done].
  - by rewrite lookup_insert_ne.
Qed.

Lemma rd_insert_eq t k a : (schema_version a <= SCHEMA_VERSION)%Z -> rd (<[k := Json a]> t) k = Some a.
Proof. intros. rewrite rd_insert by done. by rewrite decide_True. Qed.

Lemma rd_insert_ne t k k' a : k <> k' -> rd (<[k := Json a]> t) k' = rd t k'.
Proof. intros. unfold rd. by rewrite lookup_insert_ne. Qed.

Lemma rd_insert_Some t k k' a b :
  (schema_version a <= SCHEMA_VERSION)%Z ->
  rd (<[k := Json a]> t) k' = Some b <-> (k = k' /\ a = b) \/ (k <> k' /\ rd t k' = Some b).
Proof. intros. rewrite rd_insert by done. destruct (decide (k = k')); naive_solver. Qed.

Lemma intact_insert t k a : (schema_version a <= SCHEMA_VERSION)%Z -> intact t -> intact (<[k := Json a]> t).
Proof.
  intros Ha Hi k' row [[<- <-]|[_ Hr]]%lookup_insert_Some; [|eauto]. cbn.
  destruct (Z.ltb_spec SCHEMA_VERSION (schema_version a)); [lia|done].
Qed.

Lemma decode_all_ok (l : list (string * Row A)) rows :
  decode_all l = Ok rows -> rows = (fun '(k, row) => (k, readable row)) <$> l.
Proof.
  revert rows. induction l as [|[k row] l IH]; intros rows; cbn; [by intros [= <-]|].
  rewrite bind_Ok. setoid_rewrite bind_Ok. intros (r & Hr & rest & Hrest & [= <-]).
  rewrite <- (IH _ Hrest). unfold readable. by rewrite Hr.
Qed.

Lemma decode_all_intact (l : list (string * Row A)) :
  Forall (fun '(_, row) => is_ok (decode_row row) = true) l ->
  decode_all l = Ok ((fun '(k, row) => (k, readable row)) <$> l).
Proof.
  induction 1 as [|[k row] l Hrow _ IH]; [done|]. cbn. rewrite IH. unfold readable.
  by destruct (decode_row row).
Qed.

(** [scan] gives exactly the readable rows, each key once, in key order. *)
Lemma elem_of_scan t rows k a : scan t = Ok rows -> (k, a) ∈ rows <-> rd t k = Some a.
Proof.
  unfold scan. destruct (decode_all _) as [l|] eqn:E; cbn; [|done]. intros [= <-]. apply decode_all_ok in E as ->.
  rewrite list_elem_of_omap. unfold rd. split.
  - intros ([k' r] & Hin & Hr). apply list_elem_of_fmap in Hin as ([k'' row] & [= -> ->] & Hin).
    apply elem_of_table_iter in Hin. destruct (readable row) eqn:Er; [|done]. cbn in Hr. simplify_eq. by rewrite Hin.
  - intros (row & Hrow & Hr)%bind_Some. exists (k, Some a). split; [|done]. apply list_elem_of_fmap.
    exists (k, row). split; [by rewrite Hr|]. by apply elem_of_table_iter.
Qed.

Lemma NoDup_scan t rows : scan t = Ok rows -> NoDup rows.*1.
Proof.
  unfold scan. destruct (decode_all _) as [l|] eqn:E; cbn; [|done]. intros [= <-]. apply decode_all_ok in E as ->.
  pose proof (NoDup_table_iter t) as Hn. induction (table_iter t) as [|[k row] l IH]; [constructor|].
  cbn in *. inversion Hn as [|? ? Hk Hl]; subst. destruct (readable row) as [a|]; cbn; [|eauto].
  constructor; [|eauto]. intros Hin. apply Hk. clear -Hin. induction l as [|[k' row'] l IH]; cbn in *; [done|].
  destruct (readable row'); cbn in *; set_solver.
Qed.

Lemma scan_intact t : intact t -> exists rows, scan t = Ok rows.
Proof.
  intros Hi. unfold scan. rewrite decode_all_intact; [eexists; reflexivity|].
  apply Forall_forall. intros [k row] Hin. apply elem_of_table_iter in Hin. eauto.
Qed.
End reads.

(** ** Folds that can fail *)

Lemma ok_or_Ok {A} msg (o : option A) a : ok_or msg o = Ok a <-> o = Some a.
Proof. destruct o; cbn; naive_solver. Qed.

(** A property of the state that every step keeps holds at the end. *)
Lemma try_fold_inv {S A} (f : S -> A -> result report S) (P : S -> Prop) l s s' :
  (forall s a s', a ∈ l -> P s -> f s a = Ok s' -> P s') -> P s -> try_fold f s l = Ok s' -> P s'.
Proof.
  revert s. induction l as [|a l IH]; intros s Hstep Hs; cbn; [by intros [= <-]|].
  rewrite bind_Ok. intros (s1 & H1 & H2). eapply IH; [|eapply Hstep; [by left|exact Hs|exact H1]|exact H2].
  intros. eapply Hstep; [by right|..]; eauto.
Qed.

(** As above, with the elements still to come: enough to run every step. *)
Lemma try_fold_total {S A} (f : S -> A -> result report S) (P : list A -> S -> Prop) l s :
  (forall s a l', P (a :: l') s -> exists s', f s a = Ok s' /\ P l' s') -> P l s ->
  exists s', try_fold f s l = Ok s' /\ P [] s'.
Proof.
  intros Hstep. revert s. induction l as [|a l IH]; intros s Hs; cbn; [eauto|].
  destruct (Hstep _ _ _ Hs) as (s1 & -> & H1). by apply IH.
Qed.

(** ** Appending to the outbox *)

(** Every key of the outbox is a sequence number. *)
Definition outbox_keys (outbox : gmap string (Row OutboxEvent)) : Prop :=
  forall k, is_Some (outbox !! k) -> exists n, k = outbox_key n /\ (1 <= n <= u64_max)%Z.

(** The new event gets a number above every number in use. *)
Lemma append_outbox_spec outbox event n outbox' :
  outbox_keys outbox -> append_outbox outbox event = Ok (n, outbox') ->
  (1 <= n <= u64_max)%Z /\ outbox' = <[outbox_key n := Json (ob_set_sequence n event)]> outbox /\
  (forall m, (1 <= m <= u64_max)%Z -> is_Some (outbox !! outbox_key m) -> (m < n)%Z).
Proof.
  intros Hk. unfold append_outbox. rewrite bind_Ok. intros (next & Hn & [= <- <-]).
  destruct (table_last outbox) as [[k row]|] eqn:El.
  - apply bind_Ok in Hn as (l & Hl%ok_or_Ok & Hn%ok_or_Ok). apply table_last_max in El as [Hrow Hmax].
    destruct (Hk k) as (n & -> & Hn'); [eauto|]. unfold outbox_key in Hl. rewrite parse_zero_padded in Hl by lia.
    simplify_eq. apply u64_checked_add_Some in Hn as [-> ?]. split_and!; [lia|lia|done|].
    intros m Hm Hin. specialize (Hmax _ Hin). apply zero_padded_le in Hmax; lia.
  - apply table_last_None in El as ->. simplify_eq. split_and!; [lia|done|done|]. intros m _ [? H]. by rewrite lookup_empty in H.
Qed.

Lemma outbox_keys_insert outbox n row :
  outbox_keys outbox -> (1 <= n <= u64_max)%Z -> outbox_keys (<[outbox_key n := row]> outbox).
Proof.
  intros Hk Hn k [r [[<- _]|[_ Hr]]%lookup_insert_Some]; [eauto|]. apply Hk. eauto.
Qed.

(** Replacing a row keeps the keys. *)
Lemma outbox_keys_update outbox k row :
  outbox_keys outbox -> is_Some (outbox !! k) -> outbox_keys (<[k := row]> outbox).
Proof. intros Hk Hin k' [r [[<- _]|[_ Hr]]%lookup_insert_Some]; apply Hk; eauto. Qed.
