(* ===== verification/FleetInv.v ===== *)
(** * The invariant of the fleet kernel

    What holds of the fleet, child and attempt tables after any sequence of store calls:
    every row owns its key, a live attempt is the current one of a child in flight and of
    its fleet's generation, a child in flight has a live attempt, the reservation of a fleet
    is the total of its live attempts, and a child is only runnable when its dependencies
    have succeeded.  The file states the invariant and the two ways a call changes it: an
    idle child's row, or one attempt with its child and its fleet. *)
From S2P Require Import Prelude RustStr RustNum Grant FleetRecords FleetStore FleetFacts.
Open Scope octos_scope.

Definition in_flight (s : ChildStatus) : bool := match s with Launching | Running => true | _ => false end.

(** Runnable, running or waiting for an operator: the dependencies were met. *)
Definition started (s : ChildStatus) : bool :=
  match s with Ready | Launching | Running | Blocked => true | _ => false end.

(** The child status a live attempt goes with. *)
Definition flight_status (a : Attempt) : ChildStatus :=
  match at_status a with AttRunning => Running | _ => Launching end.

(** The fields of a child that its status determines. *)
Definition child_local (c : FleetChildRecord) : Prop :=
  match ch_status c with
  | Planned | Ready =>
      ch_current_attempt_id c = None /\ ch_outcome c = None /\ ch_pending_escalation c = None
  | Launching | Running =>
      is_Some (ch_current_attempt_id c) /\ ch_outcome c = None /\ ch_pending_escalation c = None
  | Blocked =>
      ch_current_attempt_id c = None /\ ch_outcome c = None /\ is_Some (ch_pending_escalation c)
      /\ ch_schema_version c = SCHEMA_VERSION
  | Succeeded => (exists e, ch_outcome c = Some (Accepted e)) /\ ch_pending_escalation c = None
  | Failed => (exists v, ch_outcome c = Some v /\ is_accepted v = false) /\ ch_pending_escalation c = None
  | Cancelled => ch_current_attempt_id c = None /\ ch_pending_escalation c = None
  end.

(** What an attempt row holds of the budget of fleet [f]. *)
Definition weight_of (f : string) (a : Attempt) : Z :=
  if eqb (at_fleet_id a) f && att_is_live a then at_reserved_tokens a else 0%Z.

Definition weight (f : string) (row : Row Attempt) : Z := from_option (weight_of f) 0%Z (readable row).

Definition deps_done (C : gmap string (Row FleetChildRecord)) (f : string) (deps : list string) : Prop :=
  forall d, d ∈ deps -> exists cd, rd C (child_key f d) = Some cd /\ ch_status cd = Succeeded.

Record kinv (F : gmap string (Row FleetRecord)) (C : gmap string (Row FleetChildRecord))
    (A : gmap string (Row Attempt)) : Prop := {
  k_F_ok : intact F;
  k_C_ok : intact C;
  k_A_ok : intact A;
  k_fleet : forall k f, rd F k = Some f -> fl_fleet_id f = k;
  k_child : forall k c, rd C k = Some c ->
    k = child_key (ch_fleet_id c) (ch_child_id c) /\ no_nul (ch_fleet_id c) /\ no_nul (ch_child_id c)
    /\ is_Some (F !! ch_fleet_id c) /\ child_local c;
  k_attempt : forall k a, rd A k = Some a ->
    k = attempt_key (at_child_id a) (at_attempt_id a) /\ no_nul (at_child_id a) /\ (0 <= at_reserved_tokens a)%Z;
  k_live : forall k a, rd A k = Some a -> att_is_live a = true ->
    no_nul (at_fleet_id a) /\ exists c,
      rd C (child_key (at_fleet_id a) (at_child_id a)) = Some c
      /\ ch_current_attempt_id c = Some (at_attempt_id a) /\ ch_status c = flight_status a
      /\ forall f, rd F (at_fleet_id a) = Some f -> at_generation a = fl_generation f;
  k_inflight : forall k c aid, rd C k = Some c -> in_flight (ch_status c) = true ->
    ch_current_attempt_id c = Some aid ->
    exists a, rd A (attempt_key (ch_child_id c) aid) = Some a /\ att_is_live a = true
              /\ at_fleet_id a = ch_fleet_id c;
  k_budget : forall k f, rd F k = Some f -> bg_tokens_reserved (fl_budget f) = map_sum (weight k) A;
  k_ready : forall k c, rd C k = Some c -> started (ch_status c) = true -> deps_done C (ch_fleet_id c) (ch_deps c);
}.

(** ** Facts about one row *)

Lemma flight_in_flight a : in_flight (flight_status a) = true.
Proof. unfold flight_status. by destruct (at_status a). Qed.

Lemma in_flight_started s : in_flight s = true -> started s = true.
Proof. by destruct s. Qed.

Lemma in_flight_current c : child_local c -> in_flight (ch_status c) = true -> is_Some (ch_current_attempt_id c).
Proof. unfold child_local. destruct (ch_status c); cbn; naive_solver. Qed.

Lemma weight_json f a : (schema_version a <= SCHEMA_VERSION)%Z -> weight f (Json a) = weight_of f a.
Proof.
  intros H. unfold weight. assert (readable (Json a) = Some a) as ->; [|done].
  by apply readable_Some, decode_Some.
Qed.

Lemma weight_rd f A k : from_option (weight f) 0%Z (A !! k) = from_option (weight_of f) 0%Z (rd A k).
Proof. unfold rd. by destruct (A !! k). Qed.

Lemma weight_of_nonneg f a : (0 <= at_reserved_tokens a)%Z -> (0 <= weight_of f a)%Z.
Proof. unfold weight_of. destruct (_ && _); lia. Qed.

Lemma weight_of_idle f a : att_is_live a = false -> weight_of f a = 0%Z.
Proof. intros H. unfold weight_of. by rewrite H, andb_false_r. Qed.

Lemma weight_of_live a : att_is_live a = true -> weight_of (at_fleet_id a) a = at_reserved_tokens a.
Proof. intros H. unfold weight_of, eqb. by rewrite bool_decide_true, H. Qed.

Lemma weight_of_own f a : at_fleet_id a = f -> att_is_live a = true -> weight_of f a = at_reserved_tokens a.
Proof. intros <-. apply weight_of_live. Qed.

Lemma weight_of_other f a : at_fleet_id a <> f -> weight_of f a = 0%Z.
Proof. intros H. unfold weight_of, eqb. by rewrite bool_decide_false. Qed.

Lemma interrupt_idle now a : att_is_live (at_interrupt now a) = false.
Proof. done. Qed.

Lemma deps_done_mono C k c' f deps :
  (schema_version c' <= SCHEMA_VERSION)%Z ->
  (forall c, rd C k = Some c -> ch_status c = Succeeded -> ch_status c' = Succeeded) ->
  deps_done C f deps -> deps_done (<[k := Json c']> C) f deps.
Proof.
  intros Hv Hs Hd d Hin. destruct (Hd d Hin) as (cd & Hcd & Hsucc).
  rewrite rd_insert by done. destruct (decide (k = child_key f d)) as [->|]; eauto.
Qed.

Section invariant.
Context {F : gmap string (Row FleetRecord)} {C : gmap string (Row FleetChildRecord)} {A : gmap string (Row Attempt)}.
Context (I : kinv F C A).

(** A row read under the key of [(f, cid)] with the ids [(f, cid)] checked. *)
Lemma child_row f cid c :
  rd C (child_key f cid) = Some c -> owns_child f cid c = true ->
  ch_fleet_id c = f /\ ch_child_id c = cid /\ no_nul f /\ no_nul cid /\ is_Some (F !! f) /\ child_local c.
Proof.
  intros H Ho. unfold owns_child, eqb in Ho. apply andb_true_iff in Ho as [Hf Hc].
  apply bool_decide_eq_true in Hf, Hc. destruct (k_child _ _ _ I _ _ H) as (_ & ? & ? & ? & ?). by subst.
Qed.

Lemma live_in_flight k a c :
  rd A k = Some a -> att_is_live a = true -> rd C (child_key (at_fleet_id a) (at_child_id a)) = Some c ->
  ch_current_attempt_id c = Some (at_attempt_id a) /\ ch_status c = flight_status a.
Proof. intros H Hl Hc. destruct (k_live _ _ _ I _ _ H Hl) as (_ & c0 & Hc0 & ? & ? & _). by simplify_eq. Qed.

(** At most one attempt of a child is live. *)
Lemma one_live k k' a a' :
  rd A k = Some a -> rd A k' = Some a' -> att_is_live a = true -> att_is_live a' = true ->
  at_fleet_id a = at_fleet_id a' -> at_child_id a = at_child_id a' -> k = k'.
Proof.
  intros H H' Hl Hl' Hf Hc. destruct (k_live _ _ _ I _ _ H Hl) as (_ & c & Hcr & Hcur & _).
  rewrite Hf, Hc in Hcr. destruct (live_in_flight _ _ _ H' Hl' Hcr) as [Hcur' _].
  destruct (k_attempt _ _ _ I _ _ H) as [-> _]. destruct (k_attempt _ _ _ I _ _ H') as [-> _]. congruence.
Qed.

Lemma weights_nonneg f k row : A !! k = Some row -> (0 <= weight f row)%Z.
Proof.
  intros H. unfold weight. destruct (readable row) as [a|] eqn:E; cbn; [|lia]. apply weight_of_nonneg.
  assert (rd A k = Some a) as Ha by (unfold rd; by rewrite H). by destruct (k_attempt _ _ _ I _ _ Ha) as (_ & _ & ?).
Qed.

(** The reservation of a fleet covers each of its live attempts: no release underflows. *)
Lemma reservation_covers k a f :
  rd A k = Some a -> att_is_live a = true -> rd F (at_fleet_id a) = Some f ->
  (at_reserved_tokens a <= bg_tokens_reserved (fl_budget f))%Z.
Proof.
  intros Ha Hl Hf. rewrite (k_budget _ _ _ I _ _ Hf). pose proof Ha as [Hk Hv]%rd_Some.
  pose proof (map_sum_le (weight (at_fleet_id a)) A k (Json a) (weights_nonneg _) Hk) as Hle.
  by rewrite weight_json, weight_of_live in Hle.
Qed.

Lemma reserved_nonneg k f : rd F k = Some f -> (0 <= bg_tokens_reserved (fl_budget f))%Z.
Proof. intros H. rewrite (k_budget _ _ _ I _ _ H). apply map_sum_nonneg, weights_nonneg. Qed.

(** ** An idle child's row is written *)
Lemma kinv_child_idle f cid c' :
  no_nul f -> no_nul cid -> is_Some (F !! f) ->
  ch_fleet_id c' = f -> ch_child_id c' = cid -> (ch_schema_version c' <= SCHEMA_VERSION)%Z -> child_local c' ->
  in_flight (ch_status c') = false ->
  (forall c, rd C (child_key f cid) = Some c ->
    in_flight (ch_status c) = false /\ (ch_status c = Succeeded -> ch_status c' = Succeeded)) ->
  (started (ch_status c') = true -> deps_done C f (ch_deps c')) ->
  kinv F (<[child_key f cid := Json c']> C) A.
Proof.
  intros Hf Hc HF Ef Ec Hv Hloc Hidle Hold Hdeps.
  constructor; try apply I.
  - by apply intact_insert, I.
  - intros k c [[<- <-]|[_ Hr]]%rd_insert_Some; [|by apply I|done]. rewrite Ef, Ec. done.
  - intros k a Ha Hl. destruct (k_live _ _ _ I _ _ Ha Hl) as (Hn & c & Hcr & Hcur & Hst & Hgen).
    split; [done|]. exists c. split_and!; [|done..]. rewrite rd_insert_ne; [done|]. intros E. rewrite <- E in Hcr.
    destruct (Hold _ Hcr) as [Hno _]. rewrite Hst, flight_in_flight in Hno. done.
  - intros k c aid [[<- <-]|[_ Hr]]%rd_insert_Some Hfl; [congruence| |done]. by apply (k_inflight _ _ _ I k).
  - intros k c [[<- <-]|[_ Hr]]%rd_insert_Some Hs; [..|done].
    + rewrite Ef. apply deps_done_mono; [done|apply Hold|auto].
    + apply deps_done_mono; [done|apply Hold|]. by apply (k_ready _ _ _ I k).
Qed.

(** ** One attempt changes, with its child and its fleet *)

Record transition (f cid aid : string) (c c' : FleetChildRecord) (a' : Attempt) (fl fl' : FleetRecord) : Prop := {
  t_child : rd C (child_key f cid) = Some c;
  t_fleet : rd F f = Some fl;
  t_nul : no_nul f /\ no_nul cid;
  t_current : ch_current_attempt_id c = None \/ ch_current_attempt_id c = Some aid;
  t_unsettled : ch_status c <> Succeeded;
  t_old : A !! attempt_key cid aid = None \/ exists a, rd A (attempt_key cid aid) = Some a /\ at_fleet_id a = f;
  t_child_ids : ch_fleet_id c' = f /\ ch_child_id c' = cid /\ (ch_schema_version c' <= SCHEMA_VERSION)%Z;
  t_child_local : child_local c';
  t_child_deps : ch_deps c' = ch_deps c /\ (started (ch_status c') = true -> started (ch_status c) = true);
  t_att_ids : at_fleet_id a' = f /\ at_child_id a' = cid /\ at_attempt_id a' = aid
    /\ (at_schema_version a' <= SCHEMA_VERSION)%Z /\ (0 <= at_reserved_tokens a')%Z;
  t_live : att_is_live a' = true -> ch_current_attempt_id c' = Some aid /\ ch_status c' = flight_status a'
    /\ at_generation a' = fl_generation fl';
  t_inflight : in_flight (ch_status c') = true -> att_is_live a' = true;
  t_fleet_ids : fl_fleet_id fl' = f /\ fl_generation fl' = fl_generation fl /\ (fl_schema_version fl' <= SCHEMA_VERSION)%Z;
  t_budget : bg_tokens_reserved (fl_budget fl')
    = (bg_tokens_reserved (fl_budget fl) + weight_of f a' - from_option (weight_of f) 0 (rd A (attempt_key cid aid)))%Z;
}.

Lemma transition_budget f cid aid c c' a' fl fl' k f0 :
  transition f cid aid c c' a' fl fl' -> rd (<[f := Json fl']> F) k = Some f0 ->
  bg_tokens_reserved (fl_budget f0) = map_sum (weight k) (<[attempt_key cid aid := Json a']> A).
Proof.
  intros T. destruct (t_att_ids _ _ _ _ _ _ _ _ T) as (Eaf & _ & _ & Hav & _).
  rewrite map_sum_insert, weight_json, weight_rd by done.
  intros [[<- <-]|[Hne Hr]]%rd_insert_Some; [..|apply T].
  - rewrite (t_budget _ _ _ _ _ _ _ _ T), (k_budget _ _ _ I _ _ (t_fleet _ _ _ _ _ _ _ _ T)). lia.
  - rewrite (k_budget _ _ _ I _ _ Hr), weight_of_other by congruence.
    destruct (t_old _ _ _ _ _ _ _ _ T) as [Hnone|(a & Ha & Haf)].
    + unfold rd. rewrite Hnone. cbn. lia.
    + rewrite Ha. cbn. rewrite weight_of_other by congruence. lia.
Qed.

(** The live attempts after the change: the changed one, or another child's. *)
Lemma transition_live f cid aid c c' a' fl fl' k a :
  transition f cid aid c c' a' fl fl' ->
  rd (<[attempt_key cid aid := Json a']> A) k = Some a -> att_is_live a = true ->
  (k = attempt_key cid aid /\ a = a') \/
  (rd A k = Some a /\ child_key (at_fleet_id a) (at_child_id a) <> child_key f cid).
Proof.
  intros T. destruct (t_att_ids _ _ _ _ _ _ _ _ T) as (_ & _ & _ & Hav & _).
  intros [[<- <-]|[Hne Hr]]%rd_insert_Some Hl; [by left| |done]. right. split; [done|]. intros E.
  destruct (k_live _ _ _ I _ _ Hr Hl) as (Hn & cb & Hcb & Hcur & _). rewrite E in Hcb.
  rewrite (t_child _ _ _ _ _ _ _ _ T) in Hcb. simplify_eq.
  destruct (t_nul _ _ _ _ _ _ _ _ T) as [Hnf Hnc]. apply child_key_inj in E as [_ Ecid]; [|done..].
  destruct (k_attempt _ _ _ I _ _ Hr) as [Ek _]. apply Hne. rewrite Ek, Ecid. f_equal.
  destruct (t_current _ _ _ _ _ _ _ _ T) as [Hc|Hc]; congruence.
Qed.

(** The attempt of another child in flight is not the changed one. *)
Lemma transition_other f cid aid c c' a' fl fl' k c2 a2 aid2 :
  transition f cid aid c c' a' fl fl' -> k <> child_key f cid -> rd C k = Some c2 ->
  rd A (attempt_key (ch_child_id c2) aid2) = Some a2 -> at_fleet_id a2 = ch_fleet_id c2 ->
  attempt_key cid aid <> attempt_key (ch_child_id c2) aid2.
Proof.
  intros T Hk Hc2 Ha2 Hf2 E. destruct (t_nul _ _ _ _ _ _ _ _ T) as [Hnf Hnc].
  destruct (k_child _ _ _ I _ _ Hc2) as (Ek2 & _ & Hnc2 & _ & _). rewrite <- E in Ha2.
  apply attempt_key_inj in E as [Ecid _]; [|done..]. destruct (t_old _ _ _ _ _ _ _ _ T) as [Hnone|(a & Ha & Haf)].
  - unfold rd in Ha2. by rewrite Hnone in Ha2.
  - rewrite Ha in Ha2. injection Ha2 as ->. apply Hk. by rewrite Ek2, <- Hf2, Haf, <- Ecid.
Qed.

Lemma kinv_transition f cid aid c c' a' fl fl' :
  transition f cid aid c c' a' fl fl' ->
  kinv (<[f := Json fl']> F) (<[child_key f cid := Json c']> C) (<[attempt_key cid aid := Json a']> A).
Proof.
  intros T. destruct (t_child_ids _ _ _ _ _ _ _ _ T) as (Ecf & Ecc & Hcv).
  destruct (t_att_ids _ _ _ _ _ _ _ _ T) as (Eaf & Eac & Eaa & Hav & Har).
  destruct (t_fleet_ids _ _ _ _ _ _ _ _ T) as (Eff & Egen & Hfv). destruct (t_nul _ _ _ _ _ _ _ _ T) as [Hnf Hnc].
  pose proof (t_child _ _ _ _ _ _ _ _ T) as Hc. destruct (t_child_deps _ _ _ _ _ _ _ _ T) as [Edeps Hst].
  assert (forall c0, rd C (child_key f cid) = Some c0 -> ch_status c0 = Succeeded -> ch_status c' = Succeeded) as Hsucc.
  { intros c0 Hc0. rewrite Hc in Hc0. simplify_eq. intros Hs. by destruct (t_unsettled _ _ _ _ _ _ _ _ T). }
  assert (forall k x, rd (<[f := Json fl']> F) k = Some x -> exists y, rd F k = Some y /\ fl_generation x = fl_generation y)
    as Hgens.
  { intros k x [[<- <-]|[_ Hr]]%rd_insert_Some; [|by eauto|done]. exists fl. split; [apply T|done]. }
  constructor.
  - by apply intact_insert, I.
  - by apply intact_insert, I.
  - by apply intact_insert, I.
  - intros k x [[<- <-]|[_ Hr]]%rd_insert_Some; [done|by apply I|done].
  - intros k x [[<- <-]|[_ Hr]]%rd_insert_Some; [..|done].
    + rewrite Ecf, Ecc. split_and!; try done; [|apply T]. rewrite lookup_insert_is_Some'. by left.
    + destruct (k_child _ _ _ I _ _ Hr) as (? & ? & ? & ? & ?). split_and!; try done.
      rewrite lookup_insert_is_Some'. by right.
  - intros k x [[<- <-]|[_ Hr]]%rd_insert_Some; [|by apply I|done]. by rewrite Eac, Eaa.
  - intros k x Hx Hl. destruct (transition_live _ _ _ _ _ _ _ _ _ _ T Hx Hl) as [[-> ->]|[Hr Hne]].
    + destruct (t_live _ _ _ _ _ _ _ _ T Hl) as (Hcur & Hs & Hg). rewrite Eaf, Eac, Eaa. split; [done|].
      exists c'. split_and!; [by rewrite rd_insert_eq|done|done|]. intros y. rewrite rd_insert_eq by done. congruence.
    + destruct (k_live _ _ _ I _ _ Hr Hl) as (Hn & cb & Hcb & Hcur & Hs & Hg). split; [done|]. exists cb.
      split_and!; [by rewrite rd_insert_ne by done|done|done|]. intros y Hy.
      destruct (Hgens _ _ Hy) as (z & Hz & ->). by apply Hg.
  - intros k x aid2 Hx Hfl Hcur. apply rd_insert_Some in Hx as [[<- <-]|[Hne Hr]]; [..|done].
    + pose proof (t_inflight _ _ _ _ _ _ _ _ T Hfl) as Hl. destruct (t_live _ _ _ _ _ _ _ _ T Hl) as (Hcur' & _).
      exists a'. rewrite Ecc, Ecf. assert (aid2 = aid) as -> by congruence. by rewrite rd_insert_eq.
    + destruct (k_inflight _ _ _ I _ _ _ Hr Hfl Hcur) as (a2 & Ha2 & Hl2 & Hf2). exists a2.
      split_and!; [|done..]. rewrite rd_insert_ne; [done|]. by eapply transition_other.
  - intros k x. by eapply transition_budget.
  - intros k x [[<- <-]|[_ Hr]]%rd_insert_Some Hs; [..|done].
    + rewrite Ecf, Edeps. apply deps_done_mono; [done|done|].
      destruct (k_child _ _ _ I _ _ Hc) as (E & Hn & _). apply child_key_inj in E as [-> _]; [|done..].
      apply (k_ready _ _ _ I _ _ Hc). auto.
    + apply deps_done_mono; [done|done|]. by apply (k_ready _ _ _ I k).
Qed.
End invariant.

(** ** A fleet's row is written *)

(** A status change, or a new fleet of no attempts. *)
Lemma kinv_fleet F C A f fl' :
  kinv F C A -> fl_fleet_id fl' = f -> (fl_schema_version fl' <= SCHEMA_VERSION)%Z ->
  (forall fl, rd F f = Some fl -> fl_generation fl' = fl_generation fl /\
    bg_tokens_reserved (fl_budget fl') = bg_tokens_reserved (fl_budget fl)) ->
  (rd F f = None -> F !! f = None /\ bg_tokens_reserved (fl_budget fl') = 0%Z) ->
  kinv (<[f := Json fl']> F) C A.
Proof.
  intros I Ef Hv Hold Hnew.
  assert (Hno : rd F f = None -> forall k a, rd A k = Some a -> att_is_live a = true -> at_fleet_id a <> f).
  { intros Hn k a Ha Hl Eaf. destruct (k_live _ _ _ I _ _ Ha Hl) as (Hnf & c & Hc & _).
    destruct (k_child _ _ _ I _ _ Hc) as (E & Hnf' & _ & [r Hr] & _). apply child_key_inj in E as [E _]; [|done..].
    destruct (Hnew Hn) as [Hnone _]. congruence. }
  constructor; try apply I.
  - by apply intact_insert, I.
  - intros k x [[<- <-]|[_ Hr]]%rd_insert_Some; [done|by apply I|done].
  - intros k c Hc. destruct (k_child _ _ _ I _ _ Hc) as (? & ? & ? & ? & ?). split_and!; try done.
    rewrite lookup_insert_is_Some'. by right.
  - intros k a Ha Hl. destruct (k_live _ _ _ I _ _ Ha Hl) as (Hn & c & Hc & Hcur & Hs & Hg). split; [done|].
    exists c. split_and!; [done..|]. intros x [[E <-]|[_ Hr]]%rd_insert_Some; [|by auto|done].
    destruct (rd F f) as [fl|] eqn:Er; [|by destruct (Hno eq_refl _ _ Ha Hl)].
    destruct (Hold _ eq_refl) as [-> _]. apply Hg. by rewrite <- E.
  - intros k x [[<- <-]|[_ Hr]]%rd_insert_Some; [|by apply I|done]. destruct (rd F f) as [fl|] eqn:Er.
    + destruct (Hold _ eq_refl) as [_ ->]. by apply I.
    + destruct (Hnew eq_refl) as [_ ->]. symmetry. apply map_sum_zero. intros k row Hk. unfold weight.
      destruct (readable row) as [a|] eqn:Ea; [|done]. cbn.
      assert (rd A k = Some a) as Ha by (unfold rd; by rewrite Hk). destruct (att_is_live a) eqn:El.
      * apply weight_of_other. eauto.
      * by apply weight_of_idle.
Qed.

Lemma kinv_empty : kinv ∅ ∅ ∅.
Proof.
  constructor; try (intros k x; unfold rd; rewrite lookup_empty; done).
Qed.
