(* ===== verification/FleetOps.v ===== *)
(** * Every store call keeps the kernel invariant

    One lemma per method of [FleetKernelStore] that writes, stating what a successful call
    did, and that the invariant of [FleetInv] survives it. *)
From S2P Require Import Prelude RustStr RustNum Grant FleetRecords FleetStore FleetFacts FleetInv.
Open Scope octos_scope.

Record db_inv (db : Db) : Prop := {
  i_kernel : kinv (db_fleets db) (db_children db) (db_attempts db);
  i_plans_ok : intact (db_plans db);
  i_plan : forall k p, rd (db_plans db) k = Some p -> dp_fleet_id p = k /\ is_Some (db_fleets db !! k);
  i_outbox_ok : intact (db_outbox db);
  i_outbox : outbox_keys (db_outbox db);
}.

(** Follow a successful call down its branches. *)
Ltac follow H :=
  repeat match type of H with
  | (_ ≫= _) = Ok _ =>
      let x := fresh "x" in let Hx := fresh "Hx" in
      apply bind_Ok in H as (x & Hx & H); cbn beta in H
  | (let '(_, _) := ?x in _) = Ok _ => first [is_var x; destruct x | let E := fresh "E" in destruct x eqn:E]
  | (if ?b then _ else _) = Ok _ => let E := fresh "E" in destruct b eqn:E
  | (match ?x with _ => _ end) = Ok _ => let E := fresh "E" in destruct x eqn:E
  | Ok _ = Ok _ => injection H as H
  | bail _ = Ok _ => discriminate H
  | Err _ = Ok _ => discriminate H
  end;
  repeat match goal with
  | Hx : load_row _ _ = Ok _ |- _ => apply load_rd in Hx
  | Hx : ok_or _ _ = Ok _ |- _ => apply ok_or_Ok in Hx
  | Hx : ?x = Some _ |- _ => is_var x; subst x
  | Hx : decode_row _ = Ok (Some _) |- _ => let Hv := fresh "Hv" in apply decode_Some in Hx as [-> Hv]
  | Hx : ensure_key_safe _ = Ok _ |- _ => apply ensure_key_safe_nul in Hx
  | Hx : Forall no_nul (_ :: _) |- _ => apply Forall_cons in Hx as [? ?]
  end;
  bool_to_prop.

Lemma eqb_true a b : eqb a b = true <-> a = b.
Proof. apply bool_decide_eq_true. Qed.

(** The tables an [Ok] append leaves are a legal outbox. *)
Lemma append_keeps db event n outbox :
  db_inv db -> append_outbox (db_outbox db) event = Ok (n, outbox) -> intact outbox /\ outbox_keys outbox.
Proof.
  intros I H. apply append_outbox_spec in H as (Hn & -> & _); [|apply I].
  split; [apply intact_insert; [done|apply I]|apply outbox_keys_insert; [apply I|done]].
Qed.

(** ** Creation *)

Lemma inv_open : db_inv open.
Proof.
  constructor; cbn; try apply kinv_empty; try (intros ?? H; by rewrite lookup_empty in H).
  - intros k p. unfold rd. by rewrite lookup_empty.
  - intros k [? H]. by rewrite lookup_empty in H.
Qed.

(** A call that leaves the plans as they are. *)
Lemma db_inv_update db db' :
  db_inv db -> db_plans db' = db_plans db ->
  kinv (db_fleets db') (db_children db') (db_attempts db') ->
  (forall k, is_Some (db_fleets db !! k) -> is_Some (db_fleets db' !! k)) ->
  intact (db_outbox db') -> outbox_keys (db_outbox db') -> db_inv db'.
Proof.
  intros [_ Hp Hi _ _] E K HF HO HOk. constructor; rewrite ?E; try done. intros k p H. destruct (Hi _ _ H). auto.
Qed.

Lemma insert_is_Some {A} (t : gmap string A) k a k' : is_Some (t !! k') -> is_Some (<[k := a]> t !! k').
Proof. rewrite lookup_insert_is_Some'. auto. Qed.

Lemma create_fleet_inv id key root prof budget hard now db u db' :
  db_inv db -> create_fleet id key root prof budget hard now db = Ok (u, db') -> db_inv db'.
Proof.
  intros I H. unfold create_fleet in H. follow H. subst. constructor; try apply I; cbn.
  - apply kinv_fleet; [apply I|done|done| |done].
    intros fl [Hr _]%rd_Some. congruence.
  - intros k p Hp. destruct (i_plan _ I _ _ Hp) as [-> ?]. split; [done|]. rewrite lookup_insert_is_Some'. by right.
Qed.

Lemma create_plan_inv plan db o db' :
  db_inv db -> create_plan plan db = Ok (o, db') -> db_inv db'.
Proof.
  intros I H. unfold create_plan in H. follow H; subst; [done|]. constructor; try apply I; cbn.
  - apply intact_insert; [done|apply I].
  - intros k p [[<- <-]|[_ Hr]]%rd_insert_Some; [|by apply I|done]. split; [done|eauto].
Qed.

Lemma genesis_cases deps :
  genesis_status deps = Planned \/ (genesis_status deps = Ready /\ deps = []).
Proof. destruct deps; auto. Qed.

(** A fresh child whose dependencies allow its status. *)
Lemma new_child_inv F C A f cid s deps gen now :
  kinv F C A -> no_nul f -> no_nul cid -> is_Some (F !! f) ->
  (s = Planned \/ s = Ready /\ deps_done C f deps) -> rd C (child_key f cid) = None ->
  kinv F (<[child_key f cid := Json (new_child f cid s deps gen now)]> C) A.
Proof.
  intros I Hf Hc HF Hs Hn. apply kinv_child_idle; try done.
  - unfold child_local. cbn. by destruct Hs as [->|[-> _]].
  - cbn. by destruct Hs as [->|[-> _]].
  - intros c. by rewrite Hn.
  - cbn. intros Hst. by destruct Hs as [->|[-> ?]].
Qed.

Lemma genesis_child_inv F C A f cid deps gen now :
  kinv F C A -> no_nul f -> no_nul cid -> is_Some (F !! f) -> C !! child_key f cid = None ->
  kinv F (<[child_key f cid := Json (new_child f cid (genesis_status deps) deps gen now)]> C) A.
Proof.
  intros I Hf Hc HF Hn. apply new_child_inv; try done; [|unfold rd; by rewrite Hn].
  destruct (genesis_cases deps) as [|[? ->]]; [by left|right]. split; [done|]. intros d. set_solver.
Qed.

Lemma add_child_inv f cid deps now db u db' :
  db_inv db -> add_child f cid deps now db = Ok (u, db') -> db_inv db'.
Proof.
  intros I H. unfold add_child in H. follow H. subst. constructor; try apply I; cbn.
  apply genesis_child_inv; try done. apply I.
Qed.

Lemma create_children_inv F A f now tasks C C' :
  Forall (fun t => no_nul (pt_task_id t)) tasks -> no_nul f -> is_Some (F !! f) ->
  kinv F C A -> try_fold (create_child f now) C tasks = Ok C' -> kinv F C' A.
Proof.
  intros Ht Hf HF I. apply (try_fold_inv (create_child f now) (fun C => kinv F C A)); [|done].
  intros C0 t C1 Hin I0 H. unfold create_child in H. follow H. subst. rewrite Forall_forall in Ht.
  apply genesis_child_inv; auto.
Qed.

Lemma create_fleet_with_plan_inv key root hint prof budget hard plan now db u db' :
  db_inv db ->
  create_fleet_with_plan_and_workspace_provenance key root hint prof budget hard plan now db = Ok (u, db') ->
  db_inv db'.
Proof.
  intros I H. unfold create_fleet_with_plan_and_workspace_provenance in H. follow H. subst.
  constructor; try apply I; cbn.
  - eapply create_children_inv; [by eapply ensure_tasks_safe_nul|done| | |done].
    + rewrite lookup_insert_is_Some'. by left.
    + apply kinv_fleet; [apply I|done|done| |done]. intros fl [Hr _]%rd_Some. congruence.
  - apply intact_insert; [done|apply I].
  - intros k p [[<- <-]|[_ Hr]]%rd_insert_Some; [..|done]; rewrite lookup_insert_is_Some'; [by auto|].
    destruct (i_plan _ I _ _ Hr). auto.
Qed.

Lemma cancel_fleet_inv f now db o db' :
  db_inv db -> cancel_fleet f now db = Ok (o, db') -> db_inv db'.
Proof.
  intros I H. unfold cancel_fleet in H. follow H; subst; [done| |done]. apply rd_Some in Hx0 as Hrow.
  destruct Hrow as [_ Hv]. constructor; try apply I; cbn.
  - apply kinv_fleet; [apply I|by apply eqb_true|done| |by rewrite Hx0]. intros fl. rewrite Hx0. by intros [= <-].
  - intros k p Hp. destruct (i_plan _ I _ _ Hp) as [-> ?]. split; [done|]. rewrite lookup_insert_is_Some'. by right.
Qed.

(** ** Readiness *)

Lemma fleet_live_true db f :
  fleet_live db f = Ok true ->
  exists fleet, rd (db_fleets db) f = Some fleet /\ fl_fleet_id fleet = f /\ fleet_is_live fleet = true.
Proof.
  unfold fleet_live. intros H. follow H. destruct x as [fleet|]; [|done]. bool_to_prop.
  exists fleet. split_and!; [done|by apply eqb_true|done].
Qed.

Lemma deps_met_done db f deps : deps_met db f deps = Ok true -> deps_done (db_children db) f deps.
Proof.
  induction deps as [|d deps IH]; cbn; [intros _ d; set_solver|]. intros H. apply bind_Ok in H as (b & Hb & H).
  destruct b; [|done]. unfold dep_ok in Hb. follow Hb. destruct x as [cd|]; [|done]. bool_to_prop.
  intros d' [->|Hin]%elem_of_cons; [|by apply IH]. exists cd. split; [done|by bool_to_prop].
Qed.

(** Promoting a planned child whose dependencies succeeded. *)
Lemma promote_inv F C A f cid c now :
  kinv F C A -> rd C (child_key f cid) = Some c -> owns_child f cid c = true -> ch_status c = Planned ->
  deps_done C f (ch_deps c) -> kinv F (<[child_key f cid := Json (promote now c)]> C) A.
Proof.
  intros I Hc Ho Hs Hd. destruct (child_row I _ _ _ Hc Ho) as (Ef & Ec & Hf & Hcid & HF & Hloc).
  unfold child_local in Hloc. rewrite Hs in Hloc. pose proof Hc as [_ Hv]%rd_Some.
  apply (kinv_child_idle I); try done. intros c0. rewrite Hc. intros [= <-]. by rewrite Hs.
Qed.

Lemma mark_ready_inv f cid now db o db' :
  db_inv db -> mark_ready f cid now db = Ok (o, db') -> db_inv db'.
Proof.
  intros I H. unfold mark_ready in H. follow H; subst; try done.
  constructor; try apply I; cbn. eapply promote_inv; [apply I| |done|done|by apply deps_met_done].
  by apply rd_Some.
Qed.

Definition write_healed (f : string) (S : gset string) (now : Z) (C : gmap string (Row FleetChildRecord))
    (c : FleetChildRecord) : gmap string (Row FleetChildRecord) :=
  if promotable S c then <[child_key f (ch_child_id c) := Json (heal S now c)]> C else C.

Lemma resolve_fold f S now recs C ready :
  foldl (resolve_child f S now) (C, ready) recs =
  (foldl (write_healed f S now) C recs,
   ready ++ (ch_child_id <$> filter (fun c => launchable c = true) (heal S now <$> recs))).
Proof.
  revert C ready. induction recs as [|c recs IH]; intros C ready; [cbn; by rewrite app_nil_r|].
  rewrite fmap_cons, filter_cons. cbn [foldl resolve_child]. rewrite IH. f_equal.
  destruct (launchable (heal S now c)).
  - rewrite decide_True by done. cbn. by rewrite <- app_assoc.
  - by rewrite decide_False by done.
Qed.

Lemma heal_ids S now c : ch_child_id (heal S now c) = ch_child_id c /\ ch_fleet_id (heal S now c) = ch_fleet_id c.
Proof. unfold heal. by destruct (promotable S c). Qed.

(** The rows of a fleet the resolver works on. *)
Lemma elem_of_fleet_children t rows f c :
  scan t = Ok rows ->
  c ∈ fleet_children f rows <-> ch_fleet_id c = f /\ rd t (child_key f (ch_child_id c)) = Some c.
Proof.
  intros Hs. unfold fleet_children. rewrite list_elem_of_fmap. split.
  - intros ([k c'] & -> & Hin). apply list_elem_of_filter in Hin as [[<- <-] Hin]. split; [done|].
    by apply (elem_of_scan t rows).
  - intros [<- Hr]. exists (child_key (ch_fleet_id c) (ch_child_id c), c). split; [done|].
    apply list_elem_of_filter. split; [done|]. by apply (elem_of_scan t rows).
Qed.

Lemma NoDup_fleet_children t rows f :
  scan t = Ok rows -> NoDup (ch_child_id <$> fleet_children f rows).
Proof.
  intros Hs. pose proof (NoDup_scan _ _ Hs) as Hn. unfold fleet_children. clear Hs.
  induction rows as [|[k c] rows IH]; [constructor|]. cbn in Hn. inversion Hn as [|? ? Hk1 Hn1]; subst.
  rewrite filter_cons. case_decide as Hp; [|by apply IH]. cbn. constructor; [|by apply IH]. destruct Hp as [<- <-].
  intros Hin. apply list_elem_of_fmap in Hin as (c' & Ec & Hin). apply list_elem_of_fmap in Hin as ([k' c''] & -> & Hin).
  apply list_elem_of_filter in Hin as [[Ef Ek] Hin]. cbn in *. apply Hk1. rewrite Ec, <- Ef, Ek.
  apply list_elem_of_fmap. by exists (k', c'').
Qed.

Lemma heal_fold_inv F A f S now recs : forall C,
  kinv F C A -> no_nul f -> NoDup (ch_child_id <$> recs) ->
  (forall c, c ∈ recs -> ch_fleet_id c = f /\ rd C (child_key f (ch_child_id c)) = Some c) ->
  (forall d, d ∈ S -> exists cd, rd C (child_key f d) = Some cd /\ ch_status cd = Succeeded) ->
  kinv F (foldl (write_healed f S now) C recs) A.
Proof.
  induction recs as [|c recs IH]; intros C I Hf Hn Hrows HS; [done|]. cbn. inversion Hn as [|? ? Hc Hn']; subst.
  destruct (Hrows c) as [Ef Hr]; [by left|].
  unfold write_healed at 2. unfold heal. destruct (promotable S c) eqn:Hp; [|apply IH; auto; intros; apply Hrows; by right].
  unfold promotable in Hp. bool_to_prop. pose proof Hr as [_ Hv]%rd_Some.
  assert (owns_child f (ch_child_id c) c = true) as Ho
    by (unfold owns_child; rewrite !(proj2 (eqb_true _ _)) by done; done).
  assert (deps_done C f (ch_deps c)) as Hd.
  { intros d Hin. apply HS. rewrite forallb_forall in H0. apply list_elem_of_In in Hin. specialize (H0 _ Hin). by bool_to_prop. }
  apply IH; [by apply promote_inv|done|done| |].
  - intros c' Hin. destruct (Hrows c') as [? ?]; [by right|]. split; [done|]. rewrite rd_insert_ne; [done|].
    intros [_ E]%child_key_inj; [|done..]. apply Hc. rewrite E. by apply list_elem_of_fmap_2.
  - intros d Hin. destruct (HS d Hin) as (cd & Hcd & Hsucc). exists cd. split; [|done]. rewrite rd_insert_ne; [done|].
    intros E. rewrite E in Hr. congruence.
Qed.

Lemma succeeded_ids_done t rows f d :
  scan t = Ok rows -> d ∈ succeeded_ids (fleet_children f rows) <->
  exists cd, rd t (child_key f d) = Some cd /\ ch_fleet_id cd = f /\ ch_child_id cd = d /\ ch_status cd = Succeeded.
Proof.
  intros Hs. unfold succeeded_ids. rewrite elem_of_list_to_set, list_elem_of_fmap. split.
  - intros (c & -> & Hin). apply list_elem_of_filter in Hin as [Hst Hin].
    apply (elem_of_fleet_children _ _ _ _ Hs) in Hin as [? ?]. eauto.
  - intros (cd & Hr & <- & <- & Hst). exists cd. split; [done|]. apply list_elem_of_filter. split; [done|].
    by apply (elem_of_fleet_children _ _ _ _ Hs).
Qed.

Lemma resolve_inv f now db o db' :
  db_inv db -> resolve_and_collect_ready f now db = Ok (o, db') -> db_inv db'.
Proof.
  intros I H. unfold resolve_and_collect_ready in H. follow H; subst; [done|]. match goal with E : foldl _ _ _ = _ |- _ => rewrite resolve_fold in E; injection E as <- _ end.
  constructor; try apply I; cbn. apply heal_fold_inv; [apply I|done|by eapply NoDup_fleet_children| |].
  - intros c. by apply elem_of_fleet_children.
  - intros d Hd. apply (succeeded_ids_done _ _ _ _ Hx1) in Hd as (cd & ? & _ & _ & ?). eauto.
Qed.

(** ** Launch and run *)

Lemma rd_version {A} `{Versioned A} (t : gmap string (Row A)) k a :
  rd t k = Some a -> (schema_version a <= SCHEMA_VERSION)%Z.
Proof. by intros [_ ?]%rd_Some. Qed.

Lemma launch_child_inv f cid proj now epoch ttl aid eid db o db' :
  db_inv db -> db_attempts db !! attempt_key cid aid = None -> (0 <= proj)%Z ->
  launch_child f cid proj now epoch ttl aid eid db = Ok (o, db') -> db_inv db'.
Proof.
  intros I Hfresh Hproj H. unfold launch_child in H. follow H; subst; try done.
  rename f0 into c, f1 into fl. pose proof (i_kernel _ I) as K.
  destruct (child_row K _ _ _ Hx0 ltac:(done)) as (Ef & Ec & Hf & Hcid & HF & Hloc).
  destruct (append_keeps _ _ _ _ I Hx5) as [Hob Hok].
  assert (fl_fleet_id fl = f) as Efl by (by apply eqb_true).
  apply u64_checked_add_Some in Hx2 as [-> _].
  assert (ch_current_attempt_id c = None) as Hcur by (by apply eq_None_not_Some).
  pose proof (rd_version _ _ _ Hx0) as Hcv. pose proof (rd_version _ _ _ Hx1) as Hfv.
  unfold child_local in Hloc. rewrite E1 in Hloc. destruct Hloc as (_ & Hout & Hpend).
  apply (db_inv_update db); cbn; [done|done| |apply insert_is_Some|done|done].
  apply (kinv_transition K f cid aid c _ _ fl). constructor; fields; try done.
  - by left.
  - by rewrite E1.
  - by left.
  - by rewrite E1.
  - unfold rd. rewrite Hfresh. cbn. rewrite weight_of_own by done. fields. lia.
Qed.

Lemma live_current F C A f cid aid a c :
  kinv F C A -> rd A (attempt_key cid aid) = Some a -> att_is_live a = true -> at_fleet_id a = f ->
  owns_attempt cid aid a = true -> rd C (child_key f cid) = Some c ->
  ch_status c = flight_status a /\ ch_current_attempt_id c = Some aid /\ child_local c.
Proof.
  intros K Ha Hl Ef Ho Hc. unfold owns_attempt in Ho. bool_to_prop. apply eqb_true in H, H0. subst.
  destruct (live_in_flight K _ _ _ Ha Hl Hc) as [? ?]. split_and!; [done..|].
  by destruct (k_child _ _ _ K _ _ Hc) as (_ & _ & _ & _ & ?).
Qed.

Lemma mark_running_inv cid aid db o db' :
  db_inv db -> mark_running cid aid db = Ok (o, db') -> db_inv db'.
Proof.
  intros I H. unfold mark_running in H. follow H; subst; try done.
  rename a into att, f into c, f0 into fl. pose proof (i_kernel _ I) as K.
  destruct (child_row K _ _ _ Hx1 ltac:(done)) as (Ef & Ec & Hf & Hcid & HF & Hloc).
  assert (att_is_live att = true) as Hl by (unfold att_is_live; by case_match).
  assert (at_generation att = fl_generation fl) as Hgen by lia.
  destruct (k_attempt _ _ _ K _ _ Hx0) as (Ek & _ & Hres).
  apply attempt_key_inj in Ek as [Eac Eaa]; [|done|by destruct (k_attempt _ _ _ K _ _ Hx0) as (_ & ? & _)].
  pose proof (rd_version _ _ _ Hx0) as Hav. pose proof (rd_version _ _ _ Hx1) as Hcv.
  unfold is_current in *. bool_to_prop.
  assert (Hset : db_fleets db = <[at_fleet_id att := Json fl]> (db_fleets db)).
  { symmetry. apply insert_id. by apply rd_Some in Hx2 as [? _]. }
  apply (db_inv_update db); cbn; [done|done| |done|apply I|apply I]. rewrite Hset.
  apply (kinv_transition K (at_fleet_id att) cid aid c _ _ fl fl). unfold child_local in Hloc.
  match goal with E : ch_status c = Launching |- _ => rewrite E in Hloc; rename E into Est end.
  constructor; fields; try done.
  - by right.
  - by rewrite Est.
  - right. eauto.
  - by rewrite Est.
  - split_and!; [by apply eqb_true|done|by eapply rd_version].
  - rewrite Hx0. cbn. rewrite !weight_of_own by done. fields. lia.
Qed.

(** ** Settling a live attempt *)

(** A live attempt ends: it becomes idle, its child leaves flight with the dependencies it
    had, and its reservation goes back. *)
Record settles (f cid aid : string) (c c' : FleetChildRecord) (a a' : Attempt) (fl fl' : FleetRecord) : Prop := {
  st_att : at_fleet_id a' = at_fleet_id a /\ at_child_id a' = at_child_id a /\ at_attempt_id a' = at_attempt_id a
    /\ at_schema_version a' = at_schema_version a /\ at_reserved_tokens a' = at_reserved_tokens a;
  st_idle : att_is_live a' = false;
  st_child : ch_fleet_id c' = ch_fleet_id c /\ ch_child_id c' = ch_child_id c
    /\ (ch_schema_version c' <= SCHEMA_VERSION)%Z /\ ch_deps c' = ch_deps c;
  st_landed : in_flight (ch_status c') = false;
  st_local : child_local c';
  st_fleet : fl_fleet_id fl' = fl_fleet_id fl /\ fl_generation fl' = fl_generation fl
    /\ fl_schema_version fl' = fl_schema_version fl;
  st_budget : bg_tokens_reserved (fl_budget fl') = (bg_tokens_reserved (fl_budget fl) - at_reserved_tokens a)%Z;
}.

Lemma settles_inv F C A f cid aid c c' a a' fl fl' :
  kinv F C A -> rd C (child_key f cid) = Some c -> rd A (attempt_key cid aid) = Some a -> rd F f = Some fl ->
  att_is_live a = true -> at_fleet_id a = f -> owns_attempt cid aid a = true ->
  settles f cid aid c c' a a' fl fl' ->
  kinv (<[f := Json fl']> F) (<[child_key f cid := Json c']> C) (<[attempt_key cid aid := Json a']> A).
Proof.
  intros K Hc Ha Hf Hl Ef Ho S. destruct (live_current _ _ _ _ _ _ _ _ K Ha Hl Ef Ho Hc) as (Hst & Hcur & Hloc).
  unfold owns_attempt in Ho. apply andb_true_iff in Ho as [Eac%eqb_true Eaa%eqb_true].
  destruct (k_attempt _ _ _ K _ _ Ha) as (_ & Hnc & Hres). destruct (k_live _ _ _ K _ _ Ha Hl) as (Hnf & _).
  destruct (k_child _ _ _ K _ _ Hc) as (Ek & Hnf' & _ & _ & _). subst f.
  rewrite Eac in Hnc. apply child_key_inj in Ek as [Ecf Ecc]; [|done..].
  destruct (st_att _ _ _ _ _ _ _ _ _ S) as (E1 & E2 & E3 & E4 & E5).
  destruct (st_child _ _ _ _ _ _ _ _ _ S) as (D1 & D2 & D3 & D4). destruct (st_fleet _ _ _ _ _ _ _ _ _ S) as (G1 & G2 & G3).
  pose proof (rd_version _ _ _ Ha) as Hav. pose proof (rd_version _ _ _ Hf) as Hfv.
  apply (kinv_transition K _ _ _ c _ _ fl). constructor.
  1-2: done.
  - done.
  - by right.
  - rewrite Hst. unfold flight_status. by case_match.
  - right. eauto.
  - split_and!; congruence || done.
  - apply S.
  - split; [done|]. intros _. rewrite Hst. by rewrite in_flight_started by apply flight_in_flight.
  - change (at_schema_version a <= SCHEMA_VERSION)%Z in Hav. split_and!; congruence || lia.
  - rewrite (st_idle _ _ _ _ _ _ _ _ _ S). done.
  - rewrite (st_landed _ _ _ _ _ _ _ _ _ S). done.
  - split_and!; [|done|change (fl_schema_version fl <= SCHEMA_VERSION)%Z in Hfv; lia].
    rewrite G1. by apply K.
  - rewrite Ha. cbn. rewrite weight_of_idle by apply S. rewrite weight_of_live by done. rewrite (st_budget _ _ _ _ _ _ _ _ _ S). lia.
Qed.

Record fenced (db : Db) (f cid aid : string) (epoch : Z) (c : FleetChildRecord) (a : Attempt) (fl : FleetRecord) : Prop := {
  fe_child : rd (db_children db) (child_key f cid) = Some c;
  fe_attempt : rd (db_attempts db) (attempt_key cid aid) = Some a;
  fe_fleet : rd (db_fleets db) f = Some fl;
  fe_child_ids : owns_child f cid c = true;
  fe_attempt_ids : owns_attempt cid aid a = true;
  fe_attempt_fleet : at_fleet_id a = f;
  fe_fleet_live : fleet_is_live fl = true;
  fe_current : ch_current_attempt_id c = Some aid;
  fe_running : at_status a = AttRunning;
  fe_generation : at_generation a = fl_generation fl;
  fe_epoch : ls_owner_epoch (at_lease a) = epoch;
}.

(** The fence lets exactly the running current attempt of this generation and lease through. *)
Lemma settle_fence_Some f cid aid epoch db c a fl :
  settle_fence f cid aid epoch db = Ok (Some (c, a, fl)) -> fenced db f cid aid epoch c a fl.
Proof.
  intros H. unfold settle_fence in H. follow H; simplify_eq; try done. unfold is_current in *. bool_to_prop.
  constructor; try done; try (by apply eqb_true); lia.
Qed.

Lemma settle_write_inv f cid aid eid epoch c c' a a' fl fl' db db' :
  db_inv db -> fenced db f cid aid epoch c a fl -> settles f cid aid c c' a a' fl fl' ->
  settle_write f cid aid eid c' a' fl' db = Ok db' -> db_inv db'.
Proof.
  intros I Fe S H. unfold settle_write in H. follow H. subst. destruct (append_keeps _ _ _ _ I Hx) as [Hob Hok].
  apply (db_inv_update db); cbn; [done|done| |apply insert_is_Some|done|done].
  eapply settles_inv; [apply I|apply Fe|apply Fe|apply Fe| |apply Fe|apply Fe|done].
  unfold att_is_live. by rewrite (fe_running _ _ _ _ _ _ _ _ Fe).
Qed.

Lemma settle_budget_Ok what cid b actual reserved b' :
  settle_budget what cid b actual reserved = Ok b' ->
  bg_tokens_reserved b' = (bg_tokens_reserved b - reserved)%Z /\ (reserved <= bg_tokens_reserved b)%Z /\
  bg_tokens_committed b' = (bg_tokens_committed b + actual)%Z /\ (bg_tokens_committed b + actual <= u64_max)%Z /\
  bg_token_budget b' = bg_token_budget b.
Proof.
  intros H. unfold settle_budget in H. follow H. subst.
  apply u64_checked_add_Some in Hx as [-> ?]. apply u64_checked_sub_Some in Hx0 as [-> ?]. done.
Qed.

(** A fenced child carries neither verdict nor request. *)
Lemma fenced_local db f cid aid epoch c a fl :
  db_inv db -> fenced db f cid aid epoch c a fl ->
  ch_status c = Running /\ ch_outcome c = None /\ ch_pending_escalation c = None /\ (ch_schema_version c <= SCHEMA_VERSION)%Z.
Proof.
  intros I Fe. assert (att_is_live a = true) as Hl by (unfold att_is_live; by rewrite (fe_running _ _ _ _ _ _ _ _ Fe)).
  destruct (live_current _ _ _ _ _ _ _ _ (i_kernel _ I) (fe_attempt _ _ _ _ _ _ _ _ Fe) Hl
    (fe_attempt_fleet _ _ _ _ _ _ _ _ Fe) (fe_attempt_ids _ _ _ _ _ _ _ _ Fe) (fe_child _ _ _ _ _ _ _ _ Fe)) as (Hst & _ & Hloc).
  unfold flight_status in Hst. rewrite (fe_running _ _ _ _ _ _ _ _ Fe) in Hst. unfold child_local in Hloc.
  rewrite Hst in Hloc. pose proof (rd_version _ _ _ (fe_child _ _ _ _ _ _ _ _ Fe)) as Hv. by destruct Hloc as (_ & ? & ?).
Qed.

Lemma complete_child_inv f cid aid v snap actual epoch now eid db o db' :
  db_inv db -> complete_child f cid aid v snap actual epoch now eid db = Ok (o, db') -> db_inv db'.
Proof.
  intros I H. unfold complete_child in H. follow H; subst; [|done]. apply settle_fence_Some in Hx0 as Fe.
  destruct (fenced_local _ _ _ _ _ _ _ _ I Fe) as (Hst & _ & Hpend & Hv).
  apply settle_budget_Ok in Hx1 as (Hr & _). eapply settle_write_inv; [done|exact Fe| |done].
  constructor; fields; try done.
  - by destruct (is_accepted v).
  - unfold child_local; fields. destruct v; cbn; eauto.
Qed.

Lemma record_escalation_inv f cid aid req actual epoch now eid db o db' :
  db_inv db -> record_escalation f cid aid req actual epoch now eid db = Ok (o, db') -> db_inv db'.
Proof.
  intros I H. unfold record_escalation in H. follow H; subst; [|done]. apply settle_fence_Some in Hx0 as Fe.
  destruct (fenced_local _ _ _ _ _ _ _ _ I Fe) as (Hst & Hout & _ & _).
  apply settle_budget_Ok in Hx1 as (Hr & _). eapply settle_write_inv; [done|exact Fe| |done].
  by constructor; fields.
Qed.

(** ** Spec-only edits and escalation decisions *)

(** A call that rewrites the plan of one fleet and leaves the fleets alone. *)
Lemma plan_write_inv db F C A D O f p :
  db_inv db -> kinv F C A -> F = db_fleets db -> is_Some (F !! f) -> intact O -> outbox_keys O ->
  dp_fleet_id p = f -> dp_schema_version p = SCHEMA_VERSION ->
  db_inv {| db_fleets := F; db_children := C; db_attempts := A; db_plans := <[f := Json p]> (db_plans db);
            db_decisions := D; db_outbox := O |}.
Proof.
  intros [K Hp Hi _ _] K' -> Hf HO HOk Ef Ev.
  assert (schema_version p <= SCHEMA_VERSION)%Z as Hv by (change (dp_schema_version p <= SCHEMA_VERSION)%Z; lia).
  constructor; cbn; try done; [by apply intact_insert|].
  intros k p' [[<- <-]|[_ Hr]]%rd_insert_Some; [done|by apply Hi|done].
Qed.

Lemma live_is_Some db f : fleet_live db f = Ok true -> is_Some (db_fleets db !! f).
Proof. intros (fl & [Hr _]%rd_Some & _)%fleet_live_true. eauto. Qed.

Lemma retitle_task_inv f rev tid title detail db o db' :
  db_inv db -> retitle_task f rev tid title detail db = Ok (o, db') -> db_inv db'.
Proof.
  intros I H. unfold retitle_task in H. follow H; subst; try done.
  apply plan_write_inv; try done; [apply I|by apply live_is_Some|apply I|apply I|by apply eqb_true].
Qed.

(** A blocked child is decided: ready again, or failed. *)
Lemma decide_blocked_inv F C A f cid c c' :
  kinv F C A -> rd C (child_key f cid) = Some c -> owns_child f cid c = true -> ch_status c = Blocked ->
  ch_fleet_id c' = ch_fleet_id c -> ch_child_id c' = ch_child_id c -> (ch_schema_version c' <= SCHEMA_VERSION)%Z ->
  ch_deps c' = ch_deps c -> child_local c' -> in_flight (ch_status c') = false ->
  kinv F (<[child_key f cid := Json c']> C) A.
Proof.
  intros K Hc Ho Hs E1 E2 Hv Ed Hloc Hfl. destruct (child_row K _ _ _ Hc Ho) as (Ef & Ec & Hf & Hcid & HF & _).
  apply (kinv_child_idle K); try congruence; try done.
  - intros c0. rewrite Hc. intros [= <-]. by rewrite Hs.
  - intros _. rewrite Ed, <- Ef. apply (k_ready _ _ _ K _ _ Hc). by rewrite Hs.
Qed.

Lemma blocked_local F C A f cid c :
  kinv F C A -> rd C (child_key f cid) = Some c -> ch_status c = Blocked ->
  ch_outcome c = None /\ (ch_schema_version c <= SCHEMA_VERSION)%Z.
Proof.
  intros K Hc Hs. destruct (k_child _ _ _ K _ _ Hc) as (_ & _ & _ & _ & Hloc). unfold child_local in Hloc.
  rewrite Hs in Hloc. destruct Hloc as (_ & ? & _ & ->). done.
Qed.

Lemma set_task_grant_inv f rev tid grant now db o db' :
  db_inv db -> set_task_grant f rev tid grant now db = Ok (o, db') -> db_inv db'.
Proof.
  intros I H. unfold set_task_grant in H. follow H; subst; try done.
  match goal with E : ch_status ?c = Blocked |- _ => rename c into c0; rename E into Hst end.
  match goal with E : rd (db_children _) _ = Some _ |- _ => rename E into Hc end.
  destruct (blocked_local _ _ _ _ _ _ (i_kernel _ I) Hc Hst) as [Hout Hcv].
  apply plan_write_inv; try done; [|by apply live_is_Some|apply I|apply I|by apply eqb_true].
  by eapply decide_blocked_inv; [apply I|..].
Qed.

Lemma deny_escalation_inv f cid reason now eid db o db' :
  db_inv db -> deny_escalation f cid reason now eid db = Ok (o, db') -> db_inv db'.
Proof.
  intros I H. unfold deny_escalation in H. follow H; subst; try done.
  match goal with E : ch_status ?c = Blocked |- _ => rename c into c0; rename E into Hst end.
  match goal with E : rd (db_children _) _ = Some _ |- _ => rename E into Hc end.
  match goal with E : append_outbox _ _ = _ |- _ => destruct (append_keeps _ _ _ _ I E) as [Hob Hok] end.
  destruct (blocked_local _ _ _ _ _ _ (i_kernel _ I) Hc Hst) as [_ Hcv].
  assert (kinv (db_fleets db) (<[child_key f cid := Json (ch_set_updated now (ch_set_current None (ch_set_escalation None
    (ch_set_outcome (Some (Rejected ("escalation denied: " +:+ reason))) (ch_set_status Failed c0)))))]> (db_children db))
    (db_attempts db)) as K'.
  { eapply decide_blocked_inv; [apply I|done..| |done]. unfold child_local; fields. eauto. }
  match goal with E : match ?o with _ => _ end = Ok (?g, _) |- _ => rename E into Hplan end.
  follow Hplan; subst; simplify_eq.
  - apply plan_write_inv; try done; [by apply live_is_Some|by apply eqb_true].
  - by apply (db_inv_update db).
  - by apply (db_inv_update db).
Qed.

(** ** Boot recovery *)

(** A live attempt recovery leaves alone: its fleet is live and its lease is this boot's. *)
Definition reconciled (now epoch : Z) (F : gmap string (Row FleetRecord)) (a : Attempt) : Prop :=
  forall fl, rd F (at_fleet_id a) = Some fl -> fleet_is_live fl = true /\ lease_stale a now epoch = false.

(** What one pass of the loop does to the database. *)
Record reconcile_effect (now epoch : Z) (key : string) (db db' : Db) : Prop := {
  re_inv : db_inv db';
  re_rest : db_plans db' = db_plans db /\ db_outbox db' = db_outbox db /\ db_decisions db' = db_decisions db;
  re_children : forall k, k <> key -> rd (db_children db') k = rd (db_children db) k;
  re_attempts : forall k a, rd (db_attempts db') k = Some a -> att_is_live a = true ->
    rd (db_attempts db) k = Some a /\
    (child_key (at_fleet_id a) (at_child_id a) <> key \/ reconciled now epoch (db_fleets db') a);
  re_fleets : forall k, (rd (db_fleets db') k = None /\ rd (db_fleets db) k = None) \/
    exists fl fl', rd (db_fleets db) k = Some fl /\ rd (db_fleets db') k = Some fl' /\
      fl_status fl' = fl_status fl /\ fl_generation fl' = fl_generation fl /\
      bg_tokens_committed (fl_budget fl') = bg_tokens_committed (fl_budget fl) /\
      bg_token_budget (fl_budget fl') = bg_token_budget (fl_budget fl);
}.

Lemma fleets_refl (db : Db) k :
  (rd (db_fleets db) k = None /\ rd (db_fleets db) k = None) \/
  exists fl fl', rd (db_fleets db) k = Some fl /\ rd (db_fleets db) k = Some fl' /\
    fl_status fl' = fl_status fl /\ fl_generation fl' = fl_generation fl /\
    bg_tokens_committed (fl_budget fl') = bg_tokens_committed (fl_budget fl) /\
    bg_token_budget (fl_budget fl') = bg_token_budget (fl_budget fl).
Proof. destruct (rd (db_fleets db) k) as [fl|]; [right; eauto 10|by left]. Qed.

Lemma reconcile_skip now epoch key db :
  db_inv db ->
  (forall k a, rd (db_attempts db) k = Some a -> att_is_live a = true ->
    child_key (at_fleet_id a) (at_child_id a) = key -> reconciled now epoch (db_fleets db) a) ->
  reconcile_effect now epoch key db db.
Proof.
  intros I Hr. constructor; try done; [|apply fleets_refl]. intros k a Ha Hl. split; [done|].
  destruct (decide (child_key (at_fleet_id a) (at_child_id a) = key)); eauto.
Qed.

(** A live attempt of the child under [key] is the current one. *)
Lemma live_of_child F C A k c a :
  kinv F C A -> rd A k = Some a -> att_is_live a = true ->
  rd C (child_key (at_fleet_id a) (at_child_id a)) = Some c ->
  in_flight (ch_status c) = true /\ ch_current_attempt_id c = Some (at_attempt_id a) /\
  k = attempt_key (ch_child_id c) (at_attempt_id a).
Proof.
  intros K Ha Hl Hc. destruct (live_in_flight K _ _ _ Ha Hl Hc) as [Hcur Hst].
  destruct (k_attempt _ _ _ K _ _ Ha) as (-> & _). destruct (k_live _ _ _ K _ _ Ha Hl) as (Hn & _).
  destruct (k_child _ _ _ K _ _ Hc) as (Ek & Hn' & _). apply child_key_inj in Ek as [_ <-]; [|done..].
  rewrite Hst, flight_in_flight. done.
Qed.

Lemma reconcile_settle now epoch db f cid aid c a fl :
  db_inv db -> rd (db_children db) (child_key f cid) = Some c -> rd (db_attempts db) (attempt_key cid aid) = Some a ->
  rd (db_fleets db) f = Some fl -> att_is_live a = true -> at_fleet_id a = f -> owns_attempt cid aid a = true ->
  let fl' := fl_set_budget (bg_set_reserved (bg_tokens_reserved (fl_budget fl) - at_reserved_tokens a) (fl_budget fl)) now fl in
  let c' := ch_set_updated now (ch_set_current None (ch_set_status (if fleet_is_live fl then Ready else Cancelled) c)) in
  reconcile_effect now epoch (child_key f cid) db
    (set_attempts (<[attempt_key cid aid := Json (at_interrupt now a)]> (db_attempts db))
      (set_fleets (<[f := Json fl']> (db_fleets db))
        (set_children (<[child_key f cid := Json c']> (db_children db)) db))).
Proof.
  intros I Hc Ha Hf Hl Ef Ho fl' c'. pose proof (i_kernel _ I) as K.
  destruct (live_current _ _ _ _ _ _ _ _ K Ha Hl Ef Ho Hc) as (Hst & Hcur & Hloc).
  pose proof (rd_version _ _ _ Hc) as Hcv. pose proof (rd_version _ _ _ Hf) as Hfv. pose proof (rd_version _ _ _ Ha) as Hav.
  assert (child_local c') as Hloc'.
  { unfold child_local in *. rewrite Hst in Hloc. unfold flight_status in Hloc. subst c'. fields.
    destruct (fleet_is_live fl), (at_status a); naive_solver. }
  constructor; cbn.
  - apply (db_inv_update db); cbn; [done|done| |apply insert_is_Some|apply I|apply I].
    eapply settles_inv; [done..|]. subst c' fl'. constructor; fields; try done. by destruct (fleet_is_live fl).
  - done.
  - intros k Hk. by rewrite rd_insert_ne.
  - intros k b [[<- <-]|[Hne Hr]]%rd_insert_Some Hlb; [done| |done]. split; [done|]. left. intros E.
    rewrite <- E in Hc. destruct (live_of_child _ _ _ _ _ _ K Hr Hlb Hc) as (_ & Hcur' & Hkb). apply Hne.
    rewrite E in Hc. destruct (k_child _ _ _ K _ _ Hc) as (Ek & Hn & _). destruct (k_live _ _ _ K _ _ Ha Hl) as (Hn' & _).
    rewrite Ef in Hn'. apply child_key_inj in Ek as [_ Ecid]; [|done..]. rewrite Hkb, <- Ecid. congruence.
  - intros k. rewrite !rd_insert by done. destruct (decide (f = k)) as [<-|]; [|apply fleets_refl].
    right. exists fl, fl'. done.
Qed.

Lemma load_all db f k1 k2 :
  db_inv db -> load_row (db_fleets db) f = Ok (rd (db_fleets db) f) /\
  load_row (db_children db) k1 = Ok (rd (db_children db) k1) /\ load_row (db_attempts db) k2 = Ok (rd (db_attempts db) k2).
Proof. intros I. split_and!; apply load_intact, (i_kernel _ I). Qed.

(** One pass never fails, keeps the invariant, and leaves the child's live attempt, if any,
    reconciled. *)
Lemma reconcile_child_spec now epoch db report c :
  db_inv db -> rd (db_children db) (child_key (ch_fleet_id c) (ch_child_id c)) = Some c ->
  exists db' report', reconcile_child now epoch (db, report) c = Ok (db', report') /\
    reconcile_effect now epoch (child_key (ch_fleet_id c) (ch_child_id c)) db db'.
Proof.
  intros I Hc. pose proof (i_kernel _ I) as K. destruct (k_child _ _ _ K _ _ Hc) as (_ & Hn & Hnc & _ & Hloc).
  destruct (in_flight (ch_status c)) eqn:Hfl.
  2:{ exists db, report. split; [unfold reconcile_child; by destruct (ch_status c)|].
      apply reconcile_skip; [done|]. intros k a Ha Hl E. rewrite <- E in Hc.
      destruct (live_of_child _ _ _ _ _ _ K Ha Hl Hc). congruence. }
  destruct (in_flight_current _ Hloc Hfl) as [aid Hcur].
  destruct (k_inflight _ _ _ K _ _ _ Hc Hfl Hcur) as (a & Ha & Hl & Ef).
  destruct (k_attempt _ _ _ K _ _ Ha) as (Ek & Hna & _). apply attempt_key_inj in Ek as [Eac Eaa]; [|done..].
  assert (Ho : owns_attempt (ch_child_id c) aid a = true)
    by (unfold owns_attempt; rewrite !(proj2 (eqb_true _ _)) by done; done).
  assert (Hred : reconcile_child now epoch (db, report) c =
    match rd (db_fleets db) (ch_fleet_id c) with
    | None => Ok (db, report)
    | Some fl => if fleet_is_live fl && negb (lease_stale a now epoch) then Ok (db, report)
        else r ← ok_or ("reconcile reservation underflow for " +:+ ch_child_id c)
               (u64_checked_sub (bg_tokens_reserved (fl_budget fl)) (at_reserved_tokens a));
             Ok (set_attempts (<[attempt_key (ch_child_id c) aid := Json (at_interrupt now a)]> (db_attempts db))
                  (set_fleets (<[ch_fleet_id c := Json (fl_set_budget (bg_set_reserved r (fl_budget fl)) now fl)]> (db_fleets db))
                    (set_children (<[child_key (ch_fleet_id c) (ch_child_id c) := Json (ch_set_updated now (ch_set_current None
                      (ch_set_status (if fleet_is_live fl then Ready else Cancelled) c)))]> (db_children db)) db)),
                 report ++ [{| ia_fleet_id := ch_fleet_id c; ia_child_id := ch_child_id c; ia_attempt_id := aid |}])
    end).
  { unfold reconcile_child. rewrite Hcur. destruct (load_all db (ch_fleet_id c) "" (attempt_key (ch_child_id c) aid) I) as (-> & _ & ->).
    cbn. rewrite Ha. destruct (rd (db_fleets db) (ch_fleet_id c)) as [fl|] eqn:Hf; [|by destruct (ch_status c)].
    rewrite (k_fleet _ _ _ K _ _ Hf), Ho, Ef, !(proj2 (eqb_true _ _)), Hl by done. cbn. by destruct (ch_status c). }
  assert (Hsame : forall k b, rd (db_attempts db) k = Some b -> att_is_live b = true ->
    child_key (at_fleet_id b) (at_child_id b) = child_key (ch_fleet_id c) (ch_child_id c) -> b = a).
  { intros k b Hb Hlb E. assert (Hcb := Hc). rewrite <- E in Hcb.
    destruct (live_of_child _ _ _ _ _ _ K Hb Hlb Hcb) as (_ & Hcur' & ->). rewrite Hcur in Hcur'. injection Hcur' as E'. rewrite <- E' in Hb. congruence. }
  rewrite Hred. destruct (rd (db_fleets db) (ch_fleet_id c)) as [fl|] eqn:Hf.
  2:{ exists db, report. split; [done|]. apply reconcile_skip; [done|]. intros k b Hb Hlb E.
      rewrite (Hsame _ _ Hb Hlb E). intros fl. rewrite Ef, Hf. done. }
  destruct (fleet_is_live fl && negb (lease_stale a now epoch)) eqn:Hok.
  { exists db, report. split; [done|]. apply reconcile_skip; [done|]. intros k b Hb Hlb E.
    rewrite (Hsame _ _ Hb Hlb E). intros fl0. rewrite Ef, Hf. intros [= <-]. by bool_to_prop. }
  rewrite <- Ef in Hf. pose proof (reservation_covers K _ _ _ Ha Hl Hf) as Hle. rewrite Ef in Hf.
  rewrite (proj2 (u64_checked_sub_Some _ _ (bg_tokens_reserved (fl_budget fl) - at_reserved_tokens a))) by done.
  cbn. do 2 eexists. split; [done|]. by apply reconcile_settle.
Qed.

Lemma reconciled_effect now epoch key db db' a :
  reconcile_effect now epoch key db db' -> reconciled now epoch (db_fleets db) a ->
  reconciled now epoch (db_fleets db') a.
Proof.
  intros E Hr fl' Hf'. destruct (re_fleets _ _ _ _ _ E (at_fleet_id a)) as [[Hn _]|(fl & fl'' & Hf & Hf'' & Hs & _)];
    [congruence|]. rewrite Hf' in Hf''. injection Hf'' as <-. destruct (Hr _ Hf). split; [|done].
  unfold fleet_is_live in *. by rewrite Hs.
Qed.

Lemma elem_of_owned t rows c :
  scan t = Ok rows ->
  c ∈ owned_children rows <-> rd t (child_key (ch_fleet_id c) (ch_child_id c)) = Some c.
Proof.
  intros Hs. unfold owned_children. rewrite list_elem_of_fmap. split.
  - intros ([k c'] & -> & Hin). apply list_elem_of_filter in Hin as [<- Hin]. by apply (elem_of_scan t rows).
  - intros Hr. eexists (_, c). split; [done|]. apply list_elem_of_filter. split; [done|]. by apply (elem_of_scan t rows).
Qed.

Lemma NoDup_owned t rows :
  scan t = Ok rows -> NoDup ((fun c => child_key (ch_fleet_id c) (ch_child_id c)) <$> owned_children rows).
Proof.
  intros Hs. pose proof (NoDup_scan _ _ Hs) as Hn. unfold owned_children. clear Hs.
  induction rows as [|[k c] rows IH]; [constructor|]. cbn in Hn. inversion Hn as [|? ? Hk1 Hn1]; subst.
  rewrite filter_cons. case_decide as Hp; [|by apply IH]. cbn. constructor; [|by apply IH]. rewrite Hp.
  intros Hin. apply list_elem_of_fmap in Hin as (c' & Ec & Hin). apply list_elem_of_fmap in Hin as ([k' c''] & -> & Hin).
  apply list_elem_of_filter in Hin as [Ek Hin]. cbn in *. apply Hk1. rewrite Ec, Ek.
  apply list_elem_of_fmap. by exists (k', c'').
Qed.

(** The state of the loop, with the children still to visit. *)
Record reconciling (now epoch : Z) (db0 : Db) (todo : list FleetChildRecord)
    (st : Db * list InterruptedAttempt) : Prop := {
  rg_inv : db_inv st.1;
  rg_rest : db_plans st.1 = db_plans db0 /\ db_outbox st.1 = db_outbox db0 /\ db_decisions st.1 = db_decisions db0;
  rg_nodup : NoDup ((fun c => child_key (ch_fleet_id c) (ch_child_id c)) <$> todo);
  rg_rows : forall c, c ∈ todo -> rd (db_children st.1) (child_key (ch_fleet_id c) (ch_child_id c)) = Some c;
  rg_live : forall k a, rd (db_attempts st.1) k = Some a -> att_is_live a = true ->
    reconciled now epoch (db_fleets st.1) a \/
    exists c, c ∈ todo /\ child_key (ch_fleet_id c) (ch_child_id c) = child_key (at_fleet_id a) (at_child_id a);
}.

Lemma reconciling_step now epoch db0 c todo st :
  reconciling now epoch db0 (c :: todo) st ->
  exists st', reconcile_child now epoch st c = Ok st' /\ reconciling now epoch db0 todo st'.
Proof.
  destruct st as [db report]. intros [I Hrest Hn Hrows Hlive]. cbn in *. inversion Hn as [|? ? Hnew Hn']; subst.
  destruct (reconcile_child_spec now epoch db report c I) as (db' & report' & H & E); [apply Hrows; by left|].
  exists (db', report'). split; [done|]. destruct (re_rest _ _ _ _ _ E) as (E1 & E2 & E3). constructor; cbn; [apply E|..].
  - destruct Hrest as (-> & -> & ->) in E1, E2, E3. done.
  - done.
  - intros c0 Hin. rewrite (re_children _ _ _ _ _ E); [apply Hrows; by right|]. intros Ek. apply Hnew. rewrite <- Ek.
    apply list_elem_of_fmap. eauto.
  - intros k a Ha Hl. destruct (re_attempts _ _ _ _ _ E _ _ Ha Hl) as [Ha0 [Hne|Hr]]; [|by left].
    destruct (Hlive _ _ Ha0 Hl) as [Hr|(c0 & Hin & Ek)]; [left; by eapply reconciled_effect|right].
    apply elem_of_cons in Hin as [->|Hin]; [by rewrite Ek in Hne|eauto].
Qed.

Lemma reconciling_start now epoch db rows :
  db_inv db -> scan (db_children db) = Ok rows -> reconciling now epoch db (owned_children rows) (db, []).
Proof.
  intros I Hrows. pose proof (i_kernel _ I) as K.
  constructor; cbn; try done; [by eapply NoDup_owned|intros c; by apply elem_of_owned|]. intros k a Ha Hl. right.
  destruct (k_live _ _ _ K _ _ Ha Hl) as (Hn & c & Hc & _). destruct (k_child _ _ _ K _ _ Hc) as (Ek & _).
  exists c. split; [|done]. apply (elem_of_owned _ _ _ Hrows). by rewrite <- Ek.
Qed.

(** Recovery never fails, keeps the invariant, touches no plan and no event, and leaves
    only live attempts of live fleets under a current lease. *)
Lemma reconcile_spec now epoch db :
  db_inv db -> exists report db', reconcile now epoch db = Ok (report, db') /\ db_inv db' /\
    (db_plans db' = db_plans db /\ db_outbox db' = db_outbox db /\ db_decisions db' = db_decisions db) /\
    forall k a, rd (db_attempts db') k = Some a -> att_is_live a = true -> reconciled now epoch (db_fleets db') a.
Proof.
  intros I. pose proof (i_kernel _ I) as K. destruct (scan_intact (db_children db) (k_C_ok _ _ _ K)) as [rows Hrows].
  unfold reconcile. rewrite Hrows. cbn.
  destruct (try_fold_total (reconcile_child now epoch) (reconciling now epoch db) (owned_children rows) (db, []))
    as ([db' report] & -> & [I' Hrest _ _ Hl]); [intros; by apply reconciling_step| |].
  - by apply reconciling_start.
  - exists report, db'. split_and!; try done; try apply Hrest. intros k a Ha Hla. by destruct (Hl _ _ Ha Hla) as [|(c & Hin & _)]; [|set_solver].
Qed.

(** ** The outbox and the log *)

Lemma append_event_inv event db o db' : db_inv db -> append_event event db = Ok (o, db') -> db_inv db'.
Proof.
  intros I H. unfold append_event in H. follow H. subst.
  match goal with E : append_outbox _ _ = _ |- _ => destruct (append_keeps _ _ _ _ I E) as [Hob Hok] end.
  apply (db_inv_update db); cbn; try done. apply I.
Qed.

Lemma first_claimable_Some now l k ev :
  first_claimable now l = Ok (Some (k, ev)) ->
  exists row l1 l2, l = l1 ++ (k, row) :: l2 /\ decode_row row = Ok (Some ev) /\
    ob_acked ev = false /\ claim_free now ev = true /\
    Forall (fun '(_, row) => forall e, decode_row row = Ok (Some e) -> ob_acked e = true \/ claim_free now e = false) l1.
Proof.
  induction l as [|[k' row] l IH]; cbn; [done|]. intros H. apply bind_Ok in H as (r & Hr & H).
  destruct r as [e|]; [destruct (negb (ob_acked e) && claim_free now e) eqn:Ec|].
  - simplify_eq. bool_to_prop. exists row, [], l. done.
  - destruct (IH H) as (row' & l1 & l2 & -> & Hd & Ha & Hf & Hall). exists row', ((k', row) :: l1), l2.
    split_and!; try done. constructor; [|done]. intros e' He'. rewrite Hr in He'. injection He' as <-.
    apply andb_false_iff in Ec as [Ec|]; [left; by bool_to_prop|by right].
  - destruct (IH H) as (row' & l1 & l2 & -> & Hd & Ha & Hf & Hall). exists row', ((k', row) :: l1), l2.
    split_and!; try done. constructor; [|done]. intros e' He'. congruence.
Qed.

Lemma claim_next_inv consumer now ttl token db o db' :
  db_inv db -> claim_next consumer now ttl token db = Ok (o, db') -> db_inv db'.
Proof.
  intros I H. unfold claim_next in H. follow H; subst; [|done].
  match goal with E : first_claimable _ _ = Ok (Some (?k, ?e)) |- _ =>
    rename k into key; rename e into ev; apply first_claimable_Some in E as (row & l1 & l2 & Hl & Hd & _) end.
  assert (db_outbox db !! key = Some row) as Hrow by (apply elem_of_table_iter; rewrite Hl; set_solver).
  apply decode_Some in Hd as [-> Hv]. apply (db_inv_update db); cbn; try done.
  - apply I.
  - by apply intact_insert, (i_outbox_ok _ I).
  - apply outbox_keys_update; [apply I|eauto].
Qed.

Lemma ack_inv seq consumer token db o db' :
  db_inv db -> ack seq consumer token db = Ok (o, db') -> db_inv db'.
Proof.
  intros I H. unfold ack in H. follow H; subst; [|done]. apply (db_inv_update db); cbn; try done.
  - apply I.
  - by apply intact_insert, (i_outbox_ok _ I).
  - apply outbox_keys_update; [apply I|eauto].
Qed.

Lemma append_decision_inv f actor kind note now db o db' :
  db_inv db -> append_decision f actor kind note now db = Ok (o, db') -> db_inv db'.
Proof.
  intros I H. unfold append_decision in H. follow H. subst. apply (db_inv_update db); cbn; try done; apply I.
Qed.
