(* ===== verification/FleetReplan.v ===== *)
(** * Re-planning keeps the kernel invariant

    [FleetKernelStore::replan] rewrites every child of a fleet in one transaction.  The file
    characterises its three loops (the scan of the children, the interrupt-and-restart pass,
    the new tasks) and shows that a re-plan that is let through never fails on a reservation
    and leaves no live attempt of the old generation. *)
From S2P Require Import Prelude RustStr RustNum Grant FleetRecords FleetStore FleetFacts FleetInv FleetOps.
Open Scope octos_scope.

(** ** The scan *)

Lemma replan_rows_spec f l existing undec :
  replan_rows f l = Ok (existing, undec) ->
  (forall c, c ∈ existing <-> exists row, (child_key f (ch_child_id c), row) ∈ l /\ readable row = Some c /\ ch_fleet_id c = f) /\
  (forall cid, cid ∈ undec <-> exists row, (child_key f cid, row) ∈ l /\
     forall c, readable row = Some c -> owns_child f cid c = false).
Proof.
  revert existing undec. induction l as [|[k row] l IH]; intros existing undec; cbn.
  { intros [= <- <-]. split; [intros c|intros cid]; set_solver. }
  destruct (strip_prefix (f +:+ String NUL "") k) as [cid|] eqn:Es.
  2:{ intros H. destruct (IH _ _ H) as [H1 H2].
      assert (forall c, child_key f c <> k) as Hk by (intros c <-; pose proof (proj2 (strip_child_key f _ c) eq_refl); congruence).
      split; [intros c; rewrite H1|intros c; rewrite H2]; (split; intros (r & Hin & ?); exists r; [split; [by right|done]|]);
        apply elem_of_cons in Hin as [[= E _]|]; [by destruct (Hk _ E)|done|by destruct (Hk _ E)|done]. }
  apply strip_child_key in Es as ->. rewrite bind_Ok. intros (r & Hr & H). apply bind_Ok in H as ([ex un] & Hl & H).
  destruct (IH _ _ Hl) as [H1 H2]. assert (readable row = r) as Hrd by (unfold readable; by rewrite Hr).
  assert (Hcons : forall c, (child_key f c, row) ∈ (child_key f c, row) :: l) by (intros; by left).
  assert (Hinj : forall c, child_key f c = child_key f cid -> c = cid).
  { intros c E. unfold child_key in E. apply (inj (String.append f)) in E. by injection E. }
  assert (Hcase : (exists rec, r = Some rec /\ owns_child f cid rec = true /\ (rec :: ex, un) = (existing, undec)) \/
    ((forall c, r = Some c -> owns_child f cid c = false) /\ (ex, {[cid]} ∪ un) = (existing, undec))).
  { destruct r as [rec|]; [destruct (owns_child f cid rec) eqn:Eo|]; injection H as <- <-; [left; eauto|right; naive_solver..]. }
  destruct Hcase as [(rec & -> & Ho & [= <- <-])|[Hno [= <- <-]]].
  - unfold owns_child in Ho. bool_to_prop. apply eqb_true in H0, H3. split.
    + intros c. rewrite elem_of_cons, H1. split.
      * intros [->|(row' & Hin & ?)]; [|exists row'; split; [by right|done]]. exists row. by rewrite H3.
      * intros (row' & Hin & Hc & Hf). apply elem_of_cons in Hin as [[= E ->]|Hin]; [left; congruence|right; eauto].
    + intros c. rewrite H2. split; intros (row' & Hin & Hno); exists row'; [split; [by right|done]|].
      apply elem_of_cons in Hin as [[= E ->]|Hin]; [|done]. apply Hinj in E as ->. specialize (Hno _ Hrd).
      unfold owns_child in Hno. by rewrite !(proj2 (eqb_true _ _)) in Hno.
  - split.
    + intros c. rewrite H1. split; intros (row' & Hin & Hc & Hf); exists row'; [split; [by right|done]|].
      apply elem_of_cons in Hin as [[= E ->]|Hin]; [|done]. exfalso. apply Hinj in E. rewrite Hrd in Hc. specialize (Hno _ Hc).
      unfold owns_child in Hno. by rewrite !(proj2 (eqb_true _ _)) in Hno.
    + intros c. rewrite elem_of_union, elem_of_singleton, H2. split.
      * intros [->|(row' & Hin & ?)]; [exists row|exists row'; split; [by right|done]]. split; [by left|]. rewrite Hrd. done.
      * intros (row' & Hin & Hno'). apply elem_of_cons in Hin as [[= E ->]|Hin]; [left; by apply Hinj|right; eauto].
Qed.

Lemma replan_rows_nodup f l existing undec :
  replan_rows f l = Ok (existing, undec) -> NoDup l.*1 -> NoDup (ch_child_id <$> existing).
Proof.
  revert existing undec. induction l as [|[k row] l IH]; intros existing undec; cbn.
  { intros [= <- <-] _. constructor. }
  intros H Hn. inversion Hn as [|? ? Hk Hn']; subst. destruct (strip_prefix _ k) as [cid|] eqn:Es; [|eauto].
  apply strip_child_key in Es as ->. apply bind_Ok in H as (r & Hr & H). apply bind_Ok in H as ([ex un] & Hl & H).
  pose proof (IH _ _ Hl Hn') as IHn. apply replan_rows_spec in Hl as [H1 _].
  destruct r as [rec|]; [destruct (owns_child f cid rec) eqn:Eo|]; injection H as <- <-; try done.
  cbn. constructor; [|done]. intros Hin. apply list_elem_of_fmap in Hin as (c & Ec & Hin).
  apply H1 in Hin as (row' & Hin & _). apply Hk. unfold owns_child in Eo. bool_to_prop. apply eqb_true in H0.
  apply list_elem_of_fmap. exists (child_key f (ch_child_id c), row'). split; [|done]. cbn. congruence.
Qed.

(** The children of a fleet, in the tables of a database that satisfies the invariant. *)
Lemma replan_existing f C existing undec c :
  replan_rows f (table_iter C) = Ok (existing, undec) ->
  c ∈ existing <-> rd C (child_key f (ch_child_id c)) = Some c /\ ch_fleet_id c = f.
Proof.
  intros H. apply replan_rows_spec in H as [-> _]. unfold rd. split.
  - intros (row & Hin & Hr & Hf). apply elem_of_table_iter in Hin. by rewrite Hin.
  - intros [(row & Hrow & Hr)%bind_Some Hf]. exists row. by rewrite elem_of_table_iter.
Qed.

Lemma replan_undecodable f C existing undec cid :
  replan_rows f (table_iter C) = Ok (existing, undec) -> is_Some (C !! child_key f cid) ->
  cid ∈ undec \/ exists c, c ∈ existing /\ ch_child_id c = cid.
Proof.
  intros H [row Hrow]. destruct (replan_rows_spec _ _ _ _ H) as [H1 H2].
  destruct (readable row) as [c|] eqn:Er.
  - destruct (owns_child f cid c) eqn:Eo.
    + unfold owns_child in Eo. bool_to_prop. apply eqb_true in H0, H3. right. exists c. split; [|done]. apply H1.
      exists row. rewrite H3, elem_of_table_iter. done.
    + left. apply H2. exists row. rewrite elem_of_table_iter. split; [done|]. intros c'. rewrite Er. by intros [= <-].
  - left. apply H2. exists row. rewrite elem_of_table_iter. split; [done|]. by rewrite Er.
Qed.

Lemma replan_rows_intact f C :
  intact C -> exists existing undec, replan_rows f (table_iter C) = Ok (existing, undec).
Proof.
  intros Hi. assert (Forall (fun '(_, row) => is_ok (decode_row row) = true) (table_iter C)) as Hall.
  { apply Forall_forall. intros [k row] Hin. apply elem_of_table_iter in Hin. eauto. }
  induction Hall as [|[k row] l Hok _ (ex & un & IH)]; cbn; [eauto|]. destruct (strip_prefix _ k); [|eauto].
  destruct (decode_row row) as [r|]; [|done]. cbn. rewrite IH. cbn.
  destruct r as [rec|]; [destruct (owns_child f s rec)|]; eauto.
Qed.

(** ** The interrupt-and-restart pass *)

Section pass.
Context (F : gmap string (Row FleetRecord)) (C : gmap string (Row FleetChildRecord)) (A : gmap string (Row Attempt)).
Context (f : string) (tasks : list PlanTask) (S : gset string) (gen now : Z).
Context (K : kinv F C A).

Definition rewritten (c : FleetChildRecord) : FleetChildRecord := rebucket tasks S gen now false c.

Definition restart (C : gmap string (Row FleetChildRecord)) (c : FleetChildRecord) : gmap string (Row FleetChildRecord) :=
  <[child_key f (ch_child_id c) := Json (rewritten c)]> C.

(** Only a child in flight loses its pointer to an interrupt, and its row is reset anyway. *)
Lemma rebucket_flag b c : (ch_status c = Succeeded -> b = false) -> rebucket tasks S gen now b c = rewritten c.
Proof.
  intros Hb. destruct b; [|done]. unfold rewritten, rebucket. fields.
  destruct (find_task tasks (ch_child_id c)); [|done]. case_bool_decide as Hs; [|done]. by discriminate (Hb Hs).
Qed.

(** The attempts of [f] that are still live belong to children still to come. *)
Record passing (existing todo : list FleetChildRecord)
    (st : gmap string (Row FleetChildRecord) * gmap string (Row Attempt) * Z) : Prop := {
  ps_split : exists done, existing = done ++ todo /\ st.1.1 = foldl restart C done;
  ps_ok : intact st.1.2;
  ps_ids : forall k a, rd st.1.2 k = Some a ->
    k = attempt_key (at_child_id a) (at_attempt_id a) /\ no_nul (at_child_id a) /\ (0 <= at_reserved_tokens a)%Z;
  ps_sum : st.2 = map_sum (weight f) st.1.2;
  ps_others : forall g, g <> f -> map_sum (weight g) st.1.2 = map_sum (weight g) A;
  ps_live : forall k a, rd st.1.2 k = Some a -> att_is_live a = true ->
    rd A k = Some a /\ (at_fleet_id a = f -> exists c, c ∈ todo /\ ch_child_id c = at_child_id a);
  ps_foreign : forall k a, rd A k = Some a -> at_fleet_id a <> f -> rd st.1.2 k = Some a;
  ps_pending : forall k a, rd A k = Some a -> at_fleet_id a = f ->
    (exists c, c ∈ todo /\ ch_child_id c = at_child_id a) -> rd st.1.2 k = Some a;
  ps_changed : forall k, st.1.2 !! k = A !! k \/ exists a, rd A k = Some a /\ att_is_live a = true /\ at_fleet_id a = f /\
    st.1.2 !! k = Some (Json (at_interrupt now a));
}.

Lemma interrupt_spec c attempts reserved existing todo children :
  no_nul f -> NoDup (ch_child_id <$> c :: todo) ->
  rd C (child_key f (ch_child_id c)) = Some c -> ch_fleet_id c = f ->
  passing existing (c :: todo) (children, attempts, reserved) ->
  exists attempts' reserved' b,
    interrupt_current f now c attempts reserved = Ok (attempts', reserved', b) /\
    (ch_status c = Succeeded -> b = false) /\
    ((b = false /\ attempts' = attempts /\ reserved' = reserved /\
      forall k a, rd A k = Some a -> att_is_live a = true -> at_fleet_id a = f -> at_child_id a = ch_child_id c -> False) \/
     exists aid a, b = true /\ rd A (attempt_key (ch_child_id c) aid) = Some a /\ att_is_live a = true /\
       at_fleet_id a = f /\ at_child_id a = ch_child_id c /\ at_attempt_id a = aid /\
       attempts' = <[attempt_key (ch_child_id c) aid := Json (at_interrupt now a)]> attempts /\
       reserved' = (reserved - at_reserved_tokens a)%Z).
Proof.
  intros Hf Hn Hc Ef P. destruct (k_child _ _ _ K _ _ Hc) as (_ & _ & Hnc & _ & _).
  assert (Hlive : forall k a, rd A k = Some a -> att_is_live a = true -> at_fleet_id a = f -> at_child_id a = ch_child_id c ->
    in_flight (ch_status c) = true /\ ch_current_attempt_id c = Some (at_attempt_id a) /\
    k = attempt_key (ch_child_id c) (at_attempt_id a)).
  { intros k a Ha Hl Haf Hac. apply (live_of_child _ _ _ _ _ _ K Ha Hl). by rewrite Haf, Hac. }
  unfold interrupt_current. destruct (ch_current_attempt_id c) as [aid|] eqn:Hcur.
  2:{ exists attempts, reserved, false. split_and!; [done|done|]. left. split_and!; [done..|].
      intros k a Ha Hl Haf Hac. destruct (Hlive _ _ Ha Hl Haf Hac) as (_ & ? & _). congruence. }
  rewrite (load_intact _ _ (ps_ok _ _ _ P)). cbn.
  assert (Hrd : forall a, rd A (attempt_key (ch_child_id c) aid) = Some a -> at_fleet_id a = f ->
    rd attempts (attempt_key (ch_child_id c) aid) = Some a).
  { intros a Ha Haf. apply (ps_pending _ _ _ P); [done..|]. exists c. split; [by left|].
    destruct (k_attempt _ _ _ K _ _ Ha) as (Ek & ? & _). by apply attempt_key_inj in Ek as [? _]. }
  assert (Hskip : (forall a, rd attempts (attempt_key (ch_child_id c) aid) = Some a -> at_fleet_id a = f ->
      at_child_id a = ch_child_id c -> at_attempt_id a = aid -> att_is_live a = true -> False) ->
    forall k a, rd A k = Some a -> att_is_live a = true -> at_fleet_id a = f -> at_child_id a = ch_child_id c -> False).
  { intros Hno k a Ha Hl Haf Hac. destruct (Hlive _ _ Ha Hl Haf Hac) as (_ & [= Eaid] & ->).
    apply (Hno a); try done. apply Hrd; [by rewrite Eaid|done]. }
  destruct (rd attempts (attempt_key (ch_child_id c) aid)) as [a|] eqn:Ha'.
  2:{ exists attempts, reserved, false. split_and!; [done|done|]. left. split_and!; [done..|]. apply Hskip. done. }
  destruct (eqb (at_fleet_id a) f && owns_attempt (ch_child_id c) aid a && att_is_live a) eqn:Ego.
  - bool_to_prop. unfold owns_attempt in *. bool_to_prop. apply eqb_true in H, H1, H2.
    destruct (ps_live _ _ _ P _ _ Ha' H0) as [HaA _].
    destruct (Hlive _ _ HaA H0 H H1) as (Hfl & _ & _).
    assert (at_reserved_tokens a <= reserved)%Z as Hle.
    { pose proof (ps_sum _ _ _ P) as Hs. cbn in Hs. rewrite Hs. pose proof Ha' as [Hrow Hv]%rd_Some.
      assert (weight f (Json a) <= map_sum (weight f) attempts)%Z as Hw.
      { apply (map_sum_le (weight f) attempts (attempt_key (ch_child_id c) aid)); [|done].
        intros k row Hk. unfold weight. destruct (readable row) as [b|] eqn:Eb; cbn; [|lia]. apply weight_of_nonneg.
        assert (rd attempts k = Some b) as Hb by (unfold rd; by rewrite Hk). by destruct (ps_ids _ _ _ P _ _ Hb) as (_ & _ & ?). }
      by rewrite weight_json, weight_of_own in Hw. }
    rewrite (proj2 (u64_checked_sub_Some _ _ (reserved - at_reserved_tokens a))) by done. cbn.
    do 3 eexists. split; [done|]. split; [intros Hs; by rewrite Hs in Hfl|]. right. exists aid, a. done.
  - exists attempts, reserved, false. split_and!; [done|done|]. left. split_and!; [done..|]. apply Hskip.
    intros a' [= <-] Haf Hac Haa Hl. unfold owns_attempt in Ego. by rewrite !(proj2 (eqb_true _ _)), Hl in Ego.
Qed.

Lemma replan_passing_step existing c todo st :
  no_nul f -> NoDup (ch_child_id <$> c :: todo) ->
  rd C (child_key f (ch_child_id c)) = Some c -> ch_fleet_id c = f ->
  passing existing (c :: todo) st ->
  exists st', replan_child f tasks S gen now st c = Ok st' /\ passing existing todo st'.
Proof.
  intros Hf Hn Hc Ef P. destruct st as [[children attempts] reserved].
  destruct (interrupt_spec _ _ _ _ _ _ Hf Hn Hc Ef P) as (attempts' & reserved' & b & Hi & Hb & Hcase).
  unfold replan_child. rewrite Hi. cbn. eexists. split; [done|]. rewrite (rebucket_flag _ _ Hb).
  destruct P as [(done & Hex & Hch) Hok Hids Hsum Hoth Hlive Hfor Hpend Hchg]. cbn in *.
  assert (Hsplit : exists done', existing = done' ++ todo /\ restart children c = foldl restart C done').
  { exists (done ++ [c]). rewrite foldl_app, <- Hch, <- app_assoc. done. }
  destruct Hcase as [(_ & -> & -> & Hno)|(aid & a & -> & HaA & Hl & Haf & Hac & Haa & -> & ->)].
  - constructor; cbn; try done.
    + intros k a Ha Hl. destruct (Hlive _ _ Ha Hl) as [HaA Hin]. split; [done|]. intros Haf.
      destruct (Hin Haf) as (c0 & [->|Hin']%elem_of_cons & Ec); [|eauto]. exfalso. by eapply Hno.
    + intros k a Ha Haf (c0 & Hin & Ec). apply Hpend; [done..|]. exists c0. split; [by right|done].
  - assert (Hcur : rd attempts (attempt_key (ch_child_id c) aid) = Some a).
    { apply Hpend; [done..|]. exists c. split; [by left|done]. }
    pose proof (rd_version _ _ _ Hcur) as Hv.
    assert (Hv' : (schema_version (at_interrupt now a) <= SCHEMA_VERSION)%Z) by done.
    assert (Hsum' : forall g, map_sum (weight g) (<[attempt_key (ch_child_id c) aid := Json (at_interrupt now a)]> attempts) =
      (map_sum (weight g) attempts - weight_of g a)%Z).
    { intros g. rewrite map_sum_insert, weight_json, weight_rd, Hcur by done. cbn.
      rewrite (weight_of_idle g (at_interrupt now a)) by done. lia. }
    constructor; cbn; try done.
    + by apply intact_insert.
    + intros k x [[<- <-]|[_ Hr]]%rd_insert_Some; [|by apply Hids|done]. fields. rewrite Hac, Haa.
      destruct (k_attempt _ _ _ K _ _ HaA) as (_ & Hn2 & ?). by rewrite Hac in Hn2.
    + rewrite Hsum', Hsum, weight_of_own by done. done.
    + intros g Hg. rewrite Hsum', Hoth, weight_of_other by congruence. lia.
    + intros k x [[<- <-]|[Hne Hr]]%rd_insert_Some Hlx; [done| |done]. destruct (Hlive _ _ Hr Hlx) as [HxA Hin].
      split; [done|]. intros Hxf. destruct (Hin Hxf) as (c0 & [->|Hin']%elem_of_cons & Ec); [|eauto]. exfalso. apply Hne.
      eapply (one_live K); [exact HaA|exact HxA|done|done|congruence|congruence].
    + intros k x Hx Hxf. rewrite rd_insert_ne; [by apply Hfor|]. intros <-. congruence.
    + intros k x Hx Hxf (c0 & Hin & Ec). rewrite rd_insert_ne; [apply Hpend; [done..|]; exists c0; split; [by right|done]|].
      intros <-. rewrite HaA in Hx. injection Hx as <-. inversion Hn as [|? ? Hnin _]; subst. apply Hnin.
      rewrite <- Hac, <- Ec. by apply list_elem_of_fmap_2.
    + intros k. destruct (decide (attempt_key (ch_child_id c) aid = k)) as [<-|Hne].
      * right. exists a. by rewrite lookup_insert_eq.
      * rewrite lookup_insert_ne by done. apply Hchg.
Qed.

(** ** The rows after a re-plan *)

Lemma rewritten_ids c :
  ch_fleet_id (rewritten c) = ch_fleet_id c /\ ch_child_id (rewritten c) = ch_child_id c /\
  ch_schema_version (rewritten c) = ch_schema_version c /\ ch_generation (rewritten c) = gen.
Proof.
  unfold rewritten, rebucket. fields. destruct (find_task tasks (ch_child_id c)); [|done]. by case_bool_decide.
Qed.

Lemma readiness_cases deps :
  readiness S deps = Planned \/ (readiness S deps = Ready /\ forall d, d ∈ deps -> d ∈ S).
Proof.
  unfold readiness. destruct (forallb _ deps) eqn:E; [right|by left]. split; [done|]. intros d Hd.
  rewrite forallb_forall in E. apply list_elem_of_In in Hd. specialize (E _ Hd). by bool_to_prop.
Qed.

Lemma rewritten_status c :
  child_local c ->
  child_local (rewritten c) /\ in_flight (ch_status (rewritten c)) = false /\
  (started (ch_status (rewritten c)) = true -> forall d, d ∈ ch_deps (rewritten c) -> d ∈ S) /\
  (is_Some (find_task tasks (ch_child_id c)) -> ch_status c = Succeeded -> ch_status (rewritten c) = Succeeded).
Proof.
  intros Hloc. unfold rewritten, rebucket. fields. destruct (find_task tasks (ch_child_id c)) as [t|] eqn:Et.
  2:{ split_and!; try done. }
  case_bool_decide as Hs.
  - unfold child_local in *. fields. rewrite Hs in *. done.
  - fields. destruct (readiness_cases (pt_deps t)) as [->|[-> Hd]]; split_and!; try done; intros _ ?; congruence.
Qed.

Lemma restart_fold_other existing C0 k :
  (forall c, c ∈ existing -> k <> child_key f (ch_child_id c)) -> foldl restart C0 existing !! k = C0 !! k.
Proof.
  revert C0. induction existing as [|c existing IH]; intros C0 Hk; [done|]. cbn. rewrite IH by (intros; apply Hk; by right).
  unfold restart. rewrite lookup_insert_ne; [done|]. intros E. by apply (Hk c); [left|].
Qed.

Lemma child_key_same cid cid' : child_key f cid = child_key f cid' -> cid = cid'.
Proof. unfold child_key. intros E. apply (inj (String.append f)) in E. by injection E. Qed.

Lemma restart_fold_own existing C0 c :
  NoDup (ch_child_id <$> existing) -> c ∈ existing ->
  foldl restart C0 existing !! child_key f (ch_child_id c) = Some (Json (rewritten c)).
Proof.
  revert C0. induction existing as [|c0 existing IH]; intros C0 Hn Hin; [set_solver|]. cbn.
  inversion Hn as [|? ? Hnew Hn']; subst. apply elem_of_cons in Hin as [->|Hin]; [|by apply IH].
  rewrite restart_fold_other; [unfold restart; by rewrite lookup_insert_eq|]. intros c Hc E%child_key_same.
  apply Hnew. rewrite E. by apply list_elem_of_fmap_2.
Qed.

Lemma add_new_fold skip C0 l k :
  foldl (add_new_task f skip S gen now) C0 l !! k = C0 !! k \/
  exists t, t ∈ l /\ pt_task_id t ∉ skip /\ k = child_key f (pt_task_id t) /\
    foldl (add_new_task f skip S gen now) C0 l !! k =
      Some (Json (new_child f (pt_task_id t) (readiness S (pt_deps t)) (pt_deps t) gen now)).
Proof.
  revert C0. induction l as [|t l IH]; intros C0; [by left|]. cbn.
  destruct (IH (add_new_task f skip S gen now C0 t)) as [->|(t' & Hin & H)]; [|right; exists t'; split; [by right|done]].
  unfold add_new_task. case_bool_decide as Hs; [by left|].
  destruct (decide (child_key f (pt_task_id t) = k)) as [<-|Hne].
  - right. exists t. split_and!; [by left|done|done|]. by rewrite lookup_insert_eq.
  - left. by rewrite lookup_insert_ne.
Qed.

Lemma add_new_fold_in skip C0 l t :
  t ∈ l -> pt_task_id t ∉ skip ->
  exists t', t' ∈ l /\ pt_task_id t' = pt_task_id t /\
    foldl (add_new_task f skip S gen now) C0 l !! child_key f (pt_task_id t) =
      Some (Json (new_child f (pt_task_id t') (readiness S (pt_deps t')) (pt_deps t') gen now)).
Proof.
  revert C0. induction l as [|t0 l IH]; intros C0 Hin Hs; [set_solver|]. cbn.
  destruct (add_new_fold skip (add_new_task f skip S gen now C0 t0) l (child_key f (pt_task_id t)))
    as [E|(t' & Hin' & _ & Ek & E)].
  - apply elem_of_cons in Hin as [<-|Hin]; [|destruct (IH (add_new_task f skip S gen now C0 t0) Hin Hs) as (t' & ? & ?); exists t'; split; [by right|done]].
    exists t. split_and!; [by left|done|]. rewrite E. unfold add_new_task. rewrite bool_decide_false by done. by rewrite lookup_insert_eq.
  - exists t'. split_and!; [by right|by apply child_key_same in Ek|done].
Qed.

Definition final_children (existing : list FleetChildRecord) (undec : gset string) : gmap string (Row FleetChildRecord) :=
  foldl (add_new_task f (list_to_set (ch_child_id <$> existing) ∪ undec) S gen now) (foldl restart C existing) tasks.

(** A row of the result: another fleet's or opaque and as it was, a rewritten child, or a
    fresh one for a task nothing was stored for. *)
Inductive final_row (existing : list FleetChildRecord) (undec : gset string) (k : string) : option (Row FleetChildRecord) -> Prop :=
  | fr_kept : (forall c, c ∈ existing -> k <> child_key f (ch_child_id c)) -> final_row existing undec k (C !! k)
  | fr_rewritten c : c ∈ existing -> k = child_key f (ch_child_id c) -> final_row existing undec k (Some (Json (rewritten c)))
  | fr_new t : t ∈ tasks -> C !! k = None -> k = child_key f (pt_task_id t) ->
      final_row existing undec k
        (Some (Json (new_child f (pt_task_id t) (readiness S (pt_deps t)) (pt_deps t) gen now))).

Lemma final_children_row existing undec k :
  replan_rows f (table_iter C) = Ok (existing, undec) ->
  final_row existing undec k (final_children existing undec !! k).
Proof.
  intros Hrows. pose proof (replan_rows_nodup _ _ _ _ Hrows (NoDup_table_iter C)) as Hn. unfold final_children.
  destruct (add_new_fold (list_to_set (ch_child_id <$> existing) ∪ undec) (foldl restart C existing) tasks k)
    as [->|(t & Hin & Hskip & -> & ->)].
  - destruct (decide (Exists (fun c => k = child_key f (ch_child_id c)) existing)) as [He|Hne].
    + apply Exists_exists in He as (c & Hc & ->). rewrite restart_fold_own by done. by econstructor.
    + rewrite restart_fold_other; [constructor|]; intros c Hc ->; apply Hne, Exists_exists; eauto.
  - apply fr_new; [done| |done]. destruct (C !! child_key f (pt_task_id t)) eqn:E; [|done]. exfalso.
    apply not_elem_of_union in Hskip as [Hs1 Hs2]. destruct (replan_undecodable _ _ _ _ (pt_task_id t) Hrows) as [?|(c & Hc & Eid)];
      [by eauto|done|]. apply Hs1. rewrite <- Eid. apply elem_of_list_to_set. by apply list_elem_of_fmap_2.
Qed.

(** ** The invariant after a re-plan *)

Section final.
Context (existing : list FleetChildRecord) (undec : gset string) (fl fl' : FleetRecord).
Context (A' : gmap string (Row Attempt)) (reserved : Z).
Context (Hrows : replan_rows f (table_iter C) = Ok (existing, undec)).
Context (Hf : no_nul f) (Htasks : Forall (fun t => no_nul (pt_task_id t)) tasks).
Context (HS : forall d, d ∈ S <-> exists c, c ∈ existing /\ ch_status c = Succeeded /\ ch_child_id c = d
                                  /\ is_Some (find_task tasks d)).
Context (Hpass : passing existing [] (foldl restart C existing, A', reserved)).
Context (Hfl' : fl_fleet_id fl' = f /\ (fl_schema_version fl' <= SCHEMA_VERSION)%Z /\
                bg_tokens_reserved (fl_budget fl') = reserved).

(** The readable rows of the result. *)
Inductive final_rd (k : string) (c' : FleetChildRecord) : Prop :=
  | fd_kept : rd C k = Some c' -> ch_fleet_id c' <> f -> final_rd k c'
  | fd_rewritten c : rd C k = Some c -> ch_fleet_id c = f -> k = child_key f (ch_child_id c) -> c' = rewritten c -> final_rd k c'
  | fd_new t : t ∈ tasks -> k = child_key f (pt_task_id t) ->
      c' = new_child f (pt_task_id t) (readiness S (pt_deps t)) (pt_deps t) gen now -> final_rd k c'.

Lemma rewritten_version c k : rd C k = Some c -> (schema_version (rewritten c) <= SCHEMA_VERSION)%Z.
Proof.
  intros H. apply rd_version in H. change (ch_schema_version (rewritten c) <= SCHEMA_VERSION)%Z.
  by destruct (rewritten_ids c) as (_ & _ & -> & _).
Qed.

Lemma final_children_rd k c' : rd (final_children existing undec) k = Some c' -> final_rd k c'.
Proof.
  intros H. pose proof (final_children_row existing undec k Hrows) as Hr. apply rd_Some in H as [H Hv]. rewrite H in Hr.
  inversion Hr as [Hk E|c Hc Hk E|t Ht Hk Ek E]; subst.
  - assert (rd C k = Some c') as Hrd by (apply rd_Some; split; [congruence|done]). apply fd_kept; [done|]. intros Ef.
    destruct (k_child _ _ _ K _ _ Hrd) as (Ek & _). rewrite Ef in Ek. apply (Hk c'); [|done].
    apply (replan_existing _ _ _ _ _ Hrows). by rewrite <- Ek.
  - apply (replan_existing _ _ _ _ _ Hrows) in Hc as [Hc Ef]. by eapply fd_rewritten.
  - by eapply fd_new.
Qed.

Lemma final_children_intact : intact (final_children existing undec).
Proof.
  intros k row H. pose proof (final_children_row existing undec k Hrows) as Hr. rewrite H in Hr.
  inversion Hr as [Hk E|c Hc Hk E|t Ht Hk Ek E]; subst.
  - apply (k_C_ok _ _ _ K k). congruence.
  - apply (replan_existing _ _ _ _ _ Hrows) in Hc as [Hc _]. apply is_ok_true. eexists. apply decode_Some.
    split; [done|by eapply rewritten_version].
  - done.
Qed.

(** Rows of other fleets are as they were. *)
Lemma final_children_other k g cid : no_nul g -> g <> f -> k = child_key g cid -> final_children existing undec !! k = C !! k.
Proof.
  intros Hg Hne ->. pose proof (final_children_row existing undec (child_key g cid) Hrows) as Hr.
  inversion Hr as [Hk E|c Hc Hk E|t Ht Hk Ek E]; subst; [done|..].
  - apply child_key_inj in Hk as [? _]; done.
  - apply child_key_inj in Ek as [? _]; done.
Qed.

(** A child of the fleet gets its rewritten row. *)
Lemma final_children_own c : c ∈ existing -> rd (final_children existing undec) (child_key f (ch_child_id c)) = Some (rewritten c).
Proof.
  intros Hc. pose proof Hc as [Hrd _]%(replan_existing _ _ _ _ _ Hrows). apply rd_Some. split; [|by eapply rewritten_version].
  pose proof (final_children_row existing undec (child_key f (ch_child_id c)) Hrows) as Hr.
  inversion Hr as [Hk E|c0 Hc0 Hk E|t Ht0 Hk Ek E]; subst.
  - by destruct (Hk c Hc).
  - apply child_key_same in Hk. f_equal. apply (replan_existing _ _ _ _ _ Hrows) in Hc0 as [Hrd0 _]. rewrite <- Hk in Hrd0.
    congruence.
  - apply rd_Some in Hrd as [Hrd _]. congruence.
Qed.

(** A task nothing was stored for gets a fresh child. *)
Lemma final_children_fresh t :
  t ∈ tasks -> C !! child_key f (pt_task_id t) = None ->
  exists t', t' ∈ tasks /\ pt_task_id t' = pt_task_id t /\
    rd (final_children existing undec) (child_key f (pt_task_id t)) =
      Some (new_child f (pt_task_id t') (readiness S (pt_deps t')) (pt_deps t') gen now).
Proof.
  intros Ht Hn. destruct (add_new_fold_in (list_to_set (ch_child_id <$> existing) ∪ undec) (foldl restart C existing) tasks t)
    as (t' & Ht' & Eid & E); [done| |].
  - apply not_elem_of_union. split.
    + rewrite elem_of_list_to_set, list_elem_of_fmap. intros (c & Ec & Hc).
      apply (replan_existing _ _ _ _ _ Hrows) in Hc as [Hrd _]. rewrite <- Ec in Hrd. apply rd_Some in Hrd as [? _]. congruence.
    + intros Hu. apply (replan_rows_spec _ _ _ _ Hrows) in Hu as (row & Hin & _). apply elem_of_table_iter in Hin. congruence.
  - exists t'. split_and!; [done..|]. apply rd_Some. done.
Qed.

(** The dependencies counted as succeeded still are. *)
Lemma final_succeeded d : d ∈ S -> exists cd, rd (final_children existing undec) (child_key f d) = Some cd /\ ch_status cd = Succeeded.
Proof.
  intros (c & Hc & Hs & <- & Ht)%HS. pose proof Hc as [Hrd _]%(replan_existing _ _ _ _ _ Hrows).
  exists (rewritten c). split; [by apply final_children_own|].
  destruct (k_child _ _ _ K _ _ Hrd) as (_ & _ & _ & _ & Hloc). by apply (rewritten_status c Hloc).
Qed.

Lemma final_deps deps : (forall d, d ∈ deps -> d ∈ S) -> deps_done (final_children existing undec) f deps.
Proof. intros H d Hd. by apply final_succeeded, H. Qed.

(** No attempt of the fleet is live any more. *)
Lemma final_no_live k a : rd A' k = Some a -> att_is_live a = true -> rd A k = Some a /\ at_fleet_id a <> f.
Proof.
  intros Ha Hl. destruct (ps_live _ _ _ Hpass _ _ Ha Hl) as [HaA Hin]. split; [done|]. intros Ef.
  destruct (Hin Ef) as (c & Hc & _). set_solver.
Qed.

Lemma replan_kinv : kinv (<[f := Json fl']> F) (final_children existing undec) A'.
Proof.
  destruct Hfl' as (Efl & Hflv & Hres). constructor.
  - by apply intact_insert, K.
  - apply final_children_intact.
  - apply Hpass.
  - intros k x [[<- <-]|[_ Hr]]%rd_insert_Some; [done|by apply K|done].
  - intros k c' [Hr Hne|c Hr Ef -> ->|t Ht -> ->]%final_children_rd.
    + destruct (k_child _ _ _ K _ _ Hr) as (? & ? & ? & ? & ?). split_and!; try done. by apply insert_is_Some.
    + destruct (k_child _ _ _ K _ _ Hr) as (_ & ? & ? & _ & Hloc). destruct (rewritten_ids c) as (-> & -> & _).
      rewrite Ef. split_and!; try done; [rewrite lookup_insert_is_Some'; by left|by apply rewritten_status].
    + fields. rewrite Forall_forall in Htasks. split_and!; [done|done|by apply Htasks|rewrite lookup_insert_is_Some'; by left|].
      unfold child_local. cbn. by destruct (readiness_cases (pt_deps t)) as [->|[-> _]].
  - apply Hpass.
  - intros k a Ha Hl. destruct (final_no_live _ _ Ha Hl) as [HaA Hne].
    destruct (k_live _ _ _ K _ _ HaA Hl) as (Hn & c & Hc & Hcur & Hst & Hg). split; [done|]. exists c. split_and!; [|done..|].
    + unfold rd in *. rewrite (final_children_other _ (at_fleet_id a) (at_child_id a)); done.
    + intros x. rewrite rd_insert_ne by done. apply Hg.
  - intros k c' aid Hc' Hfly Hcur. apply final_children_rd in Hc' as [Hr Hne|c Hr Ef -> ->|t Ht -> ->].
    + destruct (k_inflight _ _ _ K _ _ _ Hr Hfly Hcur) as (a & Ha & Hl & Haf). exists a. split_and!; [|done..].
      apply (ps_foreign _ _ _ Hpass); [done|congruence].
    + destruct (k_child _ _ _ K _ _ Hr) as (_ & _ & _ & _ & Hloc). destruct (rewritten_status c Hloc) as (_ & Hno & _). congruence.
    + cbn in Hfly. by destruct (readiness_cases (pt_deps t)) as [E|[E _]]; rewrite E in Hfly.
  - intros k x [[<- <-]|[Hne Hr]]%rd_insert_Some; [..|done].
    + rewrite Hres. apply (ps_sum _ _ _ Hpass).
    + rewrite (k_budget _ _ _ K _ _ Hr). symmetry. by apply (ps_others _ _ _ Hpass).
  - intros k c' Hc' Hst. apply final_children_rd in Hc' as [Hr Hne|c Hr Ef -> ->|t Ht -> ->].
    + intros d Hd. destruct (k_ready _ _ _ K _ _ Hr Hst d Hd) as (cd & Hcd & Hs). exists cd. split; [|done].
      destruct (k_child _ _ _ K _ _ Hr) as (_ & Hn & _). unfold rd in *.
      rewrite (final_children_other _ (ch_fleet_id c') d); done.
    + destruct (k_child _ _ _ K _ _ Hr) as (_ & _ & _ & _ & Hloc). destruct (rewritten_status c Hloc) as (_ & _ & Hd & _).
      destruct (rewritten_ids c) as (-> & _). rewrite Ef. by apply final_deps, Hd.
    + cbn in *. destruct (readiness_cases (pt_deps t)) as [E|[E Hd]]; rewrite E in Hst; [done|]. by apply final_deps.
Qed.
End final.
End pass.

(** ** The operation *)

Lemma find_task_is_Some tasks id : is_Some (find_task tasks id) <-> id ∈ (pt_task_id <$> tasks).
Proof.
  unfold find_task. rewrite fmap_is_Some. rewrite list_elem_of_fmap. split.
  - intros [[i t] (H & ? & _)%list_find_Some]. exists t. split; [done|]. by eapply list_elem_of_lookup_2.
  - intros (t & -> & Hin). destruct (list_find_elem_of (fun t' => pt_task_id t' = pt_task_id t) tasks t) as [? ->]; eauto.
Qed.

Lemma surviving_succeeded_spec tasks existing d :
  d ∈ surviving_succeeded tasks existing <->
  exists c, c ∈ existing /\ ch_status c = Succeeded /\ ch_child_id c = d /\ is_Some (find_task tasks d).
Proof.
  unfold surviving_succeeded. rewrite elem_of_list_to_set, list_elem_of_fmap. setoid_rewrite list_elem_of_filter.
  setoid_rewrite find_task_is_Some. naive_solver.
Qed.

(** A re-plan the revision check, the fence and the freeze let through. *)
Record replan_admitted (f : string) (rev : Z) (new_plan : DurablePlan) (db : Db) (fl : FleetRecord)
    (existing : list FleetChildRecord) (undec : gset string) : Prop := {
  ra_safe : no_nul f /\ Forall (fun t => no_nul (pt_task_id t)) (dp_tasks new_plan);
  ra_revision : exists p, rd (db_plans db) f = Some p /\ dp_revision p = rev;
  ra_fleet : rd (db_fleets db) f = Some fl /\ fleet_is_live fl = true;
  ra_rows : replan_rows f (table_iter (db_children db)) = Ok (existing, undec);
  ra_thawed : forall t, t ∈ dp_tasks new_plan -> frozen existing t = false;
  ra_bounds : (fl_generation fl + 1 <= u64_max)%Z /\ (rev + 1 <= u64_max)%Z;
}.

(** Its result. *)
Definition replanned (f : string) (rev : Z) (new_plan : DurablePlan) (now : Z) (db : Db) (fl : FleetRecord)
    (existing : list FleetChildRecord) (undec : gset string) (A' : gmap string (Row Attempt)) : Db :=
  let tasks := dp_tasks new_plan in
  let S := surviving_succeeded tasks existing in
  let gen := (fl_generation fl + 1)%Z in
  let fl' := fl_update (bg_set_reserved 0 (fl_budget fl)) (fl_status fl) gen now fl in
  set_children (final_children (db_children db) f tasks S gen now existing undec)
    (set_attempts A'
      (set_plans (<[f := Json (dp_set f (rev + 1) tasks new_plan)]> (db_plans db))
        (set_fleets (<[f := Json fl']> (db_fleets db)) db))).

Lemma replan_pass f new_plan now db fl existing undec :
  db_inv db -> no_nul f -> rd (db_fleets db) f = Some fl ->
  replan_rows f (table_iter (db_children db)) = Ok (existing, undec) ->
  let tasks := dp_tasks new_plan in
  let S := surviving_succeeded tasks existing in
  let gen := (fl_generation fl + 1)%Z in
  exists A', try_fold (replan_child f tasks S gen now)
      (db_children db, db_attempts db, bg_tokens_reserved (fl_budget fl)) existing =
      Ok (foldl (restart f tasks S gen now) (db_children db) existing, A', 0%Z) /\
    passing (db_children db) (db_attempts db) f tasks S gen now existing []
      (foldl (restart f tasks S gen now) (db_children db) existing, A', 0%Z).
Proof.
  intros I Hf Hfl Hrows tasks S gen. pose proof (i_kernel _ I) as K.
  pose proof (replan_rows_nodup _ _ _ _ Hrows (NoDup_table_iter _)) as Hn.
  destruct (try_fold_total (replan_child f tasks S gen now)
    (fun todo st => NoDup (ch_child_id <$> todo) /\ (forall c, c ∈ todo -> c ∈ existing) /\
       passing (db_children db) (db_attempts db) f tasks S gen now existing todo st)
    existing (db_children db, db_attempts db, bg_tokens_reserved (fl_budget fl)))
    as (st & Hfold & _ & _ & P).
  - intros st c todo (Hnd & Hin & P). pose proof (Hin c ltac:(by left)) as [Hc Ef]%(replan_existing _ _ _ _ _ Hrows).
    destruct (replan_passing_step _ _ _ f tasks S gen now K existing c todo st Hf Hnd Hc Ef P) as (st' & H & P'). exists st'. split; [done|].
    split_and!; [by inversion Hnd|intros; apply Hin; by right|done].
  - split_and!; [done|done|]. constructor; cbn; [by exists []|apply K|apply K|by apply (k_budget _ _ _ K)|done| |done|done|by left].
    + intros k a Ha Hl. split; [done|]. intros Haf. destruct (k_live _ _ _ K _ _ Ha Hl) as (_ & c & Hc & _).
      rewrite Haf in Hc. destruct (k_child _ _ _ K _ _ Hc) as (Ek & Hnf & _). apply child_key_inj in Ek as [Ef Ec]; [|done..].
      exists c. split; [|done]. apply (replan_existing _ _ _ _ _ Hrows). by rewrite <- Ec.
  - destruct st as [[Ch A'] r]. exists A'.
    assert (r = 0%Z) as ->.
    { pose proof (ps_sum _ _ _ _ _ _ _ _ _ _ P) as Hs. cbn in Hs. rewrite Hs. apply map_sum_zero. intros k row Hk.
      unfold weight. destruct (readable row) as [a|] eqn:Ea; [|done]. cbn.
      assert (rd A' k = Some a) as Ha by (unfold rd; by rewrite Hk).
      destruct (att_is_live a) eqn:Hl; [|by apply weight_of_idle]. apply weight_of_other. intros Haf.
      destruct (ps_live _ _ _ _ _ _ _ _ _ _ P _ _ Ha Hl) as [_ Hin]. destruct (Hin Haf) as (? & ? & _). set_solver. }
    destruct (ps_split _ _ _ _ _ _ _ _ _ _ P) as (done & Hd & Hch). rewrite app_nil_r in Hd. subst done. cbn in Hch. subst Ch.
    done.
Qed.

(** What a re-plan returns and does, on every branch that is not an error. *)
Lemma replan_Ok f rev new_plan now db o db' :
  db_inv db -> replan f rev new_plan now db = Ok (o, db') ->
  (db' = db /\ (forall r, o <> Mutated r)) \/
  exists fl existing undec A', o = Mutated (rev + 1) /\ replan_admitted f rev new_plan db fl existing undec /\
    db' = replanned f rev new_plan now db fl existing undec A' /\
    passing (db_children db) (db_attempts db) f (dp_tasks new_plan) (surviving_succeeded (dp_tasks new_plan) existing)
      (fl_generation fl + 1) now existing []
      (foldl (restart f (dp_tasks new_plan) (surviving_succeeded (dp_tasks new_plan) existing) (fl_generation fl + 1) now)
         (db_children db) existing, A', 0%Z).
Proof.
  intros I H. unfold replan in H.
  apply bind_Ok in H as ([] & Hsafe%ensure_key_safe_nul & H). apply bind_Ok in H as (u & Htasks%ensure_tasks_safe_nul & H).
  apply Forall_cons in Hsafe as [Hf _].
  apply bind_Ok in H as (pj & Hpj%ok_or_Ok & H). apply bind_Ok in H as (op & Hop & H).
  apply bind_Ok in H as (plan & Hplan%ok_or_Ok & H). subst op. apply decode_Some in Hop as [-> Hpv].
  destruct (eqb (dp_fleet_id plan) f) eqn:Ep; [|done]. cbn [negb] in H.
  destruct (dp_revision plan =? rev)%Z eqn:Erev; [|left; injection H as <- <-; done]. cbn [negb] in H.
  apply bind_Ok in H as (fj & Hfj%ok_or_Ok & H). apply bind_Ok in H as (fo & Hfo & H).
  apply bind_Ok in H as (fl & Hfl%ok_or_Ok & H). subst fo. apply decode_Some in Hfo as [-> Hfv].
  destruct (eqb (fl_fleet_id fl) f) eqn:Ef; [|done]. cbn [negb] in H.
  destruct (fleet_is_live fl) eqn:Hlive; [|left; injection H as <- <-; done]. cbn [negb] in H.
  apply bind_Ok in H as (gen & Hgen%ok_or_Ok & H). apply bind_Ok in H as (nrev & Hrev%ok_or_Ok & H).
  apply u64_checked_add_Some in Hgen as [-> Hgb], Hrev as [-> Hrb].
  apply bind_Ok in H as ([existing undec] & Hrows & H). cbn beta iota zeta in H.
  destruct (list_find (fun t => frozen existing t = true) (dp_tasks new_plan)) as [[i t]|] eqn:Efr.
  { left. injection H as <- <-. done. }
  assert (Hrd : rd (db_fleets db) f = Some fl) by (by apply rd_Some).
  destruct (replan_pass f new_plan now db fl existing undec I Hf Hrd Hrows) as (A' & Hfold & P).
  rewrite Hfold in H. cbn in H. injection H as <- <-. right. exists fl, existing, undec, A'. split_and!; [done| |done|done].
  constructor; try done.
  - exists plan. split; [by apply rd_Some|lia].
  - intros t Ht. apply list_find_None in Efr. rewrite Forall_forall in Efr. apply not_true_iff_false. by apply Efr.
Qed.

Lemma replan_inv f rev new_plan now db o db' :
  db_inv db -> replan f rev new_plan now db = Ok (o, db') -> db_inv db'.
Proof.
  intros I H. destruct (replan_Ok _ _ _ _ _ _ _ I H) as [[-> _]|(fl & existing & undec & A' & -> & Ra & -> & P)]; [done|].
  destruct Ra as [[Hf Htasks] _ [Hfl _] Hrows _ _]. pose proof (rd_version _ _ _ Hfl) as Hfv.
  pose proof (k_fleet _ _ _ (i_kernel _ I) _ _ Hfl) as Eid.
  constructor; cbn.
  - eapply (replan_kinv _ _ _ _ _ _ _ _ (i_kernel _ I)); [done|done|done|apply surviving_succeeded_spec|exact P|].
    by fields.
  - apply intact_insert; [done|apply I].
  - intros k p [[<- <-]|[_ Hr]]%rd_insert_Some; [..|done].
    + split; [done|]. rewrite lookup_insert_is_Some'. by left.
    + destruct (i_plan _ I _ _ Hr) as [-> ?]. split; [done|]. by apply insert_is_Some.
  - apply I.
  - apply I.
Qed.
