(* ===== verification/FleetEffects.v ===== *)
(** * What a store call can touch

    One relation between the database before and after a call: a row is untouched, or written
    over a row of a touched fleet that this binary reads, or written where nothing was stored;
    an attempt is only ever rewritten while it is live.  Every call satisfies it for the fleet
    it names, which gives isolation of fleets, survival of a newer daemon's rows and
    immutability of settled attempts. *)
From S2P Require Import Prelude RustStr RustNum Grant FleetRecords FleetStore FleetFacts FleetInv FleetOps FleetReplan.
Open Scope octos_scope.

(** ** One table *)

Section upd.
Context `{Versioned A}.
Implicit Types (t : gmap string (Row A)) (R : string -> option A -> A -> Prop).

(** The readable old record (or none) and the new one are related by [R]. *)
Definition upd (R : string -> option A -> A -> Prop) (t t' : gmap string (Row A)) : Prop := forall k,
  t' !! k = t !! k \/ exists o a', t' !! k = Some (Json a') /\ (schema_version a' <= SCHEMA_VERSION)%Z /\ R k o a' /\
    ((o = None /\ t !! k = None) \/ exists a, o = Some a /\ rd t k = Some a).

Lemma upd_refl R t : upd R t t.
Proof. intros k. by left. Qed.

Lemma upd_new R t k a : (schema_version a <= SCHEMA_VERSION)%Z -> t !! k = None -> R k None a -> upd R t (<[k := Json a]> t).
Proof.
  intros Hv Hn HR k'. destruct (decide (k = k')) as [<-|]; [|left; by rewrite lookup_insert_ne].
  right. exists None, a. rewrite lookup_insert_eq. eauto 10.
Qed.

Lemma upd_over R t k a a' :
  (schema_version a' <= SCHEMA_VERSION)%Z -> rd t k = Some a -> R k (Some a) a' -> upd R t (<[k := Json a']> t).
Proof.
  intros Hv Hr HR k'. destruct (decide (k = k')) as [<-|]; [|left; by rewrite lookup_insert_ne].
  right. exists (Some a), a'. rewrite lookup_insert_eq. eauto 10.
Qed.

Lemma upd_trans R t1 t2 t3 :
  (forall k o a b, R k o a -> R k (Some a) b -> R k o b) -> upd R t1 t2 -> upd R t2 t3 -> upd R t1 t3.
Proof.
  intros HR H12 H23 k. destruct (H23 k) as [->|(o & a' & E3 & Hv & HRo & Ho)]; [apply H12|].
  destruct (H12 k) as [E12|(o1 & a1 & E2 & Hv1 & HR1 & Ho1)].
  - right. exists o, a'. split_and!; try done. unfold rd in *. by rewrite <- E12.
  - right. exists o1, a'. split_and!; try done. eapply HR; [exact HR1|].
    destruct Ho as [[_ Hn]|(a & -> & Hr)]; [congruence|]. apply rd_Some in Hr as [Hr _]. by simplify_eq.
Qed.

Lemma upd_impl R R' t t' : (forall k o a, R k o a -> R' k o a) -> upd R t t' -> upd R' t t'.
Proof. intros HR H1 k. destruct (H1 k) as [->|(o & a & ? & ? & ? & ?)]; [by left|right]. exists o, a. eauto. Qed.

(** A row this binary does not read is never overwritten. *)
Lemma upd_opaque R t t' k row : upd R t t' -> t !! k = Some row -> readable row = None -> t' !! k = Some row.
Proof.
  intros H1 Hk Hr. destruct (H1 k) as [->|(o & a' & _ & _ & _ & [[_ Hn]|(a & _ & Ha)])]; [done|congruence|].
  unfold rd in Ha. rewrite Hk in Ha. cbn in Ha. congruence.
Qed.
End upd.

(** ** The whole database *)

(** The structure of a plan: its ids and their dependencies. *)
Definition shape (p : DurablePlan) : list (string * list string) :=
  (fun t => (pt_task_id t, pt_deps t)) <$> dp_tasks p.

(** An event under a new claim, or acknowledged: what it reports is the same. *)
Definition same_event (e e' : OutboxEvent) : Prop :=
  ob_sequence e' = ob_sequence e /\ ob_event_id e' = ob_event_id e /\ ob_fleet_id e' = ob_fleet_id e /\
  ob_child_id e' = ob_child_id e /\ ob_attempt_id e' = ob_attempt_id e /\ ob_kind e' = ob_kind e /\
  ob_payload e' = ob_payload e.

(** [G] are the fleets that may be touched; with [D] a plan may be stored and dependencies changed. *)
Section effect.
Context (G : string -> Prop) (D : Prop).

Definition fleet_upd (k : string) (o : option FleetRecord) (f : FleetRecord) : Prop := G k.
Definition plan_upd (k : string) (o : option DurablePlan) (p : DurablePlan) : Prop :=
  G k /\ (o = None -> D) /\ forall p0, o = Some p0 -> D \/ shape p = shape p0.
Definition child_upd (k : string) (o : option FleetChildRecord) (c : FleetChildRecord) : Prop :=
  G (ch_fleet_id c) /\ forall c0, o = Some c0 -> G (ch_fleet_id c0) /\ (D \/ ch_deps c = ch_deps c0).
Definition attempt_upd (k : string) (o : option Attempt) (a : Attempt) : Prop :=
  G (at_fleet_id a) /\ forall a0, o = Some a0 -> G (at_fleet_id a0) /\ att_is_live a0 = true.
Definition decision_upd (k : string) (o : option DecisionEntry) (d : DecisionEntry) : Prop := o = None.
Definition outbox_upd (k : string) (o : option OutboxEvent) (e : OutboxEvent) : Prop :=
  forall e0, o = Some e0 -> same_event e0 e /\ (ob_acked e0 = true -> e = e0).

Record effect (db db' : Db) : Prop := {
  ef_fleets : upd fleet_upd (db_fleets db) (db_fleets db');
  ef_children : upd child_upd (db_children db) (db_children db');
  ef_attempts : upd attempt_upd (db_attempts db) (db_attempts db');
  ef_plans : upd plan_upd (db_plans db) (db_plans db');
  ef_decisions : upd decision_upd (db_decisions db) (db_decisions db');
  ef_outbox : upd outbox_upd (db_outbox db) (db_outbox db');
}.

Lemma effect_refl db : effect db db.
Proof. constructor; apply upd_refl. Qed.

Lemma child_upd_trans k o a b : child_upd k o a -> child_upd k (Some a) b -> child_upd k o b.
Proof.
  intros [_ Ho] [Hb Hb']. split; [done|]. intros c0 Hc0. destruct (Ho c0 Hc0) as [? Hd], (Hb' a eq_refl) as [_ Hd'].
  split; [done|]. destruct Hd, Hd'; try by left. right. congruence.
Qed.

Lemma effect_trans db1 db2 db3 : effect db1 db2 -> effect db2 db3 -> effect db1 db3.
Proof.
  intros [] []. constructor; (eapply upd_trans; [|eassumption|eassumption]).
  - done.
  - apply child_upd_trans.
  - intros k o a b [_ Ho] [Hb _]. done.
  - intros k o a b (_ & Hn & Ho) (Hb & _ & Hb'). split_and!; [done..|]. intros p0 Hp0.
    destruct (Ho p0 Hp0), (Hb' a eq_refl); try by left. right. congruence.
  - done.
  - intros k o a b Ho Hb e0 He0. destruct (Ho e0 He0) as [(? & ? & ? & ? & ? & ? & ?) Ha], (Hb a eq_refl) as [(? & ? & ? & ? & ? & ? & ?) Hb'].
    split; [unfold same_event; split_and!; congruence|]. intros Hk. rewrite (Ha Hk) in Hb'. by apply Hb'.
Qed.

Lemma append_upd db event n outbox :
  db_inv db -> append_outbox (db_outbox db) event = Ok (n, outbox) -> upd outbox_upd (db_outbox db) outbox.
Proof.
  intros I H. apply append_outbox_spec in H as (Hn & -> & Hmax); [|apply I]. apply upd_new; [done| |done].
  destruct (db_outbox db !! outbox_key n) eqn:E; [|done]. specialize (Hmax n Hn ltac:(eauto)). lia.
Qed.
End effect.

(** The record written over is the one just read. *)
Ltac over_read := intros ? [= <-]; first [done | by right | by left | split; [done|]; first [by right | by left]].

(** ** Creation *)

Lemma create_fleet_effect f key root prof budget hard now db o db' :
  create_fleet f key root prof budget hard now db = Ok (o, db') -> effect (eq f) False db db'.
Proof.
  intros H. unfold create_fleet in H. follow H. subst. constructor; cbn; try apply upd_refl. by apply upd_new.
Qed.

Lemma create_plan_effect plan db o db' :
  create_plan plan db = Ok (o, db') -> effect (eq (dp_fleet_id plan)) True db db'.
Proof.
  intros H. unfold create_plan in H. follow H; subst; [apply effect_refl|]. constructor; cbn; try apply upd_refl.
  by apply upd_new.
Qed.

Lemma add_child_effect f cid deps now db o db' :
  add_child f cid deps now db = Ok (o, db') -> effect (eq f) False db db'.
Proof.
  intros H. unfold add_child in H. follow H. subst. constructor; cbn; try apply upd_refl. by apply upd_new.
Qed.

Lemma create_children_upd f now tasks C C' :
  try_fold (create_child f now) C tasks = Ok C' -> upd (child_upd (eq f) False) C C'.
Proof.
  apply (try_fold_inv (create_child f now) (upd (child_upd (eq f) False) C)); [|apply upd_refl].
  intros C0 t C1 _ HC H. unfold create_child in H. follow H. subst.
  eapply upd_trans; [|exact HC|by apply upd_new]. apply child_upd_trans.
Qed.

Lemma create_fleet_with_plan_effect key root hint prof budget hard plan now db o db' :
  create_fleet_with_plan_and_workspace_provenance key root hint prof budget hard plan now db = Ok (o, db') ->
  effect (eq (dp_fleet_id plan)) True db db'.
Proof.
  intros H. unfold create_fleet_with_plan_and_workspace_provenance in H. follow H. subst.
  constructor; cbn; try apply upd_refl; [by apply upd_new| |by apply upd_new].
  eapply upd_impl; [|by eapply create_children_upd]. intros k o a [? Ho]. split; [done|]. intros c0 Hc0.
  destruct (Ho c0 Hc0) as [? [[]|?]]; eauto.
Qed.

Lemma cancel_fleet_effect f now db o db' : cancel_fleet f now db = Ok (o, db') -> effect (eq f) False db db'.
Proof.
  intros H. unfold cancel_fleet in H. follow H; subst; try apply effect_refl.
  constructor; cbn; try apply upd_refl. pose proof (rd_version _ _ _ Hx0). by eapply upd_over.
Qed.

(** ** Readiness *)

Lemma mark_ready_effect f cid now db o db' : mark_ready f cid now db = Ok (o, db') -> effect (eq f) False db db'.
Proof.
  intros H. unfold mark_ready in H. follow H; subst; try apply effect_refl. unfold owns_child in *. bool_to_prop.
  match goal with E : eqb (ch_fleet_id _) _ = true |- _ => apply eqb_true in E end.
  constructor; cbn; try apply upd_refl. eapply upd_over; [done|by apply rd_Some|]. split; [done|]. over_read.
Qed.

Lemma heal_fold_upd f S now recs : forall C,
  NoDup (ch_child_id <$> recs) -> no_nul f ->
  (forall c, c ∈ recs -> ch_fleet_id c = f /\ rd C (child_key f (ch_child_id c)) = Some c) ->
  upd (child_upd (eq f) False) C (foldl (write_healed f S now) C recs).
Proof.
  induction recs as [|c recs IH]; intros C Hn Hf Hrows; [apply upd_refl|]. cbn. inversion Hn as [|? ? Hc Hn']; subst.
  destruct (Hrows c) as [Ef Hr]; [by left|]. unfold write_healed at 2, heal.
  destruct (promotable S c); [|apply IH; [done|done|intros; apply Hrows; by right]].
  pose proof (rd_version _ _ _ Hr) as Hv.
  eapply upd_trans; [apply child_upd_trans| |apply IH; [done|done|]].
  - eapply upd_over; [done|exact Hr|]. split; [done|]. over_read.
  - intros c' Hin. destruct (Hrows c') as [? ?]; [by right|]. split; [done|]. rewrite rd_insert_ne; [done|].
    intros [_ E]%child_key_inj; [|done..]. apply Hc. rewrite E. by apply list_elem_of_fmap_2.
Qed.

Lemma resolve_effect f now db o db' : resolve_and_collect_ready f now db = Ok (o, db') -> effect (eq f) False db db'.
Proof.
  intros H. unfold resolve_and_collect_ready in H. follow H; subst; [apply effect_refl|].
  match goal with E : foldl _ _ _ = _ |- _ => rewrite resolve_fold in E; injection E as <- _ end.
  constructor; cbn; try apply upd_refl. apply heal_fold_upd; [by eapply NoDup_fleet_children|done|].
  intros c. by apply elem_of_fleet_children.
Qed.

(** ** Attempts *)

Lemma owns_child_true f cid c : owns_child f cid c = true -> ch_fleet_id c = f /\ ch_child_id c = cid.
Proof. unfold owns_child. intros [? ?]%andb_true_iff. by rewrite <- !eqb_true. Qed.

Lemma owns_attempt_true cid aid a : owns_attempt cid aid a = true -> at_child_id a = cid /\ at_attempt_id a = aid.
Proof. unfold owns_attempt. intros [? ?]%andb_true_iff. by rewrite <- !eqb_true. Qed.

(** A child row rewritten under its own ids. *)
Lemma child_over f C k c c' :
  rd C k = Some c -> ch_fleet_id c = f -> ch_fleet_id c' = f -> ch_deps c' = ch_deps c -> (ch_schema_version c' <= SCHEMA_VERSION)%Z ->
  upd (child_upd (eq f) False) C (<[k := Json c']> C).
Proof. intros Hr Ef Ef' Hd Hv. eapply upd_over; [done|exact Hr|]. split; [done|]. over_read. Qed.

Lemma attempt_over f A k a a' :
  rd A k = Some a -> at_fleet_id a = f -> att_is_live a = true -> at_fleet_id a' = f ->
  (at_schema_version a' <= SCHEMA_VERSION)%Z -> upd (attempt_upd (eq f)) A (<[k := Json a']> A).
Proof. intros Hr Ef Hl Ef' Hv. eapply upd_over; [done|exact Hr|]. split; [done|]. over_read. Qed.

Lemma fleet_over f F fl fl' :
  rd F f = Some fl -> (fl_schema_version fl' <= SCHEMA_VERSION)%Z -> upd (fleet_upd (eq f)) F (<[f := Json fl']> F).
Proof. intros Hr Hv. by eapply upd_over. Qed.

Lemma launch_child_effect f cid proj now epoch ttl aid eid db o db' :
  db_inv db -> db_attempts db !! attempt_key cid aid = None ->
  launch_child f cid proj now epoch ttl aid eid db = Ok (o, db') -> effect (eq f) False db db'.
Proof.
  intros I Hfresh H. unfold launch_child in H. follow H; subst; try apply effect_refl.
  match goal with E : owns_child _ _ _ = true |- _ => apply owns_child_true in E as [Ef Ec] end.
  pose proof (rd_version _ _ _ Hx0). pose proof (rd_version _ _ _ Hx1).
  constructor; cbn; try apply upd_refl.
  - by eapply fleet_over.
  - by eapply child_over.
  - by apply upd_new.
  - by eapply append_upd.
Qed.

Lemma mark_running_effect cid aid db o db' :
  mark_running cid aid db = Ok (o, db') ->
  db' = db \/ exists a, rd (db_attempts db) (attempt_key cid aid) = Some a /\ effect (eq (at_fleet_id a)) False db db'.
Proof.
  intros H. unfold mark_running in H. follow H; subst; try by left. right. exists a. split; [done|].
  match goal with E : owns_child _ _ _ = true |- _ => apply owns_child_true in E as [Ef Ec] end.
  pose proof (rd_version _ _ _ Hx0). pose proof (rd_version _ _ _ Hx1).
  constructor; cbn; try apply upd_refl.
  - by eapply child_over.
  - eapply attempt_over; try done. unfold att_is_live. by case_match.
Qed.

Lemma settle_write_effect f cid aid eid epoch c c' a a' fl fl' db db' :
  db_inv db -> fenced db f cid aid epoch c a fl ->
  ch_fleet_id c' = ch_fleet_id c -> ch_deps c' = ch_deps c -> (ch_schema_version c' <= SCHEMA_VERSION)%Z ->
  at_fleet_id a' = at_fleet_id a -> at_schema_version a' = at_schema_version a ->
  fl_schema_version fl' = fl_schema_version fl ->
  settle_write f cid aid eid c' a' fl' db = Ok db' -> effect (eq f) False db db'.
Proof.
  intros I [Hc Ha Hf Ho Hoa Haf _ _ Hrun _ _] E1 Ed E2 E3 E4 E5 H. unfold settle_write in H. follow H. subst.
  apply owns_child_true in Ho as [Ef Ec]. pose proof (rd_version _ _ _ Hf) as Hfv. pose proof (rd_version _ _ _ Ha) as Hav.
  change (fl_schema_version fl <= SCHEMA_VERSION)%Z in Hfv. change (at_schema_version a <= SCHEMA_VERSION)%Z in Hav.
  constructor; cbn; try apply upd_refl.
  - eapply fleet_over; [done|lia].
  - eapply child_over; [exact Hc|congruence|congruence|done|done].
  - eapply attempt_over; [done|done| |done|lia]. unfold att_is_live. by rewrite Hrun.
  - by eapply append_upd.
Qed.

Lemma complete_child_effect f cid aid v snap actual epoch now eid db o db' :
  db_inv db -> complete_child f cid aid v snap actual epoch now eid db = Ok (o, db') -> effect (eq f) False db db'.
Proof.
  intros I H. unfold complete_child in H. follow H; subst; [|apply effect_refl]. apply settle_fence_Some in Hx0 as Fe.
  destruct (fenced_local _ _ _ _ _ _ _ _ I Fe) as (_ & _ & _ & Hv).
  eapply settle_write_effect; [done|exact Fe| | | | | | |eassumption]; done.
Qed.

Lemma record_escalation_effect f cid aid req actual epoch now eid db o db' :
  db_inv db -> record_escalation f cid aid req actual epoch now eid db = Ok (o, db') -> effect (eq f) False db db'.
Proof.
  intros I H. unfold record_escalation in H. follow H; subst; [|apply effect_refl]. apply settle_fence_Some in Hx0 as Fe.
  eapply settle_write_effect; [done|exact Fe| | | | | | |eassumption]; done.
Qed.

(** ** Edits and decisions *)

Lemma update_task_shape id f tasks tasks' :
  (forall t, pt_task_id (f t) = pt_task_id t /\ pt_deps (f t) = pt_deps t) -> update_task id f tasks = Some tasks' ->
  (fun t => (pt_task_id t, pt_deps t)) <$> tasks' = (fun t => (pt_task_id t, pt_deps t)) <$> tasks.
Proof.
  intros Hf. revert tasks'. induction tasks as [|t tasks IH]; intros tasks' H; cbn in H; [done|].
  case_bool_decide; [injection H as <-; rewrite !fmap_cons; by destruct (Hf t) as [-> ->]|].
  apply fmap_Some in H as (rest & Hr & ->). rewrite !fmap_cons. f_equal. by apply IH.
Qed.

Lemma retitle_task_effect f rev tid title detail db o db' :
  retitle_task f rev tid title detail db = Ok (o, db') -> effect (eq f) False db db'.
Proof.
  intros H. unfold retitle_task in H. follow H; subst; try apply effect_refl. constructor; cbn; try apply upd_refl.
  eapply upd_over; [done|by apply rd_Some|]. split_and!; [done..|]. intros ? [= <-]. right. by eapply update_task_shape; [|eassumption].
Qed.

Lemma set_task_grant_effect f rev tid grant now db o db' :
  set_task_grant f rev tid grant now db = Ok (o, db') -> effect (eq f) False db db'.
Proof.
  intros H. unfold set_task_grant in H. follow H; subst; try apply effect_refl.
  match goal with E : owns_child _ _ _ = true |- _ => apply owns_child_true in E as [Ef Ec] end.
  match goal with E : rd (db_children _) _ = Some _ |- _ => pose proof (rd_version _ _ _ E); rename E into Hc end.
  constructor; cbn; try apply upd_refl; [by eapply child_over|].
  eapply upd_over; [done|by apply rd_Some|]. split_and!; [done..|]. intros ? [= <-]. right. by eapply update_task_shape; [|eassumption].
Qed.

Lemma deny_escalation_effect f cid reason now eid db o db' :
  db_inv db -> deny_escalation f cid reason now eid db = Ok (o, db') -> effect (eq f) False db db'.
Proof.
  intros I H. unfold deny_escalation in H. follow H; subst; try apply effect_refl.
  match goal with E : owns_child _ _ _ = true |- _ => apply owns_child_true in E as [Ef Ec] end.
  match goal with E : rd (db_children _) _ = Some _ |- _ => pose proof (rd_version _ _ _ E); rename E into Hc end.
  match goal with E : match ?o with _ => _ end = Ok (?g, _) |- _ => rename E into Hplan end.
  constructor; cbn; try apply upd_refl; [by eapply child_over| |by eapply append_upd].
  follow Hplan; subst; simplify_eq; try apply upd_refl. eapply upd_over; [done|eassumption|]. split_and!; [done..|]. over_read.
Qed.

(** ** Re-planning and recovery *)

Lemma replan_effect f rev new_plan now db o db' :
  db_inv db -> replan f rev new_plan now db = Ok (o, db') -> effect (eq f) True db db'.
Proof.
  intros I H. destruct (replan_Ok _ _ _ _ _ _ _ I H) as [[-> _]|(fl & existing & undec & A' & -> & Ra & -> & P)];
    [apply effect_refl|]. destruct Ra as [[Hf Htasks] (p & Hp & _) [Hfl _] Hrows _ _].
  pose proof (rd_version _ _ _ Hfl) as Hfv. constructor; cbn; try apply upd_refl.
  - by eapply fleet_over.
  - intros k. pose proof (final_children_row _ _ _ f (dp_tasks new_plan)
      (surviving_succeeded (dp_tasks new_plan) existing) (fl_generation fl + 1) now (i_kernel _ I) existing undec k Hrows) as Hr.
    inversion Hr as [Hk E|c Hc Hk E|t Ht Hk Ek E]; subst; [by left|right..].
    + apply (replan_existing _ _ _ _ _ Hrows) in Hc as [Hc Ef]. exists (Some c). eexists. split; [done|].
      split; [by eapply rewritten_version|]. split; [split|eauto].
      * by destruct (rewritten_ids (dp_tasks new_plan) (surviving_succeeded (dp_tasks new_plan) existing)
          (fl_generation fl + 1) now c) as (-> & _).
      * over_read.
    + exists None. eexists. split; [done|]. split_and!; try done. by left.
  - intros k. destruct (ps_changed _ _ _ _ _ _ _ _ _ _ P k) as [E|(a & Ha & Hl & Haf & E)]; [by left|right].
    pose proof (rd_version _ _ _ Ha). exists (Some a), (at_interrupt now a). split_and!; try done; [|eauto].
    split; [done|]. over_read.
  - eapply upd_over; [done|eassumption|]. split_and!; [done..|]. over_read.
Qed.

Lemma effect_weaken (G G' : string -> Prop) (D D' : Prop) db db' :
  (forall f, G f -> G' f) -> (D -> D') -> effect G D db db' -> effect G' D' db db'.
Proof.
  intros HG HD []. constructor; (eapply upd_impl; [|eassumption]).
  - intros k o a. apply HG.
  - intros k o a [? Ho]. split; [by apply HG|]. intros c0 Hc0. destruct (Ho _ Hc0) as [? [?|?]]; auto.
  - intros k o a [? Ho]. split; [by apply HG|]. intros c0 Hc0. destruct (Ho _ Hc0). auto.
  - intros k o a (? & ? & Ho). split_and!; [by apply HG|auto|]. intros c0 Hc0. destruct (Ho _ Hc0); auto.
  - done.
  - done.
Qed.

Lemma reconcile_child_effect now epoch st c st' :
  rd (db_children st.1) (child_key (ch_fleet_id c) (ch_child_id c)) = Some c ->
  reconcile_child now epoch st c = Ok st' -> effect (fun _ => True) False st.1 st'.1.
Proof.
  destruct st as [db report]. intros Hc H. cbn [fst] in Hc.
  unfold reconcile_child in H. cbn [fst]. pose proof (rd_version _ _ _ Hc) as Hcv.
  follow H; subst; try apply effect_refl; cbn [fst].
  all: match goal with E : rd (db_fleets _) _ = Some _ |- _ => pose proof (rd_version _ _ _ E); rename E into Hf end.
  all: match goal with E : rd (db_attempts _) _ = Some _ |- _ => pose proof (rd_version _ _ _ E); rename E into Ha end.
  all: constructor; cbn; try apply upd_refl; try (by eapply upd_over).
  all: eapply upd_over; [done|first [exact Ha|exact Hc]|]; split; [done|]; over_read.
Qed.

Lemma reconcile_effect_all now epoch db report db' :
  db_inv db -> reconcile now epoch db = Ok (report, db') -> effect (fun _ => True) False db db'.
Proof.
  intros I H. unfold reconcile in H. apply bind_Ok in H as (rows & Hrows & H). apply bind_Ok in H as ([d r] & Hfold & H).
  injection H as <- <-.
  enough (reconciling now epoch db [] (d, r) /\ effect (fun _ => True) False db (d, r).1) as [_ ?] by done.
  assert (Hgen : forall todo st, reconciling now epoch db todo st -> effect (fun _ => True) False db st.1 ->
    try_fold (reconcile_child now epoch) st todo = Ok (d, r) -> reconciling now epoch db [] (d, r) /\ effect (fun _ => True) False db (d, r).1).
  { induction todo as [|c todo IH]; intros st Rg Ef Hf; cbn in Hf; [injection Hf as ->; done|].
    apply bind_Ok in Hf as (st' & Hst & Hf). destruct (reconciling_step _ _ _ _ _ _ Rg) as (st'' & Hst' & Rg').
    rewrite Hst in Hst'. injection Hst' as <-. apply (IH st'); [done| |done]. eapply effect_trans; [exact Ef|].
    eapply reconcile_child_effect; [|exact Hst]. apply (rg_rows _ _ _ _ _ Rg). by left. }
  apply (Hgen (owned_children rows) (db, [])); [|apply effect_refl|done].
  by apply reconciling_start.
Qed.

(** ** The outbox and the log *)

Definition none : string -> Prop := fun _ => False.

Lemma append_event_effect event db o db' : db_inv db -> append_event event db = Ok (o, db') -> effect none False db db'.
Proof.
  intros I H. unfold append_event in H. follow H. subst. constructor; cbn; try apply upd_refl. by eapply append_upd.
Qed.

Lemma claim_next_effect consumer now ttl token db o db' :
  claim_next consumer now ttl token db = Ok (o, db') -> effect none False db db'.
Proof.
  intros H. unfold claim_next in H. follow H; subst; [|apply effect_refl].
  match goal with E : first_claimable _ _ = Ok (Some (?k, ?e)) |- _ =>
    apply first_claimable_Some in E as (row & l1 & l2 & Hl & Hd & Hk & _); rename k into key end.
  assert (db_outbox db !! key = Some row) as Hrow by (apply elem_of_table_iter; rewrite Hl; set_solver).
  apply decode_Some in Hd as [-> Hv]. constructor; cbn; try apply upd_refl.
  eapply upd_over; [done|by apply rd_Some|]. intros ? [= <-]. split; [done|]. congruence.
Qed.

Lemma ob_set_acked_idem e : ob_acked e = true -> ob_set_acked e = e.
Proof. destruct e. cbn. by intros ->. Qed.

Lemma ack_effect seq consumer token db o db' : ack seq consumer token db = Ok (o, db') -> effect none False db db'.
Proof.
  intros H. unfold ack in H. follow H; subst; [|apply effect_refl]. constructor; cbn; try apply upd_refl.
  eapply upd_over; [done|by apply rd_Some|]. intros ? [= <-]. split; [done|]. by apply ob_set_acked_idem.
Qed.

Lemma max_decision_ge f log k row s : log !! k = Some row -> decision_seq k f = Some s -> (s <= max_decision f log)%Z.
Proof.
  intros Hk Hs. apply elem_of_table_iter in Hk. unfold max_decision. generalize 0%Z. revert Hk.
  assert (Hmono : forall l m, (m <= foldl (fun m '(k, _) => match decision_seq k f with Some s => Z.max m s | None => m end) m
    (l : list (string * Row DecisionEntry)))%Z).
  { induction l as [|[k' row'] l IH]; intros m; [done|]. cbn. destruct (decision_seq k' f); [|apply IH].
    etrans; [|apply IH]. lia. }
  induction (table_iter log) as [|[k' row'] l IH]; intros Hin m; [set_solver|]. cbn.
  apply elem_of_cons in Hin as [[= <- <-]|Hin]; [|by apply IH]. rewrite Hs. etrans; [|apply Hmono]. lia.
Qed.

Lemma max_decision_nonneg f log : (0 <= max_decision f log)%Z.
Proof.
  unfold max_decision. assert (forall l m, (0 <= m)%Z -> (0 <= foldl (fun m '(k, _) =>
    match decision_seq k f with Some s => Z.max m s | None => m end) m (l : list (string * Row DecisionEntry)))%Z) as H; [|by apply H].
  induction l as [|[k' row'] l IH]; intros m Hm; [done|]. cbn. apply IH. destruct (decision_seq k' f); lia.
Qed.

Lemma decision_seq_key f n : (0 <= n <= u64_max)%Z -> decision_seq (decision_key f n) f = Some n.
Proof.
  intros Hn. unfold decision_seq. rewrite (proj2 (strip_child_key f _ (zero_padded 20 n))) by done.
  by apply parse_zero_padded.
Qed.

Lemma append_decision_effect f actor kind note now db o db' :
  append_decision f actor kind note now db = Ok (o, db') -> effect none False db db'.
Proof.
  intros H. unfold append_decision in H. follow H. subst.
  match goal with E : u64_checked_add _ _ = Some _ |- _ => apply u64_checked_add_Some in E as [-> Hb] end.
  pose proof (max_decision_nonneg f (db_decisions db)) as H0.
  constructor; cbn; try apply upd_refl. apply upd_new; [done| |done].
  destruct (db_decisions db !! decision_key f (max_decision f (db_decisions db) + 1)) eqn:E; [|done]. exfalso.
  pose proof (max_decision_ge _ _ _ _ _ E (decision_seq_key f (max_decision f (db_decisions db) + 1) ltac:(lia))). lia.
Qed.
