(* ===== verification/FleetSafety.v ===== *)
(** * Safety of the fleet kernel over every sequence of calls

    A database is reachable when it results from a fresh one by any sequence of calls on the
    store, by any number of keepers, workers and recovering daemons: the [io_gate] makes each
    call one step.  The theorems state what holds in every reachable database. *)
From S2P Require Import Prelude RustStr RustNum Grant FleetRecords FleetStore FleetFacts FleetInv FleetOps.
From S2P Require Import FleetReplan FleetEffects.
From Stdlib Require Import Relations.
Open Scope octos_scope.

(** ** Calls *)

Inductive Call :=
  | CCreateFleet (f key : string) (root : option string) (prof : string) (budget : Z) (hard : bool) (now : Z)
  | CCreatePlan (plan : DurablePlan)
  | CCreateFleetWithPlan (key : string) (root : option string) (hint : option bool) (prof : string) (budget : Z)
      (hard : bool) (plan : DurablePlan) (now : Z)
  | CAddChild (f cid : string) (deps : list string) (now : Z)
  | CMarkReady (f cid : string) (now : Z)
  | CResolve (f : string) (now : Z)
  | CCancel (f : string) (now : Z)
  | CLaunch (f cid : string) (proj now epoch ttl : Z) (aid eid : string)
  | CMarkRunning (cid aid : string)
  | CComplete (f cid aid : string) (v : AcceptanceVerdict) (snap : ChildResultSnapshot) (actual epoch now : Z) (eid : string)
  | CEscalate (f cid aid : string) (req : EscalationRequest) (actual epoch now : Z) (eid : string)
  | CReplan (f : string) (rev : Z) (plan : DurablePlan) (now : Z)
  | CRetitle (f : string) (rev : Z) (tid title detail : string)
  | CGrant (f : string) (rev : Z) (tid : string) (grant : WorkerGrant) (now : Z)
  | CDeny (f cid reason : string) (now : Z) (eid : string)
  | CReconcile (now epoch : Z)
  | CAppendEvent (event : OutboxEvent)
  | CClaim (consumer : string) (now ttl : Z) (token : string)
  | CAck (seq : Z) (consumer token : string)
  | CAppendDecision (f actor : string) (kind : DecisionKind) (note : string) (now : Z).

Definition exec (c : Call) (db : Db) : Db :=
  match c with
  | CCreateFleet f key root prof budget hard now => (in_txn (create_fleet f key root prof budget hard now) db).2
  | CCreatePlan plan => (in_txn (create_plan plan) db).2
  | CCreateFleetWithPlan key root hint prof budget hard plan now =>
      (in_txn (create_fleet_with_plan_and_workspace_provenance key root hint prof budget hard plan now) db).2
  | CAddChild f cid deps now => (in_txn (add_child f cid deps now) db).2
  | CMarkReady f cid now => (in_txn (mark_ready f cid now) db).2
  | CResolve f now => (in_txn (resolve_and_collect_ready f now) db).2
  | CCancel f now => (in_txn (cancel_fleet f now) db).2
  | CLaunch f cid proj now epoch ttl aid eid => (in_txn (launch_child f cid proj now epoch ttl aid eid) db).2
  | CMarkRunning cid aid => (in_txn (mark_running cid aid) db).2
  | CComplete f cid aid v snap actual epoch now eid =>
      (in_txn (complete_child f cid aid v snap actual epoch now eid) db).2
  | CEscalate f cid aid req actual epoch now eid =>
      (in_txn (record_escalation f cid aid req actual epoch now eid) db).2
  | CReplan f rev plan now => (in_txn (replan f rev plan now) db).2
  | CRetitle f rev tid title detail => (in_txn (retitle_task f rev tid title detail) db).2
  | CGrant f rev tid grant now => (in_txn (set_task_grant f rev tid grant now) db).2
  | CDeny f cid reason now eid => (in_txn (deny_escalation f cid reason now eid) db).2
  | CReconcile now epoch => (in_txn (reconcile now epoch) db).2
  | CAppendEvent event => (in_txn (append_event event) db).2
  | CClaim consumer now ttl token => (in_txn (claim_next consumer now ttl token) db).2
  | CAck seq consumer token => (in_txn (ack seq consumer token) db).2
  | CAppendDecision f actor kind note now => (in_txn (append_decision f actor kind note now) db).2
  end.

(** A launch gets a fresh attempt id and an unsigned projection. *)
Definition admissible (db : Db) (c : Call) : Prop :=
  match c with
  | CLaunch f cid proj now epoch ttl aid eid => db_attempts db !! attempt_key cid aid = None /\ (0 <= proj)%Z
  | _ => True
  end.

#[export] Instance admissible_dec db c : Decision (admissible db c).
Proof. destruct c; cbn; apply _. Defined.

Inductive reachable : Db -> Prop :=
  | r_open : reachable open
  | r_call db c : reachable db -> admissible db c -> reachable (exec c db).

Lemma run_inv {A} (op : Db -> result report (A * Db)) db :
  db_inv db -> (forall o db', op db = Ok (o, db') -> db_inv db') -> db_inv (in_txn op db).2.
Proof. intros I H. unfold in_txn. destruct (op db) as [[o db']|e] eqn:E; [by eapply H|done]. Qed.

(** Every call keeps the invariant. *)
Lemma exec_inv db c : db_inv db -> admissible db c -> db_inv (exec c db).
Proof.
  intros I Ha. destruct c; cbn [exec]; apply run_inv; try done; intros o db' H.
  - by eapply create_fleet_inv.
  - by eapply create_plan_inv.
  - by eapply create_fleet_with_plan_inv.
  - by eapply add_child_inv.
  - by eapply mark_ready_inv.
  - by eapply resolve_inv.
  - by eapply cancel_fleet_inv.
  - destruct Ha. by eapply launch_child_inv.
  - by eapply mark_running_inv.
  - by eapply complete_child_inv.
  - by eapply record_escalation_inv.
  - by eapply replan_inv.
  - by eapply retitle_task_inv.
  - by eapply set_task_grant_inv.
  - by eapply deny_escalation_inv.
  - destruct (reconcile_spec now epoch db I) as (r & d & E & I' & _). rewrite E in H. by injection H as _ <-.
  - by eapply append_event_inv.
  - by eapply claim_next_inv.
  - by eapply ack_inv.
  - by eapply append_decision_inv.
Qed.

Lemma reachable_inv db : reachable db -> db_inv db.
Proof. induction 1; [apply inv_open|by apply exec_inv]. Qed.

Fixpoint run_calls (cs : list Call) (db : Db) : Db :=
  match cs with [] => db | c :: cs' => run_calls cs' (exec c db) end.

Fixpoint admissible_all (cs : list Call) (db : Db) : bool :=
  match cs with [] => true | c :: cs' => bool_decide (admissible db c) && admissible_all cs' (exec c db) end.

Lemma run_calls_reachable cs db : reachable db -> admissible_all cs db = true -> reachable (run_calls cs db).
Proof.
  revert db. induction cs as [|c cs IH]; intros db R H; cbn in *; [done|]. bool_to_prop. apply IH; [by constructor|done].
Qed.

(** ** What a call touches *)

Definition touched (c : Call) (db : Db) (g : string) : Prop :=
  match c with
  | CCreateFleet f _ _ _ _ _ _ | CAddChild f _ _ _ | CMarkReady f _ _ | CResolve f _ | CCancel f _
  | CLaunch f _ _ _ _ _ _ _ | CComplete f _ _ _ _ _ _ _ _ | CEscalate f _ _ _ _ _ _ _ | CReplan f _ _ _
  | CRetitle f _ _ _ _ | CGrant f _ _ _ _ | CDeny f _ _ _ _ => g = f
  | CCreatePlan plan => g = dp_fleet_id plan
  | CCreateFleetWithPlan _ _ _ _ _ _ plan _ => g = dp_fleet_id plan
  | CMarkRunning cid aid => exists a, rd (db_attempts db) (attempt_key cid aid) = Some a /\ g = at_fleet_id a
  | CReconcile _ _ => True
  | CAppendEvent _ | CClaim _ _ _ _ | CAck _ _ _ | CAppendDecision _ _ _ _ _ => False
  end.

Lemma run_effect {A} G D (op : Db -> result report (A * Db)) db :
  (forall o db', op db = Ok (o, db') -> effect G D db db') -> effect G D db (in_txn op db).2.
Proof. intros H. unfold in_txn. destruct (op db) as [[o db']|e] eqn:E; [by eapply H|apply effect_refl]. Qed.

(** A call by its effect lemma. *)
Ltac own L := eapply effect_weaken; [| |by eapply L]; first [by intros ? <- | by intros ? [] | done].

(** Only these store a plan or change dependencies. *)
Definition restructures (c : Call) : Prop :=
  match c with CReplan _ _ _ _ | CCreatePlan _ | CCreateFleetWithPlan _ _ _ _ _ _ _ _ => True | _ => False end.

Lemma exec_effect db c : db_inv db -> admissible db c -> effect (touched c db) (restructures c) db (exec c db).
Proof.
  intros I Ha. destruct c; cbn [exec]; apply run_effect; intros o db' H.
  - own create_fleet_effect.
  - own create_plan_effect.
  - own create_fleet_with_plan_effect.
  - own add_child_effect.
  - own mark_ready_effect.
  - own resolve_effect.
  - own cancel_fleet_effect.
  - destruct Ha. own launch_child_effect.
  - destruct (mark_running_effect _ _ _ _ _ H) as [->|(a & Hr & E)]; [apply effect_refl|].
    eapply effect_weaken; [|done|exact E]. intros ? <-. cbn. eauto.
  - own complete_child_effect.
  - own record_escalation_effect.
  - own replan_effect.
  - own retitle_task_effect.
  - own set_task_grant_effect.
  - own deny_escalation_effect.
  - own reconcile_effect_all.
  - own append_event_effect.
  - own claim_next_effect.
  - own ack_effect.
  - own append_decision_effect.
Qed.

(** The rows of a fleet are the same. *)
Record same_fleet (f : string) (db db' : Db) : Prop := {
  sf_fleet : db_fleets db' !! f = db_fleets db !! f;
  sf_plan : db_plans db' !! f = db_plans db !! f;
  sf_children : forall k c, ch_fleet_id c = f -> rd (db_children db') k = Some c <-> rd (db_children db) k = Some c;
  sf_attempts : forall k a, at_fleet_id a = f -> rd (db_attempts db') k = Some a <-> rd (db_attempts db) k = Some a;
}.

Lemma upd_same {A} `{Versioned A} (R : string -> option A -> A -> Prop) (P : A -> Prop) (t t' : gmap string (Row A)) k a :
  upd R t t' -> P a -> (forall k o a', R k o a' -> ~ P a' /\ forall a0, o = Some a0 -> ~ P a0) ->
  rd t' k = Some a <-> rd t k = Some a.
Proof.
  intros H1 Pa HR. destruct (H1 k) as [E|(o & a' & E & Hv & Hr & Ho)]; [unfold rd; by rewrite E|].
  destruct (HR _ _ _ Hr) as [Hn Hn0]. split; intros Hrd.
  - exfalso. apply rd_Some in Hrd as [Hrd _]. assert (a' = a) as -> by congruence. by apply Hn.
  - exfalso. destruct Ho as [[_ Hno]|(a0 & -> & Ha0)]; [apply rd_Some in Hrd as [Hrd _]; congruence|].
    assert (a0 = a) as -> by congruence. by apply (Hn0 a).
Qed.

Lemma effect_same G D f db db' : effect G D db db' -> ~ G f -> same_fleet f db db'.
Proof.
  intros E Hf. constructor.
  - destruct (ef_fleets _ _ _ _ E f) as [?|(? & ? & _ & _ & HG & _)]; [done|by destruct Hf].
  - destruct (ef_plans _ _ _ _ E f) as [?|(? & ? & _ & _ & [HG _] & _)]; [done|by destruct Hf].
  - intros k c Hc. eapply (upd_same _ (fun c => ch_fleet_id c = f)); [apply E|done|].
    intros k' o c' [Hg Ho]. split; [by intros <-|]. intros c0 H0 <-. by apply Hf, Ho.
  - intros k a Ha. eapply (upd_same _ (fun a => at_fleet_id a = f)); [apply E|done|].
    intros k' o a' [Hg Ho]. split; [by intros <-|]. intros a0 H0 <-. by apply Hf, Ho.
Qed.

Lemma same_fleet_refl f db : same_fleet f db db.
Proof. by constructor. Qed.

(** ** The terminal-fleet fence *)

Section terminal.
Context (db : Db) (f : string) (fl : FleetRecord).
Context (I : db_inv db) (Hfl : rd (db_fleets db) f = Some fl) (Hdead : fleet_is_live fl = false).

Lemma terminal_row : db_fleets db !! f = Some (Json fl) /\ decode_row (Json fl) = Ok (Some fl).
Proof. pose proof Hfl as [Hr Hv]%rd_Some. split; [done|]. by apply decode_Some. Qed.

Lemma terminal_not_live : fleet_live db f = Ok false.
Proof.
  unfold fleet_live. rewrite (load_intact _ _ (k_F_ok _ _ _ (i_kernel _ I))), Hfl. cbn. by rewrite Hdead, andb_false_r.
Qed.

Lemma run_same {A} (op : Db -> result report (A * Db)) :
  (forall o db', op db = Ok (o, db') -> db' = db) -> (in_txn op db).2 = db.
Proof. intros H. unfold in_txn. destruct (op db) as [[o db']|e] eqn:E; [by eapply H|done]. Qed.

(** Under a terminal fleet no call on it but recovery changes the database. *)
Lemma terminal_noop c :
  touched c db f -> (forall now epoch, c <> CReconcile now epoch) -> exec c db = db.
Proof.
  destruct terminal_row as [Hrow Hdec]. pose proof terminal_not_live as Hlive.
  intros Ht Hnr. destruct c; cbn [touched] in Ht; subst; cbn [exec]; try done; apply run_same; intros o db' H.
  - unfold create_fleet in H. follow H. congruence.
  - unfold create_plan in H. rewrite Hrow in H. cbn [ok_or] in H. follow H; subst; try done; congruence.
  - unfold create_fleet_with_plan_and_workspace_provenance in H. follow H; congruence.
  - unfold add_child in H. rewrite Hrow in H. cbn [ok_or] in H. follow H; subst; congruence.
  - unfold mark_ready in H. follow H; subst; try done; congruence.
  - unfold resolve_and_collect_ready in H. follow H; subst; try done; congruence.
  - unfold cancel_fleet in H. follow H; subst; try done; congruence.
  - unfold launch_child in H. follow H; subst; try done; congruence.
  - destruct Ht as (a & Ha & ->). unfold mark_running in H. follow H; subst; try done; congruence.
  - unfold complete_child in H. follow H; subst; try done.
    match goal with E : settle_fence _ _ _ _ _ = _ |- _ => apply settle_fence_Some in E as [] end. congruence.
  - unfold record_escalation in H. follow H; subst; try done.
    match goal with E : settle_fence _ _ _ _ _ = _ |- _ => apply settle_fence_Some in E as [] end. congruence.
  - destruct (replan_Ok _ _ _ _ _ _ _ I H) as [[-> _]|(g & ? & ? & ? & _ & Ra & _)]; [done|].
    destruct (ra_fleet _ _ _ _ _ _ _ Ra). congruence.
  - unfold retitle_task in H. follow H; subst; try done; congruence.
  - unfold set_task_grant in H. follow H; subst; try done; congruence.
  - unfold deny_escalation in H. follow H; subst; try done; congruence.
  - by destruct (Hnr now epoch).
Qed.
End terminal.

(** ** Databases that come later *)

Inductive later (db : Db) : Db -> Prop :=
  | l_here : later db db
  | l_call db' c : later db db' -> admissible db' c -> later db (exec c db').

Lemma later_inv db db' : db_inv db -> later db db' -> db_inv db'.
Proof. intros I. induction 1; [done|by apply exec_inv]. Qed.

(** A settled attempt is never written again. *)
Lemma idle_attempt_kept db db' k a :
  db_inv db -> later db db' -> rd (db_attempts db) k = Some a -> att_is_live a = false ->
  rd (db_attempts db') k = Some a.
Proof.
  intros I L Ha Hl. induction L as [|db' c L IH Hadm]; [done|].
  pose proof (exec_effect _ _ (later_inv _ _ I L) Hadm) as E.
  destruct (ef_attempts _ _ _ _ E k) as [Ek|(o & a' & _ & _ & [_ Ho] & Hold)]; [unfold rd in *; by rewrite Ek|].
  destruct Hold as [[_ Hno]|(a0 & -> & Ha0)]; [apply rd_Some in IH as [? _]; congruence|].
  destruct (Ho a0 eq_refl) as [_ Hl0]. congruence.
Qed.

(** ** A fleet in use *)

Definition demo_task (id : string) (deps : list string) : PlanTask := {|
  pt_task_id := id; pt_title := id; pt_detail := ""; pt_deps := deps; pt_acceptance := []; pt_grant := minimal |}.

Definition demo_plan : DurablePlan := {|
  dp_schema_version := SCHEMA_VERSION; dp_fleet_id := "F"; dp_revision := 0; dp_objective := "ship";
  dp_tasks := [demo_task "a" []; demo_task "b" ["a"]] |}.

Definition demo_create : Call := CCreateFleetWithPlan "session" None None "profile" 100 false demo_plan 10.

Definition demo_start : Db :=
  run_calls [demo_create; CLaunch "F" "a" 40 20 1 1000 "u1" "e1"; CMarkRunning "a" "u1"] open.

Lemma demo_reachable : reachable demo_start.
Proof. apply run_calls_reachable; [constructor|vm_compute; exact eq_refl]. Qed.

Definition demo_snapshot : ChildResultSnapshot := {|
  rs_output := "done"; rs_success := true; rs_tokens_used := 30; rs_files := []; rs_error := None |}.

(** ** Theorems *)

(** C4. In every reachable database the reservation of a fleet is exactly the total of the
    tokens its live attempts reserved, so that releasing any of them never underflows. *)
Theorem reservations_exact db f fl :
  reachable db -> rd (db_fleets db) f = Some fl ->
  bg_tokens_reserved (fl_budget fl) = map_sum (weight f) (db_attempts db) /\
  forall k a, rd (db_attempts db) k = Some a -> at_fleet_id a = f -> att_is_live a = true ->
    exists r, u64_checked_sub (bg_tokens_reserved (fl_budget fl)) (at_reserved_tokens a) = Some r.
Proof.
  intros I%reachable_inv Hf. pose proof (i_kernel _ I) as K. split; [by apply K|]. intros k a Ha <- Hl.
  eexists. apply u64_checked_sub_Some. split; [done|]. by eapply (reservation_covers K).
Qed.

Lemma reservations_exact_witness :
  exists fl, rd (db_fleets demo_start) "F" = Some fl /\ map_sum (weight "F") (db_attempts demo_start) = 40%Z /\
    bg_tokens_reserved (fl_budget fl) = 40%Z.
Proof.
  destruct (rd (db_fleets demo_start) "F") as [fl|] eqn:E; [|exfalso; vm_compute in E; discriminate E].
  assert (map_sum (weight "F") (db_attempts demo_start) = 40%Z) as H by (vm_compute; exact eq_refl).
  exists fl. split; [exact eq_refl|]. split; [exact H|].
  rewrite <- H. exact (proj1 (reservations_exact demo_start "F" fl demo_reachable E)).
Defined.

(** C6. In every reachable database a live attempt is the current attempt of its child, whose
    status says so, and belongs to the current generation of its fleet; a child has at most
    one live attempt; and a child that is launching or running has one. *)
Theorem live_attempt_exclusive db :
  reachable db ->
  (forall k a, rd (db_attempts db) k = Some a -> att_is_live a = true ->
    (exists c, rd (db_children db) (child_key (at_fleet_id a) (at_child_id a)) = Some c /\
       ch_current_attempt_id c = Some (at_attempt_id a) /\ ch_status c = flight_status a) /\
    (forall fl, rd (db_fleets db) (at_fleet_id a) = Some fl -> at_generation a = fl_generation fl) /\
    forall k' a', rd (db_attempts db) k' = Some a' -> att_is_live a' = true ->
      at_fleet_id a' = at_fleet_id a -> at_child_id a' = at_child_id a -> k' = k) /\
  (forall k c, rd (db_children db) k = Some c -> in_flight (ch_status c) = true ->
    exists aid a, ch_current_attempt_id c = Some aid /\ at_fleet_id a = ch_fleet_id c /\ att_is_live a = true /\
      rd (db_attempts db) (attempt_key (ch_child_id c) aid) = Some a).
Proof.
  intros I%reachable_inv. pose proof (i_kernel _ I) as K. split.
  - intros k a Ha Hl. destruct (k_live _ _ _ K _ _ Ha Hl) as (_ & c & Hc & Hcur & Hst & Hg). split_and!; [by eauto|done|].
    intros k' a' Ha' Hl' Ef Ec. by eapply (one_live K).
  - intros k c Hc Hfl. destruct (k_child _ _ _ K _ _ Hc) as (_ & _ & _ & _ & Hloc).
    destruct (in_flight_current _ Hloc Hfl) as [aid Haid]. destruct (k_inflight _ _ _ K _ _ _ Hc Hfl Haid) as (a & ? & ? & ?).
    eauto 10.
Qed.

Lemma live_attempt_exclusive_witness :
  exists a, rd (db_attempts demo_start) (attempt_key "a" "u1") = Some a /\ att_is_live a = true /\
    exists c, rd (db_children demo_start) (child_key "F" "a") = Some c /\ ch_status c = Running.
Proof.
  destruct (rd (db_attempts demo_start) (attempt_key "a" "u1")) as [a|] eqn:E; [|exfalso; vm_compute in E; discriminate E].
  assert (att_is_live a = true) as Hl by (vm_compute in E; injection E as <-; exact eq_refl).
  assert (at_fleet_id a = "F" /\ at_child_id a = "a" /\ flight_status a = Running) as (Ef & Ec & Es)
    by (vm_compute in E; injection E as <-; repeat split).
  destruct (proj1 (live_attempt_exclusive demo_start demo_reachable) _ _ E Hl) as ((c & Hc & _ & Hs) & _).
  exists a. split; [exact eq_refl|]. split; [exact Hl|]. exists c. rewrite Ef, Ec in Hc. split; [exact Hc|].
  rewrite Hs. exact Es.
Defined.

(** C15. A launch that succeeds found the child ready, with every dependency succeeded and no
    live attempt, under a live fleet; it reserves the projection, and the fleet's reserved and
    committed tokens together are then within its budget. *)
Theorem launch_sound db f cid proj now epoch ttl aid eid out db' :
  reachable db -> launch_child f cid proj now epoch ttl aid eid db = Ok (Launched out, db') ->
  out = aid /\ exists c fl fl',
    rd (db_children db) (child_key f cid) = Some c /\ ch_status c = Ready /\ deps_done (db_children db) f (ch_deps c) /\
    (forall k a, rd (db_attempts db) k = Some a -> at_fleet_id a = f -> at_child_id a = cid -> att_is_live a = false) /\
    rd (db_fleets db) f = Some fl /\ fleet_is_live fl = true /\ rd (db_fleets db') f = Some fl' /\
    bg_tokens_reserved (fl_budget fl') = (bg_tokens_reserved (fl_budget fl) + proj)%Z /\
    (bg_tokens_reserved (fl_budget fl') + bg_tokens_committed (fl_budget fl') <= bg_token_budget (fl_budget fl'))%Z.
Proof.
  intros I%reachable_inv H. pose proof (i_kernel _ I) as K. unfold launch_child in H. follow H; simplify_eq.
  match goal with E : owns_child _ _ ?c = true, E' : rd _ _ = Some ?c |- _ =>
    rename c into c0; rename E into Ho; rename E' into Hc end.
  destruct (child_row K _ _ _ Hc Ho) as (Ef & Ec & Hf & Hcid & _ & _).
  match goal with E : rd (db_fleets _) _ = Some ?x |- _ => rename x into fl; rename E into Hfl end.
  match goal with E : ch_status c0 = Ready |- _ => rename E into Hst end.
  match goal with E : admits _ _ = true |- _ => rename E into Hadm end.
  match goal with E : u64_checked_add (bg_tokens_reserved _) _ = Some _ |- _ => apply u64_checked_add_Some in E as [-> _] end.
  pose proof (rd_version _ _ _ Hfl) as Hfv.
  split; [done|]. eexists c0, fl, _. split; [done|]. split; [done|]. split.
  { rewrite <- Ef. apply (k_ready _ _ _ K _ _ Hc). by rewrite Hst. }
  split. { intros k a Ha Haf Hac. apply not_true_iff_false. intros Hl. rewrite <- Haf, <- Hac in Hc.
    destruct (live_of_child _ _ _ _ _ _ K Ha Hl Hc) as [Hfly _]. by rewrite Hst in Hfly. }
  split; [done|]. split; [done|]. cbn. split; [by rewrite rd_insert_eq|]. fields. split; [done|].
  unfold admits in Hadm. destruct (_ ← _; _) as [t|] eqn:Et; [|done]. apply bind_Some in Et as (s & Hs & Ht).
  apply u64_checked_add_Some in Hs as [-> _]. apply u64_checked_add_Some in Ht as [-> _]. lia.
Qed.

Lemma launch_sound_witness :
  exists fl', rd (db_fleets demo_start) "F" = Some fl' /\
    (bg_tokens_reserved (fl_budget fl') + bg_tokens_committed (fl_budget fl') <= bg_token_budget (fl_budget fl'))%Z.
Proof.
  set (db := exec demo_create open).
  assert (reachable db) as R by (apply r_call; [constructor|exact I]).
  destruct (launch_child "F" "a" 40 20 1 1000 "u1" "e1" db) as [[o db']|] eqn:E; [|exfalso; vm_compute in E; discriminate E].
  assert (o = Launched "u1") as -> by (vm_compute in E; injection E as <- _; exact eq_refl).
  destruct (launch_sound db "F" "a" 40 20 1 1000 "u1" "e1" "u1" db' R E) as (_ & c & fl & fl' & _ & _ & _ & _ & _ & _ & Hf & _ & Hle).
  exists fl'. split; [|exact Hle]. rewrite <- Hf. vm_compute in E. injection E as <-. vm_compute. exact eq_refl.
Defined.

Lemma settle_fence_idle f cid aid epoch db a rows :
  rd (db_attempts db) (attempt_key cid aid) = Some a -> att_is_live a = false ->
  settle_fence f cid aid epoch db = Ok rows -> rows = None.
Proof.
  intros Ha Hl H. destruct rows as [[[c b] fl]|]; [|done]. apply settle_fence_Some in H as [_ Hb _ _ _ _ _ _ Hrun _ _].
  unfold att_is_live in Hl. assert (a = b) as -> by congruence. by rewrite Hrun in Hl.
Qed.

(** C10. A completion that is accepted settles everything in one step: the attempt was the
    running, current one of this generation and lease; its child becomes succeeded or failed
    by the verdict; the fleet commits the tokens used and releases the reservation.  It
    happens once: whatever calls follow, the attempt keeps its result and every later
    completion or escalation of it is superseded and changes nothing. *)
Theorem completion_final db f cid aid v snap actual epoch now eid db' db'' :
  reachable db -> complete_child f cid aid v snap actual epoch now eid db = Ok (Completed, db') -> later db' db'' ->
  (exists c a fl c' fl', fenced db f cid aid epoch c a fl /\
     rd (db_children db') (child_key f cid) = Some c' /\ ch_outcome c' = Some v /\
     ch_status c' = (if is_accepted v then Succeeded else Failed) /\
     rd (db_fleets db') f = Some fl' /\
     bg_tokens_committed (fl_budget fl') = (bg_tokens_committed (fl_budget fl) + actual)%Z /\
     bg_tokens_reserved (fl_budget fl') = (bg_tokens_reserved (fl_budget fl) - at_reserved_tokens a)%Z) /\
  (exists a, rd (db_attempts db'') (attempt_key cid aid) = Some a /\ at_status a = Done /\ at_result_snapshot a = Some snap) /\
  (forall g v' snap' n e t i o x, complete_child g cid aid v' snap' n e t i db'' = Ok (o, x) -> o = Superseded /\ x = db'') /\
  (forall g req n e t i o x, record_escalation g cid aid req n e t i db'' = Ok (o, x) -> o = Superseded /\ x = db'').
Proof.
  intros I%reachable_inv H L. pose proof (complete_child_inv _ _ _ _ _ _ _ _ _ _ _ _ I H) as I'.
  unfold complete_child in H. apply bind_Ok in H as (u & _ & H). apply bind_Ok in H as (rows & Hfence & H).
  destruct rows as [[[c a] fl]|]; [|done]. apply settle_fence_Some in Hfence as Fe.
  apply bind_Ok in H as (b & Hb & H). apply bind_Ok in H as (sp & _ & H). apply bind_Ok in H as (d & Hw & H).
  injection H as ->. unfold settle_write in Hw. apply bind_Ok in Hw as ([n ob] & _ & Hw). injection Hw as <-.
  destruct (fenced_local _ _ _ _ _ _ _ _ I Fe) as (_ & _ & _ & Hcv). apply settle_budget_Ok in Hb as (Hr & _ & Hcm & _).
  pose proof (rd_version _ _ _ (fe_fleet _ _ _ _ _ _ _ _ Fe)) as Hfv. pose proof (rd_version _ _ _ (fe_attempt _ _ _ _ _ _ _ _ Fe)) as Hav.
  assert (Hatt : rd (db_attempts db'') (attempt_key cid aid) = Some (at_update Done (Some snap) (Some now) a)).
  { eapply idle_attempt_kept; [exact I'|exact L| |done]. cbn. by rewrite rd_insert_eq. }
  split; [|split; [by eauto|split]].
  - do 5 eexists. split; [exact Fe|]. cbn. rewrite !rd_insert_eq by done. split_and!; try done.
  - intros g v' snap' n' e t i o x Hc. unfold complete_child in Hc. apply bind_Ok in Hc as (? & _ & Hc).
    apply bind_Ok in Hc as (rows & Hs & Hc). apply (settle_fence_idle _ _ _ _ _ _ _ Hatt) in Hs as ->; [|done]. by injection Hc as <- <-.
  - intros g req n' e t i o x Hc. unfold record_escalation in Hc. apply bind_Ok in Hc as (? & _ & Hc).
    apply bind_Ok in Hc as (rows & Hs & Hc). apply (settle_fence_idle _ _ _ _ _ _ _ Hatt) in Hs as ->; [|done]. by injection Hc as <- <-.
Qed.

Lemma completion_final_witness :
  exists db' a, complete_child "F" "a" "u1" (Accepted []) demo_snapshot 30 1 60 "e2" demo_start = Ok (Completed, db') /\
    rd (db_attempts (exec (CResolve "F" 70) db')) (attempt_key "a" "u1") = Some a /\ at_status a = Done.
Proof.
  destruct (complete_child "F" "a" "u1" (Accepted []) demo_snapshot 30 1 60 "e2" demo_start) as [[o db']|] eqn:E;
    [|exfalso; vm_compute in E; discriminate E].
  assert (o = Completed) as -> by (vm_compute in E; injection E as <- _; exact eq_refl).
  destruct (completion_final demo_start "F" "a" "u1" (Accepted []) demo_snapshot 30 1 60 "e2" db' (exec (CResolve "F" 70) db')
    demo_reachable E (l_call _ _ (CResolve "F" 70) (l_here _) I)) as (_ & (a & Ha & Hd & _) & _).
  exists db', a. split; [exact eq_refl|]. split; [exact Ha|exact Hd].
Defined.

(** Once a fleet is complete, failed or cancelled, no call changes its row, its plan, its
    children or its attempts, except boot recovery. *)
Theorem terminal_fleet_frozen db f fl c :
  reachable db -> rd (db_fleets db) f = Some fl -> fleet_is_live fl = false -> admissible db c ->
  (forall now epoch, c <> CReconcile now epoch) -> same_fleet f db (exec c db).
Proof.
  intros I%reachable_inv Hf Hd Ha Hnr.
  assert (Hdec : touched c db f \/ ~ touched c db f).
  { destruct c; cbn; try tauto; try (match goal with |- ?a = ?b \/ _ => destruct (decide (a = b)); tauto end).
    destruct (rd (db_attempts db) (attempt_key cid aid)) as [a|]; [|right; naive_solver].
    destruct (decide (f = at_fleet_id a)); [left; eauto|right; naive_solver]. }
  destruct Hdec as [Ht|Ht].
  - rewrite (terminal_noop _ _ _ I Hf Hd c Ht Hnr). apply same_fleet_refl.
  - by apply (effect_same (touched c db) (restructures c)); [apply exec_effect|].
Qed.

Definition demo_cancelled : Db := exec (CCancel "F" 50) demo_start.

Lemma terminal_fleet_frozen_witness :
  same_fleet "F" demo_cancelled (exec (CComplete "F" "a" "u1" (Accepted []) demo_snapshot 30 1 60 "e2") demo_cancelled).
Proof.
  destruct (rd (db_fleets demo_cancelled) "F") as [fl|] eqn:E; [|exfalso; vm_compute in E; discriminate E].
  apply (terminal_fleet_frozen demo_cancelled "F" fl).
  - apply r_call; [exact demo_reachable|exact I].
  - exact E.
  - vm_compute in E. injection E as <-. exact eq_refl.
  - exact I.
  - discriminate.
Defined.



(** A call never overwrites a row this binary cannot read: in a database a newer daemon
    also wrote, its fleets, children, attempts, plans, decisions and events survive. *)
Theorem newer_rows_survive db c k :
  db_inv db -> admissible db c ->
  (forall row, db_fleets db !! k = Some row -> readable row = None -> db_fleets (exec c db) !! k = Some row) /\
  (forall row, db_children db !! k = Some row -> readable row = None -> db_children (exec c db) !! k = Some row) /\
  (forall row, db_attempts db !! k = Some row -> readable row = None -> db_attempts (exec c db) !! k = Some row) /\
  (forall row, db_plans db !! k = Some row -> readable row = None -> db_plans (exec c db) !! k = Some row) /\
  (forall row, db_decisions db !! k = Some row -> readable row = None -> db_decisions (exec c db) !! k = Some row) /\
  (forall row, db_outbox db !! k = Some row -> readable row = None -> db_outbox (exec c db) !! k = Some row).
Proof.
  intros I Ha. destruct (exec_effect _ _ I Ha). split_and!; intros row; by eapply upd_opaque.
Qed.

(** A newer daemon's child next to the fleet in use. *)
Definition demo_shared : Db :=
  set_children (<[child_key "F" "z" := Foreign (Some 4%Z)]> (db_children demo_start)) demo_start.

Lemma newer_row_inv db k v :
  db_inv db -> db_children db !! k = None -> (SCHEMA_VERSION < v)%Z ->
  db_inv (set_children (<[k := Foreign (Some v)]> (db_children db)) db).
Proof.
  intros I Hk Hv. assert (Hrd : forall k', rd (<[k := Foreign (Some v)]> (db_children db)) k' = rd (db_children db) k').
  { intros k'. unfold rd. destruct (decide (k = k')) as [<-|]; [|by rewrite lookup_insert_ne].
    rewrite lookup_insert_eq, Hk. cbn. unfold readable. cbn. by rewrite (proj2 (Z.ltb_lt _ _) Hv). }
  pose proof (i_kernel _ I) as K. apply (db_inv_update db); cbn; [done|done| |done|apply I|apply I].
  destruct K as [? HC]. unfold deps_done in *. constructor; try done; unfold deps_done; try (by setoid_rewrite Hrd).
  intros k' row [[<- <-]|[_ Hr]]%lookup_insert_Some; [|by eapply HC]. cbn. by rewrite (proj2 (Z.ltb_lt _ _) Hv).
Qed.

Lemma newer_rows_survive_witness :
  db_children (exec (CReplan "F" 0 demo_plan 80) demo_shared) !! child_key "F" "z" = Some (Foreign (Some 4%Z)).
Proof.
  apply (newer_rows_survive demo_shared (CReplan "F" 0 demo_plan 80) (child_key "F" "z")).
  - apply newer_row_inv; [apply reachable_inv, demo_reachable|vm_compute; exact eq_refl|exact eq_refl].
  - exact I.
  - vm_compute. exact eq_refl.
  - exact eq_refl.
Defined.

(** C11. Boot recovery always succeeds.  After it, every live attempt belongs to a live fleet
    and holds an unexpired lease of this boot, a terminal fleet holds no reservation, and no
    plan, decision or event has changed. *)
Theorem reconcile_recovers db now epoch :
  reachable db ->
  exists report db', reconcile now epoch db = Ok (report, db') /\
    (forall k a fl, rd (db_attempts db') k = Some a -> att_is_live a = true -> rd (db_fleets db') (at_fleet_id a) = Some fl ->
       fleet_is_live fl = true /\ ls_owner_epoch (at_lease a) = epoch /\ (now <= ls_expires_at_ms (at_lease a))%Z) /\
    (forall f fl, rd (db_fleets db') f = Some fl -> fleet_is_live fl = false -> bg_tokens_reserved (fl_budget fl) = 0%Z) /\
    db_plans db' = db_plans db /\ db_decisions db' = db_decisions db /\ db_outbox db' = db_outbox db.
Proof.
  intros I%reachable_inv. destruct (reconcile_spec now epoch db I) as (report & db' & H & I' & (E1 & E2 & E3) & Hrec).
  exists report, db'. split_and!; try done.
  - intros k a fl Ha Hl Hf. destruct (Hrec _ _ Ha Hl _ Hf) as [Hlive Hst]. unfold lease_stale in Hst. bool_to_prop.
    split_and!; [done|lia|lia].
  - intros f fl Hf Hd. rewrite (k_budget _ _ _ (i_kernel _ I') _ _ Hf). apply map_sum_zero. intros k row Hk. unfold weight.
    destruct (readable row) as [a|] eqn:Ea; [|done]. cbn. assert (rd (db_attempts db') k = Some a) as Ha by (unfold rd; by rewrite Hk).
    destruct (att_is_live a) eqn:Hl; [|by apply weight_of_idle]. apply weight_of_other. intros <-.
    destruct (Hrec _ _ Ha Hl _ Hf). congruence.
Qed.

Lemma reconcile_recovers_witness : exists report db', reconcile 5000 2 demo_cancelled = Ok (report, db').
Proof.
  destruct (reconcile_recovers demo_cancelled 5000 2) as (report & db' & H & _).
  - apply r_call; [exact demo_reachable|exact I].
  - exists report, db'. exact H.
Defined.
