(* ===== verification/Fleet.v ===== *)
(** * The plan-management API of a fleet

    [crates/octos-fleet/src/fleet.rs]: [Fleet] composes the store's calls into whole-plan
    operations.  A handle is the fleet's id; an operation takes the database and gives back
    the result and the database after the calls it made, each of them one transaction
    ([FleetStore.in_txn]).  The operations here run their calls without other callers in between;
    the interleavings are covered by [FleetSafety], which allows any sequence of store calls. *)
From S2P Require Import Prelude RustStr RustNum Grant FleetRecords FleetStore.
Open Scope octos_scope.

(** ** Inputs and views *)

Record TaskSpec := {
  ts_task_id : string;
  ts_title : string;
  ts_detail : string;
  ts_deps : list string;
  ts_acceptance : list AcceptanceCriterion;
  ts_grant : WorkerGrant;
}.

Definition task_of_spec (s : TaskSpec) : PlanTask := {|
  pt_task_id := ts_task_id s; pt_title := ts_title s; pt_detail := ts_detail s; pt_deps := ts_deps s;
  pt_acceptance := ts_acceptance s; pt_grant := ts_grant s |}.

Inductive PlanEdit :=
  | AddTask (spec : TaskSpec)
  | RemoveTask (id : string)
  | Retitle (task_id title detail : string)
  | RetargetDeps (task_id : string) (deps : list string)
  | SplitTask (task_id : string) (into : list TaskSpec)
  | SetGrant (task_id : string) (grant : WorkerGrant).

Record TaskView := {
  tv_task_id : string;
  tv_title : string;
  tv_detail : string;
  tv_deps : list string;
  tv_acceptance : list AcceptanceCriterion;
  tv_grant : WorkerGrant;
  tv_status : ChildStatus;
  tv_verdict : option AcceptanceVerdict;
  tv_evidence : list EvidenceRef;
  tv_current_attempt_id : option string;
  tv_pending_escalation : option EscalationRequest;
}.

Record FleetView := {
  fv_fleet_id : string;
  fv_status : FleetStatus;
  fv_budget : FleetBudget;
  fv_generation : Z;
  fv_revision : Z;
  fv_objective : string;
  fv_tasks : list TaskView;
}.

Record FleetSummary := {
  su_fleet_id : string;
  su_status : FleetStatus;
  su_generation : Z;
  su_revision : Z;
  su_budget : FleetBudget;
  su_total : nat;
  su_planned : nat;
  su_ready : nat;
  su_launching : nat;
  su_running : nat;
  su_blocked : nat;
  su_succeeded : nat;
  su_failed : nat;
  su_cancelled : nat;
}.

Inductive PlanGraphError :=
  | DuplicateTask (id : string)
  | DuplicateAdd (id : string)
  | UnknownTask (id : string)
  | SelfDependency (id : string)
  | DanglingDependency (task dep : string)
  | Cycle (ids : list string)
  | EmptySplit (id : string)
  | SplitIdReuse (id : string)
  | RetargetTerminalTask (id : string).

(** An [eyre::Report]: a typed graph error, or messages. *)
Inductive FleetError :=
  | GraphError (e : PlanGraphError)
  | StoreError (r : report).

Definition from_store {A} (r : result report A) : result FleetError A :=
  match r with Ok a => Ok a | Err e => Err (StoreError e) end.

(** ** Edits of the task list *)

Definition has_task (tasks : list PlanTask) (id : string) : bool :=
  existsb (fun t => bool_decide (pt_task_id t = id)) tasks.

Fixpoint first_reused (existing : gset string) (into : list TaskSpec) : option string :=
  match into with
  | [] => None
  | sub :: rest => if bool_decide (ts_task_id sub ∈ existing) then Some (ts_task_id sub)
                   else first_reused existing rest
  end.

Definition apply_edit_to_tasks (tasks : list PlanTask) (edit : PlanEdit)
    : result PlanGraphError (list PlanTask * string) :=
  match edit with
  | AddTask spec =>
      if has_task tasks (ts_task_id spec) then Err (DuplicateAdd (ts_task_id spec))
      else Ok (tasks ++ [task_of_spec spec], "add task " +:+ ts_task_id spec)
  | RemoveTask id =>
      let rest := filter (fun t => pt_task_id t <> id) tasks in
      if (length rest =? length tasks)%nat then Err (UnknownTask id)
      else Ok (rest, "remove task " +:+ id)
  | Retitle task_id title detail =>
      match update_task task_id (pt_set_text title detail) tasks with
      | Some tasks' => Ok (tasks', "retitle task " +:+ task_id)
      | None => Err (UnknownTask task_id)
      end
  | RetargetDeps task_id deps =>
      match update_task task_id (pt_set_deps deps) tasks with
      | Some tasks' => Ok (tasks', "retarget deps of task " +:+ task_id)
      | None => Err (UnknownTask task_id)
      end
  | SetGrant task_id grant =>
      match update_task task_id (pt_set_grant grant) tasks with
      | Some tasks' => Ok (tasks', "set grant of task " +:+ task_id)
      | None => Err (UnknownTask task_id)
      end
  | SplitTask task_id into =>
      match into with
      | [] => Err (EmptySplit task_id)
      | _ =>
          match list_find (fun t => pt_task_id t = task_id) tasks with
          | None => Err (UnknownTask task_id)
          | Some (pos, _) =>
              match first_reused (list_to_set (pt_task_id <$> tasks)) into with
              | Some id => Err (SplitIdReuse id)
              | None => Ok (take pos tasks ++ (task_of_spec <$> into) ++ drop (S pos) tasks,
                            "split task " +:+ task_id)
              end
          end
      end
  end.

(** ** Graph validation *)

Fixpoint first_duplicate (seen : gset string) (tasks : list PlanTask) : option string :=
  match tasks with
  | [] => None
  | t :: rest => if bool_decide (pt_task_id t ∈ seen) then Some (pt_task_id t)
                 else first_duplicate ({[pt_task_id t]} ∪ seen) rest
  end.

Fixpoint check_deps (ids : gset string) (task : string) (deps : list string) : result PlanGraphError unit :=
  match deps with
  | [] => Ok tt
  | d :: rest =>
      if bool_decide (d = task) then Err (SelfDependency task)
      else if negb (bool_decide (d ∈ ids)) then Err (DanglingDependency task d)
      else check_deps ids task rest
  end.

Fixpoint check_all_deps (ids : gset string) (tasks : list PlanTask) : result PlanGraphError unit :=
  match tasks with
  | [] => Ok tt
  | t :: rest => _ ← check_deps ids (pt_task_id t) (pt_deps t); check_all_deps ids rest
  end.

Section kahn.
Context `{HashIter}.

(** One dependency [d] of task [t]. *)
Definition count_dep (ids : gset string) (t : string) (st : gmap string nat * gmap string (list string)) (d : string)
    : gmap string nat * gmap string (list string) :=
  let '(indeg, enables) := st in
  if bool_decide (d ∈ ids)
  then (alter S t indeg, <[d := default [] (enables !! d) ++ [t]]> enables)
  else st.

Definition count_task (ids : gset string) (st : gmap string nat * gmap string (list string)) (t : PlanTask)
    : gmap string nat * gmap string (list string) :=
  foldl (count_dep ids (pt_task_id t)) st (pt_deps t).

(** One task a processed node enables: its in-degree goes down, and at zero it is queued. *)
Definition release_task (st : gmap string nat * list string) (t : string) : gmap string nat * list string :=
  let '(indeg, queue) := st in
  match indeg !! t with
  | Some v => (<[t := v - 1]> indeg, if (v - 1 =? 0)%nat then queue ++ [t] else queue)
  | None => st
  end.

Fixpoint kahn_loop (fuel : nat) (enables : gmap string (list string)) (indeg : gmap string nat)
    (queue : list string) (processed : nat) : option (gmap string nat * nat) :=
  match queue with
  | [] => Some (indeg, processed)
  | n :: rest =>
      match fuel with
      | O => None
      | S fuel =>
          let '(indeg', queue') := foldl release_task (indeg, rest) (default [] (enables !! n)) in
          kahn_loop fuel enables indeg' queue' (S processed)
      end
  end.

Definition initial_counts (tasks : list PlanTask) : gmap string nat * gmap string (list string) :=
  let ids := list_to_set (pt_task_id <$> tasks) in
  let indeg := foldl (fun m t => <[pt_task_id t := O]> m) ∅ tasks in
  foldl (count_task ids) (indeg, ∅) tasks.

(** [None] is a loop that did not end within the fuel (it always does, see [Kahn]). *)
Definition find_cycle (fuel : nat) (tasks : list PlanTask) : option (option (list string)) :=
  let '(indeg, enables) := initial_counts tasks in
  let queue := (filter (fun kv => kv.2 = O) (hm_iter indeg)).*1 in
  '(indeg', processed) ← kahn_loop fuel enables indeg queue O;
  Some (if (processed =? length tasks)%nat then None
        else Some (merge_sort String.le ((filter (fun kv => 0 < kv.2) (hm_iter indeg')).*1))).

Definition kahn_fuel (tasks : list PlanTask) : nat := S (length tasks).

Definition validate_graph (tasks : list PlanTask) : result PlanGraphError unit :=
  match first_duplicate ∅ tasks with
  | Some id => Err (DuplicateTask id)
  | None =>
      _ ← check_all_deps (list_to_set (pt_task_id <$> tasks)) tasks;
      match find_cycle (kahn_fuel tasks) tasks with
      | Some (Some cycle) => Err (Cycle cycle)
      | Some None => Ok tt
      | None => Err (Cycle [])
      end
  end.
End kahn.

(** ** Verdict helpers *)

Definition verdict_evidence (verdict : option AcceptanceVerdict) : list EvidenceRef :=
  match verdict with Some (Accepted evidence) => evidence | _ => [] end.

Definition snapshot_from_verdict (verdict : AcceptanceVerdict) (tokens : Z) : ChildResultSnapshot :=
  match verdict with
  | Accepted _ => {| rs_output := "accepted"; rs_success := true; rs_tokens_used := tokens; rs_files := []; rs_error := None |}
  | Rejected reason | Terminated reason =>
      {| rs_output := ""; rs_success := false; rs_tokens_used := tokens; rs_files := []; rs_error := Some reason |}
  end.

Definition EM_DASH : string := String "226" (String "128" (String "148" "")).

Definition describe_verdict (task_id : string) (verdict : AcceptanceVerdict) : string :=
  match verdict with
  | Accepted evidence => task_id +:+ ": accepted (" +:+ pretty (length evidence) +:+ " evidence)"
  | Rejected reason => task_id +:+ ": rejected " +:+ EM_DASH +:+ " " +:+ reason
  | Terminated reason => task_id +:+ ": terminated " +:+ EM_DASH +:+ " " +:+ reason
  end.

(** ** Reads of one fleet *)

Record Loaded := { ld_fleet : FleetRecord; ld_plan : DurablePlan; ld_children : gmap string FleetChildRecord }.

(** [collect] into a map: the last row of an id wins. *)
Definition index_children (children : list FleetChildRecord) : gmap string FleetChildRecord :=
  foldl (fun m c => <[ch_child_id c := c]> m) ∅ children.

Definition load_fleet (fleet_id : string) (db : Db) : result FleetError Loaded :=
  os ← from_store (load_snapshot fleet_id db);
  snap ← from_store (ok_or ("fleet " +:+ fleet_id +:+ " not found") os);
  plan ← from_store (ok_or ("plan for fleet " +:+ fleet_id +:+ " not found") (fs_plan snap));
  Ok {| ld_fleet := fs_fleet snap; ld_plan := plan; ld_children := index_children (fs_children snap) |}.

Definition task_view (children : gmap string FleetChildRecord) (t : PlanTask) : TaskView :=
  let child := children !! pt_task_id t in
  let verdict := child ≫= ch_outcome in
  {| tv_task_id := pt_task_id t; tv_title := pt_title t; tv_detail := pt_detail t; tv_deps := pt_deps t;
     tv_acceptance := pt_acceptance t; tv_grant := pt_grant t;
     tv_status := default Planned (ch_status <$> child);
     tv_verdict := verdict; tv_evidence := verdict_evidence verdict;
     tv_current_attempt_id := child ≫= ch_current_attempt_id;
     tv_pending_escalation := child ≫= ch_pending_escalation |}.

Definition view (fleet_id : string) (db : Db) : result FleetError FleetView :=
  loaded ← load_fleet fleet_id db;
  Ok {| fv_fleet_id := fleet_id; fv_status := fl_status (ld_fleet loaded); fv_budget := fl_budget (ld_fleet loaded);
        fv_generation := fl_generation (ld_fleet loaded); fv_revision := dp_revision (ld_plan loaded);
        fv_objective := dp_objective (ld_plan loaded);
        fv_tasks := task_view (ld_children loaded) <$> dp_tasks (ld_plan loaded) |}.

Definition is_complete (fleet_id : string) (db : Db) : result FleetError bool :=
  loaded ← load_fleet fleet_id db;
  Ok (forallb (fun t => match ld_children loaded !! pt_task_id t with
                        | Some c => bool_decide (ch_status c = Succeeded)
                        | None => false
                        end) (dp_tasks (ld_plan loaded))).

Definition tally (s : FleetSummary) (status : ChildStatus) : FleetSummary := {|
  su_fleet_id := su_fleet_id s; su_status := su_status s; su_generation := su_generation s;
  su_revision := su_revision s; su_budget := su_budget s; su_total := su_total s;
  su_planned := su_planned s + (if decide (status = Planned) then 1 else 0);
  su_ready := su_ready s + (if decide (status = Ready) then 1 else 0);
  su_launching := su_launching s + (if decide (status = Launching) then 1 else 0);
  su_running := su_running s + (if decide (status = Running) then 1 else 0);
  su_blocked := su_blocked s + (if decide (status = Blocked) then 1 else 0);
  su_succeeded := su_succeeded s + (if decide (status = Succeeded) then 1 else 0);
  su_failed := su_failed s + (if decide (status = Failed) then 1 else 0);
  su_cancelled := su_cancelled s + (if decide (status = Cancelled) then 1 else 0) |}.

Definition summary (fleet_id : string) (db : Db) : result FleetError FleetSummary :=
  loaded ← load_fleet fleet_id db;
  let tasks := dp_tasks (ld_plan loaded) in
  let zero := {| su_fleet_id := fleet_id; su_status := fl_status (ld_fleet loaded);
                 su_generation := fl_generation (ld_fleet loaded); su_revision := dp_revision (ld_plan loaded);
                 su_budget := fl_budget (ld_fleet loaded); su_total := length tasks; su_planned := 0; su_ready := 0; su_launching := 0; su_running := 0;
                 su_blocked := 0; su_succeeded := 0; su_failed := 0; su_cancelled := 0 |} in
  Ok (foldl (fun s t => tally s (default Planned (ch_status <$> ld_children loaded !! pt_task_id t))) zero tasks).

(** ** Operations *)

(** A best-effort entry of the decision log: a failure is dropped. *)
Definition fleet_note (fleet_id : string) (kind : DecisionKind) (text : string) (now_ms : Z) (db : Db) : Db :=
  (in_txn (append_decision fleet_id "keeper" kind text now_ms) db).2.

Definition ready_tasks (fleet_id : string) (now_ms : Z) (db : Db) : result FleetError (list string) * Db :=
  let '(r, db') := in_txn (resolve_and_collect_ready fleet_id now_ms) db in (from_store r, db').

(** Eager promotion after a completion; a failure is dropped. *)
Definition promote_all (fleet_id : string) (now_ms : Z) (children : list FleetChildRecord) (db : Db) : Db :=
  foldl (fun db c => if bool_decide (ch_status c = Planned)
                     then (in_txn (mark_ready fleet_id (ch_child_id c) now_ms) db).2 else db) db children.

Definition resolve_ready (fleet_id : string) (now_ms : Z) (db : Db) : Db :=
  match list_children fleet_id db with
  | Ok children => promote_all fleet_id now_ms children db
  | Err _ => db
  end.

Definition fleet_record_outcome (fleet_id task_id attempt_id : string) (verdict : AcceptanceVerdict)
    (actual_tokens owner_epoch now_ms : Z) (event_id : string) (db : Db) : result FleetError CompleteOutcome * Db :=
  let snapshot := snapshot_from_verdict verdict actual_tokens in
  let text := describe_verdict task_id verdict in
  match in_txn (complete_child fleet_id task_id attempt_id verdict snapshot actual_tokens owner_epoch now_ms event_id) db with
  | (Ok Completed, db') =>
      (Ok Completed, resolve_ready fleet_id now_ms (fleet_note fleet_id DkComplete text now_ms db'))
  | (Ok Superseded, db') => (Ok Superseded, db')
  | (Err e, db') => (Err (StoreError e), db')
  end.

(** Log a mutation that happened. *)
Definition note_mutation (fleet_id : string) (kind : DecisionKind) (text : string) (now_ms : Z)
    (st : result report PlanMutateOutcome * Db) : result FleetError PlanMutateOutcome * Db :=
  match st with
  | (Ok (Mutated rev), db) => (Ok (Mutated rev), fleet_note fleet_id kind text now_ms db)
  | (r, db) => (from_store r, db)
  end.

Section operations.
Context `{HashIter}.

Definition create_with_workspace_provenance (fleet_id session_key : string) (root : option string)
    (hint : option bool) (profile_id : string) (budget : FleetBudget) (objective : string)
    (specs : list TaskSpec) (now_ms : Z) (db : Db) : result FleetError string * Db :=
  let tasks := task_of_spec <$> specs in
  match validate_graph tasks with
  | Err e => (Err (GraphError e), db)
  | Ok _ =>
      let plan := {| dp_schema_version := SCHEMA_VERSION; dp_fleet_id := fleet_id; dp_revision := 0;
                     dp_objective := objective; dp_tasks := tasks |} in
      match in_txn (create_fleet_with_plan_and_workspace_provenance session_key root hint profile_id
                   (bg_token_budget budget) (bg_hard budget) plan now_ms) db with
      | (Err e, db') => (Err (StoreError e), db')
      | (Ok _, db') =>
          (Ok fleet_id, fleet_note fleet_id DkPlan
             ("created fleet with " +:+ pretty (length tasks) +:+ " task(s)") now_ms db')
      end
  end.

Definition create (fleet_id session_key : string) (root : option string) (profile_id : string) (budget : FleetBudget)
    (objective : string) (specs : list TaskSpec) (now_ms : Z) (db : Db) : result FleetError string * Db :=
  create_with_workspace_provenance fleet_id session_key root None profile_id budget objective specs now_ms db.

(** The edit a structural change makes to the plan it read, checked before any write. *)
Definition structural_edit (fleet_id : string) (edit : PlanEdit) (expected_revision now_ms : Z) (plan : DurablePlan)
    (db : Db) : result FleetError PlanMutateOutcome * Db :=
  match ('(tasks, text) ← apply_edit_to_tasks (dp_tasks plan) edit; _ ← validate_graph tasks; Ok (tasks, text)) with
  | Err e => (Err (GraphError e), db)
  | Ok (tasks, text) =>
      let new_plan := {| dp_schema_version := SCHEMA_VERSION; dp_fleet_id := fleet_id;
                         dp_revision := expected_revision; dp_objective := dp_objective plan; dp_tasks := tasks |} in
      match in_txn (replan fleet_id expected_revision new_plan now_ms) db with
      | (Ok (RejectedTerminalDepChange task_id), db') => (Err (GraphError (RetargetTerminalTask task_id)), db')
      | st => note_mutation fleet_id DkReplan text now_ms st
      end
  end.

(** [RetargetDeps] of a task whose child is terminal in the snapshot. *)
Definition retargets_terminal (edit : PlanEdit) (plan : DurablePlan) (children : list FleetChildRecord) : option string :=
  match edit with
  | RetargetDeps task_id _ =>
      if has_task (dp_tasks plan) task_id then
        match find_child children task_id with
        | Some c => if child_is_terminal (ch_status c) then Some task_id else None
        | None => None
        end
      else None
  | _ => None
  end.

Definition apply_edit (fleet_id : string) (edit : PlanEdit) (expected_revision now_ms : Z) (db : Db)
    : result FleetError PlanMutateOutcome * Db :=
  match (os ← from_store (load_snapshot fleet_id db);
         snap ← from_store (ok_or ("apply_edit: fleet " +:+ fleet_id +:+ " not found") os);
         plan ← from_store (ok_or ("apply_edit: no plan for fleet " +:+ fleet_id) (fs_plan snap));
         Ok (snap, plan)) with
  | Err e => (Err e, db)
  | Ok (snap, plan) =>
      if negb (dp_revision plan =? expected_revision)%Z then (Ok (RevisionMismatch (dp_revision plan)), db)
      else match edit with
           | Retitle task_id title detail =>
               if negb (has_task (dp_tasks plan) task_id) then (Err (GraphError (UnknownTask task_id)), db)
               else note_mutation fleet_id DkNote ("retitle task " +:+ task_id) now_ms
                      (in_txn (retitle_task fleet_id expected_revision task_id title detail) db)
           | SetGrant task_id grant =>
               if negb (has_task (dp_tasks plan) task_id) then (Err (GraphError (UnknownTask task_id)), db)
               else note_mutation fleet_id DkNote ("grant widen + resume task " +:+ task_id) now_ms
                      (in_txn (set_task_grant fleet_id expected_revision task_id grant now_ms) db)
           | _ =>
               match retargets_terminal edit plan (fs_children snap) with
               | Some task_id => (Err (GraphError (RetargetTerminalTask task_id)), db)
               | None => structural_edit fleet_id edit expected_revision now_ms plan db
               end
           end
  end.
End operations.
