(* ===== verification/Kahn.v ===== *)
(** * Task graphs of a plan

    [validate_graph] of [fleet.rs] against a reference: the loop of Kahn's algorithm ends
    within the fuel the model gives it, never decrements an in-degree of zero, and accepts
    exactly the acyclic graphs; with the checks before it the validation is exact. *)
From S2P Require Import Prelude RustStr RustNum Grant FleetRecords FleetStore Fleet.
Open Scope octos_scope.

(** ** The graph *)

(** The dependencies of a plan, with their multiplicity: [(d, t)] when [t] lists [d]. *)
Definition dep_edges (tasks : list PlanTask) : list (string * string) :=
  tasks ≫= fun t => (fun d => (d, pt_task_id t)) <$> pt_deps t.

Definition task_ids (tasks : list PlanTask) : list string := pt_task_id <$> tasks.

(** [d] must succeed before [t]. *)
Definition precedes (tasks : list PlanTask) (d t : string) : Prop := (d, t) ∈ dep_edges tasks.

Record valid_plan (tasks : list PlanTask) : Prop := {
  vp_unique : NoDup (task_ids tasks);
  vp_no_self : forall t, t ∈ tasks -> pt_task_id t ∉ pt_deps t;
  vp_closed : forall t d, t ∈ tasks -> d ∈ pt_deps t -> d ∈ task_ids tasks;
  vp_acyclic : forall x, ~ tc (precedes tasks) x x;
}.

Lemma elem_of_dep_edges tasks d x :
  (d, x) ∈ dep_edges tasks <-> exists t, t ∈ tasks /\ pt_task_id t = x /\ d ∈ pt_deps t.
Proof.
  unfold dep_edges. rewrite list_elem_of_bind. setoid_rewrite list_elem_of_fmap. naive_solver.
Qed.

Lemma elem_of_task_ids tasks x : x ∈ task_ids tasks <-> exists t, t ∈ tasks /\ pt_task_id t = x.
Proof. unfold task_ids. rewrite list_elem_of_fmap. naive_solver. Qed.

Definition occurrences (x : string) (l : list string) : nat := length (filter (x =.) l).

Lemma occurrences_cons x y l : occurrences x (y :: l) = (if decide (x = y) then 1 else 0) + occurrences x l.
Proof. unfold occurrences. rewrite filter_cons. by destruct (decide (x = y)). Qed.

Lemma occurrences_pos x l : x ∈ l <-> 0 < occurrences x l.
Proof.
  induction l as [|y l IH]; [cbn; split; [by intros ?%elem_of_nil|lia]|].
  rewrite elem_of_cons, occurrences_cons, IH. destruct (decide (x = y)); naive_solver lia.
Qed.

(** ** The counts the loop starts from *)

Section counts.
Context (ids : gset string).

Definition count_edge (st : gmap string nat * gmap string (list string)) (e : string * string) :=
  count_dep ids e.2 st e.1.

Lemma count_tasks tasks st : foldl (count_task ids) st tasks = foldl count_edge st (dep_edges tasks).
Proof.
  revert st. induction tasks as [|t tasks IH]; intros st; [done|]. cbn [foldl dep_edges mbind list_bind].
  rewrite foldl_app, <- IH. f_equal. unfold count_task. generalize (pt_deps t) st.
  intros deps. induction deps as [|d deps IHd]; intros st0; [done|]. cbn. by rewrite <- IHd.
Qed.

Lemma count_edges es : forall indeg enables,
  (forall e, e ∈ es -> e.1 ∈ ids) ->
  let st := foldl count_edge (indeg, enables) es in
  (forall x, st.1 !! x = (fun v => occurrences x es.*2 + v) <$> indeg !! x) /\
  (forall d, default [] (st.2 !! d) = default [] (enables !! d) ++ (filter (fun e => e.1 = d) es).*2).
Proof.
  induction es as [|[d t] es IH]; intros indeg enables Hin; cbn [foldl].
  { split; intros x; cbn; [by rewrite option_fmap_id|by rewrite app_nil_r]. }
  assert (count_edge (indeg, enables) (d, t) = (alter S t indeg, <[d := default [] (enables !! d) ++ [t]]> enables)) as ->.
  { unfold count_edge, count_dep. cbn. rewrite bool_decide_true; [done|]. apply (Hin (d, t)). by left. }
  destruct (IH (alter S t indeg) (<[d := default [] (enables !! d) ++ [t]]> enables)) as [H1 H2].
  { intros e He. apply Hin. by right. }
  split; intros x.
  - rewrite H1. rewrite fmap_cons, occurrences_cons. cbn. destruct (decide (x = t)) as [->|Hne].
    + rewrite lookup_alter_eq. destruct (indeg !! t); cbn; [f_equal; lia|done].
    + rewrite lookup_alter_ne by congruence. by destruct (indeg !! x).
  - rewrite H2. rewrite filter_cons. cbn. destruct (decide (d = x)) as [->|Hne].
    + rewrite lookup_insert_eq. cbn. by rewrite <- app_assoc.
    + by rewrite lookup_insert_ne by done.
Qed.
End counts.

Lemma initial_zeros tasks (m : gmap string nat) x :
  foldl (fun (m : gmap string nat) t => <[pt_task_id t := O]> m) m tasks !! x =
  if decide (x ∈ task_ids tasks) then Some 0 else m !! x.
Proof.
  revert m. induction tasks as [|t tasks IH]; intros m; cbn [foldl].
  - by rewrite decide_False by apply not_elem_of_nil.
  - rewrite IH. unfold task_ids. rewrite fmap_cons. destruct (decide (x ∈ _)) as [Hin|Hnin].
    + by rewrite decide_True by by right.
    + destruct (decide (x = pt_task_id t)) as [->|Hne].
      * by rewrite lookup_insert_eq, decide_True by by left.
      * rewrite lookup_insert_ne, decide_False; [done| |done]. by intros [?|?]%elem_of_cons.
Qed.

(** ** One node *)

(** Releasing the tasks [ts] of a processed node: each occurrence takes one off, and the
    tasks that reach zero are queued once.  An in-degree is never decremented at zero. *)
Lemma release_fold ts : forall indeg queue,
  (forall t, t ∈ ts -> exists v, indeg !! t = Some v /\ occurrences t ts <= v) ->
  exists indeg' new, foldl release_task (indeg, queue) ts = (indeg', queue ++ new) /\
    NoDup new /\
    (forall x, indeg' !! x = (fun v => v - occurrences x ts) <$> indeg !! x) /\
    (forall x, x ∈ new <-> x ∈ ts /\ indeg !! x = Some (occurrences x ts)).
Proof.
  induction ts as [|t ts IH]; intros indeg queue Hin; cbn [foldl].
  { exists indeg, []. rewrite app_nil_r. split_and!; [done|constructor| |].
    - intros x. destruct (indeg !! x); cbn; [f_equal; lia|done].
    - intros x. split; [by intros ?%elem_of_nil|]. by intros [?%elem_of_nil _]. }
  destruct (Hin t) as (v & Hv & Hge); [by left|]. rewrite occurrences_cons, decide_True in Hge by done.
  cbn [release_task]. rewrite Hv.
  destruct (IH (<[t := v - 1]> indeg) (if (v - 1 =? 0)%nat then queue ++ [t] else queue)) as (indeg' & new & -> & Hn & Hd & Hnew).
  { intros x Hx. destruct (decide (x = t)) as [->|Hne].
    - exists (v - 1). rewrite lookup_insert_eq. split; [done|lia].
    - destruct (Hin x) as (w & Hw & Hc); [by right|]. rewrite occurrences_cons, decide_False in Hc by done.
      exists w. by rewrite lookup_insert_ne. }
  assert (Hdeg : forall x, indeg' !! x = (fun v => v - occurrences x (t :: ts)) <$> indeg !! x).
  { intros x. rewrite Hd, occurrences_cons. destruct (decide (x = t)) as [->|Hne].
    - rewrite lookup_insert_eq, Hv. cbn. f_equal. lia.
    - by rewrite lookup_insert_ne. }
  destruct (Nat.eqb_spec (v - 1) 0) as [Hz|Hz].
  - exists indeg', (t :: new). rewrite <- app_assoc. split_and!; [done| |done|].
    + constructor; [|done]. rewrite Hnew, lookup_insert_eq. intros [Ht [= E]].
      apply occurrences_pos in Ht. lia.
    + intros x. rewrite elem_of_cons, Hnew, elem_of_cons, occurrences_cons. destruct (decide (x = t)) as [->|Hne].
      * rewrite lookup_insert_eq, Hv. split; [intros _; split; [by left|f_equal; lia]|by left].
      * rewrite lookup_insert_ne by done. naive_solver.
  - exists indeg', new. split_and!; [done|done|done|].
    intros x. rewrite Hnew, elem_of_cons, occurrences_cons. destruct (decide (x = t)) as [->|Hne].
    + rewrite lookup_insert_eq, Hv. split.
      * intros [? [= E]]. split; [by left|]. f_equal. lia.
      * intros [_ [= E]]. split; [apply occurrences_pos; lia|]. f_equal. lia.
    + rewrite lookup_insert_ne by done. naive_solver.
Qed.

(** ** The loop *)

Section loop.
Context (ids : list string) (es : list (string * string)) (enables : gmap string (list string)).
Context (Hends : forall e, e ∈ es -> e.1 ∈ ids /\ e.2 ∈ ids).
Context (Hen : forall d, default [] (enables !! d) = (filter (fun e => e.1 = d) es).*2).

(** The edges into [x] from nodes not yet processed. *)
Definition waiting (processed : list string) (x : string) : nat :=
  occurrences x (filter (fun e => e.1 ∉ processed) es).*2.

Record kahn_inv (processed queue : list string) (indeg : gmap string nat) : Prop := {
  kn_nodup : NoDup (processed ++ queue);
  kn_sub : forall x, x ∈ processed ++ queue -> x ∈ ids;
  kn_indeg : forall x, indeg !! x = if decide (x ∈ ids) then Some (waiting processed x) else None;
  kn_zero : forall x, x ∈ ids -> waiting processed x = 0 <-> x ∈ processed ++ queue;
  kn_topo : forall l x r, processed = l ++ x :: r -> forall d, (d, x) ∈ es -> d ∈ l;
}.

Lemma waiting_zero processed x : waiting processed x = 0 <-> forall d, (d, x) ∈ es -> d ∈ processed.
Proof.
  unfold waiting. split.
  - intros H d Hd. destruct (decide (d ∈ processed)) as [|Hn]; [done|]. exfalso.
    assert (0 < occurrences x (filter (fun e => e.1 ∉ processed) es).*2); [|lia].
    apply occurrences_pos. apply list_elem_of_fmap. exists (d, x). split; [done|]. by apply list_elem_of_filter.
  - intros H. destruct (occurrences x _) eqn:E; [done|]. exfalso.
    assert (x ∈ (filter (fun e => e.1 ∉ processed) es).*2) as Hx by (apply occurrences_pos; lia).
    apply list_elem_of_fmap in Hx as ([d y] & -> & [Hn Hd]%list_elem_of_filter). by apply Hn, H.
Qed.

(** Processing [n] takes off exactly the edges out of [n]. *)
Lemma waiting_step processed n x :
  n ∉ processed ->
  waiting processed x = waiting (processed ++ [n]) x + occurrences x (filter (fun e => e.1 = n) es).*2.
Proof.
  intros Hn. unfold waiting. clear Hends Hen. induction es as [|[d y] l IH]; [done|]. rewrite !filter_cons. cbn [fst].
  destruct (decide (d ∉ processed)) as [Hd|Hd], (decide (d ∉ processed ++ [n])) as [Hd'|Hd'], (decide (d = n)) as [->|Hne];
    rewrite ?fmap_cons, ?occurrences_cons; cbn [fst snd] in *; try lia; exfalso; clear IH;
    try apply dec_stable in Hd; try apply dec_stable in Hd'; rewrite ?elem_of_app, ?list_elem_of_singleton in *; naive_solver.
Qed.

Lemma kahn_pop processed n rest indeg :
  kahn_inv processed (n :: rest) indeg ->
  exists indeg' new, foldl release_task (indeg, rest) (default [] (enables !! n)) = (indeg', rest ++ new) /\
    kahn_inv (processed ++ [n]) (rest ++ new) indeg'.
Proof.
  intros [Hnd Hsub Hdeg Hzero Htopo].
  assert (Hn : n ∉ processed).
  { apply NoDup_app in Hnd as (_ & Hdis & _). intros H. apply (Hdis n H). by left. }
  assert (Hin : n ∈ processed ++ n :: rest) by (apply elem_of_app; right; by left).
  assert (Hnz : waiting processed n = 0) by (apply Hzero; [apply Hsub|]; done).
  rewrite Hen. destruct (release_fold (filter (fun e => e.1 = n) es).*2 indeg rest) as (indeg' & new & Hfold & Hnew & Hdeg' & Helem).
  { intros t Ht. pose proof Ht as ([d y] & -> & [_ Hd]%list_elem_of_filter)%list_elem_of_fmap. exists (waiting processed y).
    rewrite Hdeg, decide_True by (by apply (Hends (d, y))). split; [done|]. rewrite (waiting_step _ n) by done. cbn. lia. }
  assert (Hw : forall x, x ∈ new <-> x ∈ ids /\ 0 < waiting processed x /\ waiting (processed ++ [n]) x = 0).
  { intros x. rewrite Helem, Hdeg, occurrences_pos. pose proof (waiting_step processed n x Hn).
    destruct (decide (x ∈ ids)); [|naive_solver]. split; [intros [? [= ?]]; split_and!; [done|lia..]|].
    intros (_ & ? & ?). split; [lia|f_equal; lia]. }
  exists indeg', new. split; [done|]. constructor.
  - assert (processed ++ n :: rest = (processed ++ [n]) ++ rest) as E by by rewrite <- app_assoc. rewrite E in Hnd.
    rewrite app_assoc. apply NoDup_app. split_and!; [done| |done].
    intros x Hx (Hid & Hpos & _)%Hw. rewrite <- E in Hx. apply Hzero in Hx; [lia|done].
  - intros x. rewrite !elem_of_app. intros [[H|H]|[H|H]]; [apply Hsub; set_solver..|]. by apply Hw.
  - intros x. rewrite Hdeg', Hdeg. destruct (decide (x ∈ ids)); [|done]. cbn. f_equal.
    rewrite (waiting_step processed n x Hn). lia.
  - intros x Hx. pose proof (waiting_step processed n x Hn) as Hs. split.
    + intros Hz. destruct (decide (waiting processed x = 0)) as [H0|H0].
      * apply Hzero in H0; set_solver.
      * assert (x ∈ new) by (apply Hw; split_and!; [done|lia|done]). set_solver.
    + intros H. assert (x ∈ processed ++ n :: rest \/ x ∈ new) as [H'|H'] by set_solver; [|by apply Hw].
      apply Hzero in H'; [lia|done].
  - intros l x r E d Hd. destruct r as [|y r] using rev_ind.
    + apply app_inj_tail in E as [-> ->]. by apply (proj1 (waiting_zero l x) Hnz).
    + rewrite app_comm_cons, app_assoc in E. apply app_inj_tail in E as [E _]. by eapply Htopo.
Qed.

(** The loop ends within one step per task, with every edge into a processed node coming
    from an earlier one, and every other node waiting for one that was not processed. *)
Lemma kahn_loop_ends fuel : forall processed queue indeg,
  kahn_inv processed queue indeg -> length ids < fuel + length processed ->
  exists processed' indeg', kahn_loop fuel enables indeg queue (length processed) = Some (indeg', length processed') /\
    kahn_inv processed' [] indeg'.
Proof.
  induction fuel as [|fuel IH]; intros processed queue indeg I Hf; destruct queue as [|n rest]; cbn [kahn_loop].
  - by exists processed, indeg.
  - exfalso. assert (length (processed ++ n :: rest) <= length ids).
    { apply submseteq_length, NoDup_submseteq; apply I. }
    rewrite length_app in *. cbn in *. lia.
  - by exists processed, indeg.
  - destruct (kahn_pop _ _ _ _ I) as (indeg' & new & -> & I'). cbn beta iota.
    destruct (IH _ _ _ I') as (processed' & indeg'' & Hl & I''); [rewrite length_app; cbn; lia|].
    rewrite length_app in Hl. cbn in Hl. rewrite Nat.add_1_r in Hl. eauto.
Qed.
End loop.

(** ** Cycles *)

Section cycles.
Context (ids : list string) (es : list (string * string)) (processed : list string) (indeg : gmap string nat).
Context (Hends : forall e, e ∈ es -> e.1 ∈ ids /\ e.2 ∈ ids).
Context (I : kahn_inv ids es processed [] indeg).

Definition arrow (d x : string) : Prop := (d, x) ∈ es.

(** On a cycle, or behind one. *)
Definition stuck (x : string) : Prop := exists y, tc arrow y y /\ rtc arrow y x.

Lemma processed_before l x r d : processed = l ++ x :: r -> tc arrow d x -> d ∈ l.
Proof.
  intros E Hd. induction Hd as [d x Hd|d y x Hd _ IH]; [by eapply (kn_topo _ _ _ _ _ I)|].
  destruct (list_elem_of_split _ _ (IH E)) as (l1 & l2 & ->).
  apply elem_of_app. left. apply (kn_topo _ _ _ _ _ I l1 y (l2 ++ x :: r)); [|done]. by rewrite E, <- app_assoc.
Qed.

Lemma processed_not_stuck x : x ∈ processed -> ~ stuck x.
Proof.
  intros Hx (y & Hy & Hyx). assert (Hp : y ∈ processed).
  { destruct (list_elem_of_split _ _ Hx) as (l & r & E). apply rtc_tc in Hyx as [->|Hyx]; [done|].
    rewrite E. apply elem_of_app. left. by eapply processed_before. }
  destruct (list_elem_of_split _ _ Hp) as (l & r & E). pose proof (processed_before _ _ _ _ E Hy) as Hl.
  pose proof (kn_nodup _ _ _ _ _ I) as Hn. rewrite app_nil_r, E in Hn. apply NoDup_app in Hn as (_ & Hn & _).
  apply (Hn y Hl). by left.
Qed.

(** Going back from an unprocessed node along unprocessed dependencies repeats a node. *)
Lemma unprocessed_back x n : forall seen z,
  length ids < n + length seen -> NoDup seen -> (forall w, w ∈ seen -> w ∈ ids /\ tc arrow z w) ->
  z ∈ ids -> z ∉ processed -> rtc arrow z x -> stuck x.
Proof.
  induction n as [|n IH]; intros seen z Hlen Hnd Hseen Hz Hp Hx.
  { exfalso. assert (length seen <= length ids); [|lia]. apply submseteq_length, NoDup_submseteq; [done|].
    intros w Hw. by apply Hseen. }
  destruct (decide (z ∈ seen)) as [Hin|Hnin].
  { exists z. split; [by apply Hseen|done]. }
  destruct (decide (Exists (fun e => e.2 = z /\ e.1 ∉ processed) es)) as [He|Hne].
  - apply Exists_exists in He as ([d y] & Hd & [Ey Hdp]). cbn in Ey, Hdp. subst y.
    apply (IH (z :: seen) d); [cbn; lia|by constructor| |by apply (Hends (d, z))|done|].
    + intros w [->|Hw]%elem_of_cons; [by split; [|apply tc_once]|]. destruct (Hseen w Hw). split; [done|].
      by eapply tc_l.
    + by eapply rtc_l.
  - exfalso. apply Hp. rewrite <- (app_nil_r processed). apply (kn_zero _ _ _ _ _ I); [done|].
    apply waiting_zero. intros d Hd. destruct (decide (d ∈ processed)); [done|]. exfalso. apply Hne, Exists_exists.
    by exists (d, z).
Qed.

Lemma unprocessed_stuck x : x ∈ ids -> x ∉ processed -> stuck x.
Proof.
  intros Hx Hn. apply (unprocessed_back x (S (length ids)) [] x); [cbn; lia|constructor| |done|done|reflexivity].
  by intros w ?%elem_of_nil.
Qed.

Lemma processed_iff x : x ∈ ids -> x ∈ processed <-> ~ stuck x.
Proof.
  intros Hx. split; [by apply processed_not_stuck|]. intros Hns. destruct (decide (x ∈ processed)) as [|Hn]; [done|].
  by destruct Hns; apply unprocessed_stuck.
Qed.

Lemma all_processed : NoDup ids -> length processed = length ids <-> forall x, ~ tc arrow x x.
Proof.
  intros Hnd. pose proof (kn_nodup _ _ _ _ _ I) as Hp. rewrite app_nil_r in Hp.
  assert (Hsub : forall x, x ∈ processed -> x ∈ ids).
  { intros x Hx. apply (kn_sub _ _ _ _ _ I). by rewrite app_nil_r. }
  split.
  - intros Hlen x Hc. assert (Hx : x ∈ ids) by (inversion Hc as [? ? H|? ? ? H]; by apply (Hends _ H)).
    assert (ids ⊆+ processed) as Hs.
    { apply Permutation_submseteq. symmetry. apply submseteq_length_Permutation; [by apply NoDup_submseteq|lia]. }
    apply (processed_not_stuck x); [by eapply elem_of_submseteq|]. by exists x.
  - intros Hac. apply Nat.le_antisymm; apply submseteq_length, NoDup_submseteq; try done.
    intros x Hx. apply processed_iff; [done|]. intros (y & Hy & _). by apply (Hac y).
Qed.
End cycles.

(** ** The validation *)

Section validation.
Context `{HashIter}.

Lemma elem_of_filter_keys (P : string * nat -> Prop) `{forall kv, Decision (P kv)} (m : gmap string nat) x :
  x ∈ (filter P (hm_iter m)).*1 <-> exists v, m !! x = Some v /\ P (x, v).
Proof.
  rewrite list_elem_of_fmap. setoid_rewrite list_elem_of_filter. setoid_rewrite (hm_iter_perm m). split.
  - intros ([k v] & -> & HP & Hin%elem_of_map_to_list). eauto.
  - intros (v & Hv & HP). exists (x, v). split_and!; [done|done|by apply elem_of_map_to_list].
Qed.

Lemma NoDup_filter_keys (P : string * nat -> Prop) `{forall kv, Decision (P kv)} (m : gmap string nat) :
  NoDup (filter P (hm_iter m)).*1.
Proof.
  eapply (sublist_NoDup _ (hm_iter m).*1); [rewrite (hm_iter_perm m); apply NoDup_fst_map_to_list|]. apply fmap_sublist, sublist_filter.
Qed.

Lemma initial_inv tasks indeg enables :
  initial_counts tasks = (indeg, enables) -> (forall e, e ∈ dep_edges tasks -> e.1 ∈ task_ids tasks) ->
  kahn_inv (task_ids tasks) (dep_edges tasks) [] (filter (fun kv => kv.2 = O) (hm_iter indeg)).*1 indeg /\
  forall d, default [] (enables !! d) = (filter (fun e => e.1 = d) (dep_edges tasks)).*2.
Proof.
  intros E Hsrc. unfold initial_counts in E. rewrite count_tasks in E.
  destruct (count_edges (list_to_set (task_ids tasks)) (dep_edges tasks)
    (foldl (fun m t => <[pt_task_id t := O]> m) ∅ tasks) ∅) as [H1 H2].
  { intros e He. apply elem_of_list_to_set. by apply Hsrc. }
  unfold task_ids in H1, H2. rewrite E in H1, H2. cbn [fst snd] in H1, H2. setoid_rewrite initial_zeros in H1.
  split; [|by intros d; rewrite H2, lookup_empty].
  assert (Hw : forall x, waiting (dep_edges tasks) [] x = occurrences x (dep_edges tasks).*2).
  { intros x. unfold waiting. f_equal. f_equal. generalize (dep_edges tasks). intros l.
    induction l as [|e l IH]; [done|]. rewrite filter_cons, decide_True by apply not_elem_of_nil. by f_equal. }
  assert (Hdeg : forall x, indeg !! x = if decide (x ∈ task_ids tasks) then Some (waiting (dep_edges tasks) [] x) else None).
  { intros x. rewrite H1, Hw. destruct (decide _); cbn; [f_equal; lia|done]. }
  constructor.
  - cbn [app]. apply NoDup_filter_keys.
  - intros x Hx. cbn [app] in Hx. apply elem_of_filter_keys in Hx as (v & Hv & _). rewrite Hdeg in Hv. by destruct (decide _).
  - exact Hdeg.
  - intros x Hx. cbn [app]. rewrite elem_of_filter_keys, Hdeg, decide_True by done. naive_solver.
  - intros [|] x r E'; discriminate E'.
Qed.

(** The loop always ends, and reports exactly the tasks on or behind a cycle. *)
Lemma find_cycle_spec tasks :
  NoDup (task_ids tasks) -> (forall e, e ∈ dep_edges tasks -> e.1 ∈ task_ids tasks) ->
  exists r, find_cycle (kahn_fuel tasks) tasks = Some r /\
    (r = None <-> forall x, ~ tc (precedes tasks) x x) /\
    (forall c, r = Some c -> c <> [] /\
       forall x, x ∈ c <-> x ∈ task_ids tasks /\ exists y, tc (precedes tasks) y y /\ rtc (precedes tasks) y x).
Proof.
  intros Hnd Hsrc. unfold find_cycle. destruct (initial_counts tasks) as [indeg enables] eqn:E.
  destruct (initial_inv _ _ _ E Hsrc) as [I Hen].
  assert (Hends : forall e, e ∈ dep_edges tasks -> e.1 ∈ task_ids tasks /\ e.2 ∈ task_ids tasks).
  { intros [d x] He. split; [by apply Hsrc|]. apply elem_of_dep_edges in He as (t & Ht & <- & _). apply elem_of_task_ids. eauto. }
  assert (Hlen : length (task_ids tasks) = length tasks) by apply length_fmap.
  destruct (kahn_loop_ends _ _ _ Hends Hen (kahn_fuel tasks) [] _ indeg I) as (fin & indeg' & Hl & I').
  { unfold kahn_fuel. cbn. lia. }
  cbn [length] in Hl. rewrite Hl. cbn beta iota delta [mbind option_bind]. eexists. split; [reflexivity|].
  pose proof (all_processed _ _ _ _ Hends I' Hnd) as Hall. rewrite Hlen in Hall.
  destruct (Nat.eqb_spec (length fin) (length tasks)) as [Heq|Hne].
  { split; [|done]. split; [|done]. intros _. by apply Hall. }
  assert (Hc : forall x, x ∈ merge_sort String.le (filter (fun kv => 0 < kv.2) (hm_iter indeg')).*1 <->
                    x ∈ task_ids tasks /\ stuck (dep_edges tasks) x).
  { intros x. rewrite merge_sort_Permutation, elem_of_filter_keys, (kn_indeg _ _ _ _ _ I').
    destruct (decide (x ∈ task_ids tasks)) as [Hx|Hx]; [|naive_solver].
    pose proof (kn_zero _ _ _ _ _ I' x Hx) as Hz. rewrite app_nil_r in Hz. split.
    - intros (v & [= <-] & Hpos). split; [done|]. apply (unprocessed_stuck _ _ _ _ Hends I'); [done|]. intros Hp.
      apply Hz in Hp. cbn in Hpos. lia.
    - intros [_ Hs]. eexists. split; [done|]. assert (waiting (dep_edges tasks) fin x <> 0); [|cbn; lia]. intros H0%Hz.
      by apply (processed_not_stuck _ _ _ _ I' x). }
  assert (Hno : merge_sort String.le (filter (fun kv => 0 < kv.2) (hm_iter indeg')).*1 <> []).
  { intros Hnil. apply Hne. apply Hall. intros x Hx.
    assert (x ∈ task_ids tasks) by (inversion Hx as [? ? Hr|? ? ? Hr]; by apply (Hends _ Hr)).
    rewrite Hnil in Hc. apply (not_elem_of_nil x), Hc. split; [done|]. by exists x. }
  split; [split; [done|]|].
  - intros Hac. exfalso. apply Hne. by apply Hall.
  - intros c [= <-]. split; [done|]. exact Hc.
Qed.

Lemma first_duplicate_None tasks : forall seen,
  first_duplicate seen tasks = None <-> NoDup (task_ids tasks) /\ forall x, x ∈ task_ids tasks -> x ∉ seen.
Proof.
  induction tasks as [|t tasks IH]; intros seen; cbn [first_duplicate].
  - split; [intros _; split; [constructor|by intros x ?%elem_of_nil]|done].
  - unfold task_ids. rewrite fmap_cons, NoDup_cons. case_bool_decide as Hin.
    + split; [done|]. intros [_ Hd]. by destruct (Hd (pt_task_id t)); [left|].
    + rewrite IH. unfold task_ids. setoid_rewrite elem_of_cons. setoid_rewrite not_elem_of_union.
      setoid_rewrite not_elem_of_singleton. naive_solver.
Qed.

Lemma check_deps_Ok ids t deps :
  check_deps ids t deps = Ok tt <-> forall d, d ∈ deps -> d <> t /\ d ∈ ids.
Proof.
  induction deps as [|d deps IH]; cbn [check_deps]; [split; [by intros _ d ?%elem_of_nil|done]|].
  setoid_rewrite elem_of_cons. repeat case_bool_decide; cbn [negb]; rewrite ?IH; naive_solver.
Qed.

Lemma check_all_deps_Ok ids tasks :
  check_all_deps ids tasks = Ok tt <-> forall t d, t ∈ tasks -> d ∈ pt_deps t -> d <> pt_task_id t /\ d ∈ ids.
Proof.
  induction tasks as [|t tasks IH]; cbn [check_all_deps]; [split; [by intros _ t d ?%elem_of_nil|done]|].
  rewrite bind_Ok. setoid_rewrite elem_of_cons. split.
  - intros ([] & H1 & H2) t' d [->|Hin] Hd; [by eapply check_deps_Ok|]. rewrite IH in H2. eauto.
  - intros Hall. exists tt. rewrite check_deps_Ok, IH. split; eauto.
Qed.

Lemma validate_graph_Ok tasks : validate_graph tasks = Ok tt <-> valid_plan tasks.
Proof.
  unfold validate_graph. destruct (first_duplicate ∅ tasks) as [id|] eqn:Ed.
  { split; [done|]. intros V. assert (first_duplicate ∅ tasks = None); [|congruence]. apply first_duplicate_None.
    split; [apply V|set_solver]. }
  apply first_duplicate_None in Ed as [Hnd _]. rewrite bind_Ok. split.
  - intros ([] & Hc & Hk). setoid_rewrite check_all_deps_Ok in Hc. setoid_rewrite elem_of_list_to_set in Hc.
    destruct (find_cycle_spec tasks Hnd) as (r & Hr & Hac & _).
    { intros [d x] (t & Ht & _ & Hd)%elem_of_dep_edges. by apply (Hc t). }
    rewrite Hr in Hk. destruct r; [done|]. constructor; [done| | |by apply Hac].
    + intros t Ht Hin. by destruct (Hc _ _ Ht Hin).
    + intros t d Ht Hin. by destruct (Hc _ _ Ht Hin).
  - intros V. exists tt. rewrite check_all_deps_Ok. split.
    + intros t d Ht Hd. split; [intros ->; by apply (vp_no_self _ V t)|]. apply elem_of_list_to_set. by apply (vp_closed _ V t).
    + destruct (find_cycle_spec tasks Hnd) as (r & Hr & Hac & _).
      { intros [d x] (t & Ht & _ & Hd)%elem_of_dep_edges. by apply (vp_closed _ V t). }
      rewrite Hr. assert (r = None) as ->; [|done]. apply Hac, V.
Qed.
End validation.

(** C22. [validate_graph] is exact, whatever order the hash maps are iterated in: it returns
    [Ok] for a task list if and only if the ids are unique, no task depends on itself, every
    dependency names a task of the list and no task precedes itself through dependencies; and
    when it reports a cycle, the tasks it names are precisely those on a dependency cycle or
    behind one, and there is at least one.  The loop of Kahn's algorithm always ends. *)
Theorem validate_graph_exact `{HashIter} (tasks : list PlanTask) :
  (validate_graph tasks = Ok tt <-> valid_plan tasks) /\
  (forall c, validate_graph tasks = Err (Cycle c) ->
     c <> [] /\ forall x, x ∈ c <-> x ∈ task_ids tasks /\ exists y, tc (precedes tasks) y y /\ rtc (precedes tasks) y x).
Proof.
  split; [apply validate_graph_Ok|]. intros c. unfold validate_graph.
  destruct (first_duplicate ∅ tasks) as [id|] eqn:Ed; [done|]. apply first_duplicate_None in Ed as [Hnd _].
  destruct (check_all_deps _ tasks) as [[]|e] eqn:Ec; cbn.
  - setoid_rewrite check_all_deps_Ok in Ec. setoid_rewrite elem_of_list_to_set in Ec.
    destruct (find_cycle_spec tasks Hnd) as (r & -> & _ & Hr).
    { intros [d x] (t & Ht & _ & Hd)%elem_of_dep_edges. by apply (Ec t). }
    destruct r as [c'|]; [|done]. intros [= <-]. by apply Hr.
  - intros [= ->]. exfalso. revert Ec. generalize (list_to_set (C := gset string) (pt_task_id <$> tasks)). intros ids.
    induction tasks as [|t ts IH]; cbn [check_all_deps]; [done|].
    destruct (check_deps ids (pt_task_id t) (pt_deps t)) as [[]|e] eqn:Ed; cbn.
    + apply IH. by inversion Hnd.
    + intros [= ->]. induction (pt_deps t) as [|d deps IHd]; cbn in Ed; [done|]. by repeat case_bool_decide; auto.
Qed.
