(* ===== verification/FleetPlans.v ===== *)
(** * Plans of the fleet kernel

    The keeper's view of [fleet.rs] and [store.rs]: stored plans stay valid task graphs with
    one child per task, edits are atomic, a re-plan restarts exactly the fleet it names, and a
    fleet whose plan is not complete always has something to run or to decide. *)
From S2P Require Import Prelude RustStr RustNum Grant FleetRecords FleetStore FleetFacts FleetInv FleetOps.
From S2P Require Import FleetReplan FleetEffects FleetSafety Fleet Kahn.
Open Scope octos_scope.

(** ** Stored plans *)

Lemma task_ids_shape tasks : task_ids tasks = ((fun t => (pt_task_id t, pt_deps t)) <$> tasks).*1.
Proof. unfold task_ids. by rewrite <- list_fmap_compose. Qed.

Lemma dep_edges_shape tasks :
  dep_edges tasks = ((fun t => (pt_task_id t, pt_deps t)) <$> tasks) ≫= fun s => (fun d => (d, s.1)) <$> s.2.
Proof. unfold dep_edges. induction tasks as [|t tasks IH]; [done|]. cbn. by rewrite IH. Qed.

(** Validity in terms of the ids and the edges. *)
Lemma valid_plan_edges tasks :
  valid_plan tasks <->
  NoDup (task_ids tasks) /\ (forall e, e ∈ dep_edges tasks -> e.1 <> e.2 /\ e.1 ∈ task_ids tasks) /\
  (forall x, ~ tc (fun d t => (d, t) ∈ dep_edges tasks) x x).
Proof.
  split.
  - intros V. split_and!; [apply V| |apply V]. intros [d x] (t & Ht & <- & Hd)%elem_of_dep_edges. cbn. split.
    + intros ->. by apply (vp_no_self _ V t).
    + by apply (vp_closed _ V t).
  - intros (Hn & He & Hac). constructor; [done| | |done].
    + intros t Ht Hd. destruct (He (pt_task_id t, pt_task_id t)) as [? _]; [apply elem_of_dep_edges; eauto|done].
    + intros t d Ht Hd. destruct (He (d, pt_task_id t)) as [_ ?]; [apply elem_of_dep_edges; eauto|done].
Qed.

Lemma valid_plan_shape p p' : shape p = shape p' -> valid_plan (dp_tasks p) -> valid_plan (dp_tasks p').
Proof. unfold shape. intros E. rewrite !valid_plan_edges, !task_ids_shape, !dep_edges_shape. by rewrite E. Qed.

(** Every task of a stored plan has a child with its dependencies. *)
Definition tracked (f : string) (tasks : list PlanTask) (C : gmap string (Row FleetChildRecord)) : Prop :=
  forall t, t ∈ tasks -> exists c, rd C (child_key f (pt_task_id t)) = Some c /\ ch_deps c = pt_deps t.

Lemma tracked_shape f p p' C : shape p = shape p' -> tracked f (dp_tasks p) C -> tracked f (dp_tasks p') C.
Proof.
  unfold shape. intros E H t Ht. assert ((pt_task_id t, pt_deps t) ∈ (fun t => (pt_task_id t, pt_deps t)) <$> dp_tasks p) as Hin.
  { rewrite E. apply list_elem_of_fmap. eauto. }
  apply list_elem_of_fmap in Hin as (t0 & [= -> ->] & Ht0). by apply H.
Qed.

Definition managed (db : Db) : Prop :=
  forall f p, rd (db_plans db) f = Some p ->
    key_component_is_safe f = true /\ valid_plan (dp_tasks p) /\ tracked f (dp_tasks p) (db_children db).

(** This binary reads every row, as when it has been the only writer. *)
Definition own_rows (db : Db) : Prop := forall k row, db_children db !! k = Some row -> is_Some (readable row).

Lemma rd_upd_over {A} `{Versioned A} R (t t' : gmap string (Row A)) k a :
  upd R t t' -> rd t k = Some a -> rd t' k = Some a \/ exists a', rd t' k = Some a' /\ R k (Some a) a'.
Proof.
  intros Hu Hr. destruct (Hu k) as [E|(o & a' & E & Hv & HR & [[_ Hn]|(a0 & -> & Ha0)])].
  - left. unfold rd in *. by rewrite E.
  - apply rd_Some in Hr as [Hr _]. congruence.
  - right. exists a'. rewrite Hr in Ha0. injection Ha0 as <-. split; [by apply rd_Some|done].
Qed.

Lemma rd_upd_back {A} `{Versioned A} R (t t' : gmap string (Row A)) k a' :
  upd R t t' -> rd t' k = Some a' ->
  rd t k = Some a' \/ (t !! k = None /\ R k None a') \/ exists a, rd t k = Some a /\ R k (Some a) a'.
Proof.
  intros Hu Hr. destruct (Hu k) as [E|(o & a0 & E & Hv & HR & Ho)]; [left; unfold rd in *; by rewrite <- E|].
  right. apply rd_Some in Hr as [Hr _]. assert (a0 = a') as -> by congruence.
  destruct Ho as [[-> Hn]|(a & -> & Ha)]; eauto.
Qed.

Lemma own_rows_upd G D db db' : effect G D db db' -> own_rows db -> own_rows db'.
Proof.
  intros E Ho k row Hk. destruct (ef_children _ _ _ _ E k) as [Ek|(o & a & Ek & Hv & _)]; [apply (Ho k); congruence|].
  rewrite Hk in Ek. injection Ek as ->. exists a. by apply readable_Some, decode_Some.
Qed.

Lemma tracked_upd G f tasks db db' :
  effect G False db db' -> tracked f tasks (db_children db) -> tracked f tasks (db_children db').
Proof.
  intros E H t Ht. destruct (H t Ht) as (c & Hc & Hd).
  destruct (rd_upd_over _ _ _ _ _ (ef_children _ _ _ _ E) Hc) as [Hc'|(c' & Hc' & _ & HR)]; [eauto|].
  exists c'. split; [done|]. destruct (HR c eq_refl) as [_ [[]|E']]. congruence.
Qed.

(** A call that stores no plan and keeps dependencies keeps the stored plans managed. *)
Lemma managed_upd G db db' : effect G False db db' -> managed db -> managed db'.
Proof.
  intros E M f p Hp. destruct (rd_upd_back _ _ _ _ _ (ef_plans _ _ _ _ E) Hp) as [Hp0|[[_ (_ & [] & _)]|(p0 & Hp0 & _ & _ & HR)]].
  - destruct (M f p Hp0) as (Hn & ? & ?). split_and!; [done..|by eapply tracked_upd].
  - done.
  - destruct (M f p0 Hp0) as (Hn & Hv & Ht), (HR p0 eq_refl) as [[]|Hs]. split_and!; [done|..].
    + by eapply valid_plan_shape.
    + eapply tracked_upd; [exact E|]. by eapply tracked_shape.
Qed.

(** The plans of the other fleets. *)
Lemma managed_other f db db' :
  db_inv db -> managed db -> same_fleet f db db' ->
  forall p, rd (db_plans db') f = Some p ->
    key_component_is_safe f = true /\ valid_plan (dp_tasks p) /\ tracked f (dp_tasks p) (db_children db').
Proof.
  intros I M [_ Hpl Hch _] p Hp. unfold rd in Hp. rewrite Hpl in Hp. destruct (M f p Hp) as (Hn & Hv & Ht).
  split_and!; [done..|]. intros t Hin. destruct (Ht t Hin) as (c & Hc & Hd). exists c. split; [|done].
  apply Hch; [|done]. destruct (k_child _ _ _ (i_kernel _ I) _ _ Hc) as (Ek & Hn' & _).
  apply safe_no_nul in Hn. by apply child_key_inj in Ek as [-> _].
Qed.

(** ** Creation *)

Lemma create_children_tracked f now tasks : forall C C',
  NoDup (task_ids tasks) -> try_fold (create_child f now) C tasks = Ok C' ->
  tracked f tasks C' /\ (forall k, (forall t, t ∈ tasks -> k <> child_key f (pt_task_id t)) -> C' !! k = C !! k).
Proof.
  induction tasks as [|t tasks IH]; intros C C' Hn H; cbn in H.
  { injection H as <-. split; [by intros ? ?%elem_of_nil|done]. }
  apply bind_Ok in H as (C1 & H1 & H). unfold task_ids in Hn. rewrite fmap_cons in Hn. inversion Hn as [|? ? Ht Hn']; subst.
  destruct (IH _ _ Hn' H) as [Htr Hk]. unfold create_child in H1. follow H1. subst. split.
  - intros t' [->|Hin]%elem_of_cons; [|by apply Htr]. eexists. split; [apply rd_Some; split|].
    + rewrite Hk; [by rewrite lookup_insert_eq|]. intros t' Ht' Ek%child_key_same. apply Ht. rewrite Ek. by apply list_elem_of_fmap_2.
    + done.
    + done.
  - intros k Hne. rewrite Hk by (intros; apply Hne; by right). rewrite lookup_insert_ne; [done|]. intros <-. by eapply Hne; [left|].
Qed.

Lemma create_fleet_with_plan_managed key root hint prof budget hard plan now db o db' :
  db_inv db -> managed db -> valid_plan (dp_tasks plan) ->
  create_fleet_with_plan_and_workspace_provenance key root hint prof budget hard plan now db = Ok (o, db') -> managed db'.
Proof.
  intros I M V H. pose proof (create_fleet_with_plan_effect _ _ _ _ _ _ _ _ _ _ _ H) as E. intros g p Hp.
  destruct (decide (dp_fleet_id plan = g)) as [<-|Hne]; [|by eapply managed_other; [| |by eapply effect_same|]].
  unfold create_fleet_with_plan_and_workspace_provenance in H.
  assert (key_component_is_safe (dp_fleet_id plan) = true) as Hs.
  { apply bind_Ok in H as ([] & Hk & _). apply ensure_key_safe_ok in Hk. by inversion Hk. }
  follow H. subst. cbn in Hp |- *.
  rewrite rd_insert_eq in Hp by done. injection Hp as <-. split_and!; [done|done|]. eapply create_children_tracked; [apply V|eassumption].
Qed.

(** ** Re-planning *)

(** In a plan with unique ids, a task is the one found under its id. *)
Lemma find_task_unique tasks t : NoDup (task_ids tasks) -> t ∈ tasks -> find_task tasks (pt_task_id t) = Some t.
Proof.
  intros Hn Hin. destruct (find_task tasks (pt_task_id t)) as [t'|] eqn:E.
  - unfold find_task in E. apply fmap_Some in E as ([i t0] & (Hi & Eid & _)%list_find_Some & ->). cbn in *. f_equal.
    apply list_elem_of_lookup in Hin as [j Hj]. unfold task_ids in Hn. rewrite NoDup_alt in Hn.
    assert (i = j) as ->; [|congruence].
    apply (Hn i j (pt_task_id t)); rewrite list_lookup_fmap; [rewrite Hi; cbn; by rewrite Eid|by rewrite Hj].
  - assert (is_Some (find_task tasks (pt_task_id t))) as [? ?] by (apply find_task_is_Some; by apply list_elem_of_fmap_2). congruence.
Qed.

Lemma rewritten_deps tasks S gen now c t :
  find_task tasks (ch_child_id c) = Some t -> ch_deps (rewritten tasks S gen now c) = pt_deps t.
Proof. intros E. unfold rewritten, rebucket. fields. rewrite E. by case_bool_decide. Qed.

(** What a re-plan leaves of the fleet it names. *)
Record restarted (f : string) (rev : Z) (new_plan : DurablePlan) (db db' : Db) : Prop := {
  rs_fleet : exists fl fl', rd (db_fleets db) f = Some fl /\ fleet_is_live fl = true /\ rd (db_fleets db') f = Some fl' /\
    fl_status fl' = fl_status fl /\ fl_generation fl' = (fl_generation fl + 1)%Z /\
    bg_tokens_reserved (fl_budget fl') = 0%Z /\ bg_tokens_committed (fl_budget fl') = bg_tokens_committed (fl_budget fl) /\
    forall cid c', rd (db_children db') (child_key f cid) = Some c' -> ch_generation c' = fl_generation fl';
  rs_plan : (exists p, rd (db_plans db) f = Some p /\ dp_revision p = rev) /\
    rd (db_plans db') f = Some (dp_set f (rev + 1) (dp_tasks new_plan) new_plan);
  rs_attempts : forall k a, rd (db_attempts db') k = Some a -> at_fleet_id a = f -> att_is_live a = false;
  rs_kept : forall t, t ∈ dp_tasks new_plan -> exists c',
    rd (db_children db') (child_key f (pt_task_id t)) = Some c' /\ ch_deps c' = pt_deps t /\
    (ch_status c' = Succeeded <-> exists c, rd (db_children db) (child_key f (pt_task_id t)) = Some c /\ ch_status c = Succeeded) /\
    (ch_status c' = Succeeded \/ ch_status c' = Ready \/ ch_status c' = Planned) /\
    (ch_status c' = Ready <-> ch_status c' <> Succeeded /\ deps_done (db_children db') f (pt_deps t));
  rs_removed : forall cid c, rd (db_children db) (child_key f cid) = Some c -> cid ∉ task_ids (dp_tasks new_plan) ->
    exists c', rd (db_children db') (child_key f cid) = Some c' /\ ch_status c' = Cancelled /\ ch_deps c' = ch_deps c;
}.

Section restart.
Context (f : string) (rev : Z) (new_plan : DurablePlan) (now : Z) (db : Db) (fl : FleetRecord).
Context (existing : list FleetChildRecord) (undec : gset string).
Context (I : db_inv db) (Ho : own_rows db) (Ra : replan_admitted f rev new_plan db fl existing undec).

Local Abbreviation tasks := (dp_tasks new_plan).
Local Abbreviation S := (surviving_succeeded tasks existing).
Local Abbreviation gen := (fl_generation fl + 1)%Z.
Local Abbreviation C := (db_children db).
Local Abbreviation C' := (final_children C f tasks S gen now existing undec).

(** A row of the fleet after the re-plan is a rewritten child or a fresh one. *)
Lemma restarted_row cid c' :
  rd C' (child_key f cid) = Some c' ->
  (exists c, rd C (child_key f cid) = Some c /\ c ∈ existing /\ ch_child_id c = cid /\ c' = rewritten tasks S gen now c) \/
  (C !! child_key f cid = None /\ exists t, t ∈ tasks /\ pt_task_id t = cid /\
     c' = new_child f cid (readiness S (pt_deps t)) (pt_deps t) gen now).
Proof.
  destruct Ra as [[Hf Htasks] _ _ Hrows _ _]. pose proof (i_kernel _ I) as K. intros [Hr Hv]%rd_Some.
  pose proof (final_children_row _ _ _ f tasks S gen now K existing undec (child_key f cid) Hrows) as H. rewrite Hr in H.
  inversion H as [Hk E|c Hc Hk E|t Ht Hk Ek E]; subst.
  - assert (rd C (child_key f cid) = Some c') as Hrd by (apply rd_Some; split; [congruence|done]).
    destruct (k_child _ _ _ K _ _ Hrd) as (Ek & Hn & _). apply child_key_inj in Ek as [Ef ->]; [|done..].
    exfalso. apply (Hk c'); [|by rewrite Ef]. by apply (replan_existing _ _ _ _ _ Hrows).
  - left. exists c. apply child_key_same in Hk as ->. split_and!; try done. by apply (replan_existing _ _ _ _ _ Hrows).
  - right. apply child_key_same in Ek as ->. eauto.
Qed.

Lemma restarted_generation cid c' : rd C' (child_key f cid) = Some c' -> ch_generation c' = gen.
Proof.
  intros [(c & _ & _ & _ & ->)|(_ & t & _ & _ & ->)]%restarted_row; [|done].
  by destruct (rewritten_ids tasks S gen now c) as (_ & _ & _ & ->).
Qed.

Lemma restarted_succeeded cid c' :
  rd C' (child_key f cid) = Some c' -> ch_status c' = Succeeded <-> cid ∈ S.
Proof.
  pose proof (ra_rows _ _ _ _ _ _ _ Ra) as Hrows. rewrite surviving_succeeded_spec.
  intros [(c & Hc & Hin & <- & ->)|(Hn & t & _ & <- & ->)]%restarted_row.
  - destruct (k_child _ _ _ (i_kernel _ I) _ _ Hc) as (_ & _ & _ & _ & Hloc). split.
    + intros Hs. exists c. split_and!; try done; revert Hs; unfold rewritten, rebucket; fields;
        (destruct (find_task tasks (ch_child_id c)); [|done]); case_bool_decide; try done; fields;
        destruct (readiness_cases S (pt_deps p)) as [->|[-> _]]; done.
    + intros (c0 & Hc0 & Hs & E & Ht). assert (c0 = c) as ->.
      { apply (replan_existing _ _ _ _ _ Hrows) in Hc0 as [Hc0 _]. rewrite E in Hc0. congruence. }
      by apply rewritten_status.
  - split.
    + fields. by destruct (readiness_cases S (pt_deps t)) as [->|[-> _]].
    + intros (c0 & [Hc0 _]%(replan_existing _ _ _ _ _ Hrows) & _ & E & _). rewrite E in Hc0. apply rd_Some in Hc0 as [? _]. congruence.
Qed.

Lemma restarted_deps_done deps : deps_done C' f deps <-> forall d, d ∈ deps -> d ∈ S.
Proof.
  destruct Ra as [[Hf Htasks] _ _ Hrows _ _]. split.
  - intros H d Hd. destruct (H d Hd) as (cd & Hcd & Hs). by eapply restarted_succeeded.
  - intros H. eapply final_deps; [apply (i_kernel _ I)|done|apply surviving_succeeded_spec|done].
Qed.

Lemma readiness_Ready deps : readiness S deps = Ready <-> forall d, d ∈ deps -> d ∈ S.
Proof.
  split; [destruct (readiness_cases S deps) as [E|[_ Hd]]; [congruence|done]|].
  intros H. unfold readiness. rewrite (proj2 (forallb_forall _ _)); [done|]. intros d Hd%list_elem_of_In.
  apply bool_decide_eq_true. by apply H.
Qed.

(** A task of the new plan: its child has the task's dependencies, and runs again unless it
    had succeeded. *)
Lemma restarted_task t :
  NoDup (task_ids tasks) -> t ∈ tasks -> exists c',
    rd C' (child_key f (pt_task_id t)) = Some c' /\ ch_deps c' = pt_deps t /\
    (ch_status c' = Succeeded <-> exists c, rd C (child_key f (pt_task_id t)) = Some c /\ ch_status c = Succeeded) /\
    (ch_status c' = Succeeded \/ ch_status c' = readiness S (pt_deps t)).
Proof.
  intros Hn Ht. pose proof (find_task_unique _ _ Hn Ht) as Hfind. pose proof (i_kernel _ I) as K.
  destruct Ra as [[Hf Htasks] _ _ Hrows _ _].
  destruct (C !! child_key f (pt_task_id t)) as [row|] eqn:Ec.
  - destruct (Ho _ _ Ec) as [c Hc]. assert (Hrd : rd C (child_key f (pt_task_id t)) = Some c) by (unfold rd; by rewrite Ec).
    destruct (k_child _ _ _ K _ _ Hrd) as (Ek & Hn' & _ & _ & Hloc). apply child_key_inj in Ek as [Ef Eid]; [|done..].
    assert (Hin : c ∈ existing) by (apply (replan_existing _ _ _ _ _ Hrows); by rewrite <- Eid).
    exists (rewritten tasks S gen now c). rewrite Eid in *. split_and!.
    + by eapply final_children_own.
    + by apply rewritten_deps.
    + rewrite restarted_succeeded by (by eapply final_children_own). rewrite surviving_succeeded_spec. split.
      * intros (c0 & [Hc0 _]%(replan_existing _ _ _ _ _ Hrows) & Hs & E & _). rewrite E in Hc0. eauto.
      * intros (c0 & Hc0 & Hs). assert (c0 = c) as -> by congruence. exists c. rewrite Hfind. eauto.
    + unfold rewritten, rebucket. fields. rewrite Hfind. case_bool_decide; [by left|by right].
  - destruct (final_children_fresh _ C _ f tasks S gen now K existing undec Hrows t Ht Ec) as (t' & Ht' & Eid & Hr).
    pose proof (find_task_unique _ _ Hn Ht') as Hfind'. rewrite Eid in Hfind'. assert (t' = t) as -> by congruence.
    eexists. split; [exact Hr|]. split_and!; [done| |by right]. fields. split.
    + by destruct (readiness_cases S (pt_deps t)) as [->|[-> _]].
    + intros (c & [? _]%rd_Some & _). congruence.
Qed.

Lemma restarted_removed cid c :
  rd C (child_key f cid) = Some c -> cid ∉ task_ids tasks ->
  exists c', rd C' (child_key f cid) = Some c' /\ ch_status c' = Cancelled /\ ch_deps c' = ch_deps c.
Proof.
  destruct Ra as [[Hf Htasks] _ _ Hrows _ _]. intros Hc Hn. pose proof (i_kernel _ I) as K.
  destruct (k_child _ _ _ K _ _ Hc) as (Ek & Hn' & _). apply child_key_inj in Ek as [Ef ->]; [|done..].
  exists (rewritten tasks S gen now c). split.
  - eapply final_children_own; [done|done|]. by apply (replan_existing _ _ _ _ _ Hrows).
  - unfold rewritten, rebucket. fields. destruct (find_task tasks (ch_child_id c)) eqn:E; [|done]. exfalso. apply Hn.
    apply find_task_is_Some. eauto.
Qed.
End restart.

Lemma replan_restarted f rev new_plan now db r db' :
  db_inv db -> own_rows db -> NoDup (task_ids (dp_tasks new_plan)) ->
  replan f rev new_plan now db = Ok (Mutated r, db') -> r = (rev + 1)%Z /\ restarted f rev new_plan db db'.
Proof.
  intros I Ho Hn H. destruct (replan_Ok _ _ _ _ _ _ _ I H) as [[_ Hno]|(fl & existing & undec & A' & [= ->] & Ra & -> & P)];
    [by destruct (Hno r)|]. split; [done|]. pose proof Ra as [[Hf Htasks] Hp [Hfl Hlive] Hrows _ _].
  pose proof (rd_version _ _ _ Hfl) as Hfv. constructor; cbn.
  - eexists fl, _. split; [done|]. split; [done|]. rewrite rd_insert_eq by done. split_and!; try done.
    intros cid c' Hc'. by apply (restarted_generation _ _ _ _ _ _ _ _ I Ra) in Hc'.
  - split; [done|]. by rewrite rd_insert_eq.
  - intros k a Ha Haf. destruct (att_is_live a) eqn:Hl; [|done].
    destruct (ps_live _ _ _ _ _ _ _ _ _ _ P _ _ Ha Hl) as [_ Hin]. destruct (Hin Haf) as (? & Hnil & _). by apply elem_of_nil in Hnil.
  - intros t Ht. destruct (restarted_task f rev new_plan now db fl existing undec I Ho Ra t Hn Ht) as (c' & Hc' & Hd & Hs & Hst).
    exists c'. split_and!; try done.
    + destruct Hst as [?|Hst]; [by left|right]. rewrite Hst.
      destruct (readiness_cases (surviving_succeeded (dp_tasks new_plan) existing) (pt_deps t)) as [->|[-> _]]; auto.
    + rewrite (restarted_deps_done _ _ _ _ _ _ _ _ I Ra), <- readiness_Ready. destruct Hst as [Hst|Hst]; rewrite Hst; [naive_solver|].
      split; [|naive_solver]. intros E. split; [|done]. by rewrite E.
  - intros cid c Hc Hin. by eapply restarted_removed.
Qed.

Lemma replan_managed f rev new_plan now db o db' :
  db_inv db -> own_rows db -> managed db -> valid_plan (dp_tasks new_plan) ->
  replan f rev new_plan now db = Ok (o, db') -> managed db'.
Proof.
  intros I Ho M V H. pose proof (replan_effect _ _ _ _ _ _ _ I H) as E.
  destruct (replan_Ok _ _ _ _ _ _ _ I H) as [[-> _]|(fl & existing & undec & A' & -> & Ra & _ & _)]; [done|].
  destruct (replan_restarted _ _ _ _ _ _ _ I Ho (vp_unique _ V) H) as [_ R]. intros g p Hp.
  destruct (decide (f = g)) as [<-|Hne]; [|by eapply managed_other; [| |by eapply effect_same|]].
  rewrite (proj2 (rs_plan _ _ _ _ _ R)) in Hp. injection Hp as <-. destruct (rs_plan _ _ _ _ _ R) as [(p0 & Hp0 & _) _].
  split_and!; [by apply (M f p0)|done|]. intros t Ht. destruct (rs_kept _ _ _ _ _ R t Ht) as (c' & ? & ? & _). eauto.
Qed.

(** ** Sequences of calls that store validated plans *)

Section planned.
Context `{HashIter}.

(** What the plan API calls: a plan it stores has been validated. *)
Definition planned (c : Call) : Prop :=
  match c with
  | CReplan _ _ plan _ | CCreateFleetWithPlan _ _ _ _ _ _ plan _ => validate_graph (dp_tasks plan) = Ok tt
  | CCreatePlan _ => False
  | _ => True
  end.

Inductive planned_reachable : Db -> Prop :=
  | pr_open : planned_reachable open
  | pr_call db c : planned_reachable db -> admissible db c -> planned c -> planned_reachable (exec c db).

Lemma planned_reachable_reachable db : planned_reachable db -> reachable db.
Proof. induction 1; by constructor. Qed.

Lemma own_rows_reachable db : reachable db -> own_rows db.
Proof.
  induction 1 as [|db c R IH Ha]; [by intros k row Hk|]. eapply own_rows_upd; [|exact IH]. by apply exec_effect, Ha; apply reachable_inv.
Qed.

Lemma planned_managed db : planned_reachable db -> managed db.
Proof.
  induction 1 as [|db c R M Ha Hp]; [by intros f p Hp|]. apply planned_reachable_reachable in R. pose proof (reachable_inv _ R) as I.
  pose proof (own_rows_reachable _ R) as Ho. pose proof (exec_effect _ _ I Ha) as E.
  destruct c; try (by eapply managed_upd; [exact E|exact M]); cbn [exec planned] in *; unfold in_txn.
  - done.
  - destruct (create_fleet_with_plan_and_workspace_provenance key root hint prof budget hard plan now db) as [[o db']|e] eqn:Er; [|done].
    eapply create_fleet_with_plan_managed; [exact I|exact M|by apply validate_graph_Ok|exact Er].
  - destruct (replan f rev plan now db) as [[o db']|e] eqn:Er; [|done]. eapply replan_managed; [exact I|exact Ho|exact M|by apply validate_graph_Ok|exact Er].
Qed.
End planned.

(** ** Progress *)

(** A dependency order of a valid plan is well-founded. *)
Lemma precedes_wf tasks x : (forall x, ~ tc (precedes tasks) x x) -> Acc (precedes tasks) x.
Proof.
  intros Hac. change (sn (flip (precedes tasks)) x).
  assert (Hflip : forall a b, tc (flip (precedes tasks)) a b -> tc (precedes tasks) b a).
  { intros a b Hab. induction Hab as [a b Hab|a b c Hab _ IH]; [by apply tc_once|]. by eapply tc_r. }
  apply (@tc_finite_sn _ (flip (precedes tasks)) x).
  - intros y Hy. by apply (Hac y), Hflip.
  - exists (dep_edges tasks).*1. intros y Hy%Hflip.
    assert (exists z, precedes tasks y z) as [z Hz] by (inversion Hy; eauto). apply list_elem_of_fmap. by exists (y, z).
Qed.

(** A first task in dependency order among those that satisfy [P]. *)
Lemma first_task tasks (P : PlanTask -> Prop) `{forall t, Decision (P t)} :
  valid_plan tasks -> (exists t, t ∈ tasks /\ P t) ->
  exists t, t ∈ tasks /\ P t /\ forall t', t' ∈ tasks -> pt_task_id t' ∈ pt_deps t -> ~ P t'.
Proof.
  intros V (t & Ht & HP). remember (pt_task_id t) as x eqn:Ex. revert t Ht HP Ex.
  induction (precedes_wf tasks x (vp_acyclic _ V)) as [x _ IH]. intros t Ht HP ->.
  destruct (decide (Exists (fun t' => pt_task_id t' ∈ pt_deps t /\ P t') tasks)) as [He|Hne].
  - apply Exists_exists in He as (t' & Ht' & Hd & HP'). eapply (IH (pt_task_id t')); [|done|done|done].
    apply elem_of_dep_edges. eauto.
  - exists t. split_and!; [done..|]. intros t' Ht' Hd HP'. apply Hne, Exists_exists. eauto.
Qed.

(** What the resolver returns, on a readable table. *)
Lemma resolve_spec f now db :
  db_inv db -> key_component_is_safe f = true -> fleet_live db f = Ok true ->
  exists rows db', scan (db_children db) = Ok rows /\
    db_children db' = foldl (write_healed f (succeeded_ids (fleet_children f rows)) now) (db_children db) (fleet_children f rows) /\
    resolve_and_collect_ready f now db =
      Ok (merge_sort String.le (ch_child_id <$> filter (fun c => launchable c = true)
            (heal (succeeded_ids (fleet_children f rows)) now <$> fleet_children f rows)), db').
Proof.
  intros I Hs Hl. destruct (scan_intact _ (k_C_ok _ _ _ (i_kernel _ I))) as [rows Hrows].
  unfold resolve_and_collect_ready. cbn [ensure_key_safe]. rewrite Hs, Hl. cbn. rewrite Hrows. cbn.
  rewrite resolve_fold. eexists _, _. split_and!; [done| |reflexivity]. done.
Qed.

(** The states a plan task can be left in without the kernel having anything to do. *)
Definition awaits (s : ChildStatus) : Prop :=
  match s with Launching | Running | Blocked | Failed | Cancelled => True | _ => False end.

(** Nothing has succeeded for the task. *)
Definition unfinished (C : gmap string (Row FleetChildRecord)) (f : string) (t : PlanTask) : Prop :=
  match rd C (child_key f (pt_task_id t)) with Some c => ch_status c <> Succeeded | None => True end.

#[local] Instance unfinished_dec C f t : Decision (unfinished C f t).
Proof. unfold unfinished. destruct (rd C _); apply _. Defined.

#[local] Instance awaits_dec s : Decision (awaits s).
Proof. destruct s; cbn; apply _. Defined.

Lemma resolve_ready_task f now db t c rows :
  db_inv db -> scan (db_children db) = Ok rows -> no_nul f ->
  rd (db_children db) (child_key f (pt_task_id t)) = Some c -> ch_status c <> Succeeded -> ~ awaits (ch_status c) ->
  deps_done (db_children db) f (ch_deps c) ->
  pt_task_id t ∈ ch_child_id <$> filter (fun c => launchable c = true)
            (heal (succeeded_ids (fleet_children f rows)) now <$> fleet_children f rows).
Proof.
  intros I Hrows Hf Hc Hns Haw Hdeps. pose proof (i_kernel _ I) as K.
  destruct (k_child _ _ _ K _ _ Hc) as (Ek & Hn & _ & _ & Hloc). apply child_key_inj in Ek as [Ef Eid]; [|done..].
  set (S := succeeded_ids (fleet_children f rows)).
  apply list_elem_of_fmap. exists (heal S now c). split; [by rewrite (proj1 (heal_ids S now c))|].
  apply list_elem_of_filter. split; [|apply list_elem_of_fmap; exists c; split; [done|]].
  2:{ apply (elem_of_fleet_children _ _ _ _ Hrows). by rewrite <- Eid, <- Ef. }
  unfold heal, promotable, launchable, child_local in *. destruct (ch_status c) eqn:Es; try done; try (by destruct Haw).
  - destruct Hloc as (Hcur & _). rewrite Hcur. cbn. rewrite (proj2 (forallb_forall _ _)); [rewrite (bool_decide_true (Planned = Planned)) by done; cbn; by rewrite Hcur|].
    intros d Hd%list_elem_of_In. apply bool_decide_eq_true. destruct (Hdeps d Hd) as (cd & Hcd & Hs).
    apply (succeeded_ids_done _ _ _ _ Hrows). exists cd. destruct (k_child _ _ _ K _ _ Hcd) as (Ek & Hn' & _).
    apply child_key_inj in Ek as [-> ->]; done.
  - destruct Hloc as (Hcur & _). rewrite (bool_decide_false (Ready = Planned)) by done. cbn. by rewrite Es, Hcur.
Qed.

(** The rows of a resolved fleet. *)
Lemma healed_row f S now recs c : forall C,
  NoDup (ch_child_id <$> recs) -> (forall c, c ∈ recs -> rd C (child_key f (ch_child_id c)) = Some c) ->
  c ∈ recs -> rd (foldl (write_healed f S now) C recs) (child_key f (ch_child_id c)) = Some (heal S now c).
Proof.
  assert (Hother : forall recs C k, (forall c, c ∈ recs -> k <> child_key f (ch_child_id c)) ->
    rd (foldl (write_healed f S now) C recs) k = rd C k).
  { clear. induction recs as [|c0 recs IH]; intros C k Hk; [done|]. cbn. rewrite IH by (intros; apply Hk; by right).
    unfold write_healed. destruct (promotable S c0); [|done]. apply rd_insert_ne. intros E. by apply (Hk c0); [left|]. }
  induction recs as [|c0 recs IH]; intros C Hn Hr Hin; [by apply elem_of_nil in Hin|]. cbn. inversion Hn as [|? ? H0 Hn']; subst.
  apply elem_of_cons in Hin as [->|Hin].
  - rewrite Hother.
    + unfold write_healed, heal. pose proof (Hr c0 ltac:(by left)) as Hc. pose proof (rd_version _ _ _ Hc).
      destruct (promotable S c0); [by apply rd_insert_eq|done].
    + intros c' Hc' E%child_key_same. apply H0. rewrite E. by apply list_elem_of_fmap_2.
  - apply IH; [done| |done]. intros c' Hc'. unfold write_healed. destruct (promotable S c0); [|by apply Hr; right].
    rewrite rd_insert_ne; [by apply Hr; right|]. intros E%child_key_same. apply H0. rewrite E. by apply list_elem_of_fmap_2.
Qed.

Lemma resolved_ready f now db rows id :
  db_inv db -> scan (db_children db) = Ok rows ->
  let recs := fleet_children f rows in
  let S := succeeded_ids recs in
  id ∈ ch_child_id <$> filter (fun c => launchable c = true) (heal S now <$> recs) ->
  exists c', rd (foldl (write_healed f S now) (db_children db) recs) (child_key f id) = Some c' /\
    ch_status c' = Ready /\ ch_current_attempt_id c' = None.
Proof.
  intros I Hrows recs S (c' & -> & [Hl (c & -> & Hc)%list_elem_of_fmap]%list_elem_of_filter)%list_elem_of_fmap.
  exists (heal S now c). unfold launchable in Hl. bool_to_prop. split_and!; [|done..].
  rewrite (proj1 (heal_ids S now c)). apply healed_row; [by eapply NoDup_fleet_children| |done].
  intros c0. by apply elem_of_fleet_children.
Qed.

Lemma readable_live db f fl :
  db_inv db -> rd (db_fleets db) f = Some fl -> fleet_is_live fl = true -> fleet_live db f = Ok true.
Proof.
  intros I Hf Hl. pose proof (i_kernel _ I) as K. unfold fleet_live. rewrite (load_intact _ _ (k_F_ok _ _ _ K)), Hf. cbn.
  rewrite Hl, (proj2 (eqb_true _ _)); [done|]. by apply (k_fleet _ _ _ K).
Qed.

(** ** Reading a fleet *)

Lemma index_children_spec l id :
  NoDup (ch_child_id <$> l) -> index_children l !! id = snd <$> list_find (fun c => ch_child_id c = id) l.
Proof.
  unfold index_children. intros Hn. assert (Hgen : forall m, foldl (fun m c => <[ch_child_id c := c]> m) m l !! id =
    match list_find (fun c => ch_child_id c = id) l with Some x => Some x.2 | None => (m : gmap string FleetChildRecord) !! id end).
  { induction l as [|c l IH]; intros m; [done|]. cbn [foldl]. rewrite fmap_cons in Hn. inversion Hn as [|? ? Hc Hn']; subst.
    rewrite IH by done. cbn [list_find]. destruct (decide (ch_child_id c = id)) as [<-|Hne].
    - assert (list_find (fun c' => ch_child_id c' = ch_child_id c) l = None) as ->; [|by rewrite lookup_insert_eq].
      apply list_find_None, Forall_forall. intros c' Hc' E. apply Hc. rewrite <- E. by apply list_elem_of_fmap_2.
    - destruct (list_find _ l) as [[i c']|]; cbn; [done|]. by rewrite lookup_insert_ne. }
  rewrite Hgen. by destruct (list_find _ l).
Qed.

Lemma list_find_unique l (c : FleetChildRecord) :
  NoDup (ch_child_id <$> l) -> c ∈ l -> snd <$> list_find (fun c' => ch_child_id c' = ch_child_id c) l = Some c.
Proof.
  induction l as [|c0 l IH]; intros Hn Hin; [by apply elem_of_nil in Hin|]. cbn [list_find]. rewrite fmap_cons in Hn.
  inversion Hn as [|? ? Hc Hn']; subst. apply elem_of_cons in Hin as [->|Hin]; [by rewrite decide_True|].
  rewrite decide_False by (intros E; apply Hc; rewrite E; by apply list_elem_of_fmap_2).
  rewrite <- (IH Hn' Hin). by destruct (list_find _ l) as [[]|].
Qed.

(** The children of a snapshot are the rows of the fleet. *)
Lemma snapshot_children f db rows :
  db_inv db -> no_nul f -> scan (db_children db) = Ok rows ->
  let l := sort_by by_child_id (filter (fun c => ch_fleet_id c = f) rows.*2) in
  NoDup (ch_child_id <$> l) /\
  (forall c, c ∈ l <-> ch_fleet_id c = f /\ rd (db_children db) (child_key f (ch_child_id c)) = Some c).
Proof.
  intros I Hf Hrows l. assert (E : fleet_children f rows = filter (fun c => ch_fleet_id c = f) rows.*2).
  { pose proof (fun k c => proj1 (elem_of_scan _ _ k c Hrows)) as Hin. clear Hrows l. unfold fleet_children.
    induction rows as [|[k c] rows IH]; [done|]. rewrite fmap_cons, !filter_cons. cbn [snd].
    assert (Hr : rd (db_children db) k = Some c) by (apply Hin; by left). destruct (k_child _ _ _ (i_kernel _ I) _ _ Hr) as (-> & _).
    destruct (decide (ch_fleet_id c = f)) as [Ef|Ef].
    - rewrite decide_True by done. rewrite fmap_cons. f_equal. apply IH. intros; apply Hin. by right.
    - rewrite decide_False by tauto. apply IH. intros; apply Hin. by right. }
  unfold l. rewrite <- E. split.
  - rewrite sort_by_perm. by eapply NoDup_fleet_children.
  - intros c. rewrite elem_of_sort_by. by apply elem_of_fleet_children.
Qed.

Lemma load_fleet_spec f db fl p :
  db_inv db -> key_component_is_safe f = true -> rd (db_fleets db) f = Some fl -> rd (db_plans db) f = Some p ->
  exists m, load_fleet f db = Ok {| ld_fleet := fl; ld_plan := p; ld_children := m |} /\
    forall id, m !! id = rd (db_children db) (child_key f id).
Proof.
  intros I Hs Hf Hp. pose proof (i_kernel _ I) as K. pose proof (safe_no_nul _ Hs) as Hn.
  destruct (scan_intact _ (k_C_ok _ _ _ K)) as [rows Hrows]. destruct (snapshot_children f db rows I Hn Hrows) as [Hnd Hin].
  eexists. split.
  - unfold load_fleet, load_snapshot. cbn [ensure_key_safe]. rewrite Hs. cbn. rewrite (load_intact _ _ (k_F_ok _ _ _ K)), Hf. cbn.
    rewrite (k_fleet _ _ _ K _ _ Hf), (proj2 (eqb_true f f)) by done. cbn. rewrite (load_intact _ _ (i_plans_ok _ I)), Hp. cbn.
    rewrite Hrows. cbn. rewrite (proj1 (i_plan _ I _ _ Hp)), (proj2 (eqb_true f f)) by done. reflexivity.
  - intros id. rewrite index_children_spec by done. destruct (rd (db_children db) (child_key f id)) as [c|] eqn:Ec.
    + destruct (k_child _ _ _ K _ _ Ec) as (Ek & Hn' & _). apply child_key_inj in Ek as [Ef ->]; [|done..].
      apply list_find_unique; [done|]. by apply Hin.
    + destruct (list_find _ _) as [[i c]|] eqn:E; [|done]. exfalso. apply list_find_Some in E as (Hi & <- & _).
      apply list_elem_of_lookup_2, Hin in Hi as [_ Hi]. congruence.
Qed.


Definition planned_all `{HashIter} (cs : list Call) : bool :=
  forallb (fun c => match c with
                    | CReplan _ _ plan _ | CCreateFleetWithPlan _ _ _ _ _ _ plan _ => is_ok (validate_graph (dp_tasks plan))
                    | CCreatePlan _ => false
                    | _ => true
                    end) cs.

Lemma run_calls_planned `{HashIter} cs db :
  planned_reachable db -> admissible_all cs db = true -> planned_all cs = true -> planned_reachable (run_calls cs db).
Proof.
  revert db. induction cs as [|c cs IH]; intros db R H1 H2; cbn in *; [done|]. apply andb_true_iff in H1 as [Ha H1], H2 as [Hp H2].
  apply bool_decide_eq_true in Ha. apply IH; [|done|done]. constructor; [done|done|].
  destruct c; cbn; try done; apply is_ok_true in Hp as [[] Hp]; exact Hp.
Qed.

Lemma demo_planned cs : admissible_all cs open = true -> planned_all cs = true -> planned_reachable (run_calls cs open).
Proof. apply run_calls_planned. constructor. Qed.

(** [a] has succeeded; nobody promoted [b] yet. *)
Definition demo_half : list Call :=
  [demo_create; CLaunch "F" "a" 40 20 1 1000 "u1" "e1"; CMarkRunning "a" "u1";
   CComplete "F" "a" "u1" (Accepted []) demo_snapshot 30 1 30 "e2"].



