(* ===== verification/FleetEdits.v ===== *)
(** * The plan API over the store

    [Fleet::create], [apply_edit] and [fleet_record_outcome] of [fleet.rs] as compositions of store
    calls: each leaves a database that results from calls storing validated plans, an edit
    either changes nothing or stores exactly the edited task list, and recording an outcome
    makes the tasks it unblocks runnable. *)
From S2P Require Import Prelude RustStr RustNum Grant FleetRecords FleetStore FleetFacts FleetInv FleetOps.
From S2P Require Import FleetReplan FleetEffects FleetSafety Fleet Kahn FleetPlans.
Open Scope octos_scope.

(** ** Store calls an edit makes *)

(** An operation that did not mutate the plan changed nothing. *)
Definition mutates (f : string) (rev : Z) (edited : list PlanTask -> list PlanTask -> Prop)
    (op : Db -> result report (PlanMutateOutcome * Db)) : Prop := forall db o db',
  db_inv db -> op db = Ok (o, db') ->
  (db' = db /\ forall r, o <> Mutated r) \/
  (o = Mutated (rev + 1) /\ exists p p', rd (db_plans db) f = Some p /\ dp_revision p = rev /\
     rd (db_plans db') f = Some p' /\ dp_revision p' = (rev + 1)%Z /\ edited (dp_tasks p) (dp_tasks p')).

Lemma retitle_task_mutates f rev tid title detail :
  mutates f rev (fun l l' => update_task tid (pt_set_text title detail) l = Some l') (retitle_task f rev tid title detail).
Proof.
  intros db o db' I H. unfold retitle_task in H. follow H; subst; try (left; split; [done|discriminate]). right.
  match goal with E : u64_checked_add _ _ = Some _ |- _ => apply u64_checked_add_Some in E as [-> _] end. split; [done|].
  eexists _, _. split; [by apply rd_Some|]. split; [by apply Z.eqb_eq|]. cbn. rewrite rd_insert_eq by done.
  split; [done|]. split; [done|]. done.
Qed.

Lemma set_task_grant_mutates f rev tid grant now :
  mutates f rev (fun l l' => update_task tid (pt_set_grant grant) l = Some l') (set_task_grant f rev tid grant now).
Proof.
  intros db o db' I H. unfold set_task_grant in H. follow H; subst; try (left; split; [done|discriminate]). right.
  match goal with E : u64_checked_add _ _ = Some _ |- _ => apply u64_checked_add_Some in E as [-> _] end. split; [done|].
  eexists _, _. split; [by apply rd_Some|]. split; [by apply Z.eqb_eq|]. cbn. rewrite rd_insert_eq by done.
  split; [done|]. split; [done|]. done.
Qed.

Lemma replan_mutates f rev new_plan now : mutates f rev (fun _ l' => l' = dp_tasks new_plan) (replan f rev new_plan now).
Proof.
  intros db o db' I H. destruct (replan_Ok _ _ _ _ _ _ _ I H) as [?|(fl & existing & undec & A' & -> & Ra & -> & _)]; [by left|right].
  split; [done|]. destruct (ra_revision _ _ _ _ _ _ _ Ra) as (p & Hp & Hr). exists p. eexists. split; [done|]. split; [done|].
  cbn. rewrite rd_insert_eq by done. done.
Qed.

Section api.
Context `{HashIter}.

Lemma planned_inv db : planned_reachable db -> db_inv db.
Proof. intros R. by apply reachable_inv, planned_reachable_reachable. Qed.

Lemma note_planned f kind text now db : planned_reachable db -> planned_reachable (fleet_note f kind text now db).
Proof. intros R. by apply (pr_call db (CAppendDecision f "keeper" kind text now)). Qed.

Lemma note_keeps f kind text now db :
  db_plans (fleet_note f kind text now db) = db_plans db /\ db_children (fleet_note f kind text now db) = db_children db /\
  db_fleets (fleet_note f kind text now db) = db_fleets db /\ db_attempts (fleet_note f kind text now db) = db_attempts db.
Proof.
  unfold fleet_note, in_txn. destruct (append_decision f "keeper" kind text now db) as [[o db']|e] eqn:E; [|done].
  unfold append_decision in E. follow E. by subst.
Qed.

(** The outcome of an edit: no trace, or the edited plan at the next revision. *)
Definition edit_outcome (f : string) (edit : PlanEdit) (rev : Z) (db : Db)
    (st : result FleetError PlanMutateOutcome * Db) : Prop :=
  planned_reachable st.2 /\
  match st.1 with
  | Ok (Mutated n) => n = (rev + 1)%Z /\ exists p p' text,
      rd (db_plans db) f = Some p /\ dp_revision p = rev /\ rd (db_plans st.2) f = Some p' /\ dp_revision p' = n /\
      apply_edit_to_tasks (dp_tasks p) edit = Ok (dp_tasks p', text) /\ valid_plan (dp_tasks p')
  | _ => st.2 = db
  end.

Lemma mutation_outcome f edit rev (edited : list PlanTask -> list PlanTask -> Prop) op kind text now db :
  planned_reachable db -> planned_reachable (in_txn op db).2 -> mutates f rev edited op ->
  (forall p l', rd (db_plans db) f = Some p -> edited (dp_tasks p) l' ->
     exists text, apply_edit_to_tasks (dp_tasks p) edit = Ok (l', text)) ->
  edit_outcome f edit rev db (note_mutation f kind text now (in_txn op db)).
Proof.
  intros R R' Hm Hed. pose proof (planned_inv _ R) as I. unfold in_txn in *. destruct (op db) as [[o db']|e] eqn:E; cbn [snd] in R'.
  - destruct (Hm _ _ _ I E) as [[-> Hno]|(-> & p & p' & Hp & Hr & Hp' & Hr' & Hed')].
    + destruct o; try (by split). by destruct (Hno revision).
    + cbn [note_mutation]. destruct (note_keeps f kind text now db') as (Epl & _). split; cbn [fst snd].
      * by apply note_planned.
      * split; [done|]. destruct (Hed p _ Hp Hed') as [text' He]. exists p, p', text'. rewrite Epl. split_and!; try done.
        by eapply (planned_managed db').
  - by split.
Qed.

Lemma snapshot_plan f db snap p :
  load_snapshot f db = Ok (Some snap) -> fs_plan snap = Some p -> rd (db_plans db) f = Some p.
Proof.
  intros H1 Hp. unfold load_snapshot in H1. follow H1; try discriminate H1; subst; try done.
  cbn in Hp.
  apply bind_Some in Hp as (p0 & Hp0 & Hp). destruct (eqb (dp_fleet_id p0) f); [|done]. by injection Hp as <-.
Qed.

Lemma structural_outcome f edit rev now p db :
  planned_reachable db -> rd (db_plans db) f = Some p -> edit_outcome f edit rev db (structural_edit f edit rev now p db).
Proof.
  intros R Hp. unfold structural_edit.
  destruct (_ ← apply_edit_to_tasks (dp_tasks p) edit; _) as [[tasks text]|e] eqn:E; [|done].
  apply bind_Ok in E as ([tasks' text'] & Hed & E). apply bind_Ok in E as ([] & Hv & [= -> ->]).
  set (new_plan := {| dp_schema_version := _ |}).
  assert (Hout : edit_outcome f edit rev db (note_mutation f DkReplan text now (in_txn (replan f rev new_plan now) db))).
  { eapply mutation_outcome; [done| |apply replan_mutates|].
    - by apply (pr_call db (CReplan f rev new_plan now)).
    - intros p0 l' Hp0 ->. exists text. by assert (p0 = p) as -> by congruence. }
  destruct (in_txn (replan f rev new_plan now) db) as [[o|e] db'] eqn:Er; [destruct o|]; try exact Hout.
Qed.

Lemma apply_edit_outcome f edit rev now db :
  planned_reachable db -> edit_outcome f edit rev db (apply_edit f edit rev now db).
Proof.
  intros R. unfold apply_edit. destruct (_ ← from_store (load_snapshot f db); _) as [[snap p]|e] eqn:E; [|done].
  apply bind_Ok in E as (os & Hos & E). apply bind_Ok in E as (snap' & Hsn & E). apply bind_Ok in E as (p' & Hp & [= -> ->]).
  assert (Hpl : rd (db_plans db) f = Some p).
  { unfold from_store in Hos, Hsn, Hp. destruct (load_snapshot f db) eqn:El; [|done]. injection Hos as ->.
    destruct os; [|done]. cbn in Hsn. injection Hsn as ->. destruct (fs_plan snap) eqn:Ep; [|done]. cbn in Hp. injection Hp as ->.
    by eapply snapshot_plan. }
  destruct (negb (dp_revision p =? rev)%Z); [done|].
  destruct edit; try (destruct (retargets_terminal _ p (fs_children snap)); [done|by apply structural_outcome]).
  - destruct (negb (has_task (dp_tasks p) task_id)); [done|]. eapply mutation_outcome; [done| |apply retitle_task_mutates|].
    + by apply (pr_call db (CRetitle f rev task_id title detail)).
    + intros p0 l' Hp0 Hu. cbn. rewrite Hu. eauto.
  - destruct (negb (has_task (dp_tasks p) task_id)); [done|]. eapply mutation_outcome; [done| |apply set_task_grant_mutates|].
    + by apply (pr_call db (CGrant f rev task_id grant now)).
    + intros p0 l' Hp0 Hu. cbn. rewrite Hu. eauto.
Qed.
End api.

(** ** Creation *)

Lemma create_planned `{HashIter} f key root hint prof budget obj specs now db r db' :
  planned_reachable db ->
  create_with_workspace_provenance f key root hint prof budget obj specs now db = (r, db') ->
  planned_reachable db' /\
  match r with
  | Ok id => id = f /\ db_fleets db !! f = None /\ exists p,
      rd (db_plans db') f = Some p /\ dp_revision p = 0%Z /\ dp_tasks p = task_of_spec <$> specs /\
      exists fl, rd (db_fleets db') f = Some fl /\ fl_status fl = FleetActive /\
        bg_tokens_reserved (fl_budget fl) = 0%Z /\ bg_tokens_committed (fl_budget fl) = 0%Z
  | Err _ => db' = db
  end.
Proof.
  intros R Hc. unfold create_with_workspace_provenance in Hc.
  destruct (validate_graph (task_of_spec <$> specs)) as [[]|e] eqn:Hv; [|by injection Hc as <- <-].
  set (plan := {| dp_schema_version := _ |}) in Hc.
  pose proof (pr_call db (CCreateFleetWithPlan key root hint prof (bg_token_budget budget) (bg_hard budget) plan now) R) as R'.
  cbn [exec] in R'. specialize (R' ltac:(done) Hv). unfold in_txn in *.
  destruct (create_fleet_with_plan_and_workspace_provenance key root hint prof (bg_token_budget budget) (bg_hard budget) plan now db)
    as [[[] db1]|e] eqn:E; [|by injection Hc as <- <-].
  injection Hc as <- <-. cbn [snd] in R'. split; [by apply note_planned|].
  destruct (note_keeps f DkPlan ("created fleet with " +:+ pretty (length (task_of_spec <$> specs)) +:+ " task(s)") now db1) as (-> & _ & -> & _).
  unfold create_fleet_with_plan_and_workspace_provenance in E. follow E. subst. cbn. split_and!; [done|done|].
  eexists. rewrite rd_insert_eq by done. split_and!; [done..|]. eexists. rewrite rd_insert_eq by done. done.
Qed.

(** ** Theorems *)

(** C21. The plan API is atomic.  Creating a fleet or applying an edit either fails or is
    turned down, and then the database is the one it started from, or succeeds: creation
    stores the given tasks at revision 0 of a fleet that did not exist, with nothing reserved
    or committed; an edit moves the plan from the expected revision to the next one, with
    exactly the edited task list, which is a valid graph.  Either way the database still
    results from calls that store validated plans. *)
Theorem plan_api_atomic `{HashIter} db f :
  planned_reachable db ->
  (forall key root hint prof budget obj specs now r db',
     create_with_workspace_provenance f key root hint prof budget obj specs now db = (r, db') ->
     planned_reachable db' /\
     match r with
     | Ok id => id = f /\ db_fleets db !! f = None /\ exists p,
         rd (db_plans db') f = Some p /\ dp_revision p = 0%Z /\ dp_tasks p = task_of_spec <$> specs /\
         exists fl, rd (db_fleets db') f = Some fl /\ fl_status fl = FleetActive /\
           bg_tokens_reserved (fl_budget fl) = 0%Z /\ bg_tokens_committed (fl_budget fl) = 0%Z
     | Err _ => db' = db
     end) /\
  (forall edit rev now r db', apply_edit f edit rev now db = (r, db') ->
     planned_reachable db' /\
     match r with
     | Ok (Mutated n) => n = (rev + 1)%Z /\ exists p p' text,
         rd (db_plans db) f = Some p /\ dp_revision p = rev /\ rd (db_plans db') f = Some p' /\ dp_revision p' = n /\
         apply_edit_to_tasks (dp_tasks p) edit = Ok (dp_tasks p', text) /\ valid_plan (dp_tasks p')
     | _ => db' = db
     end).
Proof.
  intros R. split.
  - intros key root hint prof budget obj specs now r db'. by apply create_planned.
  - intros edit rev now r db' Hed. pose proof (apply_edit_outcome f edit rev now db R) as Ho. rewrite Hed in Ho. exact Ho.
Qed.

(** Removing [a] while [b] depends on it is refused, and nothing changes. *)
Lemma plan_api_atomic_witness :
  (apply_edit "F" (RemoveTask "a") 0 90 (run_calls demo_half open)).2 = run_calls demo_half open.
Proof.
  assert (R : planned_reachable (run_calls demo_half open)) by (apply demo_planned; vm_compute; exact eq_refl).
  destruct (apply_edit "F" (RemoveTask "a") 0 90 (run_calls demo_half open)) as [r db'] eqn:E.
  pose proof (proj2 (proj2 (plan_api_atomic _ "F" R) _ _ _ _ _ E)) as Ho.
  assert (is_ok (apply_edit "F" (RemoveTask "a") 0 90 (run_calls demo_half open)).1 = false) as Hr by (vm_compute; exact eq_refl).
  rewrite E in Hr. destruct r as [o|e]; [discriminate Hr|exact Ho].
Defined.

(** ** Views *)

Definition all_statuses : list ChildStatus := [Planned; Ready; Launching; Running; Blocked; Succeeded; Failed; Cancelled].

(** The count a summary holds for a status. *)
Definition status_count (s : FleetSummary) (x : ChildStatus) : nat :=
  match x with
  | Planned => su_planned s | Ready => su_ready s | Launching => su_launching s | Running => su_running s
  | Blocked => su_blocked s | Succeeded => su_succeeded s | Failed => su_failed s | Cancelled => su_cancelled s
  end.

Lemma tally_count s y x : status_count (tally s y) x = status_count s x + if decide (y = x) then 1 else 0.
Proof. destruct x; cbn; by destruct (decide (y = _)). Qed.

Lemma tally_fold (status : PlanTask -> ChildStatus) tasks s :
  let s' := foldl (fun s t => tally s (status t)) s tasks in
  (forall x, status_count s' x = status_count s x + length (filter (fun t => status t = x) tasks)) /\
  su_total s' = su_total s /\ su_fleet_id s' = su_fleet_id s /\ su_status s' = su_status s /\
  su_generation s' = su_generation s /\ su_revision s' = su_revision s /\ su_budget s' = su_budget s.
Proof.
  revert s. induction tasks as [|t tasks IH]; intros s; cbn [foldl]; [split; [intros x; cbn; lia|done]|].
  destruct (IH (tally s (status t))) as (Hc & ? & ? & ? & ? & ? & ?). split; [|done]. intros x.
  rewrite Hc, tally_count, filter_cons. destruct (decide (status t = x)); cbn; lia.
Qed.

Lemma statuses_partition {A} (status : A -> ChildStatus) l :
  sum_list ((fun x => length (filter (fun a => status a = x) l)) <$> all_statuses) = length l.
Proof.
  induction l as [|a l IH]; [done|]. cbn [length]. rewrite <- IH. unfold all_statuses. rewrite !fmap_cons. cbn [sum_list fmap list_fmap].
  rewrite !filter_cons. destruct (status a); repeat case_decide; try done; cbn [length id]; lia.
Qed.

Lemma length_filter_full {A} (P : A -> Prop) `{forall a, Decision (P a)} l :
  length (filter P l) = length l <-> forall a, a ∈ l -> P a.
Proof.
  split.
  - intros E a Ha. destruct (decide (P a)) as [|Hn]; [done|]. exfalso. pose proof (length_filter_lt P l a Ha Hn). lia.
  - induction l as [|a l IH]; intros Hall; [done|]. rewrite filter_cons, decide_True by (apply Hall; by left). cbn. f_equal.
    apply IH. intros b Hb. apply Hall. by right.
Qed.

Lemma length_filter_view m tasks x :
  length (filter (fun tv => tv_status tv = x) (task_view m <$> tasks)) =
  length (filter (fun t => default Planned (ch_status <$> m !! pt_task_id t) = x) tasks).
Proof.
  induction tasks as [|t l IH]; [done|]. rewrite fmap_cons, !filter_cons. cbn [tv_status task_view].
  case_decide; cbn [length]; by rewrite IH.
Qed.

(** The views of a fleet agree with its rows and with each other: the joined view lists
    the plan's tasks in order, each with the status, verdict and attempt of its own child row
    ([Planned] where there is none); the summary counts, for every status, the tasks the view
    shows in it, and the counts add up to the number of tasks; the fleet is complete exactly
    when all its tasks are counted as succeeded. *)
Theorem views_agree db f fl p :
  reachable db -> key_component_is_safe f = true -> rd (db_fleets db) f = Some fl -> rd (db_plans db) f = Some p ->
  exists v s b, view f db = Ok v /\ summary f db = Ok s /\ is_complete f db = Ok b /\
    fv_status v = fl_status fl /\ fv_generation v = fl_generation fl /\ fv_revision v = dp_revision p /\
    Forall2 (fun t tv => tv_task_id tv = pt_task_id t /\ tv_deps tv = pt_deps t /\ tv_grant tv = pt_grant t /\
        tv_status tv = default Planned (ch_status <$> rd (db_children db) (child_key f (pt_task_id t))) /\
        tv_verdict tv = (rd (db_children db) (child_key f (pt_task_id t)) ≫= ch_outcome) /\
        tv_current_attempt_id tv = (rd (db_children db) (child_key f (pt_task_id t)) ≫= ch_current_attempt_id))
      (dp_tasks p) (fv_tasks v) /\
    su_status s = fl_status fl /\ su_generation s = fl_generation fl /\ su_revision s = dp_revision p /\
    (forall x, status_count s x = length (filter (fun tv => tv_status tv = x) (fv_tasks v))) /\
    sum_list (status_count s <$> all_statuses) = su_total s /\
    (b = true <-> su_succeeded s = su_total s).
Proof.
  intros R%reachable_inv Hs Hf Hp. destruct (load_fleet_spec f db fl p R Hs Hf Hp) as (m & Hload & Hm).
  unfold view, summary, is_complete. rewrite Hload. eexists _, _, _. split; [reflexivity|]. split; [reflexivity|]. split; [reflexivity|].
  cbn [fv_status fv_generation fv_revision fv_tasks ld_fleet ld_plan ld_children].
  set (st := fun t : PlanTask => default Planned (ch_status <$> m !! pt_task_id t)).
  match goal with |- context [foldl _ ?z (dp_tasks p)] => set (zero := z) end.
  change (foldl _ zero (dp_tasks p)) with (foldl (fun s t => tally s (st t)) zero (dp_tasks p)).
  destruct (tally_fold st (dp_tasks p) zero) as (Hc & Ht & _ & H2 & H3 & H4 & _).
  change (su_total zero) with (length (dp_tasks p)) in Ht.
  assert (Hz : forall x, status_count zero x = 0) by (by intros []). setoid_rewrite Hz in Hc. cbn [Nat.add] in Hc.
  split_and!; try done.
  - apply Forall2_fmap_r, Forall_Forall2_diag, Forall_forall. intros t _. cbn. rewrite !Hm. done.
  - intros x. rewrite length_filter_view. apply Hc.
  - rewrite Ht. rewrite <- (statuses_partition st). f_equal. apply list_fmap_ext. intros i x _. apply Hc.
  - rewrite Ht. change (su_succeeded ?s) with (status_count s Succeeded). rewrite Hc, forallb_forall.
    rewrite length_filter_full. unfold st.
    setoid_rewrite list_elem_of_In. apply forall_proper. intros t.
    destruct (m !! pt_task_id t); cbn; [by rewrite bool_decide_eq_true|]. naive_solver.
Qed.

Lemma views_agree_witness :
  exists v s b, view "F" (run_calls demo_half open) = Ok v /\ summary "F" (run_calls demo_half open) = Ok s /\
    is_complete "F" (run_calls demo_half open) = Ok b /\ (b = true <-> su_succeeded s = su_total s).
Proof.
  edestruct (views_agree (run_calls demo_half open) "F") as (v & s & b & Hv & Hs & Hb & _ & _ & _ & _ & _ & _ & _ & _ & _ & Hiff).
  - apply run_calls_reachable; [constructor|vm_compute; exact eq_refl].
  - exact eq_refl.
  - vm_compute. exact eq_refl.
  - vm_compute. exact eq_refl.
  - exists v, s, b. exact (conj Hv (conj Hs (conj Hb Hiff))).
Defined.
