(* ===== verification/FleetOutbox.v ===== *)
(** * The durable event queue

    [append_event], [claim_next] and [ack] of [store.rs] against the queue they implement: the
    outbox as a partial map from sequence numbers to events, claimed lowest number first and
    retired by the holder of the current claim only. *)
From S2P Require Import Prelude RustStr RustNum Grant FleetRecords FleetStore FleetFacts FleetInv FleetOps.
From S2P Require Import FleetReplan FleetEffects FleetSafety.
Open Scope octos_scope.

(** ** The queue *)

Definition valid_seq (n : Z) : Prop := (1 <= n <= u64_max)%Z.

(** The event with sequence number [n]. *)
Definition queued (db : Db) (n : Z) : option OutboxEvent := rd (db_outbox db) (outbox_key n).

Definition claimable (now : Z) (e : OutboxEvent) : Prop := ob_acked e = false /\ claim_free now e = true.

Lemma outbox_key_inj n m : valid_seq n -> valid_seq m -> outbox_key n = outbox_key m -> n = m.
Proof. unfold valid_seq. intros Hn Hm. apply zero_padded_inj; lia. Qed.

Lemma outbox_key_le n m : valid_seq n -> valid_seq m -> String.le (outbox_key n) (outbox_key m) <-> (n <= m)%Z.
Proof. unfold valid_seq. intros Hn Hm. apply zero_padded_le; lia. Qed.

(** One row written. *)
Lemma queued_write db n e m :
  valid_seq n -> valid_seq m -> (ob_schema_version e <= SCHEMA_VERSION)%Z ->
  queued (set_outbox (<[outbox_key n := Json e]> (db_outbox db)) db) m = if decide (m = n) then Some e else queued db m.
Proof.
  intros Hn Hm Hv. unfold queued. cbn. destruct (decide (m = n)) as [->|Hne]; [by rewrite rd_insert_eq|].
  apply rd_insert_ne. intros E%outbox_key_inj; done.
Qed.

(** In key order, what is claimed comes before every other claimable event. *)
Lemma first_claimable_least db now k ev :
  db_inv db -> first_claimable now (table_iter (db_outbox db)) = Ok (Some (k, ev)) ->
  exists n, k = outbox_key n /\ valid_seq n /\ queued db n = Some ev /\ claimable now ev /\
    forall m e, valid_seq m -> queued db m = Some e -> claimable now e -> (n <= m)%Z.
Proof.
  intros I H. apply first_claimable_Some in H as (row & l1 & l2 & Hl & Hd & Ha & Hfree & Hall).
  assert (Hrow : db_outbox db !! k = Some row) by (apply elem_of_table_iter; rewrite Hl; set_solver).
  destruct (i_outbox _ I k) as (n & -> & Hn); [eauto|]. apply decode_Some in Hd as [-> Hv].
  exists n. split_and!; [done|done|by apply rd_Some|done|]. intros m e Hm Hq [Ha' Hf'].
  apply rd_Some in Hq as [Hq Hv']. apply elem_of_table_iter in Hq. pose proof (sorted_table_iter (db_outbox db)) as Hs.
  rewrite Hl in Hq, Hs. rewrite fmap_app, fmap_cons in Hs. apply elem_of_app in Hq as [Hq|Hq].
  - exfalso. rewrite Forall_forall in Hall. assert (Hde : decode_row (Json e) = Ok (Some e)) by (by apply decode_Some).
    destruct (Hall _ Hq e Hde) as [E|E]; [rewrite E in Ha'; discriminate Ha'|rewrite E in Hf'; discriminate Hf'].
  - apply StronglySorted_app in Hs as (_ & _ & Hs). apply elem_of_cons in Hq as [Ek|Hq].
    + apply (f_equal fst) in Ek. cbn [fst] in Ek. apply outbox_key_inj in Ek; [subst; lia|done..].
    + inversion Hs as [|? ? _ Hle]; subst. rewrite Forall_forall in Hle. apply outbox_key_le; [done..|].
      apply Hle. apply list_elem_of_fmap. by exists (outbox_key m, Json e).
Qed.

Lemma first_claimable_None now l :
  first_claimable now l = Ok None -> forall k row e, (k, row) ∈ l -> decode_row row = Ok (Some e) -> ~ claimable now e.
Proof.
  induction l as [|[k' row'] l IH]; cbn; intros H k row e Hin Hd; [by apply elem_of_nil in Hin|].
  apply bind_Ok in H as (r & Hr & H). apply elem_of_cons in Hin as [[= -> ->]|Hin].
  - rewrite Hd in Hr. injection Hr as <-. intros [Ha Hf]. by rewrite Ha, Hf in H.
  - destruct r as [e'|]; [destruct (negb (ob_acked e') && claim_free now e'); [done|]|]; by eapply IH.
Qed.

(** An acknowledged event is never written again. *)
Lemma acked_kept db db' n e :
  db_inv db -> later db db' -> queued db n = Some e -> ob_acked e = true -> queued db' n = Some e.
Proof.
  intros I L Hq Ha. induction L as [|db' c L IH Hadm]; [done|].
  pose proof (exec_effect _ _ (later_inv _ _ I L) Hadm) as E. unfold queued in *.
  destruct (ef_outbox _ _ _ _ E (outbox_key n)) as [Ek|(o & e' & Ek & Hv & Ho & Hold)]; [unfold rd in *; by rewrite Ek|].
  destruct Hold as [[_ Hno]|(e0 & -> & He0)]; [apply rd_Some in IH as [? _]; congruence|].
  destruct (Ho e0 eq_refl) as [_ Hsame]. assert (e0 = e) as -> by congruence. rewrite (Hsame Ha) in Ek, Hv. apply rd_Some. exact (conj Ek Hv).
Qed.

(** ** Theorems *)

(** C18. The outbox is a durable queue with exclusive claims, in every reachable database.
    Appending gives a sequence number above every one in use and changes no other event.  A
    claim hands out the event of the lowest number that is not acknowledged and whose claim is
    free or expired, marks it with the consumer's claim and changes no other event; it finds
    nothing only if there is no such event.  An acknowledgement succeeds exactly for the
    current consumer and token, and otherwise changes nothing.  Once acknowledged, an event
    stays as it is through every later sequence of calls. *)
Theorem outbox_is_queue db :
  reachable db ->
  (forall event n db', append_event event db = Ok (n, db') ->
     valid_seq n /\ (forall m, valid_seq m -> is_Some (db_outbox db !! outbox_key m) -> (m < n)%Z) /\
     forall m, valid_seq m -> queued db' m = if decide (m = n) then Some (ob_set_sequence n event) else queued db m) /\
  (forall consumer now ttl token ev db', claim_next consumer now ttl token db = Ok (Some ev, db') ->
     exists n e, valid_seq n /\ queued db n = Some e /\ claimable now e /\ ev = ob_claim consumer token (now + ttl) e /\
       (forall m e', valid_seq m -> queued db m = Some e' -> claimable now e' -> (n <= m)%Z) /\
       forall m, valid_seq m -> queued db' m = if decide (m = n) then Some ev else queued db m) /\
  (forall consumer now ttl token db', claim_next consumer now ttl token db = Ok (None, db') ->
     db' = db /\ forall n e, queued db n = Some e -> ~ claimable now e) /\
  (forall n consumer token o db', valid_seq n -> ack n consumer token db = Ok (o, db') ->
     exists e, queued db n = Some e /\
       (o = Acked <-> ob_claimed_by e = Some consumer /\ ob_claim_token e = Some token) /\
       match o with
       | Acked => forall m, valid_seq m -> queued db' m = if decide (m = n) then Some (ob_set_acked e) else queued db m
       | StaleClaim => db' = db
       end) /\
  (forall n e db', queued db n = Some e -> ob_acked e = true -> later db db' -> queued db' n = Some e).
Proof.
  intros I%reachable_inv. split_and!.
  - intros event n db' H. unfold append_event in H. follow H. subst.
    match goal with E : append_outbox _ _ = Ok _ |- _ => apply append_outbox_spec in E as (Hn & -> & Hmax); [|apply I] end.
    split_and!; [done|done|]. intros m Hm. by apply queued_write.
  - intros consumer now ttl token ev db' H. unfold claim_next in H. follow H; subst; try done.
    match goal with E : u64_checked_add _ _ = Some _ |- _ => apply u64_checked_add_Some in E as [-> _] end.
    match goal with E : first_claimable _ _ = Ok _ |- _ => apply first_claimable_least in E as (n & -> & Hn & Hq & Hc & Hleast); [|done] end.
    exists n, o. split_and!; try done. intros m Hm. apply queued_write; [done..|]. by apply rd_Some in Hq as [_ ?].
  - intros consumer now ttl token db' H. unfold claim_next in H. follow H; subst; [done|]. split; [done|].
    intros n e [Hq Hv]%rd_Some. apply elem_of_table_iter in Hq. eapply first_claimable_None; [eassumption|done|by apply decode_Some].
  - intros n consumer token o db' Hn H. unfold ack in H. follow H; subst; eexists; (split; [by apply rd_Some|]).
    + split; [done|]. intros m Hm. by apply queued_write.
    + split; [|done]. split; [done|]. intros [E1 E2]. rewrite E1, E2, !bool_decide_true in E by done. done.
  - intros n e db' Hq Ha L. by eapply acked_kept.
Qed.

Lemma outbox_is_queue_witness :
  exists n e ev, claim_next "keeper" 100 50 "t1" demo_start = Ok (Some ev, (in_txn (claim_next "keeper" 100 50 "t1") demo_start).2) /\
    queued demo_start n = Some e /\ ev = ob_claim "keeper" "t1" 150 e.
Proof.
  destruct (claim_next "keeper" 100 50 "t1" demo_start) as [[[ev|] db']|] eqn:E; [|exfalso; vm_compute in E; discriminate E..].
  destruct (outbox_is_queue demo_start demo_reachable) as (_ & Hclaim & _).
  destruct (Hclaim _ _ _ _ _ _ E) as (n & e & _ & Hq & _ & Hev & _). exists n, e, ev. unfold in_txn. rewrite E.
  split; [reflexivity|]. split; [exact Hq|exact Hev].
Defined.
