(* ===== verification/FleetDigest.v ===== *)
(** * The controller digest

    [crates/octos-fleet/src/digest.rs]: the bounded view a controller reads instead of the log
    of findings, with [Finding] and [superseded_ids] of [records.rs].  [Digest::size], the
    length of the JSON text of a digest, is a parameter: the theorems hold for every size, and
    [json_size] is the concrete one.  The [debug_assert!] that all findings are of one fleet
    is not part of a release build and not modelled. *)
From S2P Require Import Prelude RustStr RustNum Fidelity Grant FleetRecords FleetStore FleetFacts.
Open Scope octos_scope.

(** ** Findings *)

Inductive FindingStatus := Confirmed | Predicted | RuledOut.

#[export] Instance finding_status_eq_dec : EqDecision FindingStatus.
Proof. solve_decision. Defined.

Record Finding := {
  fi_schema_version : Z;
  fi_id : string;
  fi_seq : Z;
  fi_fleet_id : string;
  fi_task_id : option string;
  fi_claim : string;
  fi_status : FindingStatus;
  fi_component : string;
  fi_evidence : list EvidenceRef;
  fi_config : gmap string string;
  fi_supersedes : list string;
  fi_cost_tokens : Z;
  fi_by : string;
  fi_at_ms : Z;
  fi_kind : option string;
  fi_lifecycle : option string;
  fi_confidence : option string;
  fi_review_state : option string;
  fi_rowid : option Z;
  fi_derived_from : option string;
}.

Definition superseded_ids (findings : list Finding) : gset string :=
  list_to_set (findings ≫= fi_supersedes).

(** ** The view *)

Record DigestOptions := {
  do_since_seq : Z;
  do_current_config : gmap string string;
  do_max_chars : nat;
  do_recent_window : nat;
  do_cluster_min_paths : nat;
}.

Definition DigestOptions_default : DigestOptions := {|
  do_since_seq := 0; do_current_config := ∅; do_max_chars := 4000; do_recent_window := 40; do_cluster_min_paths := 2 |}.

Record DigestFinding := {
  df_id : string;
  df_seq : Z;
  df_claim : string;
  df_status : FindingStatus;
  df_component : string;
  df_task_id : option string;
}.

Record Overturn := {
  ov_by : string;
  ov_by_seq : Z;
  ov_overturned : string;
  ov_old_claim : string;
  ov_new_claim : string;
}.

Record StaleFinding := {
  sl_id : string;
  sl_claim : string;
  sl_component : string;
  sl_drifted : gmap string (string * string);
}.

Record ClusterHint := {
  ct_component : string;
  ct_paths : list string;
  ct_finding_ids : list string;
}.

Record PathCost := {
  pc_path : string;
  pc_tokens : Z;
  pc_findings : nat;
  pc_confirmed : nat;
  pc_ruled_out : nat;
}.

Record Dropped := { dr_section : string; dr_omitted : nat }.

Record Digest := {
  dg_new_findings : list DigestFinding;
  dg_overturns : list Overturn;
  dg_stale : list StaleFinding;
  dg_cluster_hints : list ClusterHint;
  dg_cost_by_path : list PathCost;
  dg_dropped : list Dropped;
  dg_watermark : Z;
}.

(** ** Sections *)

Definition drift (finding : Finding) (current : gmap string string) : gmap string (string * string) :=
  map_imap (fun component was =>
    now ← current !! component; if bool_decide (now = was) then None else Some (was, now)) (fi_config finding).

Definition live_findings (findings : list Finding) : list Finding :=
  filter (fun f => fi_id f ∉ superseded_ids findings) findings.

Definition digest_finding (f : Finding) : DigestFinding := {|
  df_id := fi_id f; df_seq := fi_seq f; df_claim := fi_claim f; df_status := fi_status f;
  df_component := fi_component f; df_task_id := fi_task_id f |}.

Definition new_findings_of (findings : list Finding) (since : Z) : list DigestFinding :=
  sort_by (fun a b => df_seq a <=? df_seq b)%Z
    (digest_finding <$> filter (fun f => since < fi_seq f)%Z (live_findings findings)).

(** [collect] into a map: the last finding of an id wins. *)
Definition index_findings (findings : list Finding) : gmap string Finding :=
  foldl (fun m f => <[fi_id f := f]> m) ∅ findings.

Definition overturns_by (by_id : gmap string Finding) (f : Finding) : list Overturn :=
  (fun old => {| ov_by := fi_id f; ov_by_seq := fi_seq f; ov_overturned := old;
                 ov_old_claim := from_option fi_claim "" (by_id !! old); ov_new_claim := fi_claim f |}) <$> fi_supersedes f.

Definition overturns_of (findings : list Finding) (since : Z) : list Overturn :=
  sort_by (fun a b => ov_by_seq a <=? ov_by_seq b)%Z
    (filter (fun f => since < fi_seq f)%Z findings ≫= overturns_by (index_findings findings)).

Definition stale_finding (current : gmap string string) (f : Finding) : option StaleFinding :=
  let drifted := drift f current in
  if bool_decide (drifted = ∅) then None
  else Some {| sl_id := fi_id f; sl_claim := fi_claim f; sl_component := fi_component f; sl_drifted := drifted |}.

Definition stale_of (live : list Finding) (current : gmap string string) : list StaleFinding :=
  reverse (omap (stale_finding current) live).

(** One finding of the recent window. *)
Definition cluster_step (m : gmap string (gset string * list string)) (f : Finding)
    : gmap string (gset string * list string) :=
  let '(paths, ids) := default (∅, []) (m !! fi_component f) in
  <[fi_component f := (match fi_task_id f with Some t => {[t]} ∪ paths | None => paths end, ids ++ [fi_id f])]> m.

(** More paths first, then by name. *)
Definition cluster_le (a b : ClusterHint) : bool :=
  match Nat.compare (length (ct_paths b)) (length (ct_paths a)) with
  | Lt => true
  | Gt => false
  | Eq => bool_decide (String.le (ct_component a) (ct_component b))
  end.

Definition clusters_of (live : list Finding) (window min_paths : nat) : list ClusterHint :=
  let by_component := foldl cluster_step ∅ (take window (reverse live)) in
  sort_by cluster_le
    ((fun '(component, (paths, ids)) =>
        {| ct_component := component; ct_paths := btree_iter paths; ct_finding_ids := ids |}) <$>
     filter (fun '(_, (paths, _)) => min_paths <= size paths) (table_iter by_component)).

Definition u64_saturating_add (a b : Z) : Z := Z.min u64_max (a + b).

Definition new_path (path : string) : PathCost := {|
  pc_path := path; pc_tokens := 0; pc_findings := 0; pc_confirmed := 0; pc_ruled_out := 0 |}.

Definition charge (f : Finding) (c : PathCost) : PathCost := {|
  pc_path := pc_path c;
  pc_tokens := u64_saturating_add (pc_tokens c) (fi_cost_tokens f);
  pc_findings := S (pc_findings c);
  pc_confirmed := match fi_status f with Confirmed => S (pc_confirmed c) | _ => pc_confirmed c end;
  pc_ruled_out := match fi_status f with RuledOut => S (pc_ruled_out c) | _ => pc_ruled_out c end |}.

Definition cost_step (m : gmap string PathCost) (f : Finding) : gmap string PathCost :=
  match fi_task_id f with
  | Some path => <[path := charge f (default (new_path path) (m !! path))]> m
  | None => m
  end.

Definition costs_of (findings : list Finding) : list PathCost :=
  (table_iter (foldl cost_step ∅ findings)).*2.

(** ** The budget *)

(** [cut]: keep the first half, at least one, and count what was left out. *)
Definition cut_keep {A} (v : list A) : nat := if (length v =? 1)%nat then 1 else length v / 2.

Fixpoint note_dropped (section : string) (omitted : nat) (dropped : list Dropped) : list Dropped :=
  match dropped with
  | [] => [{| dr_section := section; dr_omitted := omitted |}]
  | x :: rest =>
      if bool_decide (dr_section x = section)
      then {| dr_section := dr_section x; dr_omitted := dr_omitted x + omitted |} :: rest
      else x :: note_dropped section omitted rest
  end.

Definition cut {A} (v : list A) (section : string) (dropped : list Dropped) : list A * list Dropped :=
  match v with
  | [] => (v, dropped)
  | _ => (take (cut_keep v) v, note_dropped section (length v - cut_keep v) dropped)
  end.

Definition set_sections (new : list DigestFinding) (ov : list Overturn) (st : list StaleFinding) (cl : list ClusterHint)
    (co : list PathCost) (dr : list Dropped) (d : Digest) : Digest := {|
  dg_new_findings := new; dg_overturns := ov; dg_stale := st; dg_cluster_hints := cl; dg_cost_by_path := co;
  dg_dropped := dr; dg_watermark := dg_watermark d |}.

(** One pass of the loop: the first section that is not empty is cut. *)
Definition cut_pass (d : Digest) : option Digest :=
  let '(new, ov, st, cl, co, dr) :=
    (dg_new_findings d, dg_overturns d, dg_stale d, dg_cluster_hints d, dg_cost_by_path d, dg_dropped d) in
  if negb (bool_decide (length co = 0)) then
    let '(co', dr') := cut co "cost_by_path" dr in Some (set_sections new ov st cl co' dr' d)
  else if negb (bool_decide (length cl = 0)) then
    let '(cl', dr') := cut cl "cluster_hints" dr in Some (set_sections new ov st cl' co dr' d)
  else if negb (bool_decide (length st = 0)) then
    let '(st', dr') := cut st "stale" dr in Some (set_sections new ov st' cl co dr' d)
  else if negb (bool_decide (length ov = 0)) then
    let '(ov', dr') := cut ov "overturns" dr in Some (set_sections new ov' st cl co dr' d)
  else if negb (bool_decide (length new = 0)) then
    let '(new', dr') := cut new "new_findings" dr in Some (set_sections new' ov st cl co dr' d)
  else None.

Section budget.
Context (dsize : Digest -> nat).

(** [None] is a loop that did not end within the fuel. *)
Fixpoint enforce_budget (fuel : nat) (d : Digest) (max_chars : nat) : option Digest :=
  if (dsize d <=? max_chars)%nat then Some d
  else
    match fuel with
    | O => None
    | S fuel =>
        match cut_pass d with
        | None => Some d
        | Some d' => if (dsize d <=? dsize d')%nat then Some d' else enforce_budget fuel d' max_chars
        end
    end.

(** Every pass that does not stop the loop makes the digest smaller. *)
Definition budget_fuel (d : Digest) : nat := S (dsize d).

Definition list_max (l : list Z) : option Z := foldr (fun x m => Some (default x (Z.max x <$> m))) None l.

Definition watermark_of (since : Z) (d : Digest) : Z :=
  match list_max (df_seq <$> dg_new_findings d), list_max (ov_by_seq <$> dg_overturns d) with
  | Some n, Some o => Z.max n o
  | Some n, None => n
  | None, Some o => o
  | None, None => since
  end.

Definition set_watermark (w : Z) (d : Digest) : Digest := {|
  dg_new_findings := dg_new_findings d; dg_overturns := dg_overturns d; dg_stale := dg_stale d;
  dg_cluster_hints := dg_cluster_hints d; dg_cost_by_path := dg_cost_by_path d; dg_dropped := dg_dropped d;
  dg_watermark := w |}.

(** Everything, before the budget. *)
Definition full_digest (findings : list Finding) (opts : DigestOptions) : Digest :=
  let live := live_findings findings in
  {| dg_new_findings := new_findings_of findings (do_since_seq opts);
     dg_overturns := overturns_of findings (do_since_seq opts);
     dg_stale := stale_of live (do_current_config opts);
     dg_cluster_hints := clusters_of live (do_recent_window opts) (do_cluster_min_paths opts);
     dg_cost_by_path := costs_of findings; dg_dropped := []; dg_watermark := 0 |}.

Definition digest (findings : list Finding) (opts : DigestOptions) : option Digest :=
  let full := full_digest findings opts in
  out ← enforce_budget (budget_fuel full) full (do_max_chars opts);
  Some (set_watermark (watermark_of (do_since_seq opts) out) out).
End budget.

(** ** The JSON size *)

(** Lengths of the compact text [serde_json] writes. *)
Definition commas (lens : list nat) : nat := sum_list lens + (length lens - 1).
Definition js_array (lens : list nat) : nat := 2 + commas lens.
Definition js_string (s : string) : nat := 2 + Z.to_nat (json_escaped_len s).
Definition js_object (fields : list (string * nat)) : nat :=
  2 + commas ((fun '(k, v) => js_string k + 1 + v) <$> fields).
Definition js_int (z : Z) : nat := String.length (pretty z).
Definition js_opt (o : option string) : nat := match o with Some s => js_string s | None => 4 end.
Definition status_name (s : FindingStatus) : string :=
  match s with Confirmed => "Confirmed" | Predicted => "Predicted" | RuledOut => "RuledOut" end.

Definition json_size (d : Digest) : nat :=
  js_object [
    ("new_findings", js_array ((fun f => js_object [("id", js_string (df_id f)); ("seq", js_int (df_seq f));
       ("claim", js_string (df_claim f)); ("status", js_string (status_name (df_status f)));
       ("component", js_string (df_component f)); ("task_id", js_opt (df_task_id f))]) <$> dg_new_findings d));
    ("overturns", js_array ((fun o => js_object [("by", js_string (ov_by o)); ("by_seq", js_int (ov_by_seq o));
       ("overturned", js_string (ov_overturned o)); ("old_claim", js_string (ov_old_claim o));
       ("new_claim", js_string (ov_new_claim o))]) <$> dg_overturns d));
    ("stale", js_array ((fun s => js_object [("id", js_string (sl_id s)); ("claim", js_string (sl_claim s));
       ("component", js_string (sl_component s));
       ("drifted", js_object ((fun '(k, (a, b)) => (k, js_array [js_string a; js_string b])) <$> table_iter (sl_drifted s)))])
       <$> dg_stale d));
    ("cluster_hints", js_array ((fun c => js_object [("component", js_string (ct_component c));
       ("paths", js_array (js_string <$> ct_paths c)); ("finding_ids", js_array (js_string <$> ct_finding_ids c))])
       <$> dg_cluster_hints d));
    ("cost_by_path", js_array ((fun c => js_object [("path", js_string (pc_path c)); ("tokens", js_int (pc_tokens c));
       ("findings", js_int (Z.of_nat (pc_findings c))); ("confirmed", js_int (Z.of_nat (pc_confirmed c)));
       ("ruled_out", js_int (Z.of_nat (pc_ruled_out c)))]) <$> dg_cost_by_path d));
    ("dropped", js_array ((fun x => js_object [("section", js_string (dr_section x));
       ("omitted", js_int (Z.of_nat (dr_omitted x)))]) <$> dg_dropped d));
    ("watermark", js_int (dg_watermark d))].

(** An empty digest: seven keys, six empty arrays and a digit. *)
Example json_size_empty :
  json_size {| dg_new_findings := []; dg_overturns := []; dg_stale := []; dg_cluster_hints := []; dg_cost_by_path := [];
               dg_dropped := []; dg_watermark := 0 |} = 109.
Proof. reflexivity. Qed.

(** ** Cuts *)

(** What [dropped] says was left out of a section. *)
Definition omitted_of (section : string) (dropped : list Dropped) : nat :=
  sum_list (dr_omitted <$> filter (fun x => dr_section x = section) dropped).

Lemma omitted_note section section' n dropped :
  omitted_of section (note_dropped section' n dropped) =
  omitted_of section dropped + if bool_decide (section = section') then n else 0.
Proof.
  unfold omitted_of. induction dropped as [|x dropped IH]; cbn [note_dropped].
  - rewrite filter_cons. cbn. case_bool_decide; subst; [by rewrite decide_True|by rewrite decide_False by congruence].
  - destruct (bool_decide_reflect (dr_section x = section')) as [Hx|Hx]; rewrite !filter_cons; cbn [dr_section].
    + destruct (decide (dr_section x = section)); cbn [sum_list fmap list_fmap dr_omitted id]; case_bool_decide; try congruence; lia.
    + destruct (decide (dr_section x = section)); cbn [sum_list fmap list_fmap dr_omitted id]; rewrite IH; lia.
Qed.

(** A section after some cuts: a prefix of the whole, never emptied, with an exact count of
    what is missing. *)
Record section_ok {A} (name : string) (whole kept : list A) (dropped : list Dropped) : Prop := {
  so_prefix : kept = take (length kept) whole;
  so_kept : whole <> [] -> kept <> [];
  so_count : omitted_of name dropped + length kept = length whole;
}.

Lemma section_whole {A} name (whole : list A) : section_ok name whole whole [].
Proof. constructor; [by rewrite firstn_all|done|done]. Qed.

Lemma section_other {A} name name' n (whole kept : list A) dropped :
  name <> name' -> section_ok name whole kept dropped -> section_ok name whole kept (note_dropped name' n dropped).
Proof.
  intros Hne [Hp Hk Hc]. constructor; [done|done|]. rewrite omitted_note, bool_decide_false by done. lia.
Qed.

Lemma cut_keep_bounds {A} (v : list A) : v <> [] -> 1 <= cut_keep v <= length v.
Proof.
  intros Hv. unfold cut_keep. destruct v as [|x [|y v]]; [done|cbn; lia|]. cbn [length Nat.eqb].
  pose proof (Nat.div_mod (S (S (length v))) 2 ltac:(done)). pose proof (Nat.mod_upper_bound (S (S (length v))) 2 ltac:(done)). lia.
Qed.

Lemma section_cut {A} name (whole kept : list A) dropped :
  kept <> [] -> section_ok name whole kept dropped ->
  section_ok name whole (take (cut_keep kept) kept) (note_dropped name (length kept - cut_keep kept) dropped).
Proof.
  intros Hne [Hp Hk Hc]. pose proof (cut_keep_bounds kept Hne) as Hb.
  assert (Hlen : length (take (cut_keep kept) kept) = cut_keep kept) by (rewrite length_take; lia). constructor.
  - rewrite Hlen. rewrite Hp at 2. by rewrite take_take, Nat.min_l by lia.
  - intros _ E. rewrite E in Hlen. cbn in Hlen. lia.
  - rewrite Hlen, omitted_note, bool_decide_true by done. lia.
Qed.

(** A digest after some cuts of [full]. *)
Record trimmed (full d : Digest) : Prop := {
  tm_new : section_ok "new_findings" (dg_new_findings full) (dg_new_findings d) (dg_dropped d);
  tm_overturns : section_ok "overturns" (dg_overturns full) (dg_overturns d) (dg_dropped d);
  tm_stale : section_ok "stale" (dg_stale full) (dg_stale d) (dg_dropped d);
  tm_clusters : section_ok "cluster_hints" (dg_cluster_hints full) (dg_cluster_hints d) (dg_dropped d);
  tm_costs : section_ok "cost_by_path" (dg_cost_by_path full) (dg_cost_by_path d) (dg_dropped d);
}.

Lemma trimmed_refl full : dg_dropped full = [] -> trimmed full full.
Proof. intros E. constructor; rewrite E; apply section_whole. Qed.

Lemma trimmed_pass full d d' : trimmed full d -> cut_pass d = Some d' -> trimmed full d'.
Proof.
  intros [Hn Ho Hs Hl Hc] H. unfold cut_pass in H.
  assert (Hcut : forall A (v : list A) name dr, length v <> 0 ->
    cut v name dr = (take (cut_keep v) v, note_dropped name (length v - cut_keep v) dr) /\ v <> []) by (by intros A []).
  repeat match type of H with
  | (if negb (bool_decide (length ?v = 0)) then _ else _) = _ =>
      destruct (bool_decide_reflect (length v = 0)) as [?|Hne]; cbn [negb] in H
  end; try discriminate H.
  all: match type of H with context [cut ?v ?name ?dr] => destruct (Hcut _ v name dr Hne) as [E Hv]; rewrite E in H end;
    injection H as <-; constructor; cbn; try (by apply section_other); by apply section_cut.
Qed.

Section sized.
Context (dsize : Digest -> nat).

(** The loop ends, with a digest that fits or that another cut would not have made smaller. *)
Lemma enforce_budget_spec full max fuel : forall d,
  trimmed full d -> dsize d < fuel ->
  exists d', enforce_budget dsize fuel d max = Some d' /\ trimmed full d' /\
    (dsize d' <= max \/ cut_pass d' = None \/ exists d0, cut_pass d0 = Some d' /\ dsize d0 <= dsize d').
Proof.
  induction fuel as [|fuel IH]; intros d T Hf; [lia|]. cbn [enforce_budget].
  destruct (Nat.leb_spec (dsize d) max); [eauto|]. destruct (cut_pass d) as [d'|] eqn:E; [|eauto 10].
  pose proof (trimmed_pass _ _ _ T E) as T'. destruct (Nat.leb_spec (dsize d) (dsize d')); [eauto 10|].
  apply IH; [done|lia].
Qed.

Lemma digest_total findings opts :
  exists out, digest dsize findings opts = Some (set_watermark (watermark_of (do_since_seq opts) out) out) /\
    trimmed (full_digest findings opts) out.
Proof.
  destruct (enforce_budget_spec (full_digest findings opts) (do_max_chars opts) (budget_fuel dsize (full_digest findings opts))
    (full_digest findings opts)) as (out & H & T & _).
  - by apply trimmed_refl.
  - unfold budget_fuel. lia.
  - exists out. unfold digest. rewrite H. done.
Qed.
End sized.

(** ** The streams *)

Lemma new_findings_of_elem findings since df :
  df ∈ new_findings_of findings since <->
  exists f, f ∈ findings /\ fi_id f ∉ superseded_ids findings /\ (since < fi_seq f)%Z /\ df = digest_finding f.
Proof.
  unfold new_findings_of, live_findings. rewrite elem_of_sort_by, list_elem_of_fmap.
  setoid_rewrite list_elem_of_filter. setoid_rewrite list_elem_of_filter. naive_solver.
Qed.

Lemma overturns_of_elem findings since o :
  o ∈ overturns_of findings since ->
  exists f, f ∈ findings /\ (since < fi_seq f)%Z /\ ov_by o = fi_id f /\ ov_by_seq o = fi_seq f /\ ov_new_claim o = fi_claim f
    /\ ov_overturned o ∈ fi_supersedes f.
Proof.
  unfold overturns_of. rewrite elem_of_sort_by, list_elem_of_bind. intros (f & Hov & [Hs Hf]%list_elem_of_filter).
  unfold overturns_by in Hov. apply list_elem_of_fmap in Hov as (old & -> & Hold). exists f. done.
Qed.

Lemma sorted_le {A} (key : A -> Z) l :
  StronglySorted (fun a b => (key a <=? key b)%Z = true) l -> StronglySorted (fun a b => key a <= key b)%Z l.
Proof.
  induction 1 as [|a l Hl IH Ha]; constructor; [done|]. eapply Forall_impl; [exact Ha|]. intros b. by rewrite Z.leb_le.
Qed.

Lemma new_findings_sorted findings since :
  StronglySorted (fun a b => df_seq a <= df_seq b)%Z (new_findings_of findings since).
Proof.
  apply sorted_le. apply sort_by_sorted; cbn; intros; rewrite ?Z.leb_le, ?Z.leb_gt in *; lia.
Qed.

Lemma overturns_sorted findings since :
  StronglySorted (fun a b => ov_by_seq a <= ov_by_seq b)%Z (overturns_of findings since).
Proof.
  apply sorted_le. apply sort_by_sorted; cbn; intros; rewrite ?Z.leb_le, ?Z.leb_gt in *; lia.
Qed.

Lemma prefix_elem {A} name (whole kept : list A) dropped x : section_ok name whole kept dropped -> x ∈ kept -> x ∈ whole.
Proof. intros [Hp _ _] Hx. rewrite Hp in Hx. by apply elem_of_take in Hx as (i & Hi%list_elem_of_lookup_2 & _). Qed.

Lemma list_max_spec l :
  match list_max l with
  | Some m => m ∈ l /\ forall x, x ∈ l -> (x <= m)%Z
  | None => l = []
  end.
Proof.
  induction l as [|x l IH]; [done|]. change (list_max (x :: l)) with (Some (default x (Z.max x <$> list_max l))).
  destruct (list_max l) as [m|]; cbn -[Z.max].
  - destruct IH as [Hm Hle]. split.
    + destruct (Z.max_spec x m) as [[_ ->]|[_ ->]]; [by right|by left].
    + intros y [->|Hy]%elem_of_cons; [lia|]. specialize (Hle y Hy). lia.
  - subst. split; [by left|]. intros y [->|Hy%elem_of_nil]%elem_of_cons; [lia|done].
Qed.

(** ** Aggregates *)

(** The findings of a path. *)
Definition of_path (path : string) (findings : list Finding) : list Finding :=
  filter (fun f => fi_task_id f = Some path) findings.

Definition sum_costs (l : list Finding) : Z := foldr (fun f s => fi_cost_tokens f + s)%Z 0%Z l.

Lemma sum_costs_app l l' : sum_costs (l ++ l') = (sum_costs l + sum_costs l')%Z.
Proof. unfold sum_costs. induction l as [|f l IH]; cbn; [done|]. lia. Qed.

Lemma sum_costs_nonneg l : Forall (fun f => 0 <= fi_cost_tokens f)%Z l -> (0 <= sum_costs l)%Z.
Proof. unfold sum_costs. induction 1; cbn; lia. Qed.

(** What the cost of a path counts, for the findings so far. *)
Record cost_ok (done : list Finding) (path : string) (c : PathCost) : Prop := {
  co_path : pc_path c = path;
  co_tokens : pc_tokens c = Z.min u64_max (sum_costs (of_path path done));
  co_findings : pc_findings c = length (of_path path done);
  co_confirmed : pc_confirmed c = length (filter (fun f => fi_status f = Confirmed) (of_path path done));
  co_ruled_out : pc_ruled_out c = length (filter (fun f => fi_status f = RuledOut) (of_path path done));
}.

Lemma of_path_snoc path done f :
  of_path path (done ++ [f]) = if bool_decide (fi_task_id f = Some path) then of_path path done ++ [f] else of_path path done.
Proof.
  unfold of_path. rewrite filter_app. cbn. case_bool_decide; [by rewrite decide_True|]. by rewrite decide_False, app_nil_r.
Qed.

Lemma charge_ok done path c f :
  Forall (fun f => 0 <= fi_cost_tokens f)%Z (done ++ [f]) -> fi_task_id f = Some path ->
  cost_ok done path c -> cost_ok (done ++ [f]) path (charge f c).
Proof.
  intros Hnn Ht [Hp Htk Hf Hc Hr]. apply Forall_app in Hnn as [Hd [Hf0 _]%Forall_cons].
  assert (0 <= sum_costs (of_path path done))%Z 
    by (apply sum_costs_nonneg, Forall_forall; intros x [_ Hx]%list_elem_of_filter; by eapply Forall_forall in Hd).
  constructor; cbn; rewrite ?of_path_snoc, ?bool_decide_true by done; [done|..].
  - rewrite Htk, sum_costs_app. change (sum_costs [f]) with (fi_cost_tokens f + 0)%Z. unfold u64_saturating_add. lia.
  - rewrite length_app, Hf. cbn. lia.
  - rewrite filter_app, length_app, Hc. cbn. destruct (fi_status f); cbn; repeat case_decide; cbn; try done; lia.
  - rewrite filter_app, length_app, Hr. cbn. destruct (fi_status f); cbn; repeat case_decide; cbn; try done; lia.
Qed.

Lemma new_path_ok done path : of_path path done = [] -> cost_ok done path (new_path path).
Proof. intros E. constructor; rewrite ?E; done. Qed.

(** The map of costs holds exactly the paths seen, each with its counts. *)
Lemma costs_spec findings :
  Forall (fun f => 0 <= fi_cost_tokens f)%Z findings ->
  forall path, match foldl cost_step ∅ findings !! path with
               | Some c => of_path path findings <> [] /\ cost_ok findings path c
               | None => of_path path findings = []
               end.
Proof.
  induction findings as [|f findings IH] using rev_ind; intros Hnn path; [done|]. rewrite foldl_app. cbn [foldl].
  specialize (IH (proj1 (proj1 (Forall_app _ _ _) Hnn))).
  set (m := foldl cost_step ∅ findings) in *. unfold cost_step.
  assert (Hother : fi_task_id f <> Some path -> of_path path (findings ++ [f]) = of_path path findings).
  { intros Hne. by rewrite of_path_snoc, bool_decide_false. }
  assert (Hkeep : fi_task_id f <> Some path ->
    match m !! path with Some c => of_path path (findings ++ [f]) <> [] /\ cost_ok (findings ++ [f]) path c
    | None => of_path path (findings ++ [f]) = [] end).
  { intros Hne. specialize (IH path). destruct (m !! path) as [c|]; rewrite (Hother Hne); [|done].
    destruct IH as [? [? ? ? ? ?]]. split; [done|]. constructor; by rewrite ?(Hother Hne). }
  destruct (fi_task_id f) as [p|] eqn:Et; [|by apply Hkeep].
  destruct (decide (p = path)) as [->|Hne]; [|rewrite lookup_insert_ne by done; apply Hkeep; congruence].
  rewrite lookup_insert_eq. split.
  - rewrite of_path_snoc, bool_decide_true by done. by destruct (of_path path findings).
  - apply charge_ok; [done|done|]. specialize (IH path). destruct (m !! path) as [c|]; [by destruct IH|by apply new_path_ok].
Qed.

Lemma costs_of_spec findings c :
  Forall (fun f => 0 <= fi_cost_tokens f)%Z findings ->
  c ∈ costs_of findings -> cost_ok findings (pc_path c) c /\ of_path (pc_path c) findings <> [].
Proof.
  intros Hnn Hc. unfold costs_of in Hc. apply list_elem_of_fmap in Hc as ([path c'] & -> & Hin%elem_of_table_iter).
  pose proof (costs_spec findings Hnn path) as H. rewrite Hin in H. destruct H as [Hne Hok]. cbn [snd].
  by rewrite (co_path _ _ _ Hok).
Qed.

(** ** Staleness *)

Lemma drift_lookup f current k was now :
  drift f current !! k = Some (was, now) <-> fi_config f !! k = Some was /\ current !! k = Some now /\ now <> was.
Proof.
  unfold drift. rewrite map_lookup_imap. destruct (fi_config f !! k) as [w|]; cbn; [|naive_solver].
  destruct (current !! k) as [n|]; cbn; [|naive_solver]. case_bool_decide; naive_solver.
Qed.

Lemma stale_of_elem live current s :
  s ∈ stale_of live current ->
  exists f, f ∈ live /\ sl_id s = fi_id f /\ sl_claim s = fi_claim f /\ sl_drifted s = drift f current /\ sl_drifted s <> ∅.
Proof.
  unfold stale_of. rewrite elem_of_reverse, list_elem_of_omap. intros (f & Hf & Hs). unfold stale_finding in Hs.
  case_bool_decide; [done|]. injection Hs as <-. exists f. done.
Qed.

(** ** Theorems *)

(** The watermark is the largest number delivered. *)
Lemma watermark_spec findings opts out :
  trimmed (full_digest findings opts) out ->
  let w := watermark_of (do_since_seq opts) out in
  (forall df, df ∈ dg_new_findings out -> (do_since_seq opts < df_seq df <= w)%Z) /\
  (forall o, o ∈ dg_overturns out -> (do_since_seq opts < ov_by_seq o <= w)%Z) /\
  (w = do_since_seq opts <-> dg_new_findings (full_digest findings opts) = [] /\ dg_overturns (full_digest findings opts) = []) /\
  (w = do_since_seq opts \/ (exists df, df ∈ dg_new_findings out /\ w = df_seq df) \/ exists o, o ∈ dg_overturns out /\ w = ov_by_seq o).
Proof.
  intros T w. set (since := do_since_seq opts) in *.
  assert (Hn : forall df, df ∈ dg_new_findings out -> (since < df_seq df)%Z).
  { intros df Hdf. eapply prefix_elem in Hdf; [|apply T]. apply new_findings_of_elem in Hdf as (f & _ & _ & ? & ->). done. }
  assert (Ho : forall o, o ∈ dg_overturns out -> (since < ov_by_seq o)%Z).
  { intros o Hov. eapply prefix_elem in Hov; [|apply T]. apply overturns_of_elem in Hov as (f & _ & ? & _ & -> & _). done. }
  assert (En : dg_new_findings out = [] <-> dg_new_findings (full_digest findings opts) = []).
  { destruct (tm_new _ _ T) as [Hp Hk _]. split; [intros E; destruct (dg_new_findings (full_digest findings opts)); [done|by destruct Hk]|].
    intros E. rewrite Hp, E. apply take_nil. }
  assert (Eo : dg_overturns out = [] <-> dg_overturns (full_digest findings opts) = []).
  { destruct (tm_overturns _ _ T) as [Hp Hk _]. split; [intros E; destruct (dg_overturns (full_digest findings opts)); [done|by destruct Hk]|].
    intros E. rewrite Hp, E. apply take_nil. }
  rewrite <- En, <- Eo. unfold w, watermark_of.
  pose proof (list_max_spec (df_seq <$> dg_new_findings out)) as Hmn. pose proof (list_max_spec (ov_by_seq <$> dg_overturns out)) as Hmo.
  destruct (list_max (df_seq <$> _)) as [n|], (list_max (ov_by_seq <$> _)) as [o|].
  - destruct Hmn as [(dn & -> & Hdn)%list_elem_of_fmap Hln], Hmo as [(dv & -> & Hdo)%list_elem_of_fmap Hlo].
    pose proof (Hn _ Hdn). pose proof (Ho _ Hdo). split_and!.
    + intros df Hdf. specialize (Hn _ Hdf). specialize (Hln (df_seq df) ltac:(by apply list_elem_of_fmap_2)). lia.
    + intros v Hv. specialize (Ho _ Hv). specialize (Hlo (ov_by_seq v) ltac:(by apply list_elem_of_fmap_2)). lia.
    + split; [lia|]. intros [E _]. rewrite E in Hdn. by apply elem_of_nil in Hdn.
    + right. destruct (Z.max_spec (df_seq dn) (ov_by_seq dv)) as [[_ ->]|[_ ->]]; eauto.
  - destruct Hmn as [(dn & -> & Hdn)%list_elem_of_fmap Hln]. apply fmap_nil_inv in Hmo. pose proof (Hn _ Hdn). split_and!.
    + intros df Hdf. specialize (Hn _ Hdf). specialize (Hln (df_seq df) ltac:(by apply list_elem_of_fmap_2)). lia.
    + intros v Hv. rewrite Hmo in Hv. by apply elem_of_nil in Hv.
    + split; [lia|]. intros [E _]. rewrite E in Hdn. by apply elem_of_nil in Hdn.
    + eauto.
  - destruct Hmo as [(dv & -> & Hdo)%list_elem_of_fmap Hlo]. apply fmap_nil_inv in Hmn. pose proof (Ho _ Hdo). split_and!.
    + intros v Hv. rewrite Hmn in Hv. by apply elem_of_nil in Hv.
    + intros v Hv. specialize (Ho _ Hv). specialize (Hlo (ov_by_seq v) ltac:(by apply list_elem_of_fmap_2)). lia.
    + split; [lia|]. intros [_ E]. rewrite E in Hdo. by apply elem_of_nil in Hdo.
    + eauto.
  - apply fmap_nil_inv in Hmn, Hmo. rewrite Hmn, Hmo. split_and!; [by intros ? ?%elem_of_nil..|done|by left].
Qed.


Lemma trimmed_watermark full w out : trimmed full out -> trimmed full (set_watermark w out).
Proof. intros [? ? ? ? ?]. by constructor. Qed.

(** C38. The controller's view is true and its cuts are declared.  For every size function the
    digest is produced.  Each section is a first part of the whole section, never emptied, and
    [dropped] counts exactly what is missing from it.  A new finding is one of the log above
    the watermark that no finding supersedes, in order of sequence; an overturn quotes the
    finding that supersedes; a stale finding lists the components whose version differs now,
    with both versions, and no other; the cost of a path is the saturating sum, and the counts,
    of its findings; every sequence number delivered lies between the old watermark and the
    new. *)
Theorem digest_faithful dsize findings opts :
  Forall (fun f => 0 <= fi_cost_tokens f)%Z findings ->
  exists d, digest dsize findings opts = Some d /\
    trimmed (full_digest findings opts) d /\
    (forall df, df ∈ dg_new_findings d -> (do_since_seq opts < df_seq df <= dg_watermark d)%Z /\
       exists f, f ∈ findings /\ fi_id f ∉ superseded_ids findings /\ df = digest_finding f) /\
    StronglySorted (fun a b => df_seq a <= df_seq b)%Z (dg_new_findings d) /\
    (forall o, o ∈ dg_overturns d -> (do_since_seq opts < ov_by_seq o <= dg_watermark d)%Z /\
       exists f, f ∈ findings /\ ov_by o = fi_id f /\ ov_by_seq o = fi_seq f /\ ov_new_claim o = fi_claim f /\ ov_overturned o ∈ fi_supersedes f) /\
    (forall s, s ∈ dg_stale d -> exists f, f ∈ findings /\ fi_id f ∉ superseded_ids findings /\ sl_id s = fi_id f /\ sl_drifted s <> ∅ /\
       forall k was now, sl_drifted s !! k = Some (was, now) <-> fi_config f !! k = Some was /\ do_current_config opts !! k = Some now /\ now <> was) /\
    (forall c, c ∈ dg_cost_by_path d -> cost_ok findings (pc_path c) c /\ of_path (pc_path c) findings <> []).
Proof.
  intros Hnn. destruct (digest_total dsize findings opts) as (out & H & T).
  destruct (watermark_spec _ _ _ T) as (Hwn & Hwo & _). eexists. split; [exact H|]. split; [by apply trimmed_watermark|].
  cbn [set_watermark dg_new_findings dg_overturns dg_stale dg_cost_by_path dg_watermark]. split_and!.
  - intros df Hdf. split; [by apply Hwn|]. eapply prefix_elem in Hdf; [|apply T].
    apply new_findings_of_elem in Hdf as (f & ? & ? & _ & ->). eauto.
  - destruct (tm_new _ _ T) as [-> _ _]. pose proof (new_findings_sorted findings (do_since_seq opts)) as Hs.
    eapply StronglySorted_app_1_l. rewrite take_drop. exact Hs.
  - intros o Hov. split; [by apply Hwo|]. eapply prefix_elem in Hov; [|apply T].
    apply overturns_of_elem in Hov as (f & ? & _ & ? & ? & ? & ?). exists f. done.
  - intros s Hs. eapply prefix_elem in Hs; [|apply T]. apply stale_of_elem in Hs as (f & [Hl Hf]%list_elem_of_filter & ? & _ & Hd & ?).
    exists f. split_and!; try done. intros k was now. rewrite Hd. apply drift_lookup.
  - intros c Hc. eapply prefix_elem in Hc; [|apply T]. by apply costs_of_spec.
Qed.

(** ** The stream *)

(** A controller that reads the digest again and again, each time from the watermark it was
    given: the findings it is delivered. *)
Fixpoint poll (dsize : Digest -> nat) (n : nat) (findings : list Finding) (opts : DigestOptions) (since : Z)
    : list DigestFinding :=
  match n with
  | O => []
  | S n =>
      match digest dsize findings {| do_since_seq := since; do_current_config := do_current_config opts;
               do_max_chars := do_max_chars opts; do_recent_window := do_recent_window opts;
               do_cluster_min_paths := do_cluster_min_paths opts |} with
      | Some d => dg_new_findings d ++ poll dsize n findings opts (dg_watermark d)
      | None => []
      end
  end.

Lemma new_findings_perm findings since :
  new_findings_of findings since ≡ₚ digest_finding <$> filter (fun f => since < fi_seq f)%Z (live_findings findings).
Proof. apply sort_by_perm. Qed.

Lemma new_findings_seqs findings since :
  NoDup (fi_seq <$> findings) -> NoDup (df_seq <$> new_findings_of findings since).
Proof.
  intros Hnd. rewrite new_findings_perm, <- list_fmap_compose. eapply sublist_NoDup; [exact Hnd|].
  change (df_seq ∘ digest_finding) with fi_seq. apply fmap_sublist.
  transitivity (live_findings findings); apply sublist_filter.
Qed.

Lemma new_findings_inj findings since x y :
  NoDup (fi_seq <$> findings) -> x ∈ new_findings_of findings since -> y ∈ new_findings_of findings since ->
  df_seq x = df_seq y -> x = y.
Proof.
  intros Hnd Hx Hy E. pose proof (new_findings_seqs findings since Hnd) as Hn.
  apply list_elem_of_lookup in Hx as [i Hi], Hy as [j Hj].
  assert (i = j) as ->; [|congruence]. eapply NoDup_lookup; [exact Hn| |]; rewrite list_lookup_fmap.
  - by rewrite Hi.
  - rewrite Hj. cbn. by rewrite E.
Qed.

(** A later watermark leaves the later part of the stream. *)
Lemma new_findings_later findings since w :
  NoDup (fi_seq <$> findings) -> (since <= w)%Z ->
  new_findings_of findings w = filter (fun df => w < df_seq df)%Z (new_findings_of findings since).
Proof.
  intros Hnd Hw. eapply StronglySorted_unique_strong with (R := fun a b => (df_seq a <= df_seq b)%Z).
  - intros x y Hx [_ Hy]%list_elem_of_filter H1 H2. eapply new_findings_inj; [done| |exact Hy|lia].
    apply new_findings_of_elem in Hx as (f & ? & ? & ? & ->). apply new_findings_of_elem. exists f. split_and!; try done. lia.
  - apply new_findings_sorted.
  - pose proof (new_findings_sorted findings since) as Hs. induction Hs as [|a l Hl IH Ha]; [constructor|].
    rewrite filter_cons. case_decide; [|done]. constructor; [done|]. apply Forall_forall. intros x [_ Hx]%list_elem_of_filter.
    by eapply Forall_forall in Ha.
  - rewrite !new_findings_perm. generalize (live_findings findings). intros l. induction l as [|f l IH]; [done|].
    rewrite !filter_cons. destruct (decide (w < fi_seq f)%Z), (decide (since < fi_seq f)%Z); cbn; try lia.
    + rewrite decide_True by done. by constructor.
    + rewrite decide_False by done. done.
    + done.
Qed.

Lemma filter_all {A} (P : A -> Prop) `{!forall x, Decision (P x)} (l : list A) : (forall x, x ∈ l -> P x) -> filter P l = l.
Proof.
  induction l as [|x l IH]; intros Hl; [done|]. rewrite filter_cons, decide_True by (apply Hl; by left).
  f_equal. apply IH. intros y Hy. apply Hl. by right.
Qed.

Lemma filter_above_drop (l : list DigestFinding) k w :
  StronglySorted (fun a b => df_seq a <= df_seq b)%Z l -> NoDup (df_seq <$> l) ->
  (forall x, x ∈ take k l -> (df_seq x <= w)%Z) -> (exists x, x ∈ take k l /\ df_seq x = w) ->
  filter (fun df => w < df_seq df)%Z l = drop k l.
Proof.
  intros Hs Hnd Hle (x & Hx & Ew). rewrite <- (take_drop k l) in Hs, Hnd |- * at 1. rewrite filter_app.
  rewrite fmap_app in Hnd. apply NoDup_app in Hnd as (_ & Hdis & _).
  assert (E1 : filter (fun df => w < df_seq df)%Z (take k l) = []).
  { apply elem_of_nil_inv. intros y [Hlt Hy]%list_elem_of_filter. specialize (Hle y Hy). lia. }
  rewrite E1. cbn. apply filter_all. intros y Hy.
  pose proof (StronglySorted_app_1_elem_of _ _ _ _ _ Hs Hx Hy) as H.
  assert (df_seq x <> df_seq y); [|cbn in *; lia]. intros E. apply (Hdis (df_seq x)); [by apply list_elem_of_fmap_2|].
  rewrite E. by apply list_elem_of_fmap_2.
Qed.

Lemma no_overturns findings since :
  (forall f, f ∈ findings -> (since < fi_seq f)%Z -> fi_supersedes f = []) -> overturns_of findings since = [].
Proof.
  intros H. apply elem_of_nil_inv. intros o Hov. unfold overturns_of in Hov. rewrite elem_of_sort_by in Hov.
  apply list_elem_of_bind in Hov as (f & Ho & [Hs Hf]%list_elem_of_filter).
  unfold overturns_by in Ho. rewrite (H f Hf Hs) in Ho. by apply elem_of_nil in Ho.
Qed.

(** One reading delivers a first part of the stream and leaves the rest above the watermark. *)
Lemma digest_splits dsize findings opts d :
  NoDup (fi_seq <$> findings) ->
  (forall f, f ∈ findings -> (do_since_seq opts < fi_seq f)%Z -> fi_supersedes f = []) ->
  digest dsize findings opts = Some d ->
  let l := new_findings_of findings (do_since_seq opts) in
  (do_since_seq opts <= dg_watermark d)%Z /\ (l <> [] -> dg_new_findings d <> []) /\
  dg_new_findings d ++ new_findings_of findings (dg_watermark d) = l.
Proof.
  intros Hnd Hsup H l. destruct (digest_total dsize findings opts) as (out & H' & T). rewrite H' in H. injection H as <-.
  destruct (watermark_spec _ _ _ T) as (Hwn & _ & Hw0 & Hw). cbn [set_watermark dg_new_findings dg_watermark].
  destruct (tm_new _ _ T) as [Hp Hk _]. cbn [full_digest dg_new_findings] in Hp, Hk. fold l in Hp, Hk.
  assert (Eo : dg_overturns (full_digest findings opts) = []) by (by apply no_overturns).
  assert (Ho : dg_overturns out = []).
  { destruct (tm_overturns _ _ T) as [E _ _]. rewrite E, Eo. apply take_nil. }
  set (w := watermark_of (do_since_seq opts) out) in *. destruct (decide (l = [])) as [El|Nl].
  - assert (Ew : w = do_since_seq opts) by (by apply Hw0). rewrite Hp, Ew. fold l. rewrite El, take_nil. split_and!; [lia|done|done].
  - specialize (Hk Nl). destruct Hw as [Hw|[(x & Hx & Hw)|(o & Hov & _)]].
    + apply Hw0 in Hw as [E _]. by destruct Nl.
    + pose proof (Hwn x Hx). split_and!; [lia|done|]. rewrite (new_findings_later findings (do_since_seq opts) w) by (done || lia).
      fold l. rewrite (filter_above_drop l (length (dg_new_findings out)) w).
      * rewrite Hp at 1. apply take_drop.
      * apply new_findings_sorted.
      * by apply new_findings_seqs.
      * rewrite <- Hp. intros y Hy. apply Hwn in Hy. lia.
      * rewrite <- Hp. eauto.
    + rewrite Ho in Hov. by apply elem_of_nil in Hov.
Qed.

(** C39. Nothing is lost to the budget: however small [max_chars] is, a controller that reads
    again from each watermark is delivered every live finding above its first watermark, once
    and in order, after at most as many readings as there are such findings — provided that no
    finding in that range overturns another (see [overturn_lost] for what happens then). *)
Theorem stream_lossless dsize findings opts since n :
  NoDup (fi_seq <$> findings) ->
  (forall f, f ∈ findings -> (since < fi_seq f)%Z -> fi_supersedes f = []) ->
  length (new_findings_of findings since) <= n ->
  poll dsize n findings opts since = new_findings_of findings since.
Proof.
  intros Hnd. revert since. induction n as [|n IH]; intros since Hsup Hn.
  - destruct (new_findings_of findings since); [done|cbn in Hn; lia].
  - cbn [poll]. match goal with |- context [digest dsize findings ?o] =>
      destruct (digest_total dsize findings o) as (out & H & _); rewrite H; pose proof (digest_splits dsize findings o _ Hnd Hsup H) as S end.
    cbn [do_since_seq] in S. cbn zeta in S. destruct S as (Hw & Hne & Happ).
    rewrite <- Happ at 1. f_equal. apply IH.
    + intros f Hf Hlt. apply Hsup; [done|lia].
    + rewrite <- Happ in Hn, Hne. rewrite length_app in Hn. destruct (dg_new_findings _); [|cbn in *; lia].
      destruct (new_findings_of findings (dg_watermark _)); [cbn; lia|]. by destruct Hne.
Qed.

(** ** Samples *)

Definition sample_finding (seq : Z) (task_id : option string) (supersedes : list string) : Finding := {|
  fi_schema_version := 1; fi_id := ("f-" ++ pretty seq)%string; fi_seq := seq; fi_fleet_id := "fleet"; fi_task_id := task_id;
  fi_claim := "the resolver drops the second id"; fi_status := Confirmed; fi_component := "resolver"; fi_evidence := [];
  fi_config := ∅; fi_supersedes := supersedes; fi_cost_tokens := 100; fi_by := "worker"; fi_at_ms := 0; fi_kind := None;
  fi_lifecycle := None; fi_confidence := None; fi_review_state := None; fi_rowid := None; fi_derived_from := None |}.

Definition sample_options (since : Z) (max_chars : nat) : DigestOptions := {|
  do_since_seq := since; do_current_config := ∅; do_max_chars := max_chars; do_recent_window := 40; do_cluster_min_paths := 2 |}.

Definition path_findings : list Finding := (fun i => sample_finding i (Some "t1") []) <$> [1; 2; 3; 4]%Z.
Definition overturning : list Finding :=
  [sample_finding 1 None []; sample_finding 2 None []; sample_finding 3 None ["f-1"]; sample_finding 4 None ["f-2"]].

(** The costs of one path, summed over the log. *)
Lemma digest_faithful_witness : exists d, digest json_size path_findings (sample_options 0 4000) = Some d /\
  (forall c, c ∈ dg_cost_by_path d -> cost_ok path_findings (pc_path c) c).
Proof.
  destruct (digest_faithful json_size path_findings (sample_options 0 4000)) as (d & H & _ & _ & _ & _ & _ & Hc).
  - repeat (constructor; [cbn; lia|]). constructor.
  - exists d. split; [exact H|]. intros c Hin. exact (proj1 (Hc c Hin)).
Defined.

(** With room for nothing, four readings deliver the four findings. *)
Lemma stream_lossless_witness :
  poll json_size 4 path_findings (sample_options 0 0) 0 = new_findings_of path_findings 0.
Proof.
  apply (stream_lossless json_size path_findings (sample_options 0 0) 0 4).
  - apply (bool_decide_unpack _). vm_compute. exact I.
  - intros f Hf _. repeat (apply elem_of_cons in Hf as [->|Hf]; [reflexivity|]). by apply elem_of_nil in Hf.
  - vm_compute. lia.
Defined.

(** The watermark is the larger of the two streams, so when the budget cuts the overturns and
    not the new findings, it passes the overturn that was cut: reading on from it never
    delivers that one. *)
Lemma overturn_lost :
  exists d d', digest json_size overturning (sample_options 2 620) = Some d /\
    dg_dropped d = [{| dr_section := "overturns"; dr_omitted := 1 |}] /\ (ov_overturned <$> dg_overturns d) = ["f-1"] /\
    dg_watermark d = 4%Z /\
    digest json_size overturning (sample_options (dg_watermark d) 620) = Some d' /\ dg_overturns d' = [].
Proof. eexists _, _. split; [vm_compute; reflexivity|]. by vm_compute. Qed.

(** The loop stops at a section of one element: with the cost of one path in it, no finding is
    ever cut and the digest is over its limit by as much as the findings are. *)
Lemma ceiling_exceeded :
  exists d, digest json_size path_findings (sample_options 0 300) = Some d /\
    length (dg_new_findings d) = 4 /\ dg_dropped d = [{| dr_section := "cost_by_path"; dr_omitted := 0 |}] /\ 600 < json_size d.
Proof. eexists. split; [vm_compute; reflexivity|]. vm_compute. split_and!; try reflexivity. lia. Qed.
