(* ===== verification/LlmError.v ===== *)
(** * Errors of language-model calls

    [crates/octos-llm/src]: the typed errors of [error.rs], the call policy ([call_policy.rs]),
    the attribution of failures to lanes and the numbering of lanes ([provider.rs]), and the
    classification of errors in [retry.rs].  An [eyre::Report] is its chain of causes,
    outermost first; the HTTP library's error ([reqwest::Error]) is the answers it gives. *)
From S2P Require Import Prelude RustStr RustNum Models.
Open Scope octos_scope.

(** ** Data *)

(** [call_policy.rs]. *)
Inductive LlmCallPolicy := Normal | FailFast.

#[export] Instance call_policy_eq_dec : EqDecision LlmCallPolicy.
Proof. solve_decision. Defined.

Inductive ApiStyle :=
  | AnthropicMessages
  | OpenAiChatCompletions
  | OpenAiResponses
  | GeminiGenerateContent
  | OpenRouterChatCompletions.

Definition api_style_str (s : ApiStyle) : string :=
  match s with
  | AnthropicMessages => "anthropic_messages"
  | OpenAiChatCompletions => "openai_chat_completions"
  | OpenAiResponses => "openai_responses"
  | GeminiGenerateContent => "gemini_generate_content"
  | OpenRouterChatCompletions => "openrouter_chat_completions"
  end.

Inductive LlmErrorKind :=
  | Authentication
  | Quota
  | RateLimited (retry_after_secs : option Z)
  | ContextOverflow (limit used : option Z)
  | ModelNotFound (model : string)
  | ServerError (status : Z)
  | Network
  | Timeout
  | InvalidRequest (detail : string)
  | ContentFiltered
  | KStreamError
  | ProviderError (code : option string).

(** [LlmError]; its [source] is the next cause of the chain. *)
Record LlmError := {
  le_kind : LlmErrorKind;
  le_message : string;
  le_provider : string;
  le_api_style : option ApiStyle;
}.

Inductive StreamError :=
  | IdleTimeout (idle_secs : Z)
  | Incomplete (detail : string)
  | MalformedArgs (tool_id tool_name error : string)
  | TruncatedToolCall (tool_id tool_name error : string)
  | Transport (detail : string).

(** What the sources ask a [reqwest::Error]. *)
Record ReqwestError := {
  rq_text : string;
  rq_status : option Z;
  rq_is_timeout : bool;
  rq_is_connect : bool;
  rq_is_request : bool;
  rq_is_body : bool;
}.

Inductive Cause :=
  | CMessage (msg : string)
  | CLlm (e : LlmError)
  | CStream (e : StreamError)
  | CReqwest (e : ReqwestError).

(** [eyre::Report]: [chain()]. *)
Definition ErrReport := list Cause.

Definition wrap_report (msg : string) (e : ErrReport) : ErrReport := CMessage msg :: e.

(** ** [error.rs] *)

Definition new_error (kind : LlmErrorKind) (message : string) : LlmError :=
  {| le_kind := kind; le_message := message; le_provider := ""; le_api_style := None |}.

Definition with_provider (provider : string) (e : LlmError) : LlmError :=
  {| le_kind := le_kind e; le_message := le_message e; le_provider := provider; le_api_style := le_api_style e |}.

Definition with_api_style (style : ApiStyle) (e : LlmError) : LlmError :=
  {| le_kind := le_kind e; le_message := le_message e; le_provider := le_provider e; le_api_style := Some style |}.

Definition is_retryable (e : LlmError) : bool :=
  match le_kind e with
  | RateLimited _ | ServerError _ | Network | Timeout | KStreamError => true
  | _ => false
  end.

Definition body_signals_quota (body_lower : string) : bool :=
  contains body_lower "insufficient_quota"
  || contains body_lower "quota_exceeded"
  || contains body_lower "no_active_wisemodel_package"
  || (contains body_lower "no_active_" && contains body_lower "_package")
  || contains body_lower "billing"
  || contains body_lower "monthly"
  || contains body_lower "spend"
  || contains body_lower "package"
  || contains body_lower "credit".

Definition status_kind (status : Z) (body : string) : LlmErrorKind :=
  let body_lower := to_ascii_lowercase body in
  if (status =? 401)%Z then Authentication
  else if (status =? 402)%Z then Quota
  else if (status =? 403)%Z then if body_signals_quota body_lower then Quota else Authentication
  else if (status =? 429)%Z then if body_signals_quota body_lower then Quota else RateLimited None
  else if (status =? 404)%Z then ModelNotFound ""
  else if (status =? 400)%Z then
    if contains body "context_length" || contains body "max_tokens" then ContextOverflow None None
    else InvalidRequest (take_chars 200 body)
  else if ((500 <=? status) && (status <? 600))%Z then ServerError status
  else ProviderError None.

Definition from_status_with_label (status : Z) (body provider : string) : LlmError :=
  let truncated_body := take_chars 200 body in
  {| le_kind := status_kind status body;
     le_message := if bool_decide (truncated_body = "") then "HTTP " +:+ pretty status
                   else "HTTP " +:+ pretty status +:+ " - " +:+ truncated_body;
     le_provider := provider; le_api_style := None |}.

Definition from_status (status : Z) (body : string) : LlmError := from_status_with_label status body "".

(** The dash of the messages, in UTF-8. *)
Definition LONG_DASH : string := String "226" (String "128" (String "148" "")).

Definition kind_summary (k : LlmErrorKind) : string :=
  match k with
  | Authentication => "authentication failed"
  | Quota => "provider quota exhausted"
  | RateLimited _ => "rate limited by provider"
  | ContextOverflow _ _ => "context window exceeded"
  | ModelNotFound _ => "model not found"
  | ServerError _ => "provider server error"
  | Network => "network error"
  | Timeout => "request timed out"
  | InvalidRequest _ => "invalid request"
  | ContentFiltered => "content filtered by provider"
  | KStreamError => "stream error"
  | ProviderError _ => "provider error"
  end.

(** [Display]. *)
Definition llm_error_text (e : LlmError) : string :=
  let prefix :=
    match bool_decide (le_provider e = ""), le_api_style e with
    | true, None => "API error"
    | true, Some style => "API error (api_style=" +:+ api_style_str style +:+ ")"
    | false, None => "API error (" +:+ le_provider e +:+ ")"
    | false, Some style => "API error (" +:+ le_provider e +:+ ", api_style=" +:+ api_style_str style +:+ ")"
    end in
  prefix +:+ ": " +:+ kind_summary (le_kind e) +:+ " " +:+ LONG_DASH +:+ " " +:+ le_message e.

Definition stream_is_retryable (e : StreamError) : bool :=
  match e with MalformedArgs _ _ _ => false | _ => true end.

Definition stream_error_text (e : StreamError) : string :=
  match e with
  | IdleTimeout s => "stream idle timeout after " +:+ pretty s +:+ "s " +:+ LONG_DASH +:+ " provider stalled"
  | Incomplete d => "stream closed without terminal signal: " +:+ d
  | MalformedArgs id name err =>
      "malformed tool_call arguments (tool=" +:+ name +:+ ", id=" +:+ id +:+ "): " +:+ err
  | TruncatedToolCall id name err =>
      "truncated tool_call arguments (tool=" +:+ name +:+ ", id=" +:+ id +:+ ") " +:+ LONG_DASH +:+
      " output token cap hit mid-call: " +:+ err
  | Transport d => "stream transport error: " +:+ d
  end.

(** [From<StreamError> for LlmError], with the stream error as its source. *)
Definition llm_of_stream (err : StreamError) : ErrReport :=
  let message := stream_error_text err in
  let kind := match err with
              | IdleTimeout _ => Timeout
              | Incomplete _ => KStreamError
              | MalformedArgs _ _ _ => InvalidRequest (take_chars 200 message)
              | TruncatedToolCall _ _ _ => KStreamError
              | Transport _ => Network
              end in
  [CLlm (new_error kind message); CStream err].

(** ** Rendering of reports *)

Definition cause_text (c : Cause) : string :=
  match c with
  | CMessage m => m
  | CLlm e => llm_error_text e
  | CStream e => stream_error_text e
  | CReqwest e => rq_text e
  end.

(** [to_string], and the alternate form that joins the chain. *)
Definition report_text (e : ErrReport) : string := match e with [] => "" | c :: _ => cause_text c end.
Definition report_chain_text (e : ErrReport) : string := String.concat ": " (cause_text <$> e).

(** ** Lanes ([provider.rs]) *)

Definition lane_label (provider model : string) (style : option ApiStyle) : string :=
  match style with
  | Some s => provider +:+ "/" +:+ model +:+ " (api_style=" +:+ api_style_str s +:+ ")"
  | None => provider +:+ "/" +:+ model
  end.

Record LaneFailure := { lf_lane : string; lf_error : string }.

Definition LANES_EXHAUSTED : string := "all lanes failed".
Definition LANE_FAILED_FAIL_FAST : string := "lane failed (fail-fast policy, no failover)".
Definition LANE_FAILED_NOT_FAILOVER_WORTHY : string := "lane failed (not failover-worthy, no failover)".

Definition lane_failure_summary (outcome : string) (failures : list LaneFailure) : string :=
  outcome +:+ ": " +:+ String.concat "; " ((fun f => lf_lane f +:+ ": " +:+ lf_error f) <$> failures).

Definition attribute_lane_failures (carrier : ErrReport) (outcome : string) (failures : list LaneFailure) : ErrReport :=
  wrap_report (lane_failure_summary outcome failures) carrier.

Definition lane_offset_for_slot (lane_counts : list nat) (slot : nat) : nat := sum_list (take slot lane_counts).

Fixpoint slot_loop (slot offset : nat) (lane_counts : list nat) (index : nat) : option (nat * nat) :=
  match lane_counts with
  | [] => None
  | count :: rest =>
      if (index <? offset + count)%nat then Some (slot, index - offset)
      else slot_loop (S slot) (offset + count) rest index
  end.

Definition slot_for_lane_index (lane_counts : list nat) (index : nat) : option (nat * nat) :=
  slot_loop 0 0 lane_counts index.

(** ** Classification ([retry.rs]) *)

(** The first cause of a type. *)
Fixpoint find_llm (e : ErrReport) : option LlmError :=
  match e with
  | [] => None
  | CLlm l :: _ => Some l
  | _ :: rest => find_llm rest
  end.

Definition reqwest_causes (e : ErrReport) : list ReqwestError :=
  omap (fun c => match c with CReqwest r => Some r | _ => None end) e.

Definition among_codes (codes : list Z) (s : Z) : bool := existsb (Z.eqb s) codes.

(** The status-less verdict of one HTTP error; [None] goes on to the next cause. *)
Definition reqwest_retryable (r : ReqwestError) : option bool :=
  match rq_status r with
  | Some s => Some (among_codes [429; 500; 502; 503; 504; 529]%Z s)
  | None =>
      if rq_is_timeout r then Some false
      else if rq_is_connect r then Some true
      else if rq_is_request r || rq_is_body r then Some true
      else None
  end.

Section lower.
Context `{StrLower}.

Definition is_retryable_error (error : ErrReport) : bool :=
  match find_llm error with
  | Some llm => is_retryable llm
  | None =>
      match head (omap reqwest_retryable (reqwest_causes error)) with
      | Some b => b
      | None =>
          let error_str := report_text error in
          existsb (fun code => contains error_str ("API error: " +:+ code)) ["429"; "500"; "502"; "503"; "504"; "529"]
          || let lower := str_lowercase error_str in
             existsb (contains lower)
               ["connection refused"; "connection reset"; "connection closed"; "broken pipe"; "error sending request";
                "timed out"; "overloaded"]
      end
  end.

Definition kind_fails_over (k : LlmErrorKind) : bool :=
  match k with
  | Quota | Authentication | RateLimited _ | InvalidRequest _ => true
  | ServerError status => ((500 <=? status) && (status <? 600))%Z
  | Network | Timeout | KStreamError | ContextOverflow _ _ => true
  | ContentFiltered | ModelNotFound _ | ProviderError _ => false
  end.

Definition should_failover (error : ErrReport) : bool :=
  match find_llm error with
  | Some llm => kind_fails_over (le_kind llm)
  | None =>
      if existsb (fun r => rq_is_timeout r || match rq_status r with Some s => among_codes [401; 403]%Z s | None => false end)
           (reqwest_causes error)
      then true
      else
        let error_str := report_text error in
        if existsb (fun code => contains error_str ("API error: " +:+ code)) ["401"; "403"] then true
        else if contains error_str "400"
                && existsb (contains error_str) ["must not be empty"; "reasoning_content"; "API key not valid"; "invalid_value"]
        then true
        else is_retryable_error error
  end.
End lower.

(** ** Lemmas *)

(** A report is still classified by the typed cause it carries, whatever summary is put on top. *)
Lemma attribution_keeps_kind carrier outcome failures :
  find_llm (attribute_lane_failures carrier outcome failures) = find_llm carrier.
Proof. done. Qed.

(** Statuses of typed server errors as [from_status] makes them. *)
Definition status_in_range (e : ErrReport) : Prop :=
  match find_llm e with
  | Some l => match le_kind l with ServerError s => (500 <= s < 600)%Z | _ => True end
  | None => True
  end.

(** What is retried on the same provider is also tried on the next one. *)
Lemma retryable_fails_over `{StrLower} e : status_in_range e -> is_retryable_error e = true -> should_failover e = true.
Proof.
  unfold status_in_range, should_failover. intros Hs Hr. destruct (find_llm e) as [l|] eqn:E.
  - unfold is_retryable_error in Hr. rewrite E in Hr. unfold is_retryable in Hr.
    destruct (le_kind l); try done. cbn. apply andb_true_intro. split; [apply Z.leb_le|apply Z.ltb_lt]; lia.
  - rewrite Hr. by repeat case_match.
Qed.

Lemma from_status_in_range status body provider : status_in_range [CLlm (from_status_with_label status body provider)].
Proof.
  unfold status_in_range, find_llm, from_status_with_label, status_kind. cbn [le_kind]. repeat case_match; try done.
  match goal with E : ServerError _ = ServerError _ |- _ => injection E as -> end.
  match goal with E : (_ && _)%Z = true |- _ => apply andb_prop in E as [?%Z.leb_le ?%Z.ltb_lt] end. lia.
Qed.

Lemma slot_loop_spec counts : forall slot offset index,
  offset <= index ->
  match slot_loop slot offset counts index with
  | Some (s, inner) => exists k count, s = slot + k /\ counts !! k = Some count /\ inner < count /\
                         index = offset + sum_list (take k counts) + inner
  | None => offset + sum_list counts <= index
  end.
Proof.
  induction counts as [|c counts IH]; intros slot offset index Ho; cbn [slot_loop]; [cbn; lia|].
  destruct (Nat.ltb_spec index (offset + c)) as [Hlt|Hge].
  - exists 0, c. cbn. repeat split; lia.
  - specialize (IH (S slot) (offset + c) index Hge). destruct (slot_loop _ _ _ _) as [[s inner]|].
    + destruct IH as (k & count & -> & Hk & Hi & ->). exists (S k), count. cbn. repeat split; [lia|done|done|lia].
    + cbn. lia.
Qed.

Lemma lane_offset_S counts s c : counts !! s = Some c -> lane_offset_for_slot counts (S s) = lane_offset_for_slot counts s + c.
Proof.
  intros Hs. unfold lane_offset_for_slot. rewrite (take_S_r _ _ _ Hs), sum_list_with_app. cbn. lia.
Qed.

(** The flat numbering of lanes is a bijection between the indices below the total and the
    pairs of a slot and a lane of it. *)
Lemma lane_index_bijective counts :
  (forall s i c, counts !! s = Some c -> i < c -> slot_for_lane_index counts (lane_offset_for_slot counts s + i) = Some (s, i)) /\
  (forall x s i, slot_for_lane_index counts x = Some (s, i) ->
     lane_offset_for_slot counts s + i = x /\ exists c, counts !! s = Some c /\ i < c) /\
  (forall x, slot_for_lane_index counts x = None <-> sum_list counts <= x).
Proof.
  assert (Hmono : forall l s k, s <= k -> sum_list (take s l) <= sum_list (take k l)).
  { induction l as [|c l IH]; intros [|s] [|k] Hle; cbn; try lia. specialize (IH s k ltac:(lia)). unfold id in *. lia. }
  assert (Htot : forall s, sum_list (take s counts) <= sum_list counts).
  { intros s. rewrite <- (take_drop s counts) at 2. rewrite sum_list_with_app. lia. }
  unfold slot_for_lane_index. split_and!.
  - intros s i c Hs Hi. pose proof (lane_offset_S _ _ _ Hs) as HS. unfold lane_offset_for_slot in *.
    pose proof (slot_loop_spec counts 0 0 (sum_list (take s counts) + i) ltac:(lia)) as H.
    destruct (slot_loop _ _ _ _) as [[s' i']|]; [|specialize (Htot (S s)); lia].
    destruct H as (k & c' & -> & Hk & Hi' & E). pose proof (lane_offset_S _ _ _ Hk) as HS'. unfold lane_offset_for_slot in HS'.
    cbn [Nat.add] in *. destruct (Nat.lt_trichotomy s k) as [Hlt|[->|Hlt]].
    + pose proof (Hmono counts (S s) k ltac:(lia)). lia.
    + f_equal. f_equal. lia.
    + pose proof (Hmono counts (S k) s ltac:(lia)). lia.
  - intros x s i E. pose proof (slot_loop_spec counts 0 0 x ltac:(lia)) as H. rewrite E in H.
    destruct H as (k & c & -> & Hk & Hi & ->). cbn. split; [done|]. exists c. done.
  - intros x. pose proof (slot_loop_spec counts 0 0 x ltac:(lia)) as H. destruct (slot_loop _ _ _ _) as [[s i]|].
    + split; [done|]. destruct H as (k & c & -> & Hk & Hi & ->). pose proof (lane_offset_S _ _ _ Hk) as HS.
      specialize (Htot (S k)). unfold lane_offset_for_slot in HS. lia.
    + split; [intros _; cbn in H; lia|done].
Qed.
