(* ===== verification/Retry.v ===== *)
(** * Retries of a language-model call

    [crates/octos-llm/src/retry.rs]: backoff and the loops [RetryProvider::chat] and
    [chat_stream], which differ in the request only.  A request is any computation over a
    world [W]; it ends in a value, an error or a panic.  [f64::powi], whose precision Rust
    leaves open, is a parameter. *)
From S2P Require Import Prelude RustStr RustNum Host Models LlmError.
From Stdlib Require Import SpecFloat.
Open Scope octos_scope.

(** ** Computations *)

Inductive outcome (A : Type) := Ret (a : A) | Fail (e : ErrReport) | Panics.
Arguments Ret {A} _.
Arguments Fail {A} _.
Arguments Panics {A}.

Definition llm (W A : Type) : Type := W -> outcome A * W.

(** ** Configuration and delays *)

Record RetryConfig := {
  rc_max_retries : Z;
  rc_initial_delay : Duration;
  rc_max_delay : Duration;
  rc_backoff_multiplier : f64;
}.

(** [default_llm_max_retries], of the environment variable. *)
Definition default_llm_max_retries (var : option string) : Z :=
  match var ≫= fun v => parse_u32 (trim v) with Some v => Z.min v 12 | None => 3%Z end.

Definition RetryConfig_default (var : option string) : RetryConfig := {|
  rc_max_retries := default_llm_max_retries var; rc_initial_delay := from_secs 1; rc_max_delay := from_secs 60;
  rc_backoff_multiplier := f64_of_Z 2 |}.

Definition as_secs_f64 (d : Duration) : f64 :=
  SFadd f64_prec f64_emax (f64_of_Z (d / 10 ^ 9)) (f64_div (f64_of_Z (d mod 10 ^ 9)) (f64_of_Z (10 ^ 9))).

(** The longest [Duration]. *)
Definition duration_max : Duration := (2 ^ 64 * 10 ^ 9 - 1)%Z.

Definition rate_limit_text (lower : string) : bool :=
  existsb (contains lower) ["429"; "rate limit"; "tokens per min"; "too many requests"; "resource_exhausted"].

(** Digits and dots at the start. *)
Fixpoint take_number (s : string) : string :=
  match s with
  | "" => ""
  | String b rest =>
      if is_ascii_digit (byte_val b) || bool_decide (b = "."%char) then String b (take_number rest) else ""
  end.

Definition TRY_AGAIN : string := "try again in ".

Section retry.
Context `{StrLower} (powi : f64 -> Z -> f64).

(** [None] is a panic of [Duration::from_secs_f64]. *)
Definition calculate_delay (config : RetryConfig) (attempt : Z) : option Duration :=
  delay ← from_secs_f64 (f64_mul (as_secs_f64 (rc_initial_delay config)) (powi (rc_backoff_multiplier config) attempt));
  Some (Z.min delay (rc_max_delay config)).

(** The delay the message asks for: [Some None] when it names none. *)
Definition hinted_delay (config : RetryConfig) (msg : string) : option (option Duration) :=
  match find_str TRY_AGAIN msg with
  | None => Some None
  | Some idx =>
      let after := str_drop (idx + String.length TRY_AGAIN) msg in
      let num_str := take_number after in
      match parse_f64 num_str with
      | None => Some None
      | Some value =>
          let unit := trim_start (str_drop (String.length num_str) after) in
          base ← from_secs_f64 (if starts_with "ms" unit then f64_div value (f64_of_Z 1000) else value);
          Some (Some (Z.min (Z.min duration_max (base + from_secs 1)) (rc_max_delay config)))
      end
  end.

(** [None] is a panic, [Some None] is no rate-limit error. *)
Definition rate_limit_delay (config : RetryConfig) (error : ErrReport) : option (option Duration) :=
  let msg := report_text error in
  if negb (rate_limit_text (str_lowercase msg)) then Some None
  else
    hint ← hinted_delay config msg;
    Some (Some (default (Z.min (from_secs 30) (rc_max_delay config)) hint)).

Definition pause_before_retry (config : RetryConfig) (attempt : Z) (error : ErrReport) : option Duration :=
  limit ← rate_limit_delay config error;
  match limit with Some d => Some d | None => calculate_delay config attempt end.

(** ** The loop *)

Context {W A : Type} (sleep : Duration -> W -> W).

(** The attempts [attempt, attempt + 1, ..., max_retries], [n] of them. *)
Fixpoint request_loop (policy : LlmCallPolicy) (config : RetryConfig) (request : llm W A) (n : nat) (attempt : Z) : llm W A :=
  fun w =>
    match n with
    | O => (Fail [CMessage "retry loop exited unexpectedly"], w)
    | S n =>
        match request w with
        | (Ret r, w) => (Ret r, w)
        | (Panics, w) => (Panics, w)
        | (Fail e, w) =>
            if negb (bool_decide (policy = FailFast)) && (attempt <? rc_max_retries config)%Z && is_retryable_error e
            then match pause_before_retry config attempt e with
                 | Some delay => request_loop policy config request n (attempt + 1) (sleep delay w)
                 | None => (Panics, w)
                 end
            else (Fail e, w)
        end
    end.

Definition retry_chat (policy : LlmCallPolicy) (config : RetryConfig) (request : llm W A) : llm W A :=
  request_loop policy config request (S (Z.to_nat (rc_max_retries config))) 0.

(** ** Lemmas *)

Lemma pause_bounded config attempt error d :
  pause_before_retry config attempt error = Some d -> (d <= rc_max_delay config)%Z.
Proof.
  unfold pause_before_retry, rate_limit_delay, calculate_delay, hinted_delay. intros E.
  repeat (case_match || (apply bind_Some in E as (? & ? & E))); simplify_eq/=; try lia.
  all: repeat match goal with
    | H : (_ ≫= _) = Some _ |- _ => apply bind_Some in H as (? & ? & ?)
    | H : (match ?x with _ => _ end) = Some _ |- _ => destruct x eqn:?
    end; simplify_eq/=; try lia.
Qed.

(** What a call does to the world: a first request, then for every pause the pause and a
    request; [e]s are the errors in between. *)
Inductive attempts (policy : LlmCallPolicy) (config : RetryConfig) (request : llm W A) : Z -> list Duration -> W -> outcome A -> W -> Prop :=
  | at_last k w o w' :
      request w = (o, w') ->
      (forall e, o = Fail e -> policy = FailFast \/ k = rc_max_retries config \/ is_retryable_error e = false) ->
      attempts policy config request k [] w o w'
  | at_panic k w e w' :
      request w = (Fail e, w') -> policy = Normal -> (k < rc_max_retries config)%Z -> is_retryable_error e = true ->
      pause_before_retry config k e = None ->
      attempts policy config request k [] w Panics w'
  | at_retry k w e w' d ds o w'' :
      request w = (Fail e, w') -> policy = Normal -> (k < rc_max_retries config)%Z -> is_retryable_error e = true ->
      pause_before_retry config k e = Some d ->
      attempts policy config request (k + 1) ds (sleep d w') o w'' ->
      attempts policy config request k (d :: ds) w o w''.

Lemma request_loop_spec policy config request n : forall k w o w',
  (0 <= k)%Z -> Z.of_nat n = (rc_max_retries config - k + 1)%Z -> (k <= rc_max_retries config)%Z ->
  request_loop policy config request n k w = (o, w') ->
  exists ds, attempts policy config request k ds w o w'.
Proof.
  induction n as [|n IH]; intros k w o w' Hk Hn Hle E; [lia|]. cbn [request_loop] in E.
  destruct (request w) as [[r|e|] w1] eqn:Er.
  - injection E as <- <-. exists []. by apply at_last.
  - destruct (_ && _) eqn:Ec.
    + apply andb_prop in Ec as [[Hp%negb_true_iff%bool_decide_eq_false Hlt%Z.ltb_lt]%andb_prop Hr].
      assert (policy = Normal) by (by destruct policy). destruct (pause_before_retry config k e) as [d|] eqn:Ed.
      * apply IH in E as [ds Hds]; [|lia..]. exists (d :: ds). by eapply at_retry.
      * injection E as <- <-. exists []. by eapply at_panic.
    + injection E as <- <-. exists []. apply at_last; [done|]. intros e' [= <-].
      destruct (is_retryable_error e); [|by auto]. destruct policy; [|by auto].
      cbn in Ec. rewrite andb_true_r in Ec. apply Z.ltb_ge in Ec. right. left. lia.
  - injection E as <- <-. exists []. by apply at_last.
Qed.

Lemma attempts_bounded policy config request k ds w o w' :
  attempts policy config request k ds w o w' -> (k <= rc_max_retries config)%Z ->
  (k + Z.of_nat (length ds) <= rc_max_retries config)%Z /\ Forall (fun d => d <= rc_max_delay config)%Z ds /\
  (policy = FailFast -> ds = []).
Proof.
  induction 1 as [| |k w e w' d ds o w'' Hr -> Hlt He Hd Ha IH]; intros Hle.
  - cbn. split_and!; [lia|constructor|done].
  - cbn. split_and!; [lia|constructor|done].
  - destruct IH as (Hlen & Hall & _); [lia|]. cbn. split_and!; [lia| |done]. constructor; [|done].
    by eapply pause_bounded.
Qed.

(** The outcome is the one of the last request, unless computing a pause panicked. *)
Lemma attempts_outcome policy config request k ds w o w' :
  attempts policy config request k ds w o w' ->
  exists w0, request w0 = (o, w') /\
      (forall e, o = Fail e -> policy = FailFast \/ (k + Z.of_nat (length ds))%Z = rc_max_retries config \/ is_retryable_error e = false)
    \/ o = Panics /\ exists e j, request w0 = (Fail e, w') /\ is_retryable_error e = true /\ pause_before_retry config j e = None.
Proof.
  induction 1 as [k w o w' Hr Hf|k w e w' Hr Hp Hlt He Hd|k w e w' d ds o w'' Hr Hp Hlt He Hd Ha (w0 & [[Hq Hf]|Hq])].
  - exists w. left. split; [done|]. cbn. rewrite Z.add_0_r. done.
  - exists w. right. split; [done|]. eauto 10.
  - exists w0. left. split; [done|]. intros e' He'. specialize (Hf e' He'). cbn [length]. rewrite Nat2Z.inj_succ.
    replace (k + Z.succ (Z.of_nat (length ds)))%Z with (k + 1 + Z.of_nat (length ds))%Z by lia. done.
  - exists w0. by right.
Qed.
Lemma attempts_loop policy config request k ds w o w' :
  attempts policy config request k ds w o w' -> forall n, Z.of_nat n = (rc_max_retries config - k + 1)%Z -> (k <= rc_max_retries config)%Z ->
  request_loop policy config request n k w = (o, w').
Proof.
  induction 1 as [k w o w' Hr Hf|k w e w' Hr Hp Hlt He Hd|k w e w' d ds o w'' Hr Hp Hlt He Hd Ha IH]; intros [|n] Hn Hle; try lia;
    cbn [request_loop]; rewrite Hr.
  - destruct o as [r|e|]; [done| |done]. destruct (Hf e eq_refl) as [ -> | [ -> | -> ] ]; [done| |by rewrite andb_false_r].
    by rewrite Z.ltb_irrefl, andb_false_r.
  - subst policy. rewrite He, Hd. cbn. apply Z.ltb_lt in Hlt. by rewrite Hlt.
  - subst policy. rewrite He, Hd. cbn. apply Z.ltb_lt in Hlt as Hlt'. rewrite Hlt'. apply IH; lia.
Qed.

(** C30. A retried call is exactly this: requests with a pause after each failure that may be
    retried, at most [max_retries] pauses, none longer than [max_delay] and none at all under
    the fail-fast policy.  It returns what its last request returned, a failure only if that
    may not be retried or the retries are used up; the only other outcome is a panic, where
    the pause asked for is not a [Duration]. *)
Theorem retry_bounded policy config request w o w' :
  (0 <= rc_max_retries config)%Z ->
  (retry_chat policy config request w = (o, w') <-> exists ds, attempts policy config request 0 ds w o w') /\
  (forall ds, attempts policy config request 0 ds w o w' ->
     (Z.of_nat (length ds) <= rc_max_retries config)%Z /\ Forall (fun d => d <= rc_max_delay config)%Z ds /\
     (policy = FailFast -> ds = []) /\
     exists w0, request w0 = (o, w') /\
         (forall e, o = Fail e -> policy = FailFast \/ Z.of_nat (length ds) = rc_max_retries config \/ is_retryable_error e = false)
       \/ o = Panics /\ exists e j, request w0 = (Fail e, w') /\ is_retryable_error e = true /\ pause_before_retry config j e = None).
Proof.
  intros Hm. split; [split|].
  - intros E. unfold retry_chat in E. eapply request_loop_spec in E; [done|lia..].
  - intros [ds Hds]. unfold retry_chat. eapply attempts_loop; [exact Hds|lia..].
  - intros ds Hds. destruct (attempts_bounded _ _ _ _ _ _ _ _ Hds Hm) as (Hl & Hall & Hff).
    split_and!; [lia|done|done|]. exact (attempts_outcome _ _ _ _ _ _ _ _ Hds).
Qed.
End retry.

(** ** The default configuration *)

(** [f64::powi] by repeated multiplication. *)
Definition powi_by_mul (x : f64) (n : Z) : f64 := Z.iter n (f64_mul x) f64_one.

(** Doubling from a second up to a minute. *)
Lemma default_backoff powi var k :
  powi (f64_of_Z 2) k = f64_of_Z (2 ^ k) -> (0 <= k < rc_max_retries (RetryConfig_default var))%Z ->
  calculate_delay powi (RetryConfig_default var) k = Some (from_secs (Z.min (2 ^ k) 60)).
Proof.
  intros Hp Hk. unfold calculate_delay. cbn [rc_initial_delay rc_max_delay rc_backoff_multiplier RetryConfig_default]. rewrite Hp.
  assert (rc_max_retries (RetryConfig_default var) <= 12)%Z as Hle.
  { cbn. unfold default_llm_max_retries. case_match; lia. }
  clear Hp. assert (k = 0 \/ k = 1 \/ k = 2 \/ k = 3 \/ k = 4 \/ k = 5 \/ k = 6 \/ k = 7 \/ k = 8 \/ k = 9 \/ k = 10 \/ k = 11)%Z as Hc by lia.
  clear Hk Hle. repeat (destruct Hc as [->|Hc]; [by vm_compute|]). subst k. by vm_compute.
Qed.

(** A server that asks for a pause no [Duration] can hold makes the caller panic. *)
Lemma rate_limit_hint_panics powi :
  pause_before_retry (H := ascii_lowercase) powi (RetryConfig_default None) 0
    [CMessage "API error: 429 - please try again in 99999999999999999999s"] = None.
Proof. by vm_compute. Qed.

(** A timeout is retried on the same provider. *)
Lemma typed_timeout_retried `{StrLower} msg : is_retryable_error [CLlm (new_error Timeout msg)] = true.
Proof. done. Qed.

(** A provider that answers at the third request: two pauses, then its answer. *)
Definition flaky (w : nat * list Duration) : outcome string * (nat * list Duration) :=
  match w.1 with
  | O => (Ret "answer", w)
  | S n => (Fail [CLlm (new_error Network "reset")], (n, w.2))
  end.

Definition note_sleep (d : Duration) (w : nat * list Duration) : nat * list Duration := (w.1, w.2 ++ [d]).

Lemma retry_bounded_witness :
  exists ds, attempts (H := ascii_lowercase) powi_by_mul note_sleep Normal (RetryConfig_default None) flaky 0 ds (2, [])
    (Ret "answer") (0, [from_secs 1; from_secs 2]).
Proof.
  apply (retry_bounded (H := ascii_lowercase) powi_by_mul note_sleep Normal (RetryConfig_default None) flaky (2, [])
    (Ret "answer") (0, [from_secs 1; from_secs 2])).
  - vm_compute. discriminate.
  - vm_compute. reflexivity.
Defined.
