(* ===== verification/Failover.v ===== *)
(** * Failover between providers

    [crates/octos-llm/src]: the chain of providers with its circuit breaker ([failover.rs]), the
    provider with fallbacks ([fallback.rs]), the route-fit guard ([context.rs]) and the
    composite numbering of lanes.  The state of a chain, its atomics, is part of the world
    [ChainState * W] its lanes run in, so that a lane may be any provider, concurrent calls
    included; where a theorem needs calls of the chain to come one after the other, it says
    that lanes leave that part alone. *)
From S2P Require Import Prelude RustStr RustNum Host Models LlmError Retry.
Open Scope octos_scope.

(** ** Responses and lanes *)

(** A response: the index of the lane that served it and the rest of its fields. *)
Record LaneResponse (B : Type) := { cr_provider_index : option nat; cr_body : B }.
Arguments cr_provider_index {B} _.
Arguments cr_body {B} _.

Inductive StreamEvent (B : Type) := ProviderIndex (index : nat) | OtherEvent (b : B).
Arguments ProviderIndex {B} _.
Arguments OtherEvent {B} _.

(** A stream is the sequence of its events. *)
Definition ChatStream (B : Type) := list (StreamEvent B).

(** [stream_with_lane_offset]. *)
Definition stream_with_lane_offset {B} (offset : nat) (stream : ChatStream B) : ChatStream B :=
  ProviderIndex offset ::
  ((fun event => match event with ProviderIndex inner => ProviderIndex (offset + inner) | other => other end) <$> stream).

(** What the composites use of [LlmProvider]. *)
Record Lane (S B : Type) := {
  ln_provider_name : string;
  ln_model_id : string;
  ln_api_style : option ApiStyle;
  ln_lane_count : nat;
  ln_ensure_ready : S -> S;
  ln_context_window : S -> Z;
  ln_max_output_tokens : S -> Z;
  ln_estimate_request_tokens : S -> Z;
  ln_chat : llm S (LaneResponse B);
  ln_chat_stream : llm S (ChatStream B);
}.
Arguments ln_provider_name {S B} _.
Arguments ln_model_id {S B} _.
Arguments ln_api_style {S B} _.
Arguments ln_lane_count {S B} _.
Arguments ln_ensure_ready {S B} _ _.
Arguments ln_context_window {S B} _ _.
Arguments ln_max_output_tokens {S B} _ _.
Arguments ln_estimate_request_tokens {S B} _ _.
Arguments ln_chat {S B} _ _.
Arguments ln_chat_stream {S B} _ _.

(** [LaneFailure::capture]. *)
Definition capture {S B} (lane : Lane S B) (error : ErrReport) : LaneFailure := {|
  lf_lane := lane_label (ln_provider_name lane) (ln_model_id lane) (ln_api_style lane);
  lf_error := report_chain_text error |}.

Definition clamp_u32 (x lo hi : Z) : Z := Z.max lo (Z.min hi x).

(** [route_fits_request] of [context.rs]. *)
Definition route_fits_request {S B} (lane : Lane S B) (s : S) : bool * S :=
  let s := ln_ensure_ready lane s in
  let window := ln_context_window lane s in
  let estimated := ln_estimate_request_tokens lane s in
  let margin := clamp_u32 (window / 8) 64 1024 in
  ((estimated <=? u32_saturating_sub window margin)%Z, s).

Definition flat_index (lane_counts : list nat) (slot : nat) (inner : option nat) : nat :=
  lane_offset_for_slot lane_counts slot + default 0 inner.

(** The response of slot [idx], numbered for the whole composite. *)
Definition tag_response {B} (counts : list nat) (idx : nat) (r : LaneResponse B) : LaneResponse B :=
  {| cr_provider_index := Some (flat_index counts idx (cr_provider_index r)); cr_body := cr_body r |}.

Definition tag_stream {B} (counts : list nat) (idx : nat) (stream : ChatStream B) : ChatStream B :=
  stream_with_lane_offset (lane_offset_for_slot counts idx) stream.

(** ** The chain ([failover.rs]) *)

Record ChainState := {
  cs_failures : list Z;
  cs_last_success_index : Z;
}.

(** The failure counter of a slot. *)
Definition failures_of (cs : ChainState) (idx : nat) : Z := default 0%Z (cs_failures cs !! idx).

(** The smallest value and where it first is. *)
Fixpoint min_from (best : nat * Z) (i : nat) (l : list Z) : nat * Z :=
  match l with
  | [] => best
  | x :: rest => min_from (if (x <? best.2)%Z then (i, x) else best) (S i) rest
  end.

Definition min_index (l : list Z) : option nat :=
  match l with [] => None | x :: rest => Some (min_from (0, x) 1 rest).1 end.

Definition pick_start (threshold : Z) (cs : ChainState) : nat :=
  match list_find (fun f => f < threshold)%Z (cs_failures cs) with
  | Some (i, _) => i
  | None => default 0 (min_index (cs_failures cs))
  end.

Definition record_success (idx : nat) (cs : ChainState) : ChainState := {|
  cs_failures := <[idx := 0%Z]> (cs_failures cs);
  cs_last_success_index := Z.of_nat idx mod 2 ^ 32 |}.

Definition record_failure (idx : nat) (cs : ChainState) : ChainState := {|
  cs_failures := alter (fun f => u32_add f 1) idx (cs_failures cs);
  cs_last_success_index := cs_last_success_index cs |}.

Definition report_late_failure (cs : ChainState) : ChainState :=
  record_failure (Z.to_nat (cs_last_success_index cs)) cs.

Definition new_chain (slots : nat) : ChainState :=
  {| cs_failures := repeat 0%Z slots; cs_last_success_index := 0 |}.

Section chain.
Context `{StrLower} {W B : Type}.
Local Abbreviation S := (ChainState * W)%type.
(** [tokio::time::timeout] ([None] on expiry) and the text of a number of seconds. *)
Context (timeout : forall A, Duration -> llm S A -> S -> option (outcome A) * S) (secs_text : Duration -> string).
Context (slots : list (Lane S B)) (failure_threshold : Z) (max_request_duration : option Duration).

Definition lane_counts : list nat := ln_lane_count <$> slots.

Definition with_lane_timeout {A} (provider_name : string) (fut : llm S A) : llm S A :=
  fun s =>
    match max_request_duration with
    | Some dur =>
        match timeout A dur fut s with
        | (Some result, s) => (result, s)
        | (None, s) =>
            (Fail [CLlm (with_provider provider_name (new_error Timeout ("no response after " +:+ secs_text dur +:+ "s")))], s)
        end
    | None => fut s
    end.

(** The body of a lane: [None] when the request does not fit an alternate lane. *)
Definition lane_body {A} (offset : nat) (slot : Lane S B) (request : Lane S B -> llm S A) : llm S (option A) :=
  fun s =>
    let '(fits, s) := if (0 <? offset)%nat then route_fits_request slot s else (true, s) in
    if negb fits then (Ret None, s)
    else match request slot s with
         | (Ret a, s) => (Ret (Some a), s)
         | (Fail e, s) => (Fail e, s)
         | (Panics, s) => (Panics, s)
         end.

Definition on_chain (f : ChainState -> ChainState) (s : S) : S := (f s.1, s.2).

(** The text that says why the call gives up. *)
Definition chain_verdict (fail_fast retryable : bool) : string :=
  if fail_fast then LANE_FAILED_FAIL_FAST
  else if negb retryable then LANE_FAILED_NOT_FAILOVER_WORTHY
  else LANES_EXHAUSTED.

Definition exhausted (last_error : option ErrReport) (failures : list LaneFailure) : ErrReport :=
  match last_error with
  | Some e => attribute_lane_failures e LANES_EXHAUSTED failures
  | None => [CMessage "all providers exhausted"]
  end.

(** The loop over the offsets, shared by [chat_inner] and [chat_stream]. *)
Fixpoint lane_loop {A} (policy : LlmCallPolicy) (request : Lane S B -> llm S A) (tag : nat -> A -> A) (start : nat)
    (offsets : list nat) (failures : list LaneFailure) (last_error : option ErrReport) : llm S A :=
  fun s =>
    match offsets with
    | [] => (Fail (exhausted last_error failures), s)
    | offset :: rest =>
        let idx := (start + offset) mod length slots in
        match slots !! idx with
        | None => (Panics, s)
        | Some slot =>
            if (0 <? offset)%nat && (failure_threshold <=? failures_of s.1 idx)%Z
            then lane_loop policy request tag start rest failures last_error s
            else
              match with_lane_timeout (ln_provider_name slot) (lane_body offset slot request) s with
              | (Panics, s) => (Panics, s)
              | (Ret None, s) => lane_loop policy request tag start rest failures last_error s
              | (Ret (Some response), s) => (Ret (tag idx response), on_chain (record_success idx) s)
              | (Fail e, s) =>
                  let retryable := should_failover e in
                  let s := on_chain (record_failure idx) s in
                  let failures := failures ++ [capture slot e] in
                  let fail_fast := bool_decide (policy = FailFast) in
                  if negb fail_fast && retryable && (offset + 1 <? length slots)%nat
                  then lane_loop policy request tag start rest failures (Some e) s
                  else (Fail (attribute_lane_failures e (chain_verdict fail_fast retryable) failures), s)
              end
        end
    end.

Definition chain_run {A} (policy : LlmCallPolicy) (request : Lane S B -> llm S A) (tag : nat -> A -> A) : llm S A :=
  fun s => lane_loop policy request tag (pick_start failure_threshold s.1) (seq 0 (length slots)) [] None s.

Definition chat_inner (policy : LlmCallPolicy) : llm S (LaneResponse B) := chain_run policy ln_chat (tag_response lane_counts).
Definition chat_stream (policy : LlmCallPolicy) : llm S (ChatStream B) := chain_run policy ln_chat_stream (tag_stream lane_counts).

(** The smallest window of the slots. *)
Definition min_or (dflt : Z) (l : list Z) : Z := default dflt (foldr (fun x m => Some (default x (Z.min x <$> m))) None l).
Definition context_window (s : S) : Z := min_or 32768 ((fun l => ln_context_window l s) <$> slots).
Definition max_output_tokens (s : S) : Z := min_or 4096 ((fun l => ln_max_output_tokens l s) <$> slots).
Definition provider_lane_count : nat := sum_list lane_counts.
(** ** What a call of the chain does *)

(** Calls of this chain come one after the other: its lanes leave its counters alone. *)
Record sequential {A} (request : Lane S B -> llm S A) : Prop := {
  sq_ready : forall slot s, slot ∈ slots -> (ln_ensure_ready slot s).1 = s.1;
  sq_request : forall slot s, slot ∈ slots -> (request slot s).2.1 = s.1;
  sq_timeout : forall (m : llm S (option A)) d, (forall s, (m s).2.1 = s.1) -> forall s, (timeout _ d m s).2.1 = s.1;
}.

Definition lane_attempt {A} (request : Lane S B -> llm S A) (offset : nat) (slot : Lane S B) : llm S (option A) :=
  with_lane_timeout (ln_provider_name slot) (lane_body offset slot request).

Definition idx_of (start offset : nat) : nat := (start + offset) mod length slots.

(** The counters after some lanes failed, and the failures as the error names them. *)
Definition apply_failures (tr : list (nat * ErrReport)) (cs : ChainState) : ChainState :=
  foldl (fun cs '(i, _) => record_failure i cs) cs tr.
Definition captures (tr : list (nat * ErrReport)) : list LaneFailure :=
  omap (fun '(i, e) => (fun slot => capture slot e) <$> slots !! i) tr.

Definition goes_on (policy : LlmCallPolicy) (e : ErrReport) : Prop := policy = Normal /\ should_failover e = true.

(** A lane of the trace really failed so. *)
Definition lane_failed {A} (request : Lane S B -> llm S A) (x : nat * ErrReport) : Prop :=
  exists offset slot s1 s2, slots !! x.1 = Some slot /\ lane_attempt request offset slot s1 = (Fail x.2, s2).

(** Why a lane was passed over. *)
Definition passed_over {A} (request : Lane S B -> llm S A) (start : nat) (cs : ChainState) (offset : nat) : Prop :=
  offset <> 0 /\ (failure_threshold <= failures_of cs (idx_of start offset))%Z \/
  exists slot s1 s2, slots !! idx_of start offset = Some slot /\ lane_attempt request offset slot s1 = (Ret None, s2).

(** The result [o, s'] of a call that tried the lanes of [tr] in vain. *)
Definition chain_outcome {A} (policy : LlmCallPolicy) (request : Lane S B -> llm S A) (tag : nat -> A -> A) (start : nat)
    (cs : ChainState) (tr : list (nat * ErrReport)) (o : outcome A) (s' : S) : Prop :=
  match o with
  | Panics => True
  | Ret a => Forall (fun x => goes_on policy x.2) tr /\
      exists offset slot a0 s1 s2, slots !! idx_of start offset = Some slot /\ idx_of start offset ∉ tr.*1 /\
        (offset = 0 \/ (failures_of cs (idx_of start offset) < failure_threshold)%Z) /\
        lane_attempt request offset slot s1 = (Ret (Some a0), s2) /\ a = tag (idx_of start offset) a0 /\
        s'.1 = record_success (idx_of start offset) (apply_failures tr cs)
  | Fail e =>
      s'.1 = apply_failures tr cs /\
      match last tr with
      | None => e = [CMessage "all providers exhausted"]
      | Some (_, e0) => e = attribute_lane_failures e0 (chain_verdict (bool_decide (policy = FailFast)) (should_failover e0)) (captures tr)
      end /\
      (Forall (fun x => goes_on policy x.2) tr ->
       forall offset, offset < length slots -> idx_of start offset ∈ tr.*1 \/ passed_over request start cs offset)
  end.

Lemma lane_body_quiet {A} (request : Lane S B -> llm S A) offset slot :
  sequential request -> slot ∈ slots -> forall s, (lane_body offset slot request s).2.1 = s.1.
Proof.
  intros Q Hs s. unfold lane_body.
  assert (E : forall f s0, (if (0 <? offset)%nat then route_fits_request slot s else (true, s)) = (f, s0) -> s0.1 = s.1).
  { intros f s0. case_match; [|by intros [= <- <-]]. unfold route_fits_request. intros [= <- <-]. by apply (sq_ready _ Q). }
  destruct (if (0 <? offset)%nat then _ else _) as [fits s0]. specialize (E fits s0 eq_refl). destruct fits; cbn [negb]; [|done].
  pose proof (sq_request _ Q slot s0 Hs) as Hr. destruct (request slot s0) as [[] s3]; cbn in *; congruence.
Qed.

Lemma attempt_quiet {A} (request : Lane S B -> llm S A) offset slot :
  sequential request -> slot ∈ slots -> forall s, (lane_attempt request offset slot s).2.1 = s.1.
Proof.
  intros Q Hs s. unfold lane_attempt, with_lane_timeout. destruct max_request_duration as [d|]; [|by apply lane_body_quiet].
  pose proof (sq_timeout _ Q _ d (lane_body_quiet request offset slot Q Hs) s) as Ht.
  by destruct (timeout _ _ _ _) as [[o|] s'].
Qed.

Lemma apply_failures_app tr tr' cs : apply_failures (tr ++ tr') cs = apply_failures tr' (apply_failures tr cs).
Proof. unfold apply_failures. by rewrite foldl_app. Qed.

Lemma captures_snoc tr i e slot : slots !! i = Some slot -> captures (tr ++ [(i, e)]) = captures tr ++ [capture slot e].
Proof. intros Hs. unfold captures. rewrite omap_app. cbn. by rewrite Hs. Qed.

Lemma failures_of_other tr cs i : i ∉ tr.*1 -> failures_of (apply_failures tr cs) i = failures_of cs i.
Proof.
  induction tr as [|[j e] tr IH] using rev_ind; intros Hi; [done|]. rewrite apply_failures_app. cbn.
  rewrite fmap_app, elem_of_app in Hi. cbn in Hi. unfold failures_of, record_failure at 1. cbn [cs_failures].
  rewrite list_lookup_alter_ne by (intros ->; apply Hi; right; by left). apply IH. intros Hin. apply Hi. by left.
Qed.

Lemma apply_failures_length tr cs : length (cs_failures (apply_failures tr cs)) = length (cs_failures cs).
Proof.
  unfold apply_failures. revert cs. induction tr as [|[i e] tr IH]; intros cs; [done|]. cbn. rewrite IH. cbn. by rewrite length_alter.
Qed.

Lemma failures_of_tried tr cs i :
  NoDup tr.*1 -> i ∈ tr.*1 -> i < length (cs_failures cs) -> failures_of (apply_failures tr cs) i = u32_add (failures_of cs i) 1.
Proof.
  induction tr as [|[j e] tr IH] using rev_ind; intros Hnd Hi Hlt; [by apply elem_of_nil in Hi|].
  rewrite fmap_app in Hnd, Hi. cbn in Hnd, Hi. apply NoDup_app in Hnd as (Hnd & Hdis & _). rewrite apply_failures_app. cbn.
  unfold failures_of at 1, record_failure. cbn [cs_failures]. apply elem_of_app in Hi as [Hi| ->%list_elem_of_singleton].
  - rewrite list_lookup_alter_ne by (intros ->; apply (Hdis i Hi); by left). by apply IH.
  - rewrite list_lookup_alter_eq. assert (Hj : j ∉ tr.*1) by (intros Hj; apply (Hdis j Hj); by left).
    pose proof (failures_of_other tr cs j Hj) as Ef. unfold failures_of in *.
    destruct (lookup_lt_is_Some_2 (cs_failures (apply_failures tr cs)) j) as [f Hf]; [by rewrite apply_failures_length|].
    rewrite Hf in *. cbn in *. by rewrite <- Ef.
Qed.

(** The counters after a call that tried the lanes of [tr] in vain and may have been served. *)
Definition counted (cs : ChainState) (tr : list (nat * ErrReport)) (served : option nat) (cs' : ChainState) : Prop :=
  forall i, i < length slots -> failures_of cs' i =
    if decide (served = Some i) then 0%Z
    else if decide (i ∈ tr.*1) then u32_add (failures_of cs i) 1 else failures_of cs i.

Lemma counted_failures cs tr : length (cs_failures cs) = length slots -> NoDup tr.*1 -> counted cs tr None (apply_failures tr cs).
Proof.
  intros Hlen Hnd i Hi. rewrite decide_False by done. destruct (decide (i ∈ tr.*1)); [|by apply failures_of_other].
  apply failures_of_tried; [done|done|lia].
Qed.

Lemma counted_success cs tr idx :
  length (cs_failures cs) = length slots -> NoDup tr.*1 -> counted cs tr (Some idx) (record_success idx (apply_failures tr cs)).
Proof.
  intros Hlen Hnd i Hi. unfold failures_of at 1. cbn. destruct (decide (Some idx = Some i)) as [[= <-]|Hne].
  - rewrite list_lookup_insert_eq; [done|]. rewrite apply_failures_length. lia.
  - rewrite list_lookup_insert_ne by congruence. specialize (counted_failures cs tr Hlen Hnd i Hi). rewrite decide_False by done. done.
Qed.

Lemma idx_of_inj start o o' : o < length slots -> o' < length slots -> idx_of start o = idx_of start o' -> o = o'.
Proof.
  unfold idx_of. intros Ho Ho' E. set (n := length slots) in *.
  pose proof (Nat.div_mod (start + o) n ltac:(lia)) as D1. pose proof (Nat.div_mod (start + o') n ltac:(lia)) as D2.
  rewrite E in D1. pose proof (Nat.mod_upper_bound (start + o') n ltac:(lia)) as Hb.
  set (q1 := (start + o) / n) in *. set (q2 := (start + o') / n) in *. set (r := (start + o') mod n) in *.
  assert (q1 = q2) as Eq; [|subst q1 q2; rewrite Eq in D1; lia].
  destruct (Nat.lt_trichotomy q1 q2) as [Hlt|[Heq|Hlt]]; [exfalso|done|exfalso].
  - assert (n * q1 + n <= n * q2) by nia. lia.
  - assert (n * q2 + n <= n * q1) by nia. lia.
Qed.

Lemma idx_of_lookup start o : slots <> [] -> exists slot, slots !! idx_of start o = Some slot.
Proof.
  intros Hne. apply lookup_lt_is_Some. unfold idx_of. apply Nat.mod_upper_bound. by destruct slots.
Qed.

(** The loop has dealt with the offsets below [k], and the lanes of [tr] have failed. *)
Record tried {A} (request : Lane S B -> llm S A) (start : nat) (cs : ChainState) (k : nat) (tr : list (nat * ErrReport)) (s : S) : Prop := {
  tk_state : s.1 = apply_failures tr cs;
  tk_nodup : NoDup tr.*1;
  tk_failed : Forall (lane_failed request) tr;
  tk_below : forall i, i ∈ tr.*1 -> exists j, j < k /\ i = idx_of start j;
  tk_all : forall j, j < k -> idx_of start j ∈ tr.*1 \/ passed_over request start cs j;
}.

Lemma tried_skip {A} (request : Lane S B -> llm S A) start cs k tr s s0 :
  tried request start cs k tr s -> passed_over request start cs k -> s0.1 = s.1 -> tried request start cs (1 + k) tr s0.
Proof.
  intros [Hs Hnd Hf Hin Hall] Hp Es. constructor; [congruence|done|done| |].
  - intros i Hi. destruct (Hin i Hi) as (j & ? & ?). exists j. split; [lia|done].
  - intros j Hj. destruct (decide (j = k)) as [->|]; [by right|]. apply Hall. lia.
Qed.

Lemma tried_new {A} (request : Lane S B -> llm S A) start cs k tr s :
  tried request start cs k tr s -> k < length slots -> idx_of start k ∉ tr.*1.
Proof. intros T Hk Hi. apply (tk_below _ _ _ _ _ _ T) in Hi as (j & Hj & Ej). apply idx_of_inj in Ej; lia. Qed.

Lemma tried_fail {A} (request : Lane S B -> llm S A) start cs k tr s slot e s1 :
  tried request start cs k tr s -> k < length slots -> slots !! idx_of start k = Some slot ->
  lane_attempt request k slot s = (Fail e, s1) -> s1.1 = s.1 ->
  tried request start cs (1 + k) (tr ++ [(idx_of start k, e)]) (on_chain (record_failure (idx_of start k)) s1).
Proof.
  intros T Hk Hslot Ea Hq. pose proof (tried_new _ _ _ _ _ _ T Hk) as Hnew. destruct T as [Hs Hnd Hf Hin Hall].
  constructor; rewrite ?fmap_app.
  - rewrite apply_failures_app. cbn. by rewrite Hq, Hs.
  - apply NoDup_app. split_and!; [done| |apply NoDup_singleton]. intros i Hi ->%list_elem_of_singleton. done.
  - apply Forall_app. split; [done|]. constructor; [|constructor]. by exists k, slot, s, s1.
  - intros i [Hi|Hi]%elem_of_app.
    + destruct (Hin i Hi) as (j & ? & ?). exists j. split; [lia|done].
    + apply list_elem_of_singleton in Hi as ->. exists k. split; [lia|done].
  - intros j Hj. rewrite elem_of_app. destruct (decide (j = k)) as [->|]; [left; right; by left|].
    destruct (Hall j ltac:(lia)); [by left; left|by right].
Qed.

(** Nothing is left to try. *)
Lemma tried_exhausted {A} policy (request : Lane S B -> llm S A) tag start cs tr s :
  tried request start cs (length slots) tr s -> Forall (fun x => goes_on policy x.2) tr ->
  chain_outcome policy request tag start cs tr (Fail (exhausted (snd <$> last tr) (captures tr))) s.
Proof.
  intros T Hgo. split; [apply T|]. split; [|intros _ j Hj; by apply T].
  unfold exhausted. destruct (last tr) as [[i e]|] eqn:El; [|done]. cbn.
  assert (goes_on policy e) as [-> Hfo]; [|by rewrite Hfo].
  apply last_Some in El as [l ->]. apply Forall_app in Hgo as [_ Hgo]. by inversion_clear Hgo.
Qed.

(** The loop, from offset [k] on. *)
Lemma lane_loop_spec {A} policy (request : Lane S B -> llm S A) tag start cs :
  sequential request -> forall m k tr s o s',
  k + m = length slots -> tried request start cs k tr s -> Forall (fun x => goes_on policy x.2) tr ->
  lane_loop policy request tag start (seq k m) (captures tr) (snd <$> last tr) s = (o, s') ->
  exists tr', NoDup tr'.*1 /\ Forall (lane_failed request) tr' /\ chain_outcome policy request tag start cs tr' o s'.
Proof.
  intros Q. induction m as [|m IH]; intros k tr s o s' Hk T Hgo E; cbn [seq lane_loop] in E.
  - injection E as <- <-. rewrite Nat.add_0_r in Hk. subst k. exists tr. split_and!; [apply T|apply T|by apply tried_exhausted].
  - destruct (idx_of_lookup start k) as [slot Hslot]; [intros ->; cbn in Hk; lia|].
    change ((start + k) mod length slots) with (idx_of start k) in E. rewrite Hslot in E.
    pose proof (tried_new _ _ _ _ _ _ T ltac:(lia)) as Hnew. pose proof T as [Hs Hnd Hf _ _].
    rewrite Hs, failures_of_other in E by done. destruct (_ && _) eqn:Ed.
    { apply andb_prop in Ed as [Ho%Nat.ltb_lt Ht%Z.leb_le]. apply (IH (1 + k) tr s o s'); [lia| |done|done].
      apply (tried_skip _ _ _ _ _ s); [done|left; split; [lia|done]|done]. }
    assert (Helig : k = 0 \/ (failures_of cs (idx_of start k) < failure_threshold)%Z).
    { apply andb_false_iff in Ed as [Ho%Nat.ltb_ge|Ht%Z.leb_gt]; [left; lia|by right]. }
    pose proof (attempt_quiet request k slot Q (list_elem_of_lookup_2 _ _ _ Hslot) s) as Hq.
    change (with_lane_timeout (ln_provider_name slot) (lane_body k slot request)) with (lane_attempt request k slot) in E.
    destruct (lane_attempt request k slot s) as [[[a|]|e|] s1] eqn:Ea; cbn [snd] in Hq.
    + injection E as <- <-. exists tr. split_and!; [done..|]. split; [done|]. exists k, slot, a, s, s1.
      split_and!; try done. cbn. by rewrite Hq, Hs.
    + apply (IH (1 + k) tr s1 o s'); [lia| |done|done]. apply (tried_skip _ _ _ _ _ s); [done| |done]. right. by exists slot, s, s1.
    + pose proof (tried_fail _ _ _ _ _ _ _ _ _ T ltac:(lia) Hslot Ea Hq) as T1.
      rewrite <- (captures_snoc tr _ e slot Hslot) in E. set (tr1 := tr ++ [(idx_of start k, e)]) in *.
      assert (Hlast : last tr1 = Some (idx_of start k, e)) by (unfold tr1; by rewrite last_snoc).
      destruct (negb _ && should_failover e && _) eqn:Ec.
      * apply andb_prop in Ec as [[Hp%negb_true_iff%bool_decide_eq_false Hfo]%andb_prop _].
        eapply (IH (1 + k) tr1); [lia|exact T1| |by rewrite Hlast].
        apply Forall_app. split; [done|]. constructor; [|constructor]. split; [by destruct policy|done].
      * injection E as <- <-. exists tr1. split_and!; [apply T1|apply T1|]. split; [apply T1|]. rewrite Hlast. split; [done|].
        intros Hgo1. apply Forall_app in Hgo1 as [_ Hgo1]. inversion_clear Hgo1 as [|? ? [Hn Hfo] _]. cbn in Hfo.
        intros j Hj. apply T1. rewrite Hn, Hfo in Ec. cbn in Ec. apply Nat.ltb_ge in Ec. lia.
    + injection E as <- <-. exists tr. split_and!; done.
Qed.

Lemma chain_run_spec {A} policy (request : Lane S B -> llm S A) tag s o s' :
  sequential request -> chain_run policy request tag s = (o, s') ->
  exists tr, NoDup tr.*1 /\ Forall (lane_failed request) tr /\
    chain_outcome policy request tag (pick_start failure_threshold s.1) s.1 tr o s'.
Proof.
  intros Q E. apply (lane_loop_spec policy request tag (pick_start failure_threshold s.1) s.1 Q (length slots) 0 [] s o s');
    [done| |constructor|exact E].
  constructor; [done|constructor|constructor|by intros i ?%elem_of_nil|intros j Hj; lia].
Qed.

(** ** Theorems about the chain *)


(** A lane that answers, and one that fails only in ways that allow failover. *)
Definition serves {A} (request : Lane S B -> llm S A) (slot : Lane S B) : Prop :=
  forall offset s, exists a s', lane_attempt request offset slot s = (Ret (Some a), s').
Definition well_behaved {A} (request : Lane S B -> llm S A) (slot : Lane S B) : Prop :=
  forall offset s, match (lane_attempt request offset slot s).1 with
                   | Panics => False
                   | Fail e => should_failover e = true
                   | Ret _ => True
                   end.

Lemma chain_no_panic {A} policy (request : Lane S B -> llm S A) tag start : forall m k failures last_error s,
  Forall (well_behaved request) slots -> k + m = length slots ->
  (lane_loop policy request tag start (seq k m) failures last_error s).1 <> Panics.
Proof.
  induction m as [|m IH]; intros k failures last_error s Hw Hk; cbn [seq lane_loop]; [done|].
  destruct (idx_of_lookup start k) as [slot Hslot]; [intros ->; cbn in Hk; lia|].
  change ((start + k) mod length slots) with (idx_of start k). rewrite Hslot.
  assert (Hb := proj1 (Forall_forall _ _) Hw slot (list_elem_of_lookup_2 _ _ _ Hslot) k s).
  destruct ((0 <? k)%nat && _); [apply IH; [done|lia]|]. unfold lane_attempt in Hb.
  destruct (with_lane_timeout _ _ _) as [[[a|]|e|] s1]; cbn in Hb; [done|apply IH; [done|lia]| |done].
  destruct (negb _ && _ && _); [apply IH; [done|lia]|done].
Qed.

Lemma idx_of_onto start t : t < length slots -> exists offset, offset < length slots /\ idx_of start offset = t.
Proof.
  intros Ht. set (n := length slots) in *. exists ((t + (n - start mod n)) mod n). unfold idx_of. fold n.
  split; [apply Nat.mod_upper_bound; lia|]. rewrite Nat.Div0.add_mod_idemp_r.
  pose proof (Nat.div_mod start n ltac:(lia)) as D. pose proof (Nat.mod_upper_bound start n ltac:(lia)) as Hb.
  replace (start + (t + (n - start mod n))) with (t + (1 + start / n) * n) by lia.
  rewrite Nat.Div0.mod_add. by apply Nat.mod_small.
Qed.

End chain.

(** ** The circuit breaker *)

Lemma min_from_spec l : forall best i, exists j,
  min_from best i l = best /\ Forall (fun y => best.2 <= y)%Z l \/
  l !! j = Some (min_from best i l).2 /\ (min_from best i l).1 = i + j /\
  ((min_from best i l).2 < best.2)%Z /\ Forall (fun y => (min_from best i l).2 <= y)%Z l.
Proof.
  induction l as [|x l IH]; intros best i; cbn [min_from]; [exists 0; by left|].
  destruct (Z.ltb_spec x best.2) as [Hlt|Hge].
  - destruct (IH (i, x) (S i)) as (j & [[E Hall]|(Hj & Hi & Hlt' & Hall)]).
    + exists 0. right. rewrite E. cbn. split_and!; [done|lia|done|]. constructor; [lia|done].
    + exists (S j). right. cbn in Hlt'. split_and!; [done|lia|lia|]. constructor; [lia|done].
  - destruct (IH best (S i)) as (j & [[E Hall]|(Hj & Hi & Hlt' & Hall)]).
    + exists 0. left. split; [done|]. by constructor.
    + exists (S j). right. split_and!; [done|lia|done|]. constructor; [lia|done].
Qed.

(** The preferred lane exists; it is the first that is not degraded, or, when all are, one
    with the fewest failures. *)
Lemma pick_start_spec threshold cs :
  cs_failures cs <> [] ->
  pick_start threshold cs < length (cs_failures cs) /\
  (forall i f, cs_failures cs !! i = Some f -> (f < threshold)%Z ->
     (failures_of cs (pick_start threshold cs) < threshold)%Z /\ pick_start threshold cs <= i) /\
  (Forall (fun f => threshold <= f)%Z (cs_failures cs) ->
     Forall (fun f => failures_of cs (pick_start threshold cs) <= f)%Z (cs_failures cs)).
Proof.
  intros Hne. unfold pick_start, failures_of. destruct (list_find _ _) as [[i f]|] eqn:E.
  - apply list_find_Some in E as (Hi & Hlt & Hbefore). apply lookup_lt_Some in Hi as Hb. rewrite Hi. cbn. split_and!; [done| |].
    + intros j g Hj Hg. split; [done|]. destruct (Nat.le_gt_cases i j); [done|]. by destruct (Hbefore j g Hj).
    + intros Hall. eapply Forall_forall in Hall; [|by eapply list_elem_of_lookup_2]. cbn in Hall. lia.
  - apply list_find_None in E. unfold min_index. destruct (cs_failures cs) as [|x rest] eqn:Ec; [done|]. cbn [default].
    destruct (min_from_spec rest (0, x) 1) as (j & [[Em Hall]|(Hj & Hi & Hlt & Hall)]).
    + rewrite Em. cbn. split_and!; [lia| |].
      * intros i f Hi Hf. exfalso. eapply Forall_forall in E; [|eapply list_elem_of_lookup_2; exact Hi]. done.
      * intros _. constructor; [lia|done].
    + rewrite Hi. change (id (1 + j)) with (1 + j). change ((x :: rest) !! (1 + j)) with (rest !! j). rewrite Hj. cbn [length default]. apply lookup_lt_Some in Hj as Hb. split_and!; [lia| |].
      * intros i f Hi' Hf. exfalso. eapply Forall_forall in E; [|eapply list_elem_of_lookup_2; exact Hi']. done.
      * intros _. unfold default, id. constructor; [cbn in Hlt |- *; lia|done].
Qed.

(** ** Samples *)

(** A timeout that never expires, a lane that fails and one that answers. *)
Definition no_expiry (A : Type) (d : Duration) (m : llm (ChainState * unit) A) (s : ChainState * unit)
    : option (outcome A) * (ChainState * unit) := let '(o, s) := m s in (Some o, s).

Definition demo_lane (name : string) (chat : llm (ChainState * unit) (LaneResponse string)) : Lane (ChainState * unit) string := {|
  ln_provider_name := name; ln_model_id := "model"; ln_api_style := None; ln_lane_count := 1;
  ln_ensure_ready := id; ln_context_window := fun _ => 100000%Z; ln_max_output_tokens := fun _ => 4096%Z;
  ln_estimate_request_tokens := fun _ => 1000%Z; ln_chat := chat;
  ln_chat_stream := fun s => (Fail [CMessage "no stream"], s) |}.

Definition demo_slots : list (Lane (ChainState * unit) string) :=
  [demo_lane "down" (fun s => (Fail [CLlm (new_error Network "reset")], s));
   demo_lane "up" (fun s => (Ret {| cr_provider_index := None; cr_body := "hello" |}, s))].

Lemma demo_sequential : sequential no_expiry demo_slots ln_chat.
Proof.
  constructor.
  - intros slot s Hs. unfold demo_slots in Hs. repeat (apply elem_of_cons in Hs as [->|Hs]; [done|]). by apply elem_of_nil in Hs.
  - intros slot s Hs. unfold demo_slots in Hs. repeat (apply elem_of_cons in Hs as [->|Hs]; [done|]). by apply elem_of_nil in Hs.
  - intros m d Hm s. unfold no_expiry. specialize (Hm s). by destruct (m s).
Qed.


