(* ===== verification/Routing.v ===== *)
(** * Fallbacks and the provider router

    [crates/octos-llm/src/fallback.rs] and [router.rs].  The registry of a router is a record
    of maps over an arbitrary type of providers; the iteration order of its hash maps is the
    parameter [HashIter], instants are arguments.  The order [sort_by] gives to scores that are
    not a number is unspecified in Rust; the model puts them anywhere. *)
From S2P Require Import Prelude RustStr RustNum Host Models LlmError Retry Failover.
From Stdlib Require Import SpecFloat.
Open Scope octos_scope.

(** ** The provider with fallbacks ([fallback.rs]) *)

Section fallback.
Context `{StrLower} {S B : Type}.
(** [router.record_failure], when a router is attached. *)
Context (record : option (string -> S -> S)) (primary : Lane S B) (fallbacks : list (Lane S B)).

Definition cool (model_id : string) (s : S) : S := match record with Some f => f model_id s | None => s end.

Definition fallback_lane_counts : list nat := ln_lane_count primary :: (ln_lane_count <$> fallbacks).

Definition slot_provider_ref (slot : nat) : Lane S B :=
  match slot with O => primary | Datatypes.S index => default primary (fallbacks !! index) end.

(** The loop over the fallbacks from the [i]-th on, after the primary failed with [primary_err]. *)
Fixpoint fallback_loop {A} (request : Lane S B -> llm S A) (tag : nat -> A -> A) (primary_err : ErrReport) (i : nat)
    (fbs : list (Lane S B)) (failures : list LaneFailure) : llm S A :=
  fun s =>
    match fbs with
    | [] => (Fail (attribute_lane_failures primary_err LANES_EXHAUSTED failures), s)
    | fb :: rest =>
        let '(fits, s) := route_fits_request fb s in
        if negb fits then fallback_loop request tag primary_err (i + 1) rest failures s
        else match request fb s with
             | (Panics, s) => (Panics, s)
             | (Ret a, s) => (Ret (tag (i + 1) a), s)
             | (Fail e, s) =>
                 fallback_loop request tag primary_err (i + 1) rest (failures ++ [capture fb e]) (cool (ln_model_id fb) s)
             end
    end.

Definition fallback_run {A} (policy : LlmCallPolicy) (request : Lane S B -> llm S A) (tag : nat -> A -> A) : llm S A :=
  fun s =>
    match request primary s with
    | (Panics, s) => (Panics, s)
    | (Ret a, s) => (Ret (tag 0 a), s)
    | (Fail primary_err, s) =>
        let failures := [capture primary primary_err] in
        if bool_decide (policy = FailFast)
        then (Fail (attribute_lane_failures primary_err LANE_FAILED_FAIL_FAST failures), s)
        else if negb (should_failover primary_err)
        then (Fail (attribute_lane_failures primary_err LANE_FAILED_NOT_FAILOVER_WORTHY failures), s)
        else fallback_loop request tag primary_err 0 fallbacks failures (cool (ln_model_id primary) s)
    end.

Definition fallback_chat (policy : LlmCallPolicy) : llm S (LaneResponse B) :=
  fallback_run policy ln_chat (tag_response fallback_lane_counts).
Definition fallback_chat_stream (policy : LlmCallPolicy) : llm S (ChatStream B) :=
  fallback_run policy ln_chat_stream (tag_stream fallback_lane_counts).

(** *** Lemmas *)

(** A fallback that fits and answers, and one that does not panic. *)
Definition answers {A} (request : Lane S B -> llm S A) (fb : Lane S B) : Prop :=
  forall s, (route_fits_request fb s).1 = true /\ exists a s', request fb s = (Ret a, s').
Definition never_panics {A} (request : Lane S B -> llm S A) (fb : Lane S B) : Prop :=
  forall s, (request fb s).1 <> Panics.

(** The loop ends with the response of a fallback that fits, or with the primary's error under
    a text that starts with the failures so far. *)
Lemma fallback_loop_spec {A} (request : Lane S B -> llm S A) tag err fbs : forall i failures s,
  match fallback_loop request tag err i fbs failures s with
  | (Ret a, s') => exists j fb s1 s2 a0, fbs !! j = Some fb /\ (route_fits_request fb s1).1 = true /\
      request fb (route_fits_request fb s1).2 = (Ret a0, s2) /\ a = tag (i + j + 1) a0 /\ s' = s2
  | (Fail e, s') => exists more, e = attribute_lane_failures err LANES_EXHAUSTED (failures ++ more)
  | (Panics, s') => exists fb, fb ∈ fbs /\ ~ never_panics request fb
  end.
Proof.
  induction fbs as [|fb fbs IH]; intros i failures s; cbn [fallback_loop]; [exists []; by rewrite app_nil_r|].
  assert (Hshift : forall failures0 s0,
    match fallback_loop request tag err (i + 1) fbs failures0 s0 with
    | (Ret a, s') => exists j fb0 s1 s2 a0, (fb :: fbs) !! j = Some fb0 /\ (route_fits_request fb0 s1).1 = true /\
        request fb0 (route_fits_request fb0 s1).2 = (Ret a0, s2) /\ a = tag (i + j + 1) a0 /\ s' = s2
    | (Fail e, s') => exists more, e = attribute_lane_failures err LANES_EXHAUSTED (failures0 ++ more)
    | (Panics, s') => exists fb0, fb0 ∈ fb :: fbs /\ ~ never_panics request fb0
    end).
  { intros failures0 s0. specialize (IH (i + 1) failures0 s0). destruct (fallback_loop _ _ _ _ _ _ _) as [[a|e|] s'].
    - destruct IH as (j & fb0 & s1 & s2 & a0 & Hj & Hfit & Hreq & -> & ->). exists (Datatypes.S j), fb0, s1, s2, a0.
      replace (i + 1 + j + 1) with (i + Datatypes.S j + 1) by lia. done.
    - done.
    - destruct IH as (fb0 & Hin & Hp). exists fb0. split; [by right|done]. }
  destruct (route_fits_request fb s) as [fits s0] eqn:Ef. destruct fits; cbn [negb]; [|apply Hshift].
  destruct (request fb s0) as [[a|e|] s1] eqn:Er.
  - exists 0, fb, s, s1, a. rewrite Ef. cbn. replace (i + 0 + 1) with (i + 1) by lia. done.
  - specialize (Hshift (failures ++ [capture fb e]) (cool (ln_model_id fb) s1)).
    destruct (fallback_loop _ _ _ _ _ _ _) as [[a|e'|] s']; [done| |done].
    destruct Hshift as [more ->]. exists (capture fb e :: more). by rewrite <- app_assoc.
  - exists fb. split; [by left|]. intros Hnp. apply (Hnp s0). by rewrite Er.
Qed.

Lemma fallback_loop_answers {A} (request : Lane S B -> llm S A) tag err fbs : forall i failures s fb,
  fb ∈ fbs -> answers request fb -> Forall (never_panics request) fbs ->
  exists a s', fallback_loop request tag err i fbs failures s = (Ret a, s').
Proof.
  induction fbs as [|fb0 fbs IH]; intros i failures s fb Hin Ha Hnp; [by apply elem_of_nil in Hin|]. cbn [fallback_loop].
  inversion_clear Hnp as [|? ? Hnp0 Hnp1].
  destruct (route_fits_request fb0 s) as [fits s0] eqn:Ef. apply elem_of_cons in Hin as [->|Hin].
  - destruct (Ha s) as [Hfit _]. rewrite Ef in Hfit. cbn in Hfit. subst fits. cbn [negb].
    destruct (Ha s0) as [_ (a & s' & ->)]. eauto.
  - destruct fits; cbn [negb]; [|by eapply IH]. specialize (Hnp0 s0).
    destruct (request fb0 s0) as [[a|e|] s1]; [by eauto|by eapply IH|done].
Qed.

End fallback.

(** ** The router ([router.rs]) *)

Record SubProviderMeta := {
  sm_key : string;
  sm_model_id : string;
  sm_provider_name : string;
  sm_context_window : Z;
  sm_max_output_tokens : Z;
  sm_cost_info : option string;
  sm_description : option string;
  sm_default_context_window : option Z;
}.

Record ProviderRouter (P : Type) := {
  pr_providers : gmap string P;
  pr_active_key : option string;
  pr_metadata : gmap string SubProviderMeta;
  pr_cooldowns : gmap string Z;
  pr_cooldown_duration : Duration;
  pr_qos_scores : gmap string f64;
}.
Arguments pr_providers {P} _.
Arguments pr_active_key {P} _.
Arguments pr_metadata {P} _.
Arguments pr_cooldowns {P} _.
Arguments pr_cooldown_duration {P} _.
Arguments pr_qos_scores {P} _.

Section router.
Context `{HashIter} {P : Type}.
(** What registration asks a provider, and the text of its price. *)
Context (model_id provider_name : P -> string) (context_window max_output_tokens : P -> Z)
  (cost_info : string -> option string).

Definition new_router : ProviderRouter P := {|
  pr_providers := ∅; pr_active_key := None; pr_metadata := ∅; pr_cooldowns := ∅;
  pr_cooldown_duration := from_secs 60; pr_qos_scores := ∅ |}.

Definition set_registry (providers : gmap string P) (active : option string) (metadata : gmap string SubProviderMeta)
    (r : ProviderRouter P) : ProviderRouter P := {|
  pr_providers := providers; pr_active_key := active; pr_metadata := metadata; pr_cooldowns := pr_cooldowns r;
  pr_cooldown_duration := pr_cooldown_duration r; pr_qos_scores := pr_qos_scores r |}.

Definition register (key : string) (provider : P) (r : ProviderRouter P) : ProviderRouter P :=
  set_registry (<[key := provider]> (pr_providers r))
    (if bool_decide (pr_providers r = ∅) then Some key else pr_active_key r) (pr_metadata r) r.

Definition remove (key : string) (r : ProviderRouter P) : ProviderRouter P :=
  set_registry (delete key (pr_providers r)) (pr_active_key r) (pr_metadata r) r.

Definition set_active (key : string) (r : ProviderRouter P) : ProviderRouter P :=
  set_registry (pr_providers r) (Some key) (pr_metadata r) r.

Definition register_with_full_meta (key : string) (provider : P) (description : option string)
    (default_context_window max_output_tokens_override : option Z) (r : ProviderRouter P) : ProviderRouter P :=
  let meta := {|
    sm_key := key; sm_model_id := model_id provider; sm_provider_name := provider_name provider;
    sm_context_window := context_window provider;
    sm_max_output_tokens := default (max_output_tokens provider) max_output_tokens_override;
    sm_cost_info := cost_info (model_id provider); sm_description := description;
    sm_default_context_window := default_context_window |} in
  register key provider (set_registry (pr_providers r) (pr_active_key r) (<[key := meta]> (pr_metadata r)) r).

Definition register_with_meta (key : string) (provider : P) (description : option string)
    (default_context_window : option Z) (r : ProviderRouter P) : ProviderRouter P :=
  register_with_full_meta key provider description default_context_window None r.

(** The part of a key before the first slash, or the key. *)
Definition prefix_key (key : string) : string := match split_once "/" key with Some (k, _) => k | None => key end.

(** The first provider of the iteration whose key satisfies a test. *)
Definition first_with (test : string -> bool) (providers : gmap string P) : option P :=
  snd <$> (snd <$> list_find (fun kv => test kv.1 = true) (hm_iter providers)).

(** [resolve]; [None] is the error that no provider is registered for the key. *)
Definition router_resolve (r : ProviderRouter P) (prefixed_model : string) : option P :=
  let providers := pr_providers r in
  match providers !! prefixed_model with
  | Some p => Some p
  | None =>
      match first_with (fun key => eq_ignore_ascii_case key prefixed_model) providers with
      | Some p => Some p
      | None =>
          match providers !! prefix_key prefixed_model with
          | Some p => Some p
          | None => first_with (fun key => ends_with prefixed_model key || ends_with key prefixed_model) providers
          end
      end
  end.

Definition router_record_failure (now : Z) (key : string) (r : ProviderRouter P) : ProviderRouter P := {|
  pr_providers := pr_providers r; pr_active_key := pr_active_key r; pr_metadata := pr_metadata r;
  pr_cooldowns := <[key := now]> (pr_cooldowns r); pr_cooldown_duration := pr_cooldown_duration r;
  pr_qos_scores := pr_qos_scores r |}.

(** [Instant::elapsed] is zero for an instant to come. *)
Definition router_is_cooled_down (now : Z) (r : ProviderRouter P) (key : string) : bool :=
  match pr_cooldowns r !! key with
  | Some failed_at => (Z.max 0 (now - failed_at) <? pr_cooldown_duration r)%Z
  | None => false
  end.

Definition seed_score (scores : gmap string f64) (entry : string * f64) : gmap string f64 :=
  let scores := <[entry.1 := entry.2]> scores in
  match split_once "/" entry.1 with
  | Some (_, model) => <[model := entry.2]> scores
  | None => scores
  end.

Definition seed_qos_scores (entries : list (string * f64)) (r : ProviderRouter P) : ProviderRouter P := {|
  pr_providers := pr_providers r; pr_active_key := pr_active_key r; pr_metadata := pr_metadata r;
  pr_cooldowns := pr_cooldowns r; pr_cooldown_duration := pr_cooldown_duration r;
  pr_qos_scores := foldl seed_score (pr_qos_scores r) entries |}.

Definition resolved_key (r : ProviderRouter P) (key : string) : string :=
  if bool_decide (is_Some (pr_metadata r !! key)) then key else prefix_key key.

Definition min_output (r : ProviderRouter P) (key : string) : Z :=
  default 0%Z (sm_max_output_tokens <$> pr_metadata r !! resolved_key r key).

Definition eligible (now : Z) (r : ProviderRouter P) (key : string) (kv : string * SubProviderMeta) : bool :=
  negb (bool_decide (kv.1 = resolved_key r key)) && (min_output r key <=? sm_max_output_tokens kv.2)%Z
  && negb (router_is_cooled_down now r kv.1).

Definition score_of (r : ProviderRouter P) (k : string) : f64 := default f64_zero (pr_qos_scores r !! k).

(** [partial_cmp] of two scores does not say greater. *)
Definition score_le (a b : string * f64) : bool := negb (f64_lt b.2 a.2).

Definition fallback_keys (now : Z) (r : ProviderRouter P) (key : string) : list (string * f64) :=
  sort_by score_le
    ((fun kv => (kv.1, score_of r kv.1)) <$> filter (fun kv => eligible now r key kv = true) (hm_iter (pr_metadata r))).

Definition compatible_fallbacks (now : Z) (r : ProviderRouter P) (key : string) : list P :=
  omap (fun kv => pr_providers r !! kv.1) (fallback_keys now r key).

Definition active_provider (r : ProviderRouter P) : option P := pr_active_key r ≫= fun key => pr_providers r !! key.

(** *** Lemmas *)

Lemma fallback_keys_elem now r key k x :
  (k, x) ∈ fallback_keys now r key <->
  x = score_of r k /\ exists meta, pr_metadata r !! k = Some meta /\ k <> resolved_key r key /\
    (min_output r key <= sm_max_output_tokens meta)%Z /\ router_is_cooled_down now r k = false.
Proof.
  unfold fallback_keys. rewrite elem_of_sort_by, list_elem_of_fmap. split.
  - intros ([k0 meta] & [= -> ->] & [He Hin]%list_elem_of_filter). rewrite hm_iter_perm, elem_of_map_to_list in Hin.
    unfold eligible in He. cbn in He. apply andb_prop in He as [[Hk%negb_true_iff%bool_decide_eq_false Hm%Z.leb_le]%andb_prop Hc%negb_true_iff].
    split; [done|]. exists meta. done.
  - intros (-> & meta & Hm & Hk & Hle & Hc). exists (k, meta). split; [done|]. apply list_elem_of_filter. split.
    + unfold eligible. cbn. rewrite bool_decide_false, Hc by done. apply Z.leb_le in Hle. by rewrite Hle.
    + rewrite hm_iter_perm. by apply elem_of_map_to_list.
Qed.

Lemma compatible_fallbacks_elem now r key p :
  p ∈ compatible_fallbacks now r key <->
  exists k meta, pr_providers r !! k = Some p /\ pr_metadata r !! k = Some meta /\ k <> resolved_key r key /\
    (min_output r key <= sm_max_output_tokens meta)%Z /\ router_is_cooled_down now r k = false.
Proof.
  unfold compatible_fallbacks. rewrite list_elem_of_omap. split.
  - intros ([k x] & Hin & Hp). apply fallback_keys_elem in Hin as (_ & meta & ? & ? & ? & ?). exists k, meta. done.
  - intros (k & meta & Hp & Hm & Hk & Hle & Hc). exists (k, score_of r k). split; [|done].
    apply fallback_keys_elem. split; [done|]. exists meta. done.
Qed.
End router.

(** ** Theorems about the router *)

(** The fallbacks offered for a key are exactly the registered providers other than its own
    whose output capacity is large enough and that are not in cooldown; a key whose failure was
    recorded less than a minute ago is not among them, and other keys are as before. *)
Lemma router_fallbacks `{HashIter} {P} (r : ProviderRouter P) now t failed key :
  pr_cooldown_duration r = from_secs 60 ->
  let r' := router_record_failure t failed r in
  (forall p, p ∈ compatible_fallbacks now r' key <->
     exists k meta, pr_providers r !! k = Some p /\ pr_metadata r !! k = Some meta /\ k <> resolved_key r key /\
       (min_output r key <= sm_max_output_tokens meta)%Z /\ router_is_cooled_down now r' k = false) /\
  (router_is_cooled_down now r' failed = true <-> (now < t + from_secs 60)%Z) /\
  (forall k, k <> failed -> router_is_cooled_down now r' k = router_is_cooled_down now r k).
Proof.
  intros Hd r'. split_and!.
  - intros p. exact (compatible_fallbacks_elem now r' key p).
  - unfold router_is_cooled_down, r'. cbn. rewrite lookup_insert_eq, Hd, Z.ltb_lt. unfold from_secs. lia.
  - intros k Hk. unfold router_is_cooled_down, r'. cbn. by rewrite lookup_insert_ne.
Qed.

(** An exact key is resolved to its provider whatever the order of the map. *)
Lemma router_resolve_exact `{HashIter} {P} (r : ProviderRouter P) key p :
  pr_providers r !! key = Some p -> router_resolve r key = Some p.
Proof. intros E. unfold router_resolve. by rewrite E. Qed.

(** *** Samples *)

Definition sample_lane (name model : string) : Lane (ProviderRouter string) string := {|
  ln_provider_name := name; ln_model_id := model; ln_api_style := None; ln_lane_count := 1;
  ln_ensure_ready := id; ln_context_window := fun _ => 100000%Z; ln_max_output_tokens := fun _ => 4096%Z;
  ln_estimate_request_tokens := fun _ => 1000%Z;
  ln_chat := fun s => (Fail [CLlm (new_error Network "reset")], s);
  ln_chat_stream := fun s => (Fail [CLlm (new_error Network "reset")], s) |}.

(** Two models under the keys an operator gave them. *)
Definition sample_router : ProviderRouter string :=
  let reg k m := register_with_full_meta id id (fun _ => 100000%Z) (fun _ => 4096%Z) (fun _ => None) k m None None None in
  reg "cheap" "small-model" (reg "strong" "large-model" new_router).

(** A failure is recorded under the model of the provider and looked up under the key it is
    registered with: when the two differ, the failed provider is offered again at once. *)
Lemma cooldown_by_model_is_lost :
  let run := fallback_chat (H := ascii_lowercase) (Some (router_record_failure 0)) (sample_lane "p" "small-model")
               [sample_lane "p" "large-model"] Normal sample_router in
  pr_cooldowns run.2 !! "small-model" = Some 0%Z /\
  compatible_fallbacks 1 run.2 "strong" = ["small-model"].
Proof. split; by vm_compute. Qed.

(** A key that matches only up to case is resolved by whichever entry the map yields first. *)
Lemma resolve_depends_on_order :
  let r := register "GPT" 1 (register "gpt" 2 (new_router (P := nat))) in
  router_resolve (H := tree_iter) r "Gpt" <> router_resolve (H := rev_iter) r "Gpt".
Proof. by vm_compute. Qed.
