(* ===== verification/Credentials.v ===== *)
(** * The credential pool

    [crates/octos-llm/src/credential_pool.rs]: the redb-backed pool that hands out API keys by
    a rotation strategy and cools down the ones that fail.  Every operation holds the mutex of
    the pool, so it is one step; [mark_auth_failure] releases it while it refreshes a token and
    is two steps.  The clock, the outcome of a refresh and whether a write to the database
    commits are arguments.  Logs and metrics are left out; the rotation event is part of the
    result of [acquire]. *)
From S2P Require Import Prelude RustStr RustNum Host LlmError.
Open Scope octos_scope.

(** ** Data *)

Definition CREDENTIAL_POOL_SCHEMA_VERSION : Z := 1.

Record Credential := { cd_id : string; cd_secret : string }.

Record CredentialState := {
  st_schema_version : Z;
  st_id : string;
  st_cooldown_until_us : Z;
  st_rate_limit_count : Z;
  st_reset_at_us : Z;
  st_last_used_us : Z;
  st_usage_count : Z;
  st_reserved_until_us : Z;
}.

Definition FILL_FIRST_RESERVATION_US : Z := 5 * 1000000.
Definition DEFAULT_COOLDOWN_US : Z := 60 * 1000000.

Definition new_state (id : string) : CredentialState := {|
  st_schema_version := CREDENTIAL_POOL_SCHEMA_VERSION; st_id := id; st_cooldown_until_us := 0; st_rate_limit_count := 0;
  st_reset_at_us := 0; st_last_used_us := 0; st_usage_count := 0; st_reserved_until_us := 0 |}.

Definition is_cooled_down (st : CredentialState) (now : Z) : bool := (now <? st_cooldown_until_us st)%Z.
Definition is_reserved (st : CredentialState) (now : Z) : bool := (now <? st_reserved_until_us st)%Z.

Inductive RotationStrategy := FillFirst | RoundRobin | Random | LeastUsed.

Definition as_metric_label (s : RotationStrategy) : string :=
  match s with FillFirst => "fill_first" | RoundRobin => "round_robin" | Random => "random" | LeastUsed => "least_used" end.

Record CredentialRotationEvent := {
  ev_schema : string;
  ev_kind : string;
  ev_credential_id : string;
  ev_reason : string;
  ev_strategy : string;
}.

Definition rotation_event (credential_id reason : string) (strategy : RotationStrategy) : CredentialRotationEvent := {|
  ev_schema := "octos.harness.event.v1"; ev_kind := "credential_rotation"; ev_credential_id := credential_id;
  ev_reason := reason; ev_strategy := as_metric_label strategy |}.

(** The two tables.  A row is what its JSON decodes to; [None] is a row that does not. *)
Record PoolDb := { pd_states : gmap string (option CredentialState); pd_cursors : gmap string Z }.

(** [PersistentCredentialPool] with its [PoolInner]. *)
Record Pool := {
  po_name : string;
  po_strategy : RotationStrategy;
  po_default_cooldown_us : Z;
  po_db : PoolDb;
  po_credentials : list Credential;
  po_state : gmap string CredentialState;
  po_last_refresh_error_id : option Z;
  po_rng_state : Z;
  po_cursor : Z;
}.

Definition set_pool (db : PoolDb) (credentials : list Credential) (state : gmap string CredentialState) (last : option Z)
    (rng cursor : Z) (p : Pool) : Pool := {|
  po_name := po_name p; po_strategy := po_strategy p; po_default_cooldown_us := po_default_cooldown_us p; po_db := db;
  po_credentials := credentials; po_state := state; po_last_refresh_error_id := last; po_rng_state := rng; po_cursor := cursor |}.

Definition with_states (db : PoolDb) (state : gmap string CredentialState) (p : Pool) : Pool :=
  set_pool db (po_credentials p) state (po_last_refresh_error_id p) (po_rng_state p) (po_cursor p) p.

(** The row of an id, or a new one. *)
Definition state_of (p : Pool) (id : string) : CredentialState := default (new_state id) (po_state p !! id).

(** What is written of a row: the reservation is skipped. *)
Definition persisted (st : CredentialState) : CredentialState := {|
  st_schema_version := st_schema_version st; st_id := st_id st; st_cooldown_until_us := st_cooldown_until_us st;
  st_rate_limit_count := st_rate_limit_count st; st_reset_at_us := st_reset_at_us st; st_last_used_us := st_last_used_us st;
  st_usage_count := st_usage_count st; st_reserved_until_us := 0 |}.

Definition persist_state (st : CredentialState) (db : PoolDb) : PoolDb :=
  {| pd_states := <[st_id st := Some (persisted st)]> (pd_states db); pd_cursors := pd_cursors db |}.

Definition persist_cursor (name : string) (cursor : Z) (db : PoolDb) : PoolDb :=
  {| pd_states := pd_states db; pd_cursors := <[name := cursor]> (pd_cursors db) |}.

(** ** Opening *)

Definition load_states (db : PoolDb) : gmap string CredentialState := omap id (pd_states db).

(** A row for a credential that has none. *)
Definition backfill (st : gmap string CredentialState * PoolDb) (c : Credential) : gmap string CredentialState * PoolDb :=
  match st.1 !! cd_id c with
  | Some _ => st
  | None => (<[cd_id c := new_state (cd_id c)]> st.1, persist_state (new_state (cd_id c)) st.2)
  end.

Definition wrap_u64 (x : Z) : Z := x mod 2 ^ 64.

Fixpoint fnv (h : Z) (s : string) : Z :=
  match s with
  | "" => h
  | String b rest => fnv (wrap_u64 (Z.lxor h (Z.of_N (byte_val b)) * 1099511628211)) rest
  end.

Definition pool_seed (name : string) (now : Z) : Z := Z.lor (Z.lxor (fnv 14695981039346656037 name) now) 1.

Definition open_pool (name : string) (credentials : list Credential) (strategy : RotationStrategy) (default_cooldown_us now : Z)
    (db : PoolDb) : result report Pool :=
  match credentials with
  | [] => Err ["credential pool `" +:+ name +:+ "` requires at least one credential"]
  | _ =>
      let '(state, db') := foldl backfill (load_states db, db) credentials in
      Ok {| po_name := name; po_strategy := strategy; po_default_cooldown_us := default_cooldown_us; po_db := db';
            po_credentials := credentials; po_state := state; po_last_refresh_error_id := None;
            po_rng_state := pool_seed name now; po_cursor := default 0%Z (pd_cursors db !! name) |}
  end.

(** ** Selection *)

Definition reserve (now : Z) (st : CredentialState) : CredentialState := {|
  st_schema_version := st_schema_version st; st_id := st_id st; st_cooldown_until_us := st_cooldown_until_us st;
  st_rate_limit_count := st_rate_limit_count st; st_reset_at_us := st_reset_at_us st; st_last_used_us := now;
  st_usage_count := st_usage_count st; st_reserved_until_us := Z.min u64_max (now + FILL_FIRST_RESERVATION_US) |}.

Definition select_fill_first (now : Z) (p : Pool) : option (string * Pool) :=
  match list_find (fun c => negb (is_cooled_down (state_of p (cd_id c)) now || is_reserved (state_of p (cd_id c)) now) = true)
          (po_credentials p) with
  | Some (_, c) =>
      Some (cd_id c, with_states (po_db p) (<[cd_id c := reserve now (state_of p (cd_id c))]> (po_state p)) p)
  | None => None
  end.

(** The steps from [step] on, [n] of them. *)
Fixpoint round_robin_loop (now : Z) (p : Pool) (n : nat) (step : Z) : option (string * Z) :=
  match n with
  | O => None
  | S n =>
      let len := Z.of_nat (length (po_credentials p)) in
      match po_credentials p !! Z.to_nat (wrap_u64 (po_cursor p + step) mod len) with
      | None => None
      | Some c =>
          if negb (is_cooled_down (state_of p (cd_id c)) now) then Some (cd_id c, (wrap_u64 (po_cursor p + step + 1) mod len)%Z)
          else round_robin_loop now p n (step + 1)
      end
  end.

Definition select_round_robin (now : Z) (cursor_commits : bool) (p : Pool) : option (string * Pool) :=
  match round_robin_loop now p (length (po_credentials p)) 0 with
  | Some (id, next_cursor) =>
      Some (id, set_pool (if cursor_commits then persist_cursor (po_name p) next_cursor (po_db p) else po_db p)
                  (po_credentials p) (po_state p) (po_last_refresh_error_id p) (po_rng_state p) next_cursor p)
  | None => None
  end.

Definition available (now : Z) (p : Pool) : list Credential :=
  filter (fun c => is_cooled_down (state_of p (cd_id c)) now = false) (po_credentials p).

Definition lcg (x : Z) : Z := wrap_u64 (x * 6364136223846793005 + 1442695040888963407).

Definition select_random (now : Z) (p : Pool) : option (string * Pool) :=
  match available now p with
  | [] => None
  | avail =>
      let rng_next := lcg (po_rng_state p) in
      c ← avail !! Z.to_nat (rng_next mod Z.of_nat (length avail));
      Some (cd_id c, set_pool (po_db p) (po_credentials p) (po_state p) (po_last_refresh_error_id p) rng_next (po_cursor p) p)
  end.

(** The better of the best so far and a candidate. *)
Definition less_used (p : Pool) (best : option Credential) (c : Credential) : option Credential :=
  match best with
  | None => Some c
  | Some b =>
      let sb := state_of p (cd_id b) in
      let sc := state_of p (cd_id c) in
      if ((st_usage_count sc <? st_usage_count sb)
          || (st_usage_count sc =? st_usage_count sb) && (st_last_used_us sc <? st_last_used_us sb))%Z
      then Some c else Some b
  end.

Definition select_least_used (now : Z) (p : Pool) : option (string * Pool) :=
  c ← foldl (less_used p) None (available now p); Some (cd_id c, p).

Definition select_credential (now : Z) (cursor_commits : bool) (p : Pool) : option (string * Pool) :=
  match po_strategy p with
  | FillFirst => select_fill_first now p
  | RoundRobin => select_round_robin now cursor_commits p
  | Random => select_random now p
  | LeastUsed => select_least_used now p
  end.

(** ** Operations *)

Definition has_credential (p : Pool) (id : string) : bool := existsb (fun c => bool_decide (cd_id c = id)) (po_credentials p).

Definition acquire_credential (reason : string) (now : Z) (cursor_commits : bool) (p : Pool)
    : result report (Credential * CredentialRotationEvent) * Pool :=
  match select_credential now cursor_commits p with
  | None => (Err ["all credentials in pool `" +:+ po_name p +:+ "` are cooled down"], p)
  | Some (selected_id, p') =>
      match list_find (fun c => cd_id c = selected_id) (po_credentials p') with
      | Some (_, cred) => (Ok (cred, rotation_event (cd_id cred) reason (po_strategy p)), p')
      | None => (Err ["selected credential `" +:+ selected_id +:+ "` not found"], p')
      end
  end.

(** Write the row of an id in memory, then to the database, unless that fails. *)
Definition put_state (st : CredentialState) (id : string) (commits : bool) (p : Pool) : result report unit * Pool :=
  if commits then (Ok tt, with_states (persist_state st (po_db p)) (<[id := st]> (po_state p)) p)
  else (Err ["write failed"], with_states (po_db p) (<[id := st]> (po_state p)) p).

Definition u64_sat_add (a b : Z) : Z := Z.min u64_max (a + b).

Definition cooldown_target (default_cooldown_us : Z) (reset_at_us : option Z) (now : Z) : Z :=
  match reset_at_us with
  | Some target => if (now <? target)%Z then target else u64_sat_add now default_cooldown_us
  | None => u64_sat_add now default_cooldown_us
  end.

Definition rate_limited (default_cooldown_us : Z) (reset_at_us : option Z) (now : Z) (st : CredentialState) : CredentialState := {|
  st_schema_version := st_schema_version st; st_id := st_id st;
  st_cooldown_until_us := cooldown_target default_cooldown_us reset_at_us now;
  st_rate_limit_count := u64_sat_add (st_rate_limit_count st) 1; st_reset_at_us := default 0%Z reset_at_us;
  st_last_used_us := st_last_used_us st; st_usage_count := st_usage_count st; st_reserved_until_us := st_reserved_until_us st |}.

Definition not_in_pool (p : Pool) (id : string) : report := ["credential `" +:+ id +:+ "` not in pool `" +:+ po_name p +:+ "`"].

Definition mark_rate_limited (id : string) (reset_at_us : option Z) (now : Z) (commits : bool) (p : Pool) : result report unit * Pool :=
  if negb (has_credential p id) then (Err (not_in_pool p id), p)
  else put_state (rate_limited (po_default_cooldown_us p) reset_at_us now (state_of p id)) id commits p.

(** The first step of [mark_auth_failure]: whether to refresh. *)
Definition auth_begin (error_id : Z) (p : Pool) : bool * Pool :=
  (negb (bool_decide (po_last_refresh_error_id p = Some error_id)),
   set_pool (po_db p) (po_credentials p) (po_state p) (Some error_id) (po_rng_state p) (po_cursor p) p).

(** The first credential of an id gets the new secret. *)
Fixpoint set_secret (id secret : string) (l : list Credential) : list Credential :=
  match l with
  | [] => []
  | c :: rest => if bool_decide (cd_id c = id) then {| cd_id := cd_id c; cd_secret := secret |} :: rest
                 else c :: set_secret id secret rest
  end.

Definition warmed (st : CredentialState) : CredentialState := {|
  st_schema_version := st_schema_version st; st_id := st_id st; st_cooldown_until_us := 0;
  st_rate_limit_count := st_rate_limit_count st; st_reset_at_us := 0; st_last_used_us := st_last_used_us st;
  st_usage_count := st_usage_count st; st_reserved_until_us := st_reserved_until_us st |}.

(** The second step, with the outcome of the refresh. *)
Definition auth_finish (id : string) (refreshed : option string) (now : Z) (commits : bool) (p : Pool) : result report unit * Pool :=
  match refreshed with
  | Some secret =>
      let p := set_pool (po_db p) (set_secret id secret (po_credentials p)) (po_state p) (po_last_refresh_error_id p)
                 (po_rng_state p) (po_cursor p) p in
      put_state (warmed (state_of p id)) id commits p
  | None => mark_rate_limited id None now commits p
  end.

(** [mark_auth_failure] with nothing in between; [refresh] is called at most once. *)
Definition mark_auth_failure (id : string) (error_id : Z) (refresh : string -> option string) (now : Z) (commits : bool) (p : Pool)
    : result report unit * Pool :=
  let '(should_refresh, p) := auth_begin error_id p in
  if should_refresh then auth_finish id (refresh id) now commits p else (Ok tt, p).

Definition used (now : Z) (st : CredentialState) : CredentialState := {|
  st_schema_version := st_schema_version st; st_id := st_id st; st_cooldown_until_us := st_cooldown_until_us st;
  st_rate_limit_count := st_rate_limit_count st; st_reset_at_us := st_reset_at_us st; st_last_used_us := now;
  st_usage_count := u64_sat_add (st_usage_count st) 1; st_reserved_until_us := 0 |}.

Definition mark_success (id : string) (now : Z) (commits : bool) (p : Pool) : result report unit * Pool :=
  if negb (has_credential p id) then (Err (not_in_pool p id), p)
  else put_state (used now (state_of p id)) id commits p.

Definition pool_snapshot (p : Pool) : list CredentialState :=
  sort_by (fun a b => bool_decide (String.le (st_id a) (st_id b))) ((fun c => state_of p (cd_id c)) <$> po_credentials p).

(** ** Invariant *)

(** What a restart keeps of a row. *)
Definition durable (st : CredentialState) : Z * Z * Z * Z :=
  (st_cooldown_until_us st, st_rate_limit_count st, st_reset_at_us st, st_usage_count st).

(** Rows carry their key; memory and database agree; the cursor is far from overflow. *)
Record pool_ok (p : Pool) : Prop := {
  ok_nonempty : po_credentials p <> [];
  ok_few : (Z.of_nat (length (po_credentials p)) < 2 ^ 63)%Z;
  ok_cursor : (0 <= po_cursor p)%Z /\ (po_cursor p + Z.of_nat (length (po_credentials p)) < 2 ^ 64)%Z;
  ok_known : forall c, c ∈ po_credentials p -> is_Some (po_state p !! cd_id c);
  ok_rows : forall id row, pd_states (po_db p) !! id = Some (Some row) -> st_id row = id;
  ok_states : forall id st, po_state p !! id = Some st -> st_id st = id;
  ok_sync : forall k, durable <$> po_state p !! k = durable <$> load_states (po_db p) !! k;
}.

Definition db_ok (name : string) (n : nat) (db : PoolDb) : Prop :=
  (Z.of_nat n < 2 ^ 63)%Z /\ (forall id row, pd_states db !! id = Some (Some row) -> st_id row = id) /\
  (0 <= default 0 (pd_cursors db !! name))%Z /\ (default 0 (pd_cursors db !! name) + Z.of_nat n < 2 ^ 64)%Z.

Lemma state_of_id p id : pool_ok p -> st_id (state_of p id) = id.
Proof. intros O. unfold state_of. destruct (po_state p !! id) as [st|] eqn:E; [by apply (ok_states _ O)|done]. Qed.

(** ** Selection *)

Lemma available_elem now p c :
  c ∈ available now p <-> c ∈ po_credentials p /\ is_cooled_down (state_of p (cd_id c)) now = false.
Proof. unfold available. rewrite list_elem_of_filter. tauto. Qed.

Lemma round_robin_spec now p n : forall step,
  (0 <= step)%Z -> (0 <= po_cursor p)%Z -> (po_cursor p + step + Z.of_nat n < 2 ^ 64)%Z -> po_credentials p <> [] ->
  let len := Z.of_nat (length (po_credentials p)) in
  match round_robin_loop now p n step with
  | Some (id, next) => exists k c, (step <= k < step + Z.of_nat n)%Z /\
      po_credentials p !! Z.to_nat ((po_cursor p + k) mod len) = Some c /\ id = cd_id c /\
      is_cooled_down (state_of p id) now = false /\ next = ((po_cursor p + k + 1) mod len)%Z /\
      forall j c', (step <= j < k)%Z -> po_credentials p !! Z.to_nat ((po_cursor p + j) mod len) = Some c' ->
        is_cooled_down (state_of p (cd_id c')) now = true
  | None => forall j c, (step <= j < step + Z.of_nat n)%Z -> po_credentials p !! Z.to_nat ((po_cursor p + j) mod len) = Some c ->
      is_cooled_down (state_of p (cd_id c)) now = true
  end.
Proof.
  intros step Hs Hc Hb Hne len. assert (Hlen : (0 < len)%Z) by (unfold len; destruct (po_credentials p); [done|cbn; lia]).
  revert step Hs Hb. induction n as [|n IH]; intros step Hs Hb; cbn [round_robin_loop]; [intros j c Hj; lia|]. fold len.
  assert (Hw : wrap_u64 (po_cursor p + step) = (po_cursor p + step)%Z) by (unfold wrap_u64; apply Z.mod_small; lia).
  assert (Hw' : wrap_u64 (po_cursor p + step + 1) = (po_cursor p + step + 1)%Z) by (unfold wrap_u64; apply Z.mod_small; lia).
  rewrite Hw, Hw'. pose proof (Z.mod_pos_bound (po_cursor p + step) len Hlen) as Hm.
  destruct (po_credentials p !! Z.to_nat ((po_cursor p + step) mod len)) as [c|] eqn:Ec.
  2: { exfalso. apply lookup_ge_None in Ec. unfold len in *. lia. }
  destruct (is_cooled_down (state_of p (cd_id c)) now) eqn:Ecool; cbn [negb].
  - specialize (IH (step + 1)%Z ltac:(lia) ltac:(lia)). destruct (round_robin_loop now p n (step + 1)) as [[id next]|].
    + destruct IH as (k & c0 & Hk & Hc0 & -> & Hcool & -> & Hbefore). exists k, c0. split_and!; try done; try lia.
      intros j c' Hj Hc'. destruct (decide (j = step)) as [->|]; [congruence|]. apply (Hbefore j c'); [lia|done].
    + intros j c' Hj Hc'. destruct (decide (j = step)) as [->|]; [congruence|]. apply (IH j c'); [lia|done].
  - exists step, c. split_and!; try done; try lia.
Qed.

(** Every index of the list is reached by a step. *)
Lemma round_robin_onto cursor len i : (0 <= cursor)%Z -> (0 <= i < len)%Z -> exists j, (0 <= j < len)%Z /\ ((cursor + j) mod len)%Z = i.
Proof.
  intros Hc Hi. exists ((i - cursor) mod len)%Z. split; [apply Z.mod_pos_bound; lia|].
  rewrite Z.add_mod_idemp_r by lia. replace (cursor + (i - cursor))%Z with i by lia. by apply Z.mod_small.
Qed.

Lemma less_used_fold p l : forall best,
  match foldl (less_used p) best l with
  | Some c => c ∈ l \/ best = Some c
  | None => l = [] /\ best = None
  end.
Proof.
  induction l as [|x l IH]; intros best; cbn [foldl]; [destruct best; [by right|done]|].
  specialize (IH (less_used p best x)). destruct (foldl _ _ _) as [c|].
  - destruct IH as [Hin|Hb]; [left; by right|]. unfold less_used in Hb. destruct best as [b|]; [case_match|]; simplify_eq; [by left; left|by right|by left; left].
  - destruct IH as [_ Hb]. unfold less_used in Hb. by repeat case_match.
Qed.

(** Whether a credential can be handed out by the strategy of the pool. *)
Definition selectable (now : Z) (p : Pool) (c : Credential) : Prop :=
  is_cooled_down (state_of p (cd_id c)) now = false /\
  (po_strategy p = FillFirst -> is_reserved (state_of p (cd_id c)) now = false).

(** What a selection leaves of the pool. *)
Record selected (p p' : Pool) : Prop := {
  sel_credentials : po_credentials p' = po_credentials p;
  sel_durable : forall k, durable <$> po_state p' !! k = durable <$> po_state p !! k;
  sel_ok : pool_ok p';
}.

Lemma selected_same p db last rng cursor :
  pool_ok p -> pd_states db = pd_states (po_db p) -> (0 <= cursor)%Z ->
  (cursor + Z.of_nat (length (po_credentials p)) < 2 ^ 64)%Z ->
  selected p (set_pool db (po_credentials p) (po_state p) last rng cursor p).
Proof.
  intros [? ? ? ? Hr ? Hs] E Hc Hb. constructor; [done|done|]. constructor; try done.
  - cbn. by rewrite E.
  - cbn. intros k. rewrite Hs. unfold load_states. by rewrite E.
Qed.

Lemma durable_of p p' k : durable <$> po_state p' !! k = durable <$> po_state p !! k -> durable (state_of p' k) = durable (state_of p k).
Proof. unfold state_of. destruct (po_state p' !! k), (po_state p !! k); cbn; congruence. Qed.

Lemma reserve_ok now p c :
  pool_ok p -> c ∈ po_credentials p ->
  selected p (with_states (po_db p) (<[cd_id c := reserve now (state_of p (cd_id c))]> (po_state p)) p).
Proof.
  intros O Hc. destruct (ok_known _ O c Hc) as [st0 Hst].
  assert (E : state_of p (cd_id c) = st0) by (unfold state_of; by rewrite Hst). rewrite E.
  assert (Hd : forall k, durable <$> (<[cd_id c := reserve now st0]> (po_state p)) !! k = durable <$> po_state p !! k).
  { intros k. destruct (decide (k = cd_id c)) as [->|]; [by rewrite lookup_insert_eq, Hst|by rewrite lookup_insert_ne]. }
  constructor; [done|exact Hd|]. destruct O as [? ? ? Hk Hr Hs Hy]. constructor; try done; cbn.
  - intros c0 Hc0. apply lookup_insert_is_Some'. right. by apply Hk.
  - intros k st Hl. apply lookup_insert_Some in Hl as [[<- <-]|[_ Hl]]; [|by apply Hs]. cbn. by apply Hs.
  - intros k. rewrite Hd. apply Hy.
Qed.

Lemma select_sound now cc p :
  pool_ok p ->
  match select_credential now cc p with
  | Some (id, p') => (exists c, c ∈ po_credentials p /\ cd_id c = id /\ selectable now p c) /\ selected p p'
  | None => forall c, c ∈ po_credentials p -> ~ selectable now p c
  end.
Proof.
  intros O. unfold select_credential, selectable. destruct (po_strategy p) eqn:Es.
  - unfold select_fill_first. destruct (list_find _ _) as [[i c]|] eqn:E.
    + apply list_find_Some in E as (Hi & Hok & _). apply negb_true_iff, orb_false_iff in Hok as [Hcool Hres].
      apply list_elem_of_lookup_2 in Hi. split; [by exists c|]. by apply reserve_ok.
    + apply list_find_None in E. intros c Hc [Hcool Hres]. eapply Forall_forall in E; [|exact Hc]. apply E.
      rewrite Hcool, (Hres eq_refl). done.
  - unfold select_round_robin. pose proof O as [Hne Hfew [Hc0 Hb] _ _ _ _].
    pose proof (round_robin_spec now p (length (po_credentials p)) 0 ltac:(lia) Hc0 ltac:(lia) Hne) as Hrr. cbn zeta in Hrr.
    destruct (round_robin_loop _ _ _ _) as [[id next]|].
    + destruct Hrr as (k & c & _ & Hc & -> & Hcool & -> & _). split.
      * exists c. split_and!; [by eapply list_elem_of_lookup_2|done|done|done].
      * set (len := Z.of_nat (length (po_credentials p))) in *.
        assert (0 < len)%Z by (unfold len; destruct (po_credentials p); [done|cbn; lia]).
        pose proof (Z.mod_pos_bound (po_cursor p + k + 1) len ltac:(lia)). apply selected_same; [done|by destruct cc|lia|lia].
    + intros c (i & Hi)%list_elem_of_lookup [Hcool _]. apply lookup_lt_Some in Hi as Hlt.
      destruct (round_robin_onto (po_cursor p) (Z.of_nat (length (po_credentials p))) (Z.of_nat i)) as (j & Hj & Ej); [done|lia|].
      rewrite (Hrr j c ltac:(lia)) in Hcool; [done|]. by rewrite Ej, Nat2Z.id.
  - unfold select_random. destruct (available now p) as [|c0 l] eqn:Ea.
    + intros c Hc [Hcool _]. assert (c ∈ available now p) as Hin by (by apply available_elem). rewrite Ea in Hin. by apply elem_of_nil in Hin.
    + destruct ((c0 :: l) !! _) as [c|] eqn:Ec; cbn.
      * split; [|apply selected_same; [done|done|apply O|apply O]].
        apply list_elem_of_lookup_2 in Ec. rewrite <- Ea in Ec. apply available_elem in Ec as [? ?]. by exists c.
      * apply lookup_ge_None in Ec. set (m := Z.of_nat (length (c0 :: l))) in *.
        pose proof (Z.mod_pos_bound (lcg (po_rng_state p)) m ltac:(unfold m; cbn; lia)). unfold m in *. lia.
  - unfold select_least_used. pose proof (less_used_fold p (available now p) None) as Hf.
    destruct (foldl _ _ _) as [c|]; cbn.
    + destruct Hf as [[? ?]%available_elem|]; [|done]. split; [by exists c|by constructor].
    + destruct Hf as [Ea _]. intros c Hc [Hcool _]. assert (c ∈ available now p) as Hin by (by apply available_elem).
      rewrite Ea in Hin. by apply elem_of_nil in Hin.
Qed.

(** C19. A credential is handed out only while it may be used: whatever the strategy, [acquire]
    returns a credential of the pool that is not in cooldown (nor reserved, under fill-first),
    with one event that names it, and changes no cooldown or counter; it fails only when there
    is no such credential, and then changes nothing. *)
Theorem acquire_sound reason now cc p :
  pool_ok p ->
  match acquire_credential reason now cc p with
  | (Ok (cred, event), p') => cred ∈ po_credentials p /\ selectable now p cred /\
      event = rotation_event (cd_id cred) reason (po_strategy p) /\ po_credentials p' = po_credentials p /\
      pool_ok p' /\ forall id, durable (state_of p' id) = durable (state_of p id)
  | (Err _, p') => p' = p /\ forall c, c ∈ po_credentials p -> ~ selectable now p c
  end.
Proof.
  intros O. unfold acquire_credential. pose proof (select_sound now cc p O) as Hs.
  destruct (select_credential now cc p) as [[id p']|]; [|done].
  destruct Hs as [(c & Hc & Hid & Hsel) [Hcr Hdur Hok]]. destruct (list_find _ _) as [[i cred]|] eqn:E.
  - apply list_find_Some in E as (Hi & Heq & _). apply list_elem_of_lookup_2 in Hi. rewrite Hcr in Hi.
    unfold selectable in *. rewrite Hid, <- Heq in Hsel. split_and!; try done; try apply Hsel. intros k. by apply durable_of.
  - apply list_find_None in E. rewrite Hcr in E. by eapply Forall_forall in E; [|exact Hc].
Qed.

(** ** The other operations *)

Lemma put_state_ok st k p : pool_ok p -> st_id st = k -> pool_ok (put_state st k true p).2.
Proof.
  intros [Hne Hf Hc Hk Hr Hs Hy] E. unfold put_state. constructor; try done; cbn.
  - intros c Hin. apply lookup_insert_is_Some'. right. by apply Hk.
  - intros k0 row Hl. rewrite E in Hl. apply lookup_insert_Some in Hl as [[<- [= <-]]|[_ Hl]]; [done|by eapply Hr].
  - intros k0 st0 Hl. apply lookup_insert_Some in Hl as [[<- <-]|[_ Hl]]; [done|by apply Hs].
  - intros k0. unfold load_states in *. cbn. rewrite E, lookup_omap. destruct (decide (k0 = k)) as [->|Hn].
    + by rewrite !lookup_insert_eq.
    + rewrite !lookup_insert_ne by done. rewrite Hy, lookup_omap. done.
Qed.

Lemma mark_rate_limited_ok id reset now p : pool_ok p -> pool_ok (mark_rate_limited id reset now true p).2.
Proof.
  intros O. unfold mark_rate_limited. destruct (has_credential p id); [|done]. cbn [negb].
  apply put_state_ok; [done|]. by apply state_of_id.
Qed.

Lemma mark_success_ok id now p : pool_ok p -> pool_ok (mark_success id now true p).2.
Proof.
  intros O. unfold mark_success. destruct (has_credential p id); [|done]. cbn [negb].
  apply put_state_ok; [done|]. by apply state_of_id.
Qed.

Lemma auth_begin_ok error_id p : pool_ok p -> pool_ok (auth_begin error_id p).2.
Proof. intros [? ? ? ? ? ? ?]. by constructor. Qed.

Lemma set_secret_ids id secret l : cd_id <$> set_secret id secret l = cd_id <$> l.
Proof. induction l as [|c l IH]; [done|]. cbn. case_bool_decide; [done|]. cbn. by rewrite IH. Qed.

Lemma auth_finish_ok id refreshed now p : pool_ok p -> pool_ok (auth_finish id refreshed now true p).2.
Proof.
  intros O. unfold auth_finish. destruct refreshed as [secret|]; [|by apply mark_rate_limited_ok].
  assert (Hlen : length (set_secret id secret (po_credentials p)) = length (po_credentials p)).
  { rewrite <- (length_fmap cd_id), set_secret_ids. by rewrite length_fmap. }
  assert (O' : pool_ok (set_pool (po_db p) (set_secret id secret (po_credentials p)) (po_state p) (po_last_refresh_error_id p)
                 (po_rng_state p) (po_cursor p) p)).
  { destruct O as [Hne Hf Hc Hk Hr Hs Hy]. constructor; try done; cbn; rewrite ?Hlen; try done.
    - intros E. apply Hne. apply length_zero_iff_nil. rewrite <- Hlen, E. done.
    - intros c Hin. apply (list_elem_of_fmap_2 cd_id) in Hin. rewrite set_secret_ids in Hin.
      apply list_elem_of_fmap in Hin as (c0 & -> & Hc0). by apply Hk. }
  apply put_state_ok; [done|]. change (st_id (warmed ?st)) with (st_id st). by apply (state_of_id _ id O').
Qed.

(** A pool cools a credential down until the time the server gave, or for the default time,
    and no other credential. *)
Lemma mark_rate_limited_cools id reset now p :
  has_credential p id = true ->
  let p' := (mark_rate_limited id reset now true p).2 in
  (forall now', is_cooled_down (state_of p' id) now' = (now' <? cooldown_target (po_default_cooldown_us p) reset now)%Z) /\
  (forall k, k <> id -> state_of p' k = state_of p k).
Proof.
  intros Hh p'. unfold p', mark_rate_limited. rewrite Hh. cbn [negb put_state snd]. split.
  - intros now'. unfold is_cooled_down, state_of. cbn. by rewrite lookup_insert_eq.
  - intros k Hk. unfold state_of. cbn. by rewrite lookup_insert_ne.
Qed.

(** ** Opening *)

Lemma backfill_spec l : forall m db,
  let '(m', db') := foldl backfill (m, db) l in
  (forall k, match m !! k with Some st => m' !! k = Some st | None => m' !! k = None \/ m' !! k = Some (new_state k) end) /\
  (forall c, c ∈ l -> is_Some (m' !! cd_id c)) /\ pd_cursors db' = pd_cursors db /\
  (forall k, m !! k = m' !! k /\ pd_states db' !! k = pd_states db !! k \/
             m' !! k = Some (new_state k) /\ pd_states db' !! k = Some (Some (new_state k))).
Proof.
  induction l as [|c l IH]; intros m db; cbn [foldl].
  - split_and!; [intros k; case_match; auto|by intros c ?%elem_of_nil|done|by left].
  - unfold backfill at 2. cbn [fst snd]. destruct (m !! cd_id c) as [st|] eqn:E.
    + specialize (IH m db). destruct (foldl _ _ _) as [m' db']. destruct IH as (H1 & H2 & H3 & H4). split_and!; try done.
      intros c0 [->|Hc0]%elem_of_cons; [|by apply H2]. specialize (H1 (cd_id c)). rewrite E in H1. by rewrite H1.
    + specialize (IH (<[cd_id c := new_state (cd_id c)]> m) (persist_state (new_state (cd_id c)) db)).
      destruct (foldl _ _ _) as [m' db']. destruct IH as (H1 & H2 & H3 & H4).
      assert (Hc : m' !! cd_id c = Some (new_state (cd_id c))).
      { specialize (H1 (cd_id c)). by rewrite lookup_insert_eq in H1. }
      split_and!; [| |done|].
      * intros k. specialize (H1 k). destruct (decide (k = cd_id c)) as [->|]; [rewrite E; by right|by rewrite lookup_insert_ne in H1].
      * intros c0 [->|Hc0]%elem_of_cons; [by rewrite Hc|by apply H2].
      * intros k. destruct (decide (k = cd_id c)) as [->|Hn].
        -- right. split; [done|]. destruct (H4 (cd_id c)) as [[_ ->]|[_ ->]]; [|done]. cbn. by rewrite lookup_insert_eq.
        -- destruct (H4 k) as [[Hm Hd]|[Hm Hd]]; [left|by right]. rewrite lookup_insert_ne in Hm by done. split; [done|].
           rewrite Hd. cbn. by rewrite lookup_insert_ne.
Qed.

Lemma open_pool_spec name creds strategy cd now db p :
  open_pool name creds strategy cd now db = Ok p ->
  po_credentials p = creds /\ creds <> [] /\ po_cursor p = default 0%Z (pd_cursors db !! name) /\
  (forall k, state_of p k = default (new_state k) (load_states db !! k)) /\
  (db_ok name (length creds) db -> pool_ok p).
Proof.
  unfold open_pool. destruct creds as [|c0 l]; [done|]. pose proof (backfill_spec (c0 :: l) (load_states db) db) as Hb.
  destruct (foldl backfill _ _) as [m db']. destruct Hb as (H1 & H2 & H3 & H4). intros [= <-]. cbn. split_and!; try done.
  - intros k. unfold state_of. cbn. specialize (H1 k). destruct (load_states db !! k); [by rewrite H1|]. by destruct H1 as [-> | ->].
  - intros (Hf & Hr & Hc & Hb). constructor; cbn; try done.
    + intros k row Hl. destruct (H4 k) as [[_ E]|[_ E]]; rewrite E in Hl; [by eapply Hr|by simplify_eq].
    + intros k st Hl. destruct (H4 k) as [[E _]|[E _]]; [|by simplify_eq]. rewrite Hl in E. unfold load_states in E.
      rewrite lookup_omap in E. apply bind_Some in E as ([row|] & Hl' & [= ->]). by eapply Hr.
    + intros k. unfold load_states in *. rewrite lookup_omap. destruct (H4 k) as [[E Hd]|[E Hd]]; rewrite Hd.
      * by rewrite <- E, lookup_omap.
      * by rewrite E.
Qed.

(** ** Runs of a pool *)

(** The operations, with writes that commit. *)
Inductive pool_step (p : Pool) : Pool -> Prop :=
  | ps_acquire reason now cc : pool_step p (acquire_credential reason now cc p).2
  | ps_rate_limited id reset now : pool_step p (mark_rate_limited id reset now true p).2
  | ps_auth_begin error_id : pool_step p (auth_begin error_id p).2
  | ps_auth_finish id refreshed now : pool_step p (auth_finish id refreshed now true p).2
  | ps_success id now : pool_step p (mark_success id now true p).2.

Lemma pool_step_ok p p' : pool_ok p -> pool_step p p' -> pool_ok p'.
Proof.
  intros O [reason now cc| | | |].
  - unfold acquire_credential. pose proof (select_sound now cc p O) as Hs.
    destruct (select_credential now cc p) as [[id p1]|]; [|done]. destruct Hs as [_ [_ _ Hok]]. by destruct (list_find _ _) as [[]|].
  - by apply mark_rate_limited_ok.
  - by apply auth_begin_ok.
  - by apply auth_finish_ok.
  - by apply mark_success_ok.
Qed.

(** C29. Cooldowns survive a restart.  After any sequence of operations on an opened pool whose
    writes commit, opening the database again, under any strategy and at any time, gives every
    credential the cooldown, the reset time and the counters it had. *)
Theorem cooldowns_survive name creds strategy cd now db p0 p strategy' cd' now' p2 :
  db_ok name (length creds) db -> open_pool name creds strategy cd now db = Ok p0 -> rtc pool_step p0 p ->
  open_pool name creds strategy' cd' now' (po_db p) = Ok p2 ->
  forall k, durable (state_of p2 k) = durable (state_of p k) /\
            forall t, is_cooled_down (state_of p2 k) t = is_cooled_down (state_of p k) t.
Proof.
  intros Hdb H0 Hrun H2 k. apply open_pool_spec in H0 as (_ & _ & _ & _ & Hok). specialize (Hok Hdb).
  assert (O : pool_ok p) by (clear -Hok Hrun; induction Hrun; [done|eauto using pool_step_ok]).
  apply open_pool_spec in H2 as (_ & _ & _ & Hst & _). specialize (Hst k). pose proof (ok_sync _ O k) as Hy.
  assert (E : durable (state_of p2 k) = durable (state_of p k)).
  { rewrite Hst. unfold state_of. destruct (po_state p !! k), (load_states (po_db p) !! k); cbn in *; congruence. }
  split; [done|]. intros t. unfold is_cooled_down. injection E as E _ _ _. by rewrite E.
Qed.

(** ** Fairness *)

(** The ids successive acquisitions hand out. *)
Fixpoint acquired (reason : string) (nows : list Z) (p : Pool) : list string :=
  match nows with
  | [] => []
  | now :: rest =>
      match acquire_credential reason now true p with
      | (Ok (c, _), p') => cd_id c :: acquired reason rest p'
      | (Err _, _) => []
      end
  end.

(** With nothing cooled down, the credential under the cursor is taken and the cursor moves on. *)
Lemma round_robin_next reason now p :
  pool_ok p -> po_strategy p = RoundRobin -> (forall c, c ∈ po_credentials p -> is_cooled_down (state_of p (cd_id c)) now = false) ->
  let len := Z.of_nat (length (po_credentials p)) in
  exists c0 c p', po_credentials p !! Z.to_nat (po_cursor p mod len) = Some c0 /\ cd_id c = cd_id c0 /\
    acquire_credential reason now true p = (Ok (c, rotation_event (cd_id c) reason RoundRobin), p') /\
    po_credentials p' = po_credentials p /\ po_state p' = po_state p /\ po_strategy p' = RoundRobin /\
    po_cursor p' = ((po_cursor p + 1) mod len)%Z /\ pool_ok p'.
Proof.
  intros O Hs Hcool len. pose proof O as [Hne _ [Hc0 Hb] _ _ _ _].
  pose proof (round_robin_spec now p (length (po_credentials p)) 0 ltac:(lia) Hc0 ltac:(lia) Hne) as Hrr. cbn zeta in Hrr. fold len in Hrr.
  assert (Hlen : (0 < len)%Z) by (unfold len; destruct (po_credentials p); [done|cbn; lia]).
  pose proof (Z.mod_pos_bound (po_cursor p) len Hlen) as Hm.
  destruct (lookup_lt_is_Some_2 (po_credentials p) (Z.to_nat (po_cursor p mod len))) as [c0 Hc]; [unfold len in *; lia|].
  pose proof (select_sound now true p O) as Hsel. unfold acquire_credential, select_credential in *. rewrite Hs in *.
  unfold select_round_robin in *. destruct (round_robin_loop _ _ _ _) as [[id next]|].
  - destruct Hrr as (k & c & Hk & Hck & -> & _ & -> & Hbefore).
    assert (k = 0)%Z as ->.
    { destruct (decide (k = 0)%Z); [done|]. specialize (Hbefore 0%Z c0 ltac:(lia)). rewrite Z.add_0_r in Hbefore.
      rewrite (Hcool c0 (list_elem_of_lookup_2 _ _ _ Hc)) in Hbefore. by specialize (Hbefore Hc). }
    rewrite Z.add_0_r in *. destruct Hsel as [_ [_ _ Hok]]. cbn [po_credentials set_pool].
    destruct (list_find _ (po_credentials p)) as [[i cred]|] eqn:E.
    + apply list_find_Some in E as (_ & Heq & _). exists c0, cred. eexists. split_and!; try done. congruence.
    + apply list_find_None in E. eapply Forall_forall in E; [|eapply list_elem_of_lookup_2; exact Hck]. done.
  - exfalso. specialize (Hrr 0%Z c0 ltac:(unfold len in *; lia)). rewrite Z.add_0_r in Hrr.
    rewrite (Hcool c0 (list_elem_of_lookup_2 _ _ _ Hc)) in Hrr. by specialize (Hrr Hc).
Qed.

(** The rotation of a list. *)
Definition rotated (ids : list string) (cursor : Z) : list string :=
  let c := Z.to_nat (cursor mod Z.of_nat (length ids)) in drop c ids ++ take c ids.

Lemma rotated_lookup (ids : list string) cursor k : 
  (0 <= cursor)%Z -> k < length ids ->
  rotated ids cursor !! k = ids !! Z.to_nat ((cursor + Z.of_nat k) mod Z.of_nat (length ids)).
Proof.
  intros Hc Hk. unfold rotated. set (n := Z.of_nat (length ids)). pose proof (Z.mod_pos_bound cursor n ltac:(unfold n; lia)) as Hm.
  set (c := (cursor mod n)%Z) in *. rewrite <- Z.add_mod_idemp_l by (unfold n; lia). fold c.
  destruct (decide (Z.to_nat c + k < length ids)) as [Hlt|Hge].
  - rewrite lookup_app_l by (rewrite length_drop; unfold n in *; lia). rewrite lookup_drop.
    rewrite Z.mod_small by (unfold n in *; lia). f_equal. lia.
  - rewrite lookup_app_r by (rewrite length_drop; unfold n in *; lia). rewrite length_drop.
    replace ((c + Z.of_nat k) mod n)%Z with (c + Z.of_nat k - n)%Z.
    + rewrite lookup_take_lt by (unfold n in *; lia). f_equal. unfold n in *. lia.
    + rewrite <- (Z.mod_small (c + Z.of_nat k - n) n) by (unfold n in *; lia).
      rewrite <- (Z.mod_add (c + Z.of_nat k - n) 1 n) by (unfold n in *; lia). f_equal. lia.
Qed.

Lemma acquired_rotation reason nows : forall p,
  pool_ok p -> po_strategy p = RoundRobin -> length nows <= length (po_credentials p) ->
  (forall now c, now ∈ nows -> c ∈ po_credentials p -> is_cooled_down (state_of p (cd_id c)) now = false) ->
  acquired reason nows p = take (length nows) (rotated (cd_id <$> po_credentials p) (po_cursor p)).
Proof.
  assert (Hgo : forall nows p, pool_ok p -> po_strategy p = RoundRobin ->
    (forall now c, now ∈ nows -> c ∈ po_credentials p -> is_cooled_down (state_of p (cd_id c)) now = false) ->
    length (acquired reason nows p) = length nows /\
    forall k, k < length nows -> acquired reason nows p !! k =
      (cd_id <$> po_credentials p) !! Z.to_nat ((po_cursor p + Z.of_nat k) mod Z.of_nat (length (po_credentials p)))).
  { clear nows. induction nows as [|now nows IH]; intros p O Hs Hcool; cbn [acquired]; [split; [done|cbn; lia]|].
    destruct (round_robin_next reason now p O Hs) as (c0 & c & p' & Hc & Hid & -> & Hcr & Hst & Hs' & Hcur & O').
    { intros c Hc. apply Hcool; [by left|done]. }
    destruct (IH p' O' Hs') as [Hlen Hk].
    { intros now' c' Hn. rewrite Hcr. unfold state_of. rewrite Hst. intros Hc'. apply Hcool; [by right|done]. }
    cbn [length]. split; [by rewrite Hlen|]. intros [|k] Hlt.
    - cbn. rewrite Z.add_0_r, list_lookup_fmap, Hc. cbn. by rewrite Hid.
    - cbn [lookup list_lookup]. rewrite Hk by lia. rewrite Hcr, Hcur, Z.add_mod_idemp_l. 
      + do 3 f_equal. lia.
      + destruct O as [Hne _ _ _ _ _ _]. destruct (po_credentials p); [done|cbn; lia]. }
  intros p O Hs Hle Hcool. destruct (Hgo nows p O Hs Hcool) as [Hlen Hk]. apply list_eq. intros k.
  destruct (decide (k < length nows)) as [Hlt|Hge].
  - rewrite Hk, lookup_take_lt by done. rewrite rotated_lookup; [by rewrite length_fmap|apply O|rewrite length_fmap; lia].
  - rewrite !lookup_ge_None_2; [done|rewrite length_take; lia|lia].
Qed.

(** Round robin is fair: while no credential is cooled down, as many acquisitions as there
    are credentials hand out each of them once, in their order from the cursor on. *)
Theorem round_robin_fair reason nows p :
  pool_ok p -> po_strategy p = RoundRobin -> length nows = length (po_credentials p) ->
  (forall now c, now ∈ nows -> c ∈ po_credentials p -> is_cooled_down (state_of p (cd_id c)) now = false) ->
  acquired reason nows p = rotated (cd_id <$> po_credentials p) (po_cursor p) /\
  acquired reason nows p ≡ₚ cd_id <$> po_credentials p.
Proof.
  intros O Hs Hlen Hcool. rewrite (acquired_rotation reason nows p O Hs ltac:(lia) Hcool).
  set (ids := cd_id <$> po_credentials p). assert (Hl : length nows = length (rotated ids (po_cursor p))).
  { unfold rotated. rewrite length_app, length_drop, length_take, Hlen. unfold ids. rewrite length_fmap.
    assert (0 < length (po_credentials p)) by (destruct O as [Hne _ _ _ _ _ _]; destruct (po_credentials p); [done|cbn; lia]).
    pose proof (Z.mod_pos_bound (po_cursor p) (Z.of_nat (length (po_credentials p))) ltac:(lia)). lia. }
  rewrite Hl, firstn_all. split; [done|]. unfold rotated. rewrite Permutation_app_comm. by rewrite take_drop.
Qed.

(** ** Samples *)

Definition sample_creds : list Credential :=
  [{| cd_id := "k0"; cd_secret := "s0" |}; {| cd_id := "k1"; cd_secret := "s1" |}; {| cd_id := "k2"; cd_secret := "s2" |}].

Definition empty_db : PoolDb := {| pd_states := ∅; pd_cursors := ∅ |}.

Definition pool_of (creds : list Credential) (strategy : RotationStrategy) : Pool :=
  match open_pool "pool" creds strategy DEFAULT_COOLDOWN_US 0 empty_db with
  | Ok p => p
  | Err _ => {| po_name := ""; po_strategy := strategy; po_default_cooldown_us := 0; po_db := empty_db; po_credentials := [];
                po_state := ∅; po_last_refresh_error_id := None; po_rng_state := 0; po_cursor := 0 |}
  end.

Lemma empty_db_ok n : (Z.of_nat n < 2 ^ 63)%Z -> db_ok "pool" n empty_db.
Proof.
  intros Hn. split_and!; [done|by intros k row ?|done|].
  change (default 0%Z (pd_cursors empty_db !! "pool")) with 0%Z. lia.
Qed.

Lemma pool_of_ok strategy : pool_ok (pool_of sample_creds strategy).
Proof.
  assert (Hok : open_pool "pool" sample_creds strategy DEFAULT_COOLDOWN_US 0 empty_db = Ok (pool_of sample_creds strategy)) by done.
  apply open_pool_spec in Hok as (_ & _ & _ & _ & Hok). apply Hok, empty_db_ok. done.
Qed.

(** The second credential is rate limited: fill-first hands out the first, then the third. *)
Definition cooled_pool : Pool := (mark_rate_limited "k1" (Some 1000%Z) 10 true (pool_of sample_creds FillFirst)).2.

Lemma acquire_sound_witness :
  exists cred event p', acquire_credential "initial_acquire" 20 true cooled_pool = (Ok (cred, event), p') /\
    cred ∈ po_credentials cooled_pool /\ selectable 20 cooled_pool cred.
Proof.
  assert (O : pool_ok cooled_pool) by (apply mark_rate_limited_ok, pool_of_ok).
  pose proof (acquire_sound "initial_acquire" 20 true cooled_pool O) as Ha.
  destruct (acquire_credential "initial_acquire" 20 true cooled_pool) as [[[cred event]|e] p'] eqn:E.
  - exists cred, event, p'. split; [reflexivity|]. split; apply Ha.
  - assert ((acquire_credential "initial_acquire" 20 true cooled_pool).1 <> Err e) as Hn by (vm_compute; discriminate).
    rewrite E in Hn. destruct Hn. reflexivity.
Defined.

Lemma cooldowns_survive_witness :
  durable (state_of (match open_pool "pool" sample_creds RoundRobin DEFAULT_COOLDOWN_US 500 (po_db cooled_pool) with
                               | Ok p => p | Err _ => cooled_pool end) "k1") = durable (state_of cooled_pool "k1").
Proof.
  destruct (open_pool "pool" sample_creds RoundRobin DEFAULT_COOLDOWN_US 500 (po_db cooled_pool)) as [p2|e] eqn:E; [|reflexivity].
  apply (cooldowns_survive "pool" sample_creds FillFirst DEFAULT_COOLDOWN_US 0 empty_db (pool_of sample_creds FillFirst) cooled_pool
    RoundRobin DEFAULT_COOLDOWN_US 500 p2).
  - apply empty_db_ok. vm_compute. reflexivity.
  - reflexivity.
  - eapply rtc_once. apply ps_rate_limited.
  - exact E.
Defined.

Lemma round_robin_fair_witness :
  acquired "initial_acquire" [1; 2; 3]%Z (pool_of sample_creds RoundRobin) ≡ₚ ["k0"; "k1"; "k2"].
Proof.
  apply (round_robin_fair "initial_acquire" [1; 2; 3]%Z (pool_of sample_creds RoundRobin)).
  - apply pool_of_ok.
  - reflexivity.
  - reflexivity.
  - intros now c Hn Hc. change (po_credentials (pool_of sample_creds RoundRobin)) with sample_creds in Hc. unfold sample_creds in Hc.
    repeat (apply elem_of_cons in Hc as [->|Hc];
      [repeat (apply elem_of_cons in Hn as [->|Hn]; [vm_compute; reflexivity|]); by apply elem_of_nil in Hn|]).
    by apply elem_of_nil in Hc.
Defined.

(** The pool remembers the last error only: an error reported again after another one is
    refreshed a second time. *)
Lemma refresh_repeats :
  let p1 := (auth_begin 1 (pool_of sample_creds RoundRobin)).2 in
  let p2 := (auth_begin 2 p1).2 in
  (auth_begin 1 p1).1 = false /\ (auth_begin 1 p2).1 = true.
Proof. by vm_compute. Qed.

(** Under fill-first a request that comes while every credential is reserved is refused, with
    the message that all credentials are cooled down although none is. *)
Lemma burst_refused :
  let p := pool_of [{| cd_id := "k"; cd_secret := "s" |}] FillFirst in
  let p' := (acquire_credential "initial_acquire" 10 true p).2 in
  (acquire_credential "initial_acquire" 20 true p').1 = Err ["all credentials in pool `pool` are cooled down"] /\
  is_cooled_down (state_of p' "k") 20 = false.
Proof. by vm_compute. Qed.
